(* ===== verification/_CoqProject ===== *)
-Q . S2P
Prelude.v
RefCounts.v
Tls.v
Adbc.v
WireError.v
Options.v
Arrow.v
Framing.v
Envelope.v
Reference.v
ReferenceIpc.v
EnvelopeTheorems.v
Config.v
Backend.v
ManagerBackend.v
ReferenceBackend.v
ResultCursor.v
BindUpload.v
Partitions.v
Session.v
SessionSteps.v
WorkerThread.v
Manager.v
LeaseTable.v
ManagerSteps.v
ManagerRefinement.v
Rpc.v
Service.v
ServiceSteps.v
ReferenceRpc.v
ReferenceService.v
Streaming.v
ServiceTheorems.v
ClientOptions.v
Client.v
ClientTheorems.v
ReaderThread.v
ClientHandles.v
EndToEnd.v
BindEndToEnd.v
OpenEndToEnd.v
SessionEndToEnd.v
StatementEndToEnd.v
PartitionEndToEnd.v
HandlesEndToEnd.v
ByteEndToEnd.v
InfoReader.v
InfoEndToEnd.v
Pool.v
PoolSteps.v
Dialing.v
Startup.v
ServerMain.v
