(* ===== verification/Prelude.v ===== *)
(** * Grainlift: a verification library (root file)

    Grainlift proxies ADBC, the Arrow database API.  An application loads the
    driver [adbc-driver-grainlift], which turns every ADBC call into a VGI RPC
    request; [grainlift-server] keeps a session per connection, runs the calls on
    a native driver and streams the results back; [grainlift-protocol] is the wire
    format both share.  The sources are under src/crates/; this library models all
    three crates and proves, from the wire format up, that an application sees what
    the native driver did and that callers of one server cannot disturb each other.

    ** The parts

    The wire format (grainlift-protocol/src/lib.rs, requests.rs, responses.rs):
    - Adbc: the vocabulary of the adbc_core crate.
    - WireError: [ProtocolError], [WireAdbcError] and its conversions, option
      values in configuration.
    - Options: the named requests and responses as records with their [validate].
    - Arrow: constants, method names, fixed schemas, single-row accessors.
    - Framing: [validate_ipc], the walk over the frames of a nested IPC stream.
    - Envelope, EnvelopeTheorems: the bounded sink, the batch codec, the memory a
      batch pins, typed records, requests, responses and bind turns.

    The server (grainlift-server/src):
    - Config (config.rs, and the limits and allowlist of session.rs): every record,
      default and check of the configuration, and loading it.
    - Backend, ManagerBackend (backend.rs): the traits as the class [Backend], the
      option policy, and the driver manager backend as an instance of that class.
    - ResultCursor, Session, SessionSteps (session.rs): a result read by sequence
      number; a session and the worker thread that runs its jobs; its guarantees.
    - WorkerThread (session.rs, [SessionWorker]): the worker thread and its callers
      in any interleaving, linearized to the [call] of Session.
    - BindUpload (bind_upload.rs): the actor that stages a bind stream in a file.
    - Partitions (partitions.rs): signed partition descriptors.
    - Manager, ManagerSteps (session.rs): registry, admission, leases, shutdown,
      over a heap of sessions with strong reference counts.
    - LeaseTable, ManagerRefinement: what the manager promises, as a table of
      leases without heap, references or locks, and the simulation that shows the
      manager implements it.
    - Rpc, Service, ServiceSteps, ServiceTheorems, Streaming (service.rs): request
      checks, every registered method, the two stream states.
    - Startup (main.rs and the constructors of session.rs): the manager built from
      the configuration, the listeners, identities, reaper and shutdown.
    - ServerMain (main.rs): the whole process, from the command line to its exit.

    The driver (adbc-driver-grainlift/src):
    - ClientOptions, Client, ClientTheorems, InfoReader (lib.rs): options and
      endpoints; requests, calls, the bind exchange and the readers; GetInfo.
    - ReaderThread (lib.rs, [ByteReader]): the thread behind a byte-stream reader,
      its channels and its owner in any interleaving, as a refinement of the
      reader of Client.
    - Pool, PoolSteps (iroh_pool.rs): the process-wide pool of connections.
    - Dialing (lib.rs): how an endpoint becomes a connection.
    - ClientHandles (lib.rs): connections, statements, readers and cancel handles
      that share one remote connection, and their drops.

    Both together, the driver over a transport that is the server's method table
    ([loopback]):
    - EndToEnd, BindEndToEnd: queries, transactions and binds.
    - OpenEndToEnd: opening a connection, against the lease table.
    - SessionEndToEnd, StatementEndToEnd: a session whose contents are known; every
      call on a statement; a whole application, from the open to the last batch.
    - PartitionEndToEnd: catalog calls and partitions.
    - HandlesEndToEnd: what the drops of an application leave at the server.
    - InfoEndToEnd: GetInfo, from the requested codes to the merged rows.
    - ByteEndToEnd: the same over a byte stream, whose server keeps the cursors of
      its streams: the two transports agree, and a query over it is the query.

    Tls holds what server and driver share about certificate files, RefCounts the
    heap of counted references behind pool and handles.  Reference,
    ReferenceIpc, ReferenceBackend, ReferenceRpc and ReferenceService are concrete
    instances of the interfaces; the examples and witnesses compute with them.

    ** State and operations

    [result] is Rust's [Result] and [M S E A] a method with [&mut self] that
    returns one: an early return keeps the changes made before it.  A field behind
    a [Mutex] is a [Mutex] whose lock fails when it is poisoned.  An [Arc] that is
    observed (a session, a pool slot, a connection) is a location of a heap with
    its strong count.  Integers are [Z] kept in range by the operations that
    produce them ([usize] of 64 bits).  Strings are bytes in UTF-8.

    Code that other threads can interleave with is cut at its locks: every locked
    section is a definition, the function is their composition, and a step
    relation ([session_step], [mstep], [pool_step]) has a rule per section; an
    operation of a session is a [program] of [section]s, with what each section
    [performs] stated on the tables of the session; the handles of an application
    have one rule per operation ([app_step]).  The two
    threads that talk over channels have a rule per send, receive and operation
    ([WorkerThread.worker_step], [ReaderThread.thread_step]), panics included;
    [Session.call] and the reader of Client are what remains of them when a call is
    taken in one piece, which is what the rest of the library does.  (A dropped
    byte reader cancels its stream from its thread, at some later time; Client
    cancels at the drop, one of these schedules.)
    Refinement theorems ([session_operations_are_steps], [open_is_steps],
    [requests_are_steps], [open_client_returns]) show that the functions are
    sequences of these steps, so that the invariants proved by induction over the
    steps hold under every interleaving.  A job that outlives its deadline is a
    step of its own, taken at any later time.  Where it matters what a run shows,
    steps carry labels and runs are [traces] over lists of them: the events of a
    byte reader (its calls, answers, ticks and cancel) are the events of the reader
    it implements, and the sections of a pool run are counted per call.

    ** Interfaces

    Code outside the repository is a class whose fields are what the source calls
    and whose laws are documented behaviour: [AdbcCore], [RustFmt], [AdbcOptions]
    (adbc_core, formatting), [Base64], [Hmac], [Json], [ArrowCrate], [StructCrate],
    [IpcCrate], [VgiArrow], [WireRecords], [InfoArrow] (Arrow, serialization),
    [FileSystem], [DriverManager], [ManagedAdbc], [VgiRpc], [PeerAuth],
    [RpcTransport], [UrlCrate], [IrohCrate], [Dialer], [TlsFiles], [MutualTls],
    [IrohListen], [TextFiles] and [Toml].  The record [Host] holds what a process
    is told by clap, tracing and the operating system.  [Backend] is the repository's own trait: the server is verified
    against the class, [DriverManagerBackend] discharges it.  Every class
    with laws has a reference instance.

    ** What the theorems show

    - Wire format: [validate_ipc] decides the grammar of frames; decoding returns
      exactly the one batch of a payload within its limits; requests, errors and
      descriptors are read back as they were written.
    - Sessions and manager: quotas, the accounting of opens and the reference
      counts are invariant; no request touches a session of another principal,
      except that an open reaps sessions that have expired and that nothing uses; a
      session in use is never reaped; shutdown is final; the calls of a session are
      linearizable, whatever its worker thread and their deadlines do; and every
      execution of the manager is an execution of the lease table, call by call and
      answer by answer.
    - Service: every request is a sequence of atomic steps and gives back what it
      took; refused requests have no effect; a result stream is delivered
      completely and in order.
    - Driver: readers deliver everything; binds stay within their limits; native
      errors come back unchanged; forwarded options are exact; connections are made
      as the endpoint says, with both sides authenticated under TLS; the thread of a
      byte reader is that reader, its calls return and its thread ends.
    - Pool: one connection per slot, closed with its last user, and every call
      returns within its own bound.
    - Handles: a connection lives exactly as long as something uses it and is
      closed once, last.
    - Process: a configuration that is not valid starts nothing; a validated one is
      enforced in every reachable state; shutdown detaches every session and leaves
      no listener but a TCP thread that outlived the grace period, which [abort]
      cannot stop; the process ends with nothing running, once that thread returns.
    - End to end: opening a connection is opening a lease; statements, queries,
      binds, transactions, catalog calls, info and partitions through driver and server
      are the native ones, alone and composed into a whole application; a token is
      good for its owner only; what the application drops is gone; and HTTP and
      byte streams make no difference.

    ** Fuel

    The walk of [validate_ipc] has fuel for one round per byte, and every frame
    consumes at least one ([validate_ipc_terminates]).  [info_loop] has one round
    per item of the server's reader and one more.  A call of [open_client] has
    fifteen sections, its weight in PoolSteps bounds them.  [drain] and the
    streaming theorems follow the list of turns a client makes.  A byte reader's
    owner and thread rest after at most fifty steps of their own.

    ** Not modelled

    - How clap parses a command line and serde deserialises TOML: [Host] and [Toml]
      give their results.  The HTTP router, OpenTelemetry hooks and log lines:
      libraries, without influence on the state modelled here.
    - Sockets, TLS, Iroh and the framing of the RPC crate: interfaces.
    - What a native driver has changed when it panics: WorkerThread leaves the state
      arbitrary then, and a poisoned lock is a state of the model.  Memory exhaustion.
    - Claims of an authenticated caller other than domain and principal, which the
      repository sets and never reads.
    - The repository's tests, packaging and validation scripts. *)

From stdpp Require Export base option list strings gmap fin_maps pretty sorting.
From Stdlib Require Export ZArith Lia.
From Stdlib Require Strings.Byte.

#[global] Open Scope Z_scope.
#[global] Set Default Goal Selector "!".
#[global] Set Warnings "-clear-no-such-hyp,-register-all".

(** ** Rust's [Result] and the error monad *)

Inductive result (E A : Type) : Type :=
| Ok (a : A)
| Err (e : E).
Arguments Ok {E A} _.
Arguments Err {E A} _.

#[global] Instance result_ret E : MRet (result E) := λ A a, Ok a.
#[global] Instance result_bind E : MBind (result E) := λ A B k r,
  match r with Ok a => k a | Err e => Err e end.
#[global] Instance result_fmap E : FMap (result E) := λ A B f r,
  match r with Ok a => Ok (f a) | Err e => Err e end.

Definition map_err {E F A} (f : E → F) (r : result E A) : result F A :=
  match r with Ok a => Ok a | Err e => Err (f e) end.

Definition ok_or {E A} (o : option A) (e : E) : result E A :=
  match o with Some a => Ok a | None => Err e end.

Definition is_ok {E A} (r : result E A) : bool :=
  match r with Ok _ => true | Err _ => false end.

Definition result_ok {E A} (r : result E A) : option A :=
  match r with Ok a => Some a | Err _ => None end.

(** [Iterator::collect::<Result<Vec<_>, _>>]: the first error wins. *)
Fixpoint collect_results {E A B} (f : A → result E B) (l : list A) : result E (list B) :=
  match l with
  | [] => Ok []
  | a :: l => b ← f a; bs ← collect_results f l; Ok (b :: bs)
  end.

(** A [for] loop whose body may [return Err(..)]. *)
Fixpoint for_each {E A} (f : A → result E unit) (l : list A) : result E unit :=
  match l with
  | [] => Ok tt
  | a :: l => f a;; for_each f l
  end.

(** ** State passing with errors

    A method with [&mut self] returning [Result<A, E>] is a function from the
    state before the call to the result and the state after it; an early
    return keeps the mutations made before it. *)

Definition M (S E A : Type) : Type := S → result E A * S.

#[global] Instance M_ret S E : MRet (M S E) := λ A a s, (Ok a, s).
#[global] Instance M_bind S E : MBind (M S E) := λ A B k m s,
  match m s with
  | (Ok a, s') => k a s'
  | (Err e, s') => (Err e, s')
  end.
#[global] Typeclasses Opaque M.

Definition mlift {S E A} (r : result E A) : M S E A := λ s, (r, s).
Definition mthrow {S E A} (e : E) : M S E A := λ s, (Err e, s).
Definition mgets {S E A} (f : S → A) : M S E A := λ s, (Ok (f s), s).
Definition mmodify {S E} (f : S → S) : M S E unit := λ s, (Ok tt, f s).
(** [Result::map_err] on a stateful computation. *)
Definition mmap_err {S E F A} (f : E → F) (m : M S E A) : M S F A := λ s,
  let '(r, s) := m s in (map_err f r, s).
(** A step written on the state itself. *)
Definition mprim {S E A} (f : S → result E A * S) : M S E A := f.

(** ** Runs of a transition system

    A run is the list of its labels.  A label [Some e] is an event that can be
    seen from outside, [None] is a silent step. *)

Section Traces.
Context {S L : Type} (step : S → L → S → Prop).

Inductive traces : S → list L → S → Prop :=
| traces_nil s : traces s [] s
| traces_cons s l s1 ls s' : step s l s1 → traces s1 ls s' → traces s (l :: ls) s'.

Lemma traces_once s l s' : step s l s' → traces s [l] s'.
Proof. intros Hs. eapply traces_cons; [exact Hs|apply traces_nil]. Qed.

Lemma traces_app s ls s1 ls' s' : traces s ls s1 → traces s1 ls' s' → traces s (ls ++ ls') s'.
Proof. induction 1 as [|s l s2 ls s1 Hs _ IH]; intros Hr; [exact Hr|]. eapply traces_cons; [exact Hs|by apply IH]. Qed.
End Traces.

Section Weakly.
Context {S E : Type} (step : S → option E → S → Prop).

(** A run with exactly these events. *)
Definition weakly (s : S) (es : list E) (s' : S) : Prop := ∃ ls, traces step s ls s' ∧ omap id ls = es.

Lemma weakly_refl s : weakly s [] s.
Proof. exists []. split; [apply traces_nil|done]. Qed.

Lemma weakly_step s l s1 es s' :
  step s l s1 → weakly s1 es s' → weakly s (option_list l ++ es) s'.
Proof. intros Hs (ls & Hr & <-). exists (l :: ls). split; [by eapply traces_cons|]. by destruct l. Qed.

Lemma weakly_once s l s' : step s l s' → weakly s (option_list l) s'.
Proof. intros Hs. exists [l]. split; [by apply traces_once|]. by destruct l. Qed.

Lemma weakly_trans s es s1 es' s' : weakly s es s1 → weakly s1 es' s' → weakly s (es ++ es') s'.
Proof.
  intros (ls & Hr & <-) (ls' & Hr' & <-). exists (ls ++ ls'). split; [by eapply traces_app|]. apply omap_app.
Qed.
End Weakly.

(** [Mutex<T>]: [lock] fails exactly when a thread panicked while holding it. *)
Record Mutex (A : Type) : Type := mkMutex { mx_poisoned : bool; mx_data : A }.
Arguments mkMutex {A} _ _.
Arguments mx_poisoned {A} _.
Arguments mx_data {A} _.

Definition Mutex_new {A} (a : A) : Mutex A := mkMutex false a.
Definition lock {E A} (m : Mutex A) (poisoned : E) : result E A :=
  if mx_poisoned m then Err poisoned else Ok (mx_data m).
Definition mx_set {A} (m : Mutex A) (a : A) : Mutex A := mkMutex (mx_poisoned m) a.

(** ** Machine integers

    Rust's integers are [Z]s kept in range by the operations that produce
    them; [usize] is 64 bits wide, as on every platform the server ships for. *)

Definition usize_bits : Z := 64.
Definition usize_max : Z := 2 ^ usize_bits - 1.
Definition i64_min : Z := - 2 ^ 63.
Definition i64_max : Z := 2 ^ 63 - 1.
Definition i32_min : Z := - 2 ^ 31.
Definition i32_max : Z := 2 ^ 31 - 1.
Definition u32_max : Z := 2 ^ 32 - 1.

Definition in_usize (z : Z) : Prop := 0 ≤ z ≤ usize_max.
Definition in_i64 (z : Z) : Prop := i64_min ≤ z ≤ i64_max.

Definition in_range (lo hi z : Z) : bool := (lo <=? z) && (z <=? hi).

Definition usize_try_from (z : Z) : option Z := if in_range 0 usize_max z then Some z else None.
Definition i64_try_from (z : Z) : option Z := if in_range i64_min i64_max z then Some z else None.
Definition u32_try_from (z : Z) : option Z := if in_range 0 u32_max z then Some z else None.

Definition usize_checked_add (a b : Z) : option Z := usize_try_from (a + b).
Definition usize_checked_sub (a b : Z) : option Z := usize_try_from (a - b).
Definition i64_checked_add (a b : Z) : option Z := i64_try_from (a + b).
Definition usize_saturating_add (a b : Z) : Z := Z.min usize_max (a + b).
Definition usize_saturating_sub (a b : Z) : Z := Z.max 0 (a - b).

(** [as] casts truncate to the target width. *)
Definition wrap_unsigned (w z : Z) : Z := z mod 2 ^ w.
Definition wrap_signed (w z : Z) : Z := (z + 2 ^ (w - 1)) mod 2 ^ w - 2 ^ (w - 1).

(** ** Bytes and strings

    A [&str] is its UTF-8 bytes, a Rocq [string]; a [Vec<u8>] is a list of bytes. *)

Abbreviation byte := Byte.byte.
Abbreviation bytes := (list Byte.byte).

#[global] Instance byte_eq_decision : EqDecision byte := Byte.byte_eq_dec.

Definition byte_val (b : byte) : Z := Z.of_N (Byte.to_N b).
Definition as_bytes (s : string) : bytes := String.list_byte_of_string s.
Definition from_bytes (b : bytes) : string := String.string_of_list_byte b.
Definition len {A} (l : list A) : Z := Z.of_nat (length l).
Definition str_len (s : string) : Z := Z.of_nat (String.length s).

Definition nul : Ascii.ascii := Ascii.zero.

(** [s.contains('\0')]. *)
Fixpoint contains_nul (s : string) : bool :=
  match s with
  | EmptyString => false
  | String c s => bool_decide (c = nul) || contains_nul s
  end.

(** [s.split_once('\0')]: split at the first NUL. *)
Fixpoint split_once_nul (s : string) : option (string * string) :=
  match s with
  | EmptyString => None
  | String c s =>
      if bool_decide (c = nul) then Some ("", s)%string
      else match split_once_nul s with
           | Some (a, b) => Some (String c a, b)
           | None => None
           end
  end.

(** [s.strip_prefix(p)] and [s.starts_with(p)]. *)
Fixpoint strip_prefix (p s : string) : option string :=
  match p, s with
  | EmptyString, _ => Some s
  | String a p, String b s => if bool_decide (a = b) then strip_prefix p s else None
  | String _ _, EmptyString => None
  end.

Definition starts_with (p s : string) : bool := bool_decide (is_Some (strip_prefix p s)).

(** [s.trim().is_empty()]: every character is Unicode [White_Space].  The
    class is U+0009..U+000D, U+0020, U+0085, U+00A0, U+1680, U+2000..U+200A,
    U+2028, U+2029, U+202F, U+205F and U+3000, here in UTF-8. *)
Definition ws1 (a : Z) : bool := in_range 9 13 a || (a =? 32).
Definition ws2 (a b : Z) : bool := (a =? 194) && ((b =? 133) || (b =? 160)).
Definition ws3 (a b c : Z) : bool :=
  ((a =? 225) && (b =? 154) && (c =? 128))
  || ((a =? 226) && (b =? 128) && (in_range 128 138 c || (c =? 168) || (c =? 169) || (c =? 175)))
  || ((a =? 226) && (b =? 129) && (c =? 159))
  || ((a =? 227) && (b =? 128) && (c =? 128)).

Fixpoint blank_bytes (l : list Z) : bool :=
  match l with
  | [] => true
  | a :: l1 =>
      if ws1 a then blank_bytes l1
      else match l1 with
           | [] => false
           | b :: l2 =>
               if ws2 a b then blank_bytes l2
               else match l2 with
                    | [] => false
                    | c :: l3 => if ws3 a b c then blank_bytes l3 else false
                    end
           end
  end.

Definition is_blank (s : string) : bool := blank_bytes (byte_val <$> as_bytes s).

(** [s.trim()]: white space is removed in front and, on the reversed bytes, behind. *)
Fixpoint trim_front (w2 : Z → Z → bool) (w3 : Z → Z → Z → bool) (l : bytes) : bytes :=
  match l with
  | [] => []
  | a :: l1 =>
      if ws1 (byte_val a) then trim_front w2 w3 l1
      else match l1 with
           | [] => l
           | b :: l2 =>
               if w2 (byte_val a) (byte_val b) then trim_front w2 w3 l2
               else match l2 with
                    | [] => l
                    | c :: l3 =>
                        if w3 (byte_val a) (byte_val b) (byte_val c) then trim_front w2 w3 l3 else l
                    end
           end
  end.

Definition trim (s : string) : string :=
  let l := trim_front ws2 ws3 (as_bytes s) in
  from_bytes (rev (trim_front (λ a b, ws2 b a) (λ a b c, ws3 c b a) (rev l))).

(** [b.is_ascii_digit()] on a byte. *)
Definition is_ascii_digit (b : byte) : bool := in_range 48 57 (byte_val b).

(** ** Automation *)

Create HintDb grainlift.
Create Rewrite HintDb grainlift_simpl.

(** Split the first monadic step of an equation [m ≫= k = Ok _]. *)
Lemma result_bind_Ok {E A B} (m : result E A) (k : A → result E B) b :
  m ≫= k = Ok b ↔ ∃ a, m = Ok a ∧ k a = Ok b.
Proof. destruct m; simpl; naive_solver. Qed.

Lemma result_bind_unit_Ok {E B} (m : result E unit) (k : unit → result E B) b :
  m ≫= k = Ok b ↔ m = Ok tt ∧ k tt = Ok b.
Proof. rewrite result_bind_Ok. split; [intros ([] & ? & ?) | intros []]; eauto. Qed.

Lemma result_fmap_Ok {E A B} (f : A → B) (m : result E A) b :
  f <$> m = Ok b ↔ ∃ a, m = Ok a ∧ b = f a.
Proof. destruct m; simpl; naive_solver. Qed.

Lemma map_err_Ok {E F A} (f : E → F) (m : result E A) a : map_err f m = Ok a ↔ m = Ok a.
Proof. destruct m; simpl; naive_solver. Qed.

Lemma ok_or_Ok {E A} (o : option A) (e : E) a : ok_or o e = Ok a ↔ o = Some a.
Proof. destruct o; simpl; naive_solver. Qed.

Lemma lock_Ok {E A} (m : Mutex A) (e : E) a :
  lock m e = Ok a ↔ mx_poisoned m = false ∧ mx_data m = a.
Proof. unfold lock. destruct (mx_poisoned m); naive_solver. Qed.

Lemma lock_healthy {E A} (m : Mutex A) (e : E) :
  mx_poisoned m = false → lock m e = Ok (mx_data m).
Proof. by intros H; unfold lock; rewrite H. Qed.

(** Invert every equation between a monadic computation and [Ok _]. *)
Ltac inv_ok :=
  repeat match goal with
  | H : _ ≫= _ = Ok _ |- _ =>
      let x := fresh "x" in let Hx := fresh "Hx" in
      apply result_bind_Ok in H as (x & Hx & H)
  | H : map_err _ _ = Ok _ |- _ => apply map_err_Ok in H
  | H : ok_or _ _ = Ok _ |- _ => apply ok_or_Ok in H
  | H : (if ?b then Err _ else _) = Ok _ |- _ =>
      let Hb := fresh "Hb" in destruct b eqn:Hb; [discriminate H|]
  | H : (if ?b then _ else Err _) = Ok _ |- _ =>
      let Hb := fresh "Hb" in destruct b eqn:Hb; [|discriminate H]
  | H : Ok _ = Ok _ |- _ => injection H; clear H; intros; try subst
  | H : Err _ = Ok _ |- _ => discriminate H
  | H : Ok _ = Err _ |- _ => discriminate H
  | x : unit |- _ => destruct x
  end.

(** Case split on the scrutinee of a [match] or [if] of the goal, keeping the equation. *)
Ltac case_goal :=
  match goal with
  | |- context [match ?x with _ => _ end] =>
      lazymatch x with context [match _ with _ => _ end] => fail | _ => idtac end;
      let H := fresh "Hcase" in destruct x eqn:H
  end.

(** Boolean connectives and comparisons of the source, as propositions. *)
Ltac reflect_bools :=
  repeat match goal with
  | H : _ && _ = true |- _ => apply andb_true_iff in H as [? ?]
  | H : _ || _ = false |- _ => apply orb_false_iff in H as [? ?]
  | H : _ && _ = false |- _ => apply andb_false_iff in H
  | H : _ || _ = true |- _ => apply orb_true_iff in H
  | H : negb _ = true |- _ => apply negb_true_iff in H
  | H : negb _ = false |- _ => apply negb_false_iff in H
  | H : bool_decide _ = true |- _ => apply bool_decide_eq_true in H
  | H : bool_decide _ = false |- _ => apply bool_decide_eq_false in H
  | H : (_ =? _) = true |- _ => apply Z.eqb_eq in H
  | H : (_ =? _) = false |- _ => apply Z.eqb_neq in H
  | H : (_ <=? _) = true |- _ => apply Z.leb_le in H
  | H : (_ <=? _) = false |- _ => apply Z.leb_gt in H
  | H : (_ <? _) = true |- _ => apply Z.ltb_lt in H
  | H : (_ <? _) = false |- _ => apply Z.ltb_ge in H
  end.

(** ** Loops over results *)

Lemma for_each_Ok {E A} (f : A → result E unit) l :
  for_each f l = Ok tt ↔ Forall (λ a, f a = Ok tt) l.
Proof.
  induction l as [|a l IH]; simpl; [by split|].
  rewrite result_bind_unit_Ok, Forall_cons, IH. done.
Qed.

Lemma collect_results_Ok {E A B} (f : A → result E B) l bs :
  collect_results f l = Ok bs ↔ Forall2 (λ a b, f a = Ok b) l bs.
Proof.
  revert bs; induction l as [|a l IH]; intros bs; simpl.
  - split; [intros [= <-]; constructor | by inversion 1].
  - split.
    + intros H. inv_ok. constructor; [done|]. by apply IH.
    + inversion 1 as [|???? Hf Hl]; subst. apply IH in Hl. by rewrite Hf; simpl; rewrite Hl.
Qed.

(** ** Integers *)

Lemma in_range_true lo hi z : in_range lo hi z = true ↔ lo ≤ z ≤ hi.
Proof. unfold in_range. rewrite andb_true_iff, !Z.leb_le. done. Qed.

Lemma in_range_false lo hi z : in_range lo hi z = false ↔ z < lo ∨ hi < z.
Proof. unfold in_range. rewrite andb_false_iff, !Z.leb_gt. done. Qed.

Lemma usize_try_from_Some a z : usize_try_from a = Some z ↔ z = a ∧ in_usize a.
Proof.
  unfold usize_try_from, in_usize. destruct (in_range _ _ _) eqn:H.
  - apply in_range_true in H. naive_solver.
  - apply in_range_false in H. split; [done|lia].
Qed.

Lemma usize_try_from_None a : usize_try_from a = None ↔ ¬ in_usize a.
Proof.
  unfold usize_try_from, in_usize. destruct (in_range _ _ _) eqn:H.
  - apply in_range_true in H. naive_solver.
  - apply in_range_false in H. split; [lia|done].
Qed.

Lemma i64_try_from_Some a z : i64_try_from a = Some z ↔ z = a ∧ in_i64 a.
Proof.
  unfold i64_try_from, in_i64. destruct (in_range _ _ _) eqn:H.
  - apply in_range_true in H. naive_solver.
  - apply in_range_false in H. split; [done|lia].
Qed.

Lemma byte_val_range b : 0 ≤ byte_val b < 256.
Proof. unfold byte_val. pose proof (Byte.to_N_bounded b). lia. Qed.

Lemma byte_val_inj b c : byte_val b = byte_val c → b = c.
Proof.
  unfold byte_val. intros H%N2Z.inj.
  pose proof (Byte.of_to_N b) as Hb. rewrite H, Byte.of_to_N in Hb. congruence.
Qed.

Lemma len_nonneg {A} (l : list A) : 0 ≤ len l.
Proof. unfold len. lia. Qed.

Lemma len_app {A} (l k : list A) : len (l ++ k) = len l + len k.
Proof. unfold len. rewrite length_app. lia. Qed.

Lemma len_cons {A} (x : A) (l : list A) : len (x :: l) = 1 + len l.
Proof. unfold len. simpl length. lia. Qed.

#[export] Hint Resolve len_nonneg byte_val_range : grainlift.

(** Linear arithmetic over lengths, which are not negative. *)
Ltac len_lia :=
  repeat match goal with |- context [len ?l] =>
    lazymatch goal with _ : 0 ≤ len l |- _ => fail | _ => pose proof (len_nonneg l) end end;
  lia.

(** ** Counting occurrences *)

Definition cnt `{EqDecision A} (a : A) (l : list A) : nat := length (filter (λ b, b = a) l).

#[global] Instance cnt_Permutation `{EqDecision A} (a : A) : Proper ((≡ₚ) ==> (=)) (cnt a).
Proof. intros l k Hlk. unfold cnt. by rewrite Hlk. Qed.

Lemma cnt_cons `{EqDecision A} (a b : A) l :
  cnt a (b :: l) = ((if decide (b = a) then 1 else 0) + cnt a l)%nat.
Proof. unfold cnt. rewrite filter_cons. by destruct (decide (b = a)). Qed.

Lemma cnt_zero `{EqDecision A} (a : A) l : cnt a l = 0%nat ↔ a ∉ l.
Proof.
  unfold cnt. rewrite length_zero_iff_nil. split.
  - intros Hf Ha. assert (a ∈ filter (λ b, b = a) l) as Hin by (by apply list_elem_of_filter).
    rewrite Hf in Hin. set_solver.
  - intros Ha. apply elem_of_nil_inv. intros b [-> Hb]%list_elem_of_filter. done.
Qed.

(** ** State passing *)

Lemma bind_Ok {S E A B} (m : M S E A) (k : A → M S E B) s b s' :
  (m ≫= k) s = (Ok b, s') → ∃ a s1, m s = (Ok a, s1) ∧ k a s1 = (Ok b, s').
Proof. unfold mbind, M_bind. destruct (m s) as [[a|e] s1]; [eauto|done]. Qed.

Lemma mlift_Ok {S E A} (r : result E A) (s : S) a s' : mlift r s = (Ok a, s') ↔ r = Ok a ∧ s' = s.
Proof. unfold mlift. split; [by intros [= -> ->]|by intros [-> ->]]. Qed.

Lemma mmap_err_Ok {S E F A} (f : E → F) (m : M S E A) s a s' :
  mmap_err f m s = (Ok a, s') ↔ m s = (Ok a, s').
Proof. unfold mmap_err. destruct (m s) as [[b|e] w]; simpl; naive_solver. Qed.

(** ** Strings *)

Lemma contains_nul_app a b : contains_nul (a +:+ b) = contains_nul a || contains_nul b.
Proof.
  induction a as [|c a IH]; [done|].
  change (String c a +:+ b) with (String c (a +:+ b)); simpl. by rewrite IH, orb_assoc.
Qed.

Lemma split_once_nul_app a b :
  contains_nul a = false → split_once_nul (a +:+ String nul b) = Some (a, b).
Proof.
  induction a as [|c a IH]; [done|].
  change (String c a +:+ String nul b) with (String c (a +:+ String nul b)); simpl.
  intros [Hc Ha]%orb_false_iff. rewrite Hc, (IH Ha). done.
Qed.

Lemma split_once_nul_None s : split_once_nul s = None ↔ contains_nul s = false.
Proof.
  induction s as [|c s IH]; simpl; [done|].
  destruct (bool_decide (c = nul)); simpl; [done|].
  destruct (split_once_nul s) as [[]|]; naive_solver.
Qed.

Lemma split_once_nul_Some s a b :
  split_once_nul s = Some (a, b) → s = a +:+ String nul b ∧ contains_nul a = false.
Proof.
  revert a; induction s as [|c s IH]; intros a; simpl; [done|].
  case_bool_decide; [by intros [= <- <-]; subst|].
  destruct (split_once_nul s) as [[a' b']|]; [|done]. intros [= <- <-].
  destruct (IH a' eq_refl) as [-> ?]. simpl. by rewrite bool_decide_eq_false_2.
Qed.

Lemma strip_prefix_Some p s t : strip_prefix p s = Some t ↔ s = p +:+ t.
Proof.
  revert s; induction p as [|a p IH]; intros s; simpl.
  - change ("" +:+ t) with t. naive_solver.
  - change (String a p +:+ t) with (String a (p +:+ t)).
    destruct s as [|b s]; [done|]. case_bool_decide as Hab; subst.
    + rewrite IH. naive_solver.
    + naive_solver.
Qed.

Lemma starts_with_true p s : starts_with p s = true ↔ ∃ t, s = p +:+ t.
Proof.
  unfold starts_with. rewrite bool_decide_eq_true. unfold is_Some.
  by setoid_rewrite strip_prefix_Some.
Qed.

Lemma as_bytes_app a b : as_bytes (a +:+ b) = as_bytes a ++ as_bytes b.
Proof.
  induction a as [|c a IH]; [done|].
  change (as_bytes (String c a +:+ b)) with (Ascii.byte_of_ascii c :: as_bytes (a +:+ b)).
  by rewrite IH.
Qed.

Lemma as_bytes_inj a b : as_bytes a = as_bytes b → a = b.
Proof.
  unfold as_bytes. intros H. rewrite <-(String.string_of_list_byte_of_string a), H.
  apply String.string_of_list_byte_of_string.
Qed.

#[export] Hint Rewrite as_bytes_app contains_nul_app @len_app @len_cons : grainlift_simpl.
