(* ===== verification/RefCounts.v ===== *)
(** * Strong reference counts

    A heap of reference-counted cells and the references that hold them: the
    bookkeeping behind the connection pool and the handles of an application. *)

From S2P Require Import Prelude.

(** A heap whose counts are the occurrences in a list of references. *)
Definition counted {A} (m : gmap nat (nat * A)) (refs : list nat) : Prop :=
  ∀ l, match m !! l with
       | Some (n, _) => n = cnt l refs ∧ n ≠ 0%nat
       | None => cnt l refs = 0%nat
       end.

#[global] Instance counted_Permutation {A} (m : gmap nat (nat * A)) : Proper ((≡ₚ) ==> iff) (counted m).
Proof.
  intros r r' Hr. unfold counted. assert (∀ l, cnt l r = cnt l r') as Heq by (intros l; by rewrite Hr).
  split; intros Hc l; specialize (Hc l); [by rewrite <-Heq|by rewrite Heq].
Qed.

Lemma cnt_app `{EqDecision A} (a : A) l k : cnt a (l ++ k) = (cnt a l + cnt a k)%nat.
Proof. unfold cnt. by rewrite filter_app, length_app. Qed.

Section Counted.
Context {A : Type}.
Implicit Types (m : gmap nat (nat * A)) (r : list nat).

Lemma counted_live m r l : counted m r → l ∈ r → is_Some (m !! l).
Proof.
  intros Hc Hl. specialize (Hc l). destruct (m !! l); [done|]. by apply cnt_zero in Hc.
Qed.

Lemma counted_dead m r l : counted m r → is_Some (m !! l) → l ∈ r.
Proof.
  intros Hc [[n v] Hl]. specialize (Hc l). rewrite Hl in Hc. destruct Hc as [-> Hn].
  destruct (decide (l ∈ r)) as [|Hnot]; [done|]. by apply cnt_zero in Hnot.
Qed.

Ltac at_location l :=
  let l' := fresh "l'" in
  intros l'; destruct (decide (l = l')) as [<-|];
  rewrite ?lookup_insert_eq, ?lookup_insert_ne, ?lookup_delete_eq, ?lookup_delete_ne, ?cnt_cons by done;
  rewrite ?decide_True, ?decide_False by done.

Lemma counted_incr m r l n v v' :
  counted m r → m !! l = Some (n, v) → counted (<[l := (S n, v')]> m) (l :: r).
Proof.
  intros Hc Hl. at_location l; [|apply Hc]. specialize (Hc l). rewrite Hl in Hc. lia.
Qed.

Lemma counted_set m r l n v v' :
  counted m r → m !! l = Some (n, v) → counted (<[l := (n, v')]> m) r.
Proof. intros Hc Hl. at_location l; [|apply Hc]. specialize (Hc l). by rewrite Hl in Hc. Qed.

Lemma counted_new m r l v : counted m r → m !! l = None → counted (<[l := (1%nat, v)]> m) (l :: r).
Proof. intros Hc Hl. at_location l; [|apply Hc]. specialize (Hc l). rewrite Hl in Hc. lia. Qed.

Lemma counted_decr m r l n v :
  counted m (l :: r) → m !! l = Some (S (S n), v) → counted (<[l := (S n, v)]> m) r.
Proof.
  intros Hc Hl l'. specialize (Hc l'). revert Hc. rewrite cnt_cons.
  destruct (decide (l = l')) as [<-|]; [rewrite lookup_insert_eq, Hl|rewrite lookup_insert_ne by done]; [lia|done].
Qed.

Lemma counted_free m r l v : counted m (l :: r) → m !! l = Some (1%nat, v) → counted (delete l m) r.
Proof.
  intros Hc Hl l'. specialize (Hc l'). revert Hc. rewrite cnt_cons.
  destruct (decide (l = l')) as [<-|]; [rewrite lookup_delete_eq, Hl|rewrite lookup_delete_ne by done]; [lia|done].
Qed.
End Counted.
