(* ===== verification/Tls.v ===== *)
(** * Certificate files (main.rs of the server, lib.rs of the driver)

    What [read_certificates], [read_private_key] and the construction of a root
    store share on both sides.  Reading PEM files and checking certificates are
    another crate's: the interface [TlsFiles], whose documented laws are that a new
    root store trusts nothing and that adding a certificate makes it trusted. *)

From S2P Require Import Prelude.

Class TlsFiles (W : Type) : Type := {
  Certificate : Type;
  PrivateKey : Type;
  RootCertStore : Type;
  pem_file_iter : string → M W string (list (result string Certificate));
  pem_private_key : string → M W string PrivateKey;
  roots_empty : RootCertStore;
  roots_add : RootCertStore → Certificate → result string RootCertStore;
  trusted_roots : RootCertStore → list Certificate;
  roots_empty_trusted : trusted_roots roots_empty = [];
  roots_add_trusted : ∀ roots c roots', roots_add roots c = Ok roots' →
    trusted_roots roots' = trusted_roots roots ++ [c]
}.

Section Tls.
Context {W : Type} `{!TlsFiles W} {E : Type}.

(** [read_certificates], with the errors of its caller. *)
Definition read_certificate_file (not_opened not_parsed : string → E) (no_certificates : E) (path : string)
  : M W E (list Certificate) :=
  items ← mmap_err not_opened (pem_file_iter path);
  certificates ← mlift (map_err not_parsed (collect_results id items));
  match certificates with
  | [] => mthrow no_certificates
  | _ => mret certificates
  end.

(** The loop that fills a root store. *)
Fixpoint add_roots (invalid : string → E) (roots : RootCertStore) (certificates : list Certificate)
  : result E RootCertStore :=
  match certificates with
  | [] => Ok roots
  | certificate :: certificates =>
      roots ← map_err invalid (roots_add roots certificate);
      add_roots invalid roots certificates
  end.

(** A certificate file that is read holds certificates only, and at least one. *)
Lemma read_certificate_file_Ok not_opened not_parsed no_certificates path w l w' :
  read_certificate_file not_opened not_parsed no_certificates path w = (Ok l, w') →
  pem_file_iter path w = (Ok (Ok <$> l), w') ∧ l ≠ [].
Proof.
  unfold read_certificate_file. intros (items & w1 & Hi%mmap_err_Ok & Hr)%bind_Ok.
  apply bind_Ok in Hr as (l' & w2 & [Hl ->]%mlift_Ok & Hr). apply map_err_Ok, collect_results_Ok in Hl.
  assert (items = Ok <$> l') as ->.
  { clear Hr Hi. induction Hl as [|x y items l' Hx _ IH]; [done|]. unfold id in Hx. subst. done. }
  destruct l'; [done|]. by injection Hr as <- <-.
Qed.

Lemma add_roots_trusted invalid certificates roots roots' :
  add_roots invalid roots certificates = Ok roots' →
  trusted_roots roots' = trusted_roots roots ++ certificates.
Proof.
  revert roots. induction certificates as [|c l IH]; intros roots; simpl; [intros [= <-]; by rewrite app_nil_r|].
  intros (r & Hr%map_err_Ok%roots_add_trusted & Hl%IH)%result_bind_Ok. by rewrite Hl, Hr, <-app_assoc.
Qed.
End Tls.

(** A concrete instance: certificates are strings and each file holds the one
    named like it. *)
Program Definition string_files {W} : TlsFiles W := {|
  Certificate := string;
  PrivateKey := string;
  RootCertStore := list string;
  pem_file_iter path w := (Ok [Ok path], w);
  pem_private_key path w := (Ok path, w);
  roots_empty := [];
  roots_add roots c := Ok (roots ++ [c]);
  trusted_roots roots := roots
|}.
Next Obligation. done. Qed.
Next Obligation. intros. by simplify_eq/=. Qed.
