(* ===== verification/Adbc.v ===== *)
(** * The ADBC vocabulary

    The types of the [adbc_core] crate the program builds and takes apart:
    [Status], [Error], [OptionValue], [ArrowError], and the crate functions it
    calls.  The crate is not part of the repository: its constructors of errors
    and its formatting are the interfaces [AdbcCore] and [RustFmt], of which
    only documented behaviour is assumed. *)

From S2P Require Import Prelude.

Inductive Status : Type :=
| StatusOk | Unknown | NotImplemented | NotFound | AlreadyExists
| InvalidArguments | InvalidState | InvalidData | Integrity | Internal
| IO | Cancelled | Timeout | Unauthenticated | Unauthorized.

#[global] Instance Status_eq_decision : EqDecision Status.
Proof. solve_decision. Defined.

(** [adbc_core::error::Error]; [sqlstate] is a [[c_char; 5]] and every detail
    value a byte string. *)
Record AdbcError : Type := mkAdbcError {
  message : string;
  status : Status;
  vendor_code : Z;
  sqlstate : list Z;
  details : option (list (string * bytes))
}.

(** [adbc_core::options::OptionValue].  The enum is [non_exhaustive]: the last
    constructor stands for variants a later crate version may add. A double is
    its 64-bit IEEE pattern. *)
Inductive OptionValue : Type :=
| OptString (value : string)
| OptBytes (value : bytes)
| OptInt (value : Z)
| OptDouble (bits : Z)
| OptOther.

#[global] Instance OptionValue_eq_decision : EqDecision OptionValue.
Proof. solve_decision. Defined.

(** [arrow_schema::ArrowError]: the variants the program builds, and the rest. *)
Inductive ArrowError : Type :=
| SchemaError (text : string)
| ExternalError (error : AdbcError)
| ArrowOther (text : string).

(** [Error::with_message_and_status] sets the two fields it is named after. *)
Class AdbcCore : Type := {
  with_message_and_status : string → Status → AdbcError;
  with_message_and_status_status : ∀ m s, status (with_message_and_status m s) = s;
  with_message_and_status_message : ∀ m s, message (with_message_and_status m s) = m;
  error_from_arrow : ArrowError → AdbcError
}.

(** [format!]: [{:?}] of a string and of a duration (in nanoseconds),
    [{}] of an error of another crate. *)
Class RustFmt : Type := {
  debug_str : string → string;
  debug_duration : Z → string;
  display_arrow : ArrowError → string
}.

(** [format!("{}", n)] of an integer. *)
Definition show_int (n : Z) : string := pretty n.

#[export] Hint Rewrite @with_message_and_status_status @with_message_and_status_message
  : grainlift_simpl.

(** A concrete instance, used by the witnesses: what the crate documents. *)
Definition simple_error (m : string) (s : Status) : AdbcError :=
  mkAdbcError m s 0 [0; 0; 0; 0; 0] None.

Definition simple_core : AdbcCore := {|
  with_message_and_status := simple_error;
  with_message_and_status_status := λ m s, eq_refl;
  with_message_and_status_message := λ m s, eq_refl;
  error_from_arrow e :=
    match e with
    | SchemaError t | ArrowOther t => simple_error t Internal
    | ExternalError e => e
    end
|}.

Definition simple_fmt : RustFmt := {|
  debug_str s := "'" +:+ s +:+ "'";
  debug_duration d := show_int d +:+ "ns";
  display_arrow e :=
    match e with
    | SchemaError t | ArrowOther t => t
    | ExternalError e => message e
    end
|}.
