(* ===== verification/WireError.v ===== *)
(** * Wire errors and operator option values (grainlift-protocol/src/lib.rs)

    How an ADBC error crosses the wire: [status_name]/[status_from_name],
    [WireAdbcError] and its conversions; the [ProtocolError] enum every decoder
    of the protocol crate returns; [JsonOptionValue], the option values of the
    operator's configuration file.  Base64 is another crate's: the interface
    [Base64] states its round trip. *)

From S2P Require Import Prelude Adbc.

Inductive ProtocolError : Type :=
| MissingColumn (name : string)
| WrongType (name expected : string)
| RowCount (rows : Z)
| NullColumn (name : string)
| OptionsJson (text : string)
| ArrowFailure (error : ArrowError)
| InvalidSchemaMessage
| InvalidWire (text : string).

(** The [thiserror] display strings. *)
Definition protocol_error_to_string `{RustFmt} (e : ProtocolError) : string :=
  match e with
  | MissingColumn name => "missing column " +:+ debug_str name
  | WrongType name expected =>
      "column " +:+ debug_str name +:+ " has the wrong type; expected " +:+ expected
  | RowCount rows => "request must contain exactly one row, got " +:+ show_int rows
  | NullColumn name => "null is not allowed in column " +:+ debug_str name
  | OptionsJson text => "invalid options JSON: " +:+ text
  | ArrowFailure error => "invalid Arrow IPC schema: " +:+ display_arrow error
  | InvalidSchemaMessage => "invalid Arrow IPC schema message"
  | InvalidWire text => "invalid typed wire data: " +:+ text
  end.

(** Standard base64 ([base64::engine::general_purpose::STANDARD]); a decoding
    error is carried as its display string. *)
Class Base64 : Type := {
  base64_encode : bytes → string;
  base64_decode : string → result string bytes;
  base64_decode_encode : ∀ b, base64_decode (base64_encode b) = Ok b
}.

Definition status_name (status : Status) : string :=
  match status with
  | StatusOk => "ok"
  | Unknown => "unknown"
  | NotImplemented => "not_implemented"
  | NotFound => "not_found"
  | AlreadyExists => "already_exists"
  | InvalidArguments => "invalid_arguments"
  | InvalidState => "invalid_state"
  | InvalidData => "invalid_data"
  | Integrity => "integrity"
  | Internal => "internal"
  | IO => "io"
  | Cancelled => "cancelled"
  | Timeout => "timeout"
  | Unauthenticated => "unauthenticated"
  | Unauthorized => "unauthorized"
  end.

Definition status_from_name (name : string) : Status :=
  if bool_decide (name = "ok") then StatusOk
  else if bool_decide (name = "not_implemented") then NotImplemented
  else if bool_decide (name = "not_found") then NotFound
  else if bool_decide (name = "already_exists") then AlreadyExists
  else if bool_decide (name = "invalid_arguments") then InvalidArguments
  else if bool_decide (name = "invalid_state") then InvalidState
  else if bool_decide (name = "invalid_data") then InvalidData
  else if bool_decide (name = "integrity") then Integrity
  else if bool_decide (name = "internal") then Internal
  else if bool_decide (name = "io") then IO
  else if bool_decide (name = "cancelled") then Cancelled
  else if bool_decide (name = "timeout") then Timeout
  else if bool_decide (name = "unauthenticated") then Unauthenticated
  else if bool_decide (name = "unauthorized") then Unauthorized
  else Unknown.

(** [WireAdbcError]: [sqlstate] is a [Vec<i8>], [details] hold base64 text. *)
Record WireAdbcError : Type := mkWireAdbcError {
  w_status : string;
  w_message : string;
  w_vendor_code : Z;
  w_sqlstate : list Z;
  w_details : list (string * string)
}.

(** C's [char] is signed on some targets and unsigned on others. *)
Section CChar.
Context (c_char_signed : bool).

Definition i8_from_ne_bytes (b : Z) : Z := wrap_signed 8 b.
Definition c_char_from_ne_bytes (b : Z) : Z :=
  if c_char_signed then wrap_signed 8 b else b.
(** [to_ne_bytes] of a one-byte integer, signed or not. *)
Definition to_ne_byte (v : Z) : Z := wrap_unsigned 8 v.

Definition c_char_ok (v : Z) : Prop :=
  if c_char_signed then -128 ≤ v < 128 else 0 ≤ v < 256.

Context `{AdbcCore} `{Base64}.

Definition wire_from_adbc (error : AdbcError) : WireAdbcError := {|
  w_status := status_name (status error);
  w_message := message error;
  w_vendor_code := vendor_code error;
  w_sqlstate := (λ value, i8_from_ne_bytes (to_ne_byte value)) <$> sqlstate error;
  w_details :=
    (λ '(key, value), (key, base64_encode value)) <$> default [] (details error)
|}.

Definition decode_detail (detail : string * string) : result ProtocolError (string * bytes) :=
  let '(key, value) := detail in
  value ← map_err (λ _, InvalidWire "invalid ADBC error detail encoding") (base64_decode value);
  Ok (key, value).

Definition wire_header_invalid (w : WireAdbcError) : bool :=
  negb (len (w_sqlstate w) =? 5)
  || existsb (λ byte, byte <? 0) (w_sqlstate w)
  || (bool_decide (status_from_name (w_status w) = Unknown)
      && negb (bool_decide (w_status w = "unknown"))).

Definition try_into_adbc (w : WireAdbcError) : result ProtocolError AdbcError :=
  if wire_header_invalid w then Err (InvalidWire "invalid ADBC error status or SQLSTATE")
  else
    details ← collect_results decode_detail (w_details w);
    Ok {| message := w_message w;
          status := status_from_name (w_status w);
          vendor_code := w_vendor_code w;
          sqlstate := (λ source, c_char_from_ne_bytes (to_ne_byte source)) <$> w_sqlstate w;
          details := if bool_decide (details = []) then None else Some details |}.

Definition into_adbc (w : WireAdbcError) : AdbcError :=
  match try_into_adbc w with
  | Ok error => error
  | Err _ => with_message_and_status "Malformed remote ADBC error" InvalidData
  end.
End CChar.

(** The option values of the configuration file. *)
Inductive JsonOptionValue : Type :=
| JsonString (value : string)
| JsonBytes (value : string)
| JsonInt (value : Z)
| JsonDouble (bits : Z).

(** [WireOption] of the configuration: a key and a JSON value. *)
Record WireOption : Type := mkWireOption { wo_key : string; wo_value : JsonOptionValue }.

Definition json_into_adbc `{Base64} (v : JsonOptionValue) : result ProtocolError OptionValue :=
  match v with
  | JsonString value => Ok (OptString value)
  | JsonBytes value => b ← map_err OptionsJson (base64_decode value); Ok (OptBytes b)
  | JsonInt value => Ok (OptInt value)
  | JsonDouble value => Ok (OptDouble value)
  end.

(** [None] is the [unreachable!] panic on a variant the crate does not know. *)
Definition json_from_adbc `{Base64} (v : OptionValue) : option JsonOptionValue :=
  match v with
  | OptString value => Some (JsonString value)
  | OptBytes value => Some (JsonBytes (base64_encode value))
  | OptInt value => Some (JsonInt value)
  | OptDouble value => Some (JsonDouble value)
  | OptOther => None
  end.

(** ** Names of statuses *)

Lemma status_from_name_name s : status_from_name (status_name s) = s.
Proof. by destruct s. Qed.

Lemma status_from_name_known n :
  status_from_name n = Unknown ∨ n = status_name (status_from_name n).
Proof. unfold status_from_name. repeat case_bool_decide; auto. Qed.

#[export] Hint Rewrite status_from_name_name : grainlift_simpl.

Lemma status_accepted n :
  bool_decide (status_from_name n = Unknown) && negb (bool_decide (n = "unknown")) = false
  ↔ ∃ s, n = status_name s.
Proof.
  rewrite andb_false_iff, negb_false_iff, bool_decide_eq_false, bool_decide_eq_true. split.
  - intros [Hn | ->]; [|by exists Unknown].
    destruct (status_from_name_known n) as [?|?]; [done|eauto].
  - intros [s ->]. rewrite status_from_name_name. by destruct s; auto.
Qed.

(** ** Octets *)

Lemma to_ne_byte_ascii v : 0 ≤ v < 128 → to_ne_byte v = v.
Proof. intros ?. unfold to_ne_byte, wrap_unsigned. rewrite Z.mod_small; lia. Qed.

Lemma wrap_signed_ascii v : 0 ≤ v < 128 → wrap_signed 8 v = v.
Proof.
  intros ?. unfold wrap_signed. change (2 ^ (8 - 1)) with 128. change (2 ^ 8) with 256.
  rewrite Z.mod_small; lia.
Qed.

Lemma i8_of_c_char_negative signed v :
  c_char_ok signed v → ¬ 0 ≤ v < 128 → i8_from_ne_bytes (to_ne_byte v) < 0.
Proof.
  unfold c_char_ok, i8_from_ne_bytes, to_ne_byte, wrap_signed, wrap_unsigned.
  change (2 ^ (8 - 1)) with 128. change (2 ^ 8) with 256. intros Hok Hv.
  destruct signed.
  - rewrite <-(Z.mod_unique v 256 (-1) (v + 256)) by lia.
    rewrite <-(Z.mod_unique (v + 256 + 128) 256 1 (v + 128)); lia.
  - rewrite (Z.mod_small v) by lia.
    rewrite <-(Z.mod_unique (v + 128) 256 1 (v - 128)); lia.
Qed.

Section Theorems.
Context (c_char_signed : bool) `{AdbcCore} `{Base64}.

(** The values of type [adbc_core::error::Error] on a target: a five-element
    array of [c_char]s. *)
Definition adbc_error_wf (e : AdbcError) : Prop :=
  length (sqlstate e) = 5%nat ∧ Forall (c_char_ok c_char_signed) (sqlstate e).

Definition ascii_sqlstate (e : AdbcError) : bool :=
  forallb (in_range 0 127) (sqlstate e).

(** An empty detail list is not distinguished from an absent one on the wire. *)
Definition normalize_details (e : AdbcError) : AdbcError :=
  {| message := message e; status := status e; vendor_code := vendor_code e;
     sqlstate := sqlstate e;
     details := match details e with Some [] => None | d => d end |}.

Lemma decode_detail_encode ds :
  collect_results decode_detail ((λ '(key, value), (key, base64_encode value)) <$> ds) = Ok ds.
Proof.
  induction ds as [|[key value] ds IH]; [done|]. csimpl.
  by rewrite base64_decode_encode; csimpl; rewrite IH.
Qed.

Lemma sqlstate_roundtrip l :
  forallb (in_range 0 127) l = true →
  (λ source, c_char_from_ne_bytes c_char_signed (to_ne_byte source)) <$>
    ((λ value, i8_from_ne_bytes (to_ne_byte value)) <$> l) = l.
Proof.
  induction l as [|v l IH]; [done|]. csimpl. intros [Hv Hl]%andb_true_iff.
  apply in_range_true in Hv. rewrite IH by done. f_equal.
  unfold i8_from_ne_bytes, c_char_from_ne_bytes.
  rewrite (to_ne_byte_ascii v), (wrap_signed_ascii v), (to_ne_byte_ascii v) by lia.
  destruct c_char_signed; [apply wrap_signed_ascii; lia|done].
Qed.

Lemma sqlstate_rejected l :
  Forall (c_char_ok c_char_signed) l →
  existsb (λ byte, byte <? 0) ((λ value, i8_from_ne_bytes (to_ne_byte value)) <$> l)
  = negb (forallb (in_range 0 127) l).
Proof.
  induction 1 as [|v l Hv Hl IH]; [done|]. csimpl. rewrite IH.
  destruct (in_range 0 127 v) eqn:Hr; simpl.
  - apply in_range_true in Hr. unfold i8_from_ne_bytes.
    rewrite to_ne_byte_ascii, wrap_signed_ascii by lia.
    by rewrite (proj2 (Z.ltb_ge v 0)) by lia.
  - apply in_range_false in Hr. rewrite (proj2 (Z.ltb_lt _ 0)); [done|].
    eapply i8_of_c_char_negative; [done|lia].
Qed.

Lemma details_normalized e :
  (if bool_decide (default [] (details e) = []) then None else Some (default [] (details e)))
  = details (normalize_details e).
Proof. simpl. destruct (details e) as [[|d ds]|]; done. Qed.

(** The error a client rebuilds from the wire is the error the server sent,
    whatever the signedness of [c_char], as long as its SQLSTATE is ASCII. *)
Lemma wire_roundtrip e :
  adbc_error_wf e →
  try_into_adbc c_char_signed (wire_from_adbc e) =
    if ascii_sqlstate e then Ok (normalize_details e)
    else Err (InvalidWire "invalid ADBC error status or SQLSTATE").
Proof.
  intros [Hlen Hok]. unfold try_into_adbc, wire_header_invalid, ascii_sqlstate; csimpl.
  rewrite status_from_name_name, sqlstate_rejected by done.
  rewrite (proj2 (Z.eqb_eq _ 5)); [|by unfold len; rewrite length_fmap, Hlen].
  replace (bool_decide (status e = Unknown) && negb (bool_decide (status_name (status e) = "unknown")))
    with false by (by destruct (status e)).
  destruct (forallb _ _) eqn:Hascii; csimpl; [|done].
  rewrite decode_detail_encode; csimpl. rewrite details_normalized, sqlstate_roundtrip by done. done.
Qed.

Lemma wire_header_valid w :
  wire_header_invalid w = false ↔
    length (w_sqlstate w) = 5%nat ∧ Forall (λ b, 0 ≤ b) (w_sqlstate w)
    ∧ ∃ s, w_status w = status_name s.
Proof.
  unfold wire_header_invalid, len.
  rewrite !orb_false_iff, status_accepted, negb_false_iff, Z.eqb_eq.
  assert (existsb (λ byte, byte <? 0) (w_sqlstate w) = false ↔ Forall (λ b, 0 ≤ b) (w_sqlstate w)) as ->.
  { induction (w_sqlstate w) as [|b l IH]; simpl; [by split|].
    rewrite orb_false_iff, IH, Forall_cons, Z.ltb_ge. done. }
  assert (Z.of_nat (length (w_sqlstate w)) = 5 ↔ length (w_sqlstate w) = 5%nat) as -> by lia.
  tauto.
Qed.

Lemma details_decodable l :
  (∃ ds, collect_results decode_detail l = Ok ds)
  ↔ Forall (λ d, ∃ b, base64_decode d.2 = Ok b) l.
Proof.
  setoid_rewrite collect_results_Ok. induction l as [|[k t] l IH].
  - split; [constructor|eexists; constructor].
  - rewrite Forall_cons, <-IH. split.
    + intros [ds Hds]. inversion Hds as [|? ? ? ? Hk]; subst. unfold decode_detail in Hk.
      inv_ok. eauto.
    + intros [[b Hb] [ds Hds]]. exists ((k, b) :: ds). constructor; [|done].
      simpl in *. by rewrite Hb.
Qed.

(** What [try_into_adbc] accepts, field by field. *)
Lemma try_into_adbc_accepts w :
  (∃ e, try_into_adbc c_char_signed w = Ok e) ↔
    (length (w_sqlstate w) = 5%nat
     ∧ Forall (λ b, 0 ≤ b) (w_sqlstate w)
     ∧ ∃ s, w_status w = status_name s)
    ∧ Forall (λ d, ∃ b, base64_decode d.2 = Ok b) (w_details w).
Proof.
  rewrite <-wire_header_valid, <-details_decodable. unfold try_into_adbc.
  destruct (wire_header_invalid w); [naive_solver|].
  destruct (collect_results _ _) as [ds|]; simpl; naive_solver.
Qed.
End Theorems.

(** A trivial transcoding that meets the contract of [Base64]. *)
Lemma ref_base64_roundtrip (b : bytes) : Ok (as_bytes (from_bytes b)) = @Ok string bytes b.
Proof. unfold as_bytes, from_bytes. by rewrite String.list_byte_of_string_of_list_byte. Qed.

Definition ref_base64 : Base64 := {|
  base64_encode := from_bytes;
  base64_decode s := Ok (as_bytes s);
  base64_decode_encode := ref_base64_roundtrip
|}.

(** ** Main theorems *)

Section Main.
Context (c_char_signed : bool) `{AdbcCore} `{Base64}.

(** An ADBC error sent by the server is rebuilt by the client field for
    field (message, status, vendor code, SQLSTATE, details), whether [c_char]
    is signed or not; only an empty detail list comes back as an absent one.
    An error whose SQLSTATE is not ASCII arrives as the fixed "malformed"
    error instead. *)
Theorem wire_error_roundtrip e :
  adbc_error_wf c_char_signed e →
  into_adbc c_char_signed (wire_from_adbc e) =
    if ascii_sqlstate e then normalize_details e
    else with_message_and_status "Malformed remote ADBC error" InvalidData.
Proof. intros He. unfold into_adbc. rewrite wire_roundtrip by done. by destruct (ascii_sqlstate e). Qed.

(** A received error is accepted exactly when it has five non-negative
    SQLSTATE bytes, a known status name and details that decode; it then keeps
    its status, message and vendor code.  Every other one becomes the fixed
    "malformed" error with status InvalidData, never a partially decoded one. *)
Theorem wire_error_accepted w :
  let valid :=
    length (w_sqlstate w) = 5%nat ∧ Forall (λ b, 0 ≤ b) (w_sqlstate w)
    ∧ (∃ s, w_status w = status_name s)
    ∧ Forall (λ d, ∃ b, base64_decode d.2 = Ok b) (w_details w) in
  let error := into_adbc c_char_signed w in
  (valid ∧ status_name (status error) = w_status w ∧ message error = w_message w
   ∧ vendor_code error = w_vendor_code w)
  ∨ (¬ valid ∧ error = with_message_and_status "Malformed remote ADBC error" InvalidData).
Proof.
  simpl. pose proof (try_into_adbc_accepts c_char_signed w) as Hacc. unfold into_adbc.
  destruct (try_into_adbc c_char_signed w) as [e|] eqn:He; [left|right; naive_solver].
  destruct (proj1 Hacc (ex_intro _ e eq_refl)) as ((Hlen & Hpos & s & Hs) & Hd).
  split; [eauto 10|]. unfold try_into_adbc in He. destruct (wire_header_invalid w); [done|].
  inv_ok. simpl. by rewrite Hs, status_from_name_name.
Qed.

(** The decoder accepts the status name ["ok"]: an error record that
    carries it is turned into an ADBC error whose status is [Ok], although the
    protocol's list of error statuses does not contain it. *)
Theorem wire_error_status_ok_accepted message :
  status (into_adbc c_char_signed (mkWireAdbcError "ok" message 0 [0; 0; 0; 0; 0] [])) = StatusOk.
Proof. done. Qed.
End Main.

Lemma wire_error_roundtrip_witness :
  into_adbc (H := simple_core) (H0 := ref_base64) true
    (wire_from_adbc (H0 := ref_base64)
       (mkAdbcError "no" NotFound 7 [52; 50; 80; 48; 49] (Some [("k", [Byte.xff])])))
  = mkAdbcError "no" NotFound 7 [52; 50; 80; 48; 49] (Some [("k", [Byte.xff])]).
Proof.
  apply (wire_error_roundtrip (H := simple_core) (H0 := ref_base64) true
    (mkAdbcError "no" NotFound 7 [52; 50; 80; 48; 49] (Some [("k", [Byte.xff])]))).
  split; [reflexivity|]. repeat constructor; simpl; lia.
Defined.
