(* ===== verification/Options.v ===== *)
(** * Typed options and named requests
      (grainlift-protocol/src/requests.rs, responses.rs)

    The tagged option value of the wire, the records of the seven named
    requests and of the unary responses, and their [validate] methods.  The
    Rust traits [RequestRecord] and [ResponseRecord] are the classes of the
    same names. *)

From S2P Require Import Prelude Adbc WireError.

Definition invalid (text : string) : ProtocolError := InvalidWire text.

(** ** Option values *)

Record WireOptionValue : Type := mkWireOptionValue {
  kind : string;
  string_value : option string;
  bytes_value : option bytes;
  int_value : option Z;
  double_value : option Z
}.

Definition wire_option_from (value : OptionValue) : WireOptionValue :=
  match value with
  | OptString value => mkWireOptionValue "string" (Some value) None None None
  | OptBytes value => mkWireOptionValue "bytes" None (Some value) None None
  | OptInt value => mkWireOptionValue "int" None None (Some value) None
  | OptDouble value => mkWireOptionValue "double" None None None (Some value)
  | OptOther => mkWireOptionValue "unsupported" None None None None
  end.

Definition is_some {A} (o : option A) : bool := match o with Some _ => true | None => false end.

Definition populated (w : WireOptionValue) : list bool :=
  [is_some (string_value w); is_some (bytes_value w); is_some (int_value w);
   is_some (double_value w)].

Definition option_value_validate (w : WireOptionValue) : result ProtocolError unit :=
  let correct :=
    if bool_decide (kind w = "string") then is_some (string_value w)
    else if bool_decide (kind w = "bytes") then is_some (bytes_value w)
    else if bool_decide (kind w = "int") then is_some (int_value w)
    else if bool_decide (kind w = "double") then is_some (double_value w)
    else false in
  if correct && bool_decide (length (filter (λ b, b = true) (populated w)) = 1%nat) then Ok tt
  else Err (invalid "option kind and populated value fields do not match").

Definition option_value_into_adbc (w : WireOptionValue) : result ProtocolError OptionValue :=
  let mismatch := Err (invalid "option kind and populated value fields do not match") in
  match string_value w, bytes_value w, int_value w, double_value w with
  | Some value, None, None, None =>
      if bool_decide (kind w = "string") then Ok (OptString value) else mismatch
  | None, Some value, None, None =>
      if bool_decide (kind w = "bytes") then Ok (OptBytes value) else mismatch
  | None, None, Some value, None =>
      if bool_decide (kind w = "int") then Ok (OptInt value) else mismatch
  | None, None, None, Some value =>
      if bool_decide (kind w = "double") then Ok (OptDouble value) else mismatch
  | _, _, _, _ => mismatch
  end.

(** ** Text validation *)

Definition validate_text (value : string) : result ProtocolError unit :=
  if contains_nul value then Err (invalid "text must not contain NUL") else Ok tt.

Definition validate_handle (value : string) : result ProtocolError unit :=
  validate_text value;;
  if bool_decide (value = "") then Err (invalid "handle or option key must not be empty") else Ok tt.

(** [values.iter().flatten()]: absent filters are skipped. *)
Definition filters (values : list (option string)) : result ProtocolError unit :=
  for_each (λ value, match value with Some v => validate_text v | None => Ok tt end) values.

(** ** Named requests *)

Class RequestRecord (T : Type) : Type := request_validate : T → result ProtocolError unit.

Record NamedOption : Type := mkNamedOption { no_key : string; no_value : WireOptionValue }.

Record OpenConnectionRequest : Type := mkOpenConnectionRequest {
  oc_target : string;
  oc_database_options : list NamedOption;
  oc_connection_options : list NamedOption
}.

Record SetConnectionOptionRequest : Type := mkSetConnectionOptionRequest {
  sco_session_id : string; sco_key : string; sco_value : WireOptionValue
}.

Record SetStatementOptionRequest : Type := mkSetStatementOptionRequest {
  sso_session_id : string; sso_statement_id : string; sso_key : string;
  sso_value : WireOptionValue
}.

Record GetInfoRequest : Type := mkGetInfoRequest {
  gi_session_id : string; gi_codes : option (list Z)
}.

Record GetObjectsRequest : Type := mkGetObjectsRequest {
  go_session_id : string;
  go_depth : Z;
  go_catalog : option string;
  go_db_schema : option string;
  go_table_name : option string;
  go_table_types : option (list string);
  go_column_name : option string
}.

Record GetTableSchemaRequest : Type := mkGetTableSchemaRequest {
  gts_session_id : string; gts_catalog : option string; gts_db_schema : option string;
  gts_table_name : string
}.

Record GetStatisticsRequest : Type := mkGetStatisticsRequest {
  gs_session_id : string; gs_catalog : option string; gs_db_schema : option string;
  gs_table_name : option string; gs_approximate : bool
}.

Fixpoint validate_options_from (keys : gset string) (options : list NamedOption)
  : result ProtocolError unit :=
  match options with
  | [] => Ok tt
  | option :: options =>
      validate_handle (no_key option);;
      if bool_decide (no_key option ∈ keys) then Err (invalid "duplicate initial option key")
      else
        option_value_validate (no_value option);;
        validate_options_from ({[no_key option]} ∪ keys) options
  end.

Definition validate_options (options : list NamedOption) : result ProtocolError unit :=
  validate_options_from ∅ options.

Definition named_options_into_adbc (options : list NamedOption)
  : result ProtocolError (list (string * OptionValue)) :=
  validate_options options;;
  collect_results
    (λ option, value ← option_value_into_adbc (no_value option); Ok (no_key option, value)) options.

#[global] Instance OpenConnectionRequest_validate : RequestRecord OpenConnectionRequest := λ r,
  validate_handle (oc_target r);;
  validate_options (oc_database_options r);;
  validate_options (oc_connection_options r).

#[global] Instance SetConnectionOptionRequest_validate : RequestRecord SetConnectionOptionRequest := λ r,
  validate_handle (sco_session_id r);;
  validate_handle (sco_key r);;
  option_value_validate (sco_value r).

#[global] Instance SetStatementOptionRequest_validate : RequestRecord SetStatementOptionRequest := λ r,
  validate_handle (sso_session_id r);;
  validate_handle (sso_statement_id r);;
  validate_handle (sso_key r);;
  option_value_validate (sso_value r).

#[global] Instance GetInfoRequest_validate : RequestRecord GetInfoRequest := λ r,
  validate_handle (gi_session_id r);;
  if match gi_codes r with
     | Some codes => existsb (λ code, negb (is_some (u32_try_from code))) codes
     | None => false
     end
  then Err (invalid "info codes must fit uint32") else Ok tt.

#[global] Instance GetObjectsRequest_validate : RequestRecord GetObjectsRequest := λ r,
  validate_handle (go_session_id r);;
  filters [go_catalog r; go_db_schema r; go_table_name r; go_column_name r];;
  match go_table_types r with Some values => for_each validate_text values | None => Ok tt end;;
  if negb (in_range 0 3 (go_depth r)) then Err (invalid "object depth must be one of 0, 1, 2, 3")
  else Ok tt.

#[global] Instance GetTableSchemaRequest_validate : RequestRecord GetTableSchemaRequest := λ r,
  validate_handle (gts_session_id r);;
  filters [gts_catalog r; gts_db_schema r; Some (gts_table_name r)].

#[global] Instance GetStatisticsRequest_validate : RequestRecord GetStatisticsRequest := λ r,
  validate_handle (gs_session_id r);;
  filters [gs_catalog r; gs_db_schema r; gs_table_name r].

(** ** Unary responses *)

Class ResponseRecord (T : Type) : Type := response_validate : T → result ProtocolError unit.

Record OkResponse : Type := mkOkResponse { ok : bool }.
Record SessionResponse : Type := mkSessionResponse { sr_session_id : string }.
Record StatementResponse : Type := mkStatementResponse {
  str_session_id : string; str_statement_id : string
}.
Record ExecuteResponse : Type := mkExecuteResponse {
  er_result_id : string; er_rows_affected : option Z; er_schema_ipc : bytes
}.
Record SchemaResponse : Type := mkSchemaResponse { sch_schema_ipc : bytes }.
Record UpdateResponse : Type := mkUpdateResponse { ur_rows_affected : option Z }.
Record PartitionsResponse : Type := mkPartitionsResponse {
  pr_rows_affected : Z; pr_schema_ipc : bytes; pr_partitions : list bytes
}.
Record ValueResponse : Type := mkValueResponse { vr_value : WireOptionValue }.

Definition validate_rows (value : option Z) : result ProtocolError unit :=
  if match value with Some rows => rows <? -1 | None => false end
  then Err (invalid "affected row count must be -1, null, or nonnegative")
  else Ok tt.

(** The trait's default method accepts everything. *)
#[global] Instance OkResponse_validate : ResponseRecord OkResponse := λ _, Ok tt.
#[global] Instance SessionResponse_validate : ResponseRecord SessionResponse := λ _, Ok tt.
#[global] Instance StatementResponse_validate : ResponseRecord StatementResponse := λ _, Ok tt.
#[global] Instance SchemaResponse_validate : ResponseRecord SchemaResponse := λ _, Ok tt.
#[global] Instance ValueResponse_validate : ResponseRecord ValueResponse := λ r,
  option_value_validate (vr_value r).
#[global] Instance ExecuteResponse_validate : ResponseRecord ExecuteResponse := λ r,
  validate_rows (er_rows_affected r).
#[global] Instance UpdateResponse_validate : ResponseRecord UpdateResponse := λ r,
  validate_rows (ur_rows_affected r).
#[global] Instance PartitionsResponse_validate : ResponseRecord PartitionsResponse := λ r,
  validate_rows (Some (pr_rows_affected r)).

(** ** Option values are exactly the images of ADBC values *)

Lemma option_value_into_adbc_Ok w v :
  option_value_into_adbc w = Ok v ↔ w = wire_option_from v ∧ v ≠ OptOther.
Proof.
  split.
  - destruct w as [k [s|] [b|] [i|] [d|]]; unfold option_value_into_adbc; simpl; try done;
      case_bool_decide; intros [= <-]; by subst.
  - intros [-> Hv]. by destruct v.
Qed.

Lemma option_value_validate_Ok w :
  option_value_validate w = Ok tt ↔ ∃ v, option_value_into_adbc w = Ok v.
Proof.
  destruct w as [k [s|] [b|] [i|] [d|]];
    unfold option_value_validate, option_value_into_adbc; simpl;
    repeat case_bool_decide; simpl; subst; naive_solver.
Qed.

Lemma wire_option_from_inj v v' :
  v ≠ OptOther → wire_option_from v = wire_option_from v' → v = v'.
Proof. by destruct v, v'; simpl; intros ? [=]; subst. Qed.

(** ** Text *)

Definition handle_ok (s : string) : Prop := contains_nul s = false ∧ s ≠ "".

Lemma validate_text_Ok s : validate_text s = Ok tt ↔ contains_nul s = false.
Proof. unfold validate_text. destruct (contains_nul s); naive_solver. Qed.

Lemma validate_handle_Ok s : validate_handle s = Ok tt ↔ handle_ok s.
Proof.
  unfold validate_handle, handle_ok. rewrite result_bind_unit_Ok, validate_text_Ok.
  case_bool_decide; naive_solver.
Qed.

Lemma filters_Ok l :
  filters l = Ok tt ↔ ∀ s, Some s ∈ l → contains_nul s = false.
Proof.
  unfold filters. rewrite for_each_Ok, Forall_forall. split.
  - intros Hl s Hs. by apply Hl in Hs; apply validate_text_Ok in Hs.
  - intros Hl [s|] Hs; [|done]. by apply validate_text_Ok, Hl.
Qed.

(** ** Option lists *)

Definition named_option_ok (o : NamedOption) : Prop :=
  handle_ok (no_key o) ∧ ∃ v, option_value_into_adbc (no_value o) = Ok v.

Lemma validate_options_from_Ok keys options :
  validate_options_from keys options = Ok tt ↔
    Forall named_option_ok options ∧ NoDup (no_key <$> options)
    ∧ ∀ o, o ∈ options → no_key o ∉ keys.
Proof.
  revert keys; induction options as [|o options IH]; intros keys; csimpl.
  { split; [|done]. intros _. repeat split; [constructor..|]. by intros ? ?%not_elem_of_nil. }
  rewrite result_bind_unit_Ok, validate_handle_Ok, Forall_cons, NoDup_cons.
  unfold named_option_ok at 1. case_bool_decide as Hkey.
  - split; [by intros []|]. intros (_ & _ & Hfresh). destruct (Hfresh o); [left|done].
  - rewrite result_bind_unit_Ok, option_value_validate_Ok, IH. rewrite list_elem_of_fmap.
    split.
    + intros (Hh & Hv & Hall & Hnd & Hfresh). split; [done|]. split; [split; [|done]|].
      * intros (o' & Heq & Ho'). destruct (Hfresh o' Ho'). set_solver.
      * intros o' [->|Ho']%elem_of_cons; [done|]. specialize (Hfresh o' Ho'). set_solver.
    + intros ([[Hh Hv] Hall] & [Hnot Hnd] & Hfresh). do 4 (split; [done|]).
      intros o' Ho'. specialize (Hfresh o'). rewrite elem_of_cons in Hfresh.
      intros [?%elem_of_singleton|?]%elem_of_union; [|naive_solver]. apply Hnot. eauto.
Qed.

Lemma validate_options_Ok options :
  validate_options options = Ok tt ↔
    Forall named_option_ok options ∧ NoDup (no_key <$> options).
Proof.
  unfold validate_options. rewrite validate_options_from_Ok.
  split; [tauto|]. intros []; repeat split; [done..|]. set_solver.
Qed.

Definition named_option_from (kv : string * OptionValue) : NamedOption :=
  mkNamedOption kv.1 (wire_option_from kv.2).

Lemma named_options_images options kvs :
  collect_results
    (λ option, value ← option_value_into_adbc (no_value option); Ok (no_key option, value)) options
    = Ok kvs ↔
  options = named_option_from <$> kvs ∧ Forall (λ kv, kv.2 ≠ OptOther) kvs.
Proof.
  rewrite collect_results_Ok. revert kvs; induction options as [|[k w] options IH]; intros kvs; csimpl.
  - split; [by inversion 1|]. intros [Hnil _]. symmetry in Hnil. by apply fmap_nil_inv in Hnil as ->.
  - split.
    + inversion 1 as [|? [k' v] ? kvs' Hkv Hrest]; subst. simpl in Hkv. inv_ok.
      apply option_value_into_adbc_Ok in Hx as [-> ?]. apply IH in Hrest as [-> ?]. by repeat constructor.
    + intros [Heq Hok]. destruct kvs as [|[k' v] kvs]; [done|]. csimpl in Heq.
      injection Heq as -> -> ->. apply Forall_cons in Hok as [Hv Hok]. simpl in Hv.
      constructor; [|by apply IH]. simpl.
      by rewrite (proj2 (option_value_into_adbc_Ok _ v)) by done.
Qed.

(** The decoder of initial options inverts the client's encoding, and accepts
    nothing else: its inputs are the encodings of option lists with distinct,
    non-empty, NUL-free keys. *)
Lemma named_options_into_adbc_Ok options kvs :
  named_options_into_adbc options = Ok kvs ↔
    options = named_option_from <$> kvs
    ∧ NoDup kvs.*1 ∧ Forall handle_ok kvs.*1 ∧ Forall (λ kv, kv.2 ≠ OptOther) kvs.
Proof.
  unfold named_options_into_adbc.
  rewrite result_bind_unit_Ok, named_options_images, validate_options_Ok. split.
  - intros [[Hall Hnd] [-> Hother]]. rewrite <-list_fmap_compose in Hnd. repeat split; [done| |done].
    rewrite Forall_fmap in Hall. rewrite Forall_fmap. eapply Forall_impl; [exact Hall|]. by intros kv [? _].
  - intros (-> & Hnd & Hkeys & Hother). repeat split; [|by rewrite <-list_fmap_compose|done].
    rewrite Forall_fmap in Hkeys. rewrite Forall_fmap. apply Forall_forall. intros kv Hkv.
    rewrite Forall_forall in Hkeys, Hother. split; [by apply Hkeys|].
    exists kv.2. apply option_value_into_adbc_Ok. split; [done|]. by apply Hother.
Qed.

(** ** Main theorems *)

(** Decoding a tagged option value inverts the encoding and accepts
    nothing else: [into_adbc] returns [v] exactly on the encoding of [v], so a
    value with a wrong tag, two populated fields or none is refused. *)
Theorem option_value_codec w v :
  option_value_into_adbc w = Ok v ↔ w = wire_option_from v ∧ v ≠ OptOther.
Proof. apply option_value_into_adbc_Ok. Qed.

(** The initial options of a connection are accepted exactly when they are
    the encoding of a list with distinct, non-empty, NUL-free keys and
    supported values, and decode to that list, in order. *)
Theorem named_options_codec options kvs :
  named_options_into_adbc options = Ok kvs ↔
    options = named_option_from <$> kvs
    ∧ NoDup kvs.*1 ∧ Forall handle_ok kvs.*1 ∧ Forall (λ kv, kv.2 ≠ OptOther) kvs.
Proof. apply named_options_into_adbc_Ok. Qed.
