(* ===== verification/Arrow.v ===== *)
(** * Record batches and the fixed schemas (grainlift-protocol/src/lib.rs)

    The constants of the protocol, the parts of Arrow's [RecordBatch] the
    protocol crate looks at, its single-row accessors and the fixed schemas of
    the control messages.  Arrow itself is another crate: a batch is the data
    its accessors show, and the constructor [RecordBatch::try_new] and the
    schema message codec are the interface [ArrowCrate]. *)

From S2P Require Import Prelude Adbc WireError.

(** ** Constants *)

Definition PROTOCOL_NAME : string := "org.queryfarm.Grainlift.v1".
Definition PROTOCOL_VERSION : string := "0.4.0".
Definition MAX_BIND_STREAM_BYTES : Z := 64 * 1024 * 1024.
Definition MAX_VGI_MESSAGE_BYTES : Z := u32_max.
Definition BIND_ENVELOPE_HEADROOM_BYTES : Z := 1024 * 1024.
Definition MAX_CONFIGURABLE_BIND_BYTES : Z :=
  if 64 <=? usize_bits then i64_max else usize_max.
Definition MAX_CONTROL_BYTES : Z := 256 * 1024 * 1024.

Module method.
Definition OPEN_CONNECTION : string := "open_connection".
Definition CLOSE_CONNECTION : string := "close_connection".
Definition COMMIT : string := "commit".
Definition ROLLBACK : string := "rollback".
Definition CANCEL_CONNECTION : string := "cancel_connection".
Definition SET_CONNECTION_OPTION : string := "set_connection_option".
Definition GET_CONNECTION_OPTION : string := "get_connection_option".
Definition GET_INFO : string := "get_info".
Definition GET_OBJECTS : string := "get_objects".
Definition GET_TABLE_SCHEMA : string := "get_table_schema".
Definition GET_TABLE_TYPES : string := "get_table_types".
Definition GET_STATISTIC_NAMES : string := "get_statistic_names".
Definition GET_STATISTICS : string := "get_statistics".
Definition READ_PARTITION : string := "read_partition".
Definition NEW_STATEMENT : string := "new_statement".
Definition CLOSE_STATEMENT : string := "close_statement".
Definition SET_SQL_QUERY : string := "set_sql_query".
Definition PREPARE : string := "prepare".
Definition CANCEL_STATEMENT : string := "cancel_statement".
Definition SET_STATEMENT_OPTION : string := "set_statement_option".
Definition GET_STATEMENT_OPTION : string := "get_statement_option".
Definition BIND : string := "bind".
Definition BIND_STREAM : string := "bind_stream".
Definition EXECUTE : string := "execute".
Definition EXECUTE_UPDATE : string := "execute_update".
Definition EXECUTE_SCHEMA : string := "execute_schema".
Definition EXECUTE_PARTITIONS : string := "execute_partitions".
Definition GET_PARAMETER_SCHEMA : string := "get_parameter_schema".
Definition SET_SUBSTRAIT_PLAN : string := "set_substrait_plan".
Definition CLOSE_RESULT : string := "close_result".
Definition READ_RESULT : string := "read_result".
End method.

(** ** Batches *)

(** The data types the fixed schemas use; [OtherType] names any other one. *)
Inductive DataType : Type := Boolean | Utf8 | Binary | Int64 | OtherType (name : string).

#[global] Instance DataType_eq_decision : EqDecision DataType.
Proof. solve_decision. Defined.

Record Field : Type := mkField {
  f_name : string; f_type : DataType; f_nullable : bool; f_metadata : list (string * string)
}.

#[global] Instance Field_eq_decision : EqDecision Field.
Proof. solve_decision. Defined.

(** [Field::new] carries no metadata. *)
Definition Field_new (name : string) (t : DataType) (nullable : bool) : Field :=
  mkField name t nullable [].

(** A column, by the array type it can be downcast to; [None] is a null slot. *)
Inductive Column : Type :=
| StringArray (values : list (option string))
| BinaryArray (values : list (option bytes))
| Int64Array (values : list (option Z))
| BooleanArray (values : list (option bool))
| OtherArray (type_name : string) (tag : Z).

#[global] Instance Column_eq_decision : EqDecision Column.
Proof. solve_decision. Defined.

Record RecordBatch : Type := mkRecordBatch {
  rb_fields : list Field; rb_columns : list Column; num_rows : Z
}.

#[global] Instance RecordBatch_eq_decision : EqDecision RecordBatch.
Proof. solve_decision. Defined.

(** [batch.column_by_name]: the column of the first field of that name. *)
Fixpoint find_column (fields : list Field) (columns : list Column) (name : string)
  : option Column :=
  match fields, columns with
  | f :: fields, c :: columns =>
      if bool_decide (f_name f = name) then Some c else find_column fields columns name
  | _, _ => None
  end.

Definition column_by_name (batch : RecordBatch) (name : string) : option Column :=
  find_column (rb_fields batch) (rb_columns batch) name.

(** [downcast_ref]. *)
Definition as_string (c : Column) : option (list (option string)) :=
  match c with StringArray v => Some v | _ => None end.
Definition as_binary (c : Column) : option (list (option bytes)) :=
  match c with BinaryArray v => Some v | _ => None end.
Definition as_int64 (c : Column) : option (list (option Z)) :=
  match c with Int64Array v => Some v | _ => None end.
Definition as_boolean (c : Column) : option (list (option bool)) :=
  match c with BooleanArray v => Some v | _ => None end.

(** The slot of row 0, [None] when [is_null(0)]. *)
Definition row0 {A} (values : list (option A)) : option A :=
  match values with Some a :: _ => Some a | _ => None end.

Definition require_one_row (batch : RecordBatch) : result ProtocolError unit :=
  if negb (num_rows batch =? 1) then Err (RowCount (num_rows batch)) else Ok tt.

Definition typed_value {A} (downcast : Column → option (list (option A))) (expected : string)
    (batch : RecordBatch) (name : string) : result ProtocolError A :=
  require_one_row batch;;
  column ← ok_or (column_by_name batch name) (MissingColumn name);
  values ← ok_or (downcast column) (WrongType name expected);
  ok_or (row0 values) (NullColumn name).

Definition batch_string_value := typed_value as_string "utf8".
Definition batch_int64_value := typed_value as_int64 "int64".
Definition batch_binary_value := typed_value as_binary "binary".

Fixpoint batch_strings_from (batch : RecordBatch) (fields : list Field)
    (values : gmap string string) : result ProtocolError (gmap string string) :=
  match fields with
  | [] => Ok values
  | field :: fields =>
      if bool_decide (f_type field = Utf8) then
        value ← batch_string_value batch (f_name field);
        batch_strings_from batch fields (<[f_name field := value]> values)
      else batch_strings_from batch fields values
  end.

Definition batch_strings (batch : RecordBatch) : result ProtocolError (gmap string string) :=
  require_one_row batch;;
  batch_strings_from batch (rb_fields batch) ∅.

(** ** Fixed schemas *)

Definition utf8_field (name : string) : Field := Field_new name Utf8 false.

Definition empty_response_schema : list Field := [Field_new "ok" Boolean false].
Definition session_schema : list Field := [utf8_field "session_id"].
Definition statement_schema : list Field := [utf8_field "session_id"; utf8_field "statement_id"].
Definition connection_binary_schema : list Field :=
  [utf8_field "session_id"; Field_new "payload" Binary false].
Definition connection_option_key_schema : list Field :=
  [utf8_field "session_id"; utf8_field "key"; utf8_field "value_type"].
Definition set_sql_schema : list Field :=
  [utf8_field "session_id"; utf8_field "statement_id"; utf8_field "sql"].
Definition statement_option_key_schema : list Field :=
  [utf8_field "session_id"; utf8_field "statement_id"; utf8_field "key"; utf8_field "value_type"].
Definition statement_binary_schema : list Field :=
  [utf8_field "session_id"; utf8_field "statement_id"; Field_new "payload" Binary false].
Definition bind_init_schema : list Field :=
  [utf8_field "session_id"; utf8_field "statement_id"; Field_new "schema_ipc" Binary false].
Definition result_schema : list Field := [utf8_field "session_id"; utf8_field "result_id"].
Definition read_result_schema : list Field :=
  [utf8_field "session_id"; utf8_field "result_id"; Field_new "sequence" Int64 false].
Definition envelope_schema (name : string) : list Field := [Field_new name Binary false].
Definition bind_turn_schema : list Field :=
  [Field_new "batch_ipc" Binary false; Field_new "finish" Boolean false].

(** ** The Arrow crate *)

Definition column_rows (c : Column) : option Z :=
  match c with
  | StringArray v => Some (len v)
  | BinaryArray v => Some (len v)
  | Int64Array v => Some (len v)
  | BooleanArray v => Some (len v)
  | OtherArray _ _ => None
  end.

Definition column_type (c : Column) : option DataType :=
  match c with
  | StringArray _ => Some Utf8
  | BinaryArray _ => Some Binary
  | Int64Array _ => Some Int64
  | BooleanArray _ => Some Boolean
  | OtherArray _ _ => None
  end.

Definition null_free (c : Column) : bool :=
  match c with
  | StringArray v => forallb (λ o, bool_decide (is_Some o)) v
  | BinaryArray v => forallb (λ o, bool_decide (is_Some o)) v
  | Int64Array v => forallb (λ o, bool_decide (is_Some o)) v
  | BooleanArray v => forallb (λ o, bool_decide (is_Some o)) v
  | OtherArray _ _ => false
  end.

(** A column that fits a field with [rows] rows. *)
Definition column_fits (rows : Z) (f : Field) (c : Column) : bool :=
  bool_decide (column_rows c = Some rows) && bool_decide (column_type c = Some (f_type f))
  && (f_nullable f || null_free c).

(** An abstract [Schema] of dynamic results, its flatbuffer message, and the
    documented contract of [RecordBatch::try_new]: columns that agree with the
    schema in number, type, length and nullability make the batch. *)
Class ArrowCrate : Type := {
  Schema : Type;
  ipc_message : Type;
  try_new : list Field → list Column → result ArrowError RecordBatch;
  schema_message : Schema → bytes;
  root_as_message : bytes → option ipc_message;
  header_as_schema : ipc_message → option Schema;
  bodyLength : ipc_message → Z;
  try_new_fits : ∀ fields columns rows,
    fields ≠ [] → length fields = length columns →
    Forall (λ fc, column_fits rows fc.1 fc.2 = true) (zip fields columns) →
    try_new fields columns = Ok (mkRecordBatch fields columns rows);
  schema_message_decodes : ∀ s,
    ∃ m, root_as_message (schema_message s) = Some m ∧ header_as_schema m = Some s
}.

Section Codec.
Context `{ArrowCrate}.

Definition encode_schema (schema : Schema) : result ProtocolError bytes :=
  Ok (schema_message schema).

Definition decode_schema (b : bytes) : result ProtocolError Schema :=
  message ← ok_or (root_as_message b) InvalidSchemaMessage;
  ok_or (header_as_schema message) InvalidSchemaMessage.

Definition one_string (fields : list Field) (value : string) : result ArrowError RecordBatch :=
  try_new fields [StringArray [Some value]].

Lemma decode_encode_schema s b : encode_schema s = Ok b → decode_schema b = Ok s.
Proof.
  intros [= <-]. unfold decode_schema.
  destruct (schema_message_decodes s) as (m & -> & Hm); simpl. by rewrite Hm.
Qed.
End Codec.

(** ** Accessors *)

Lemma require_one_row_Ok batch : require_one_row batch = Ok tt ↔ num_rows batch = 1.
Proof. unfold require_one_row. destruct (Z.eqb_spec (num_rows batch) 1); naive_solver. Qed.

Lemma typed_value_Ok {A} (down : Column → option (list (option A))) exp batch name a :
  typed_value down exp batch name = Ok a ↔
    num_rows batch = 1 ∧ ∃ c v, column_by_name batch name = Some c ∧ down c = Some v ∧ row0 v = Some a.
Proof.
  unfold typed_value. rewrite result_bind_unit_Ok, require_one_row_Ok.
  destruct (column_by_name batch name) as [c|]; simpl; [|naive_solver].
  destruct (down c) as [v|] eqn:Hd; simpl; [|naive_solver].
  rewrite ok_or_Ok. naive_solver.
Qed.

Lemma fits_columns fields columns rows :
  Forall2 (λ f c, column_fits rows f c = true) fields columns →
  length fields = length columns
  ∧ Forall (λ fc, column_fits rows fc.1 fc.2 = true) (zip fields columns).
Proof. induction 1 as [|f c fields columns Hfc _ [IH1 IH2]]; simpl; repeat constructor; simpl; auto. Qed.

(** Every fixed control message is built from single-row columns that fit. *)
Lemma try_new_row `{ArrowCrate} fields columns :
  fields ≠ [] → Forall2 (λ f c, column_fits 1 f c = true) fields columns →
  try_new fields columns = Ok (mkRecordBatch fields columns 1).
Proof. intros Hne [Hlen Hall]%fits_columns. by apply try_new_fits. Qed.
