(* ===== verification/Framing.v ===== *)
(** * IPC framing (grainlift-protocol/src/responses.rs: [validate_ipc])

    The byte-level walk over the frames of a nested Arrow IPC stream that
    guards every decoder of the protocol: length prefixes with or without the
    continuation marker, metadata, body, end-of-stream marker.  The loop is
    modelled at [usize]/[i32] width with its offsets; [ipc_frames] is the
    grammar it decides. *)

From S2P Require Import Prelude Adbc WireError Options Arrow.

(** [i32::from_le_bytes]. *)
Definition i32_from_le_bytes (b : bytes) : Z :=
  match byte_val <$> b with
  | [b0; b1; b2; b3] => wrap_signed 32 (b0 + 2 ^ 8 * b1 + 2 ^ 16 * b2 + 2 ^ 24 * b3)
  | _ => 0
  end.

(** [bytes.get(a..b)]. *)
Definition get_range {A} (l : list A) (a b : Z) : option (list A) :=
  if (a <=? b) && (b <=? len l)
  then Some (take (Z.to_nat (b - a)) (drop (Z.to_nat a) l))
  else None.

Section Framing.
Context `{ArrowCrate}.

(** The length prefix at [offset], and the offset behind it. *)
Definition read_prefix (b : bytes) (offset : Z) : result ProtocolError (Z * Z) :=
  prefix ← ok_or (get_range b offset (usize_saturating_add offset 4))
             (invalid "truncated IPC prefix");
  let length := i32_from_le_bytes prefix in
  let offset := offset + 4 in
  if length =? -1 then
    prefix ← ok_or (get_range b offset (usize_saturating_add offset 4))
               (invalid "truncated IPC continuation");
    Ok (i32_from_le_bytes prefix, offset + 4)
  else Ok (length, offset).

(** One pass of the [loop] at [offset]: [Some] is the offset of the next frame,
    [None] the [return Ok(())] at the end-of-stream marker. *)
Definition validate_ipc_body (b : bytes) (offset : Z) : result ProtocolError (option Z) :=
  '(length, offset) ← read_prefix b offset;
  if length =? 0 then
    if offset =? len b then Ok None else Err (invalid "trailing IPC bytes")
  else
    length ← ok_or (usize_try_from length) (invalid "invalid IPC metadata length");
    end_ ← ok_or (usize_checked_add offset length) (invalid "IPC length overflow");
    metadata ← ok_or (get_range b offset end_) (invalid "truncated IPC metadata");
    message ← ok_or (root_as_message metadata) (invalid "invalid IPC metadata");
    body ← ok_or (usize_try_from (bodyLength message)) (invalid "invalid IPC body length");
    next ← ok_or (end_ ← usize_checked_add end_ body; if end_ <=? len b then Some end_ else None)
             (invalid "truncated IPC body");
    Ok (Some next).

(** [None]: the fuel ran out. *)
Fixpoint validate_ipc_loop (fuel : nat) (b : bytes) (offset : Z)
  : option (result ProtocolError unit) :=
  match fuel with
  | O => None
  | S fuel =>
      match validate_ipc_body b offset with
      | Err error => Some (Err error)
      | Ok None => Some (Ok tt)
      | Ok (Some offset) => validate_ipc_loop fuel b offset
      end
  end.

(** A frame takes at least one byte, so [len b + 1] passes always suffice
    ([validate_ipc_returns]). *)
Definition validate_ipc_fuel (b : bytes) : nat := S (length b).

Definition validate_ipc (b : bytes) (limit : Z) : option (result ProtocolError unit) :=
  if limit <? len b then Some (Err (invalid "Arrow IPC payload exceeds configured limit"))
  else validate_ipc_loop (validate_ipc_fuel b) b 0.

(** The call as its callers see it; the default is never reached
    ([validate_ipc_total]). *)
Definition validate_ipc_result (b : bytes) (limit : Z) : result ProtocolError unit :=
  default (Err (invalid "IPC loop fuel")) (validate_ipc b limit).

(** ** The grammar *)

(** A length prefix, bare or behind the continuation marker. *)
Inductive frame_prefix : bytes → Z → Prop :=
| bare_prefix p : length p = 4%nat → i32_from_le_bytes p ≠ -1 → frame_prefix p (i32_from_le_bytes p)
| continued_prefix c p : length c = 4%nat → i32_from_le_bytes c = -1 → length p = 4%nat →
    frame_prefix (c ++ p) (i32_from_le_bytes p).

(** Frames up to and including the end-of-stream marker. *)
Inductive ipc_frames : bytes → Prop :=
| frames_end p : frame_prefix p 0 → ipc_frames p
| frames_message p n metadata message body rest :
    frame_prefix p n → 0 < n → len metadata = n →
    root_as_message metadata = Some message → bodyLength message = len body →
    ipc_frames rest → ipc_frames (p ++ metadata ++ body ++ rest).
End Framing.

(** ** Slices *)

Lemma get_range_Some {A} (l : list A) a b x :
  0 ≤ a →
  get_range l a b = Some x ↔
    a ≤ b ≤ len l ∧ drop (Z.to_nat a) l = x ++ drop (Z.to_nat b) l ∧ len x = b - a.
Proof.
  intros Ha. unfold get_range, len. split.
  - destruct (_ && _) eqn:Hb; [|done]. reflect_bools. intros [= <-]. split; [lia|]. split.
    + replace (Z.to_nat b) with (Z.to_nat a + Z.to_nat (b - a))%nat by lia.
      rewrite <-drop_drop. by rewrite take_drop.
    + rewrite length_take, length_drop. lia.
  - intros (Hab & Hdrop & Hx).
    rewrite (proj2 (andb_true_iff _ _)) by (rewrite !Z.leb_le; lia). f_equal.
    rewrite Hdrop. rewrite take_app_length'; [done|lia].
Qed.

(** Rust allocations never exceed [isize::MAX] bytes. *)
Definition slice_ok (b : bytes) : Prop := len b ≤ i64_max.

Lemma slice_in_usize z b : slice_ok b → 0 ≤ z ≤ len b → in_usize z.
Proof. unfold slice_ok, in_usize, i64_max, usize_max, usize_bits. lia. Qed.

Lemma usize_try_from_slice b z : slice_ok b → 0 ≤ z ≤ len b → usize_try_from z = Some z.
Proof. intros Hb Hz. apply usize_try_from_Some. eauto using slice_in_usize. Qed.

Lemma get_range_4 (b : bytes) a x :
  0 ≤ a ≤ len b → slice_ok b →
  get_range b a (usize_saturating_add a 4) = Some x ↔
    length x = 4%nat ∧ a + 4 ≤ len b ∧ drop (Z.to_nat a) b = x ++ drop (Z.to_nat (a + 4)) b.
Proof.
  intros Ha Hb. rewrite get_range_Some by lia.
  assert (usize_saturating_add a 4 = a + 4) as ->.
  { unfold usize_saturating_add, slice_ok, usize_max, usize_bits, i64_max in *. lia. }
  split.
  - intros (? & ? & Hx). repeat split; [|lia|done]. unfold len in Hx. lia.
  - intros (Hx & ? & ?). repeat split; [lia|lia|done|]. unfold len. lia.
Qed.

Section Correctness.
Context `{ArrowCrate}.

Lemma drop_len_app (b p s : bytes) a :
  0 ≤ a → drop (Z.to_nat a) b = p ++ s → drop (Z.to_nat (a + len p)) b = s.
Proof.
  intros Ha Hd. unfold len. replace (Z.to_nat (a + Z.of_nat (length p)))
    with (Z.to_nat a + length p)%nat by lia.
  by rewrite <-drop_drop, Hd, drop_app_length.
Qed.

Lemma drop_len_bound (b p s : bytes) a :
  0 ≤ a ≤ len b → drop (Z.to_nat a) b = p ++ s → a + len p ≤ len b.
Proof.
  intros Ha Hd. apply (f_equal length) in Hd. rewrite length_drop, length_app in Hd.
  unfold len in *. lia.
Qed.

Lemma read_prefix_Ok b a n a' :
  0 ≤ a ≤ len b → slice_ok b →
  read_prefix b a = Ok (n, a') ↔
    ∃ p, frame_prefix p n ∧ a' = a + len p ∧ a' ≤ len b
         ∧ drop (Z.to_nat a) b = p ++ drop (Z.to_nat a') b.
Proof.
  intros Ha Hb. unfold read_prefix. split.
  - intros Hp. inv_ok. apply get_range_4 in Hx as (Hlen & ? & Hd); [|done..].
    destruct (Z.eqb_spec (i32_from_le_bytes x) (-1)) as [Heq|Hne].
    + inv_ok. apply get_range_4 in Hx as (Hlen' & ? & Hd'); [|lia|done].
      exists (x ++ x0). unfold len in *. rewrite length_app. split; [by constructor|].
      split; [lia|]. split; [lia|]. rewrite Hd, Hd'. by rewrite app_assoc.
    + inv_ok. exists x. unfold len in *. split; [by constructor|]. repeat split; [lia|lia|done].
  - intros (p & Hp & -> & Hle & Hd). destruct Hp as [p Hlen Hne|c p Hc Hcont Hlen].
    + assert (len p = 4) as Hp by (unfold len; lia). rewrite Hp in *.
      rewrite (proj2 (get_range_4 b a p Ha Hb)) by done. simpl.
      by rewrite (proj2 (Z.eqb_neq _ _)).
    + assert (len (c ++ p) = 8) as Hcp by (unfold len; rewrite length_app; lia).
      rewrite Hcp in *. rewrite <-app_assoc in Hd.
      assert (drop (Z.to_nat (a + 4)) b = p ++ drop (Z.to_nat (a + 8)) b) as Hd'.
      { replace (a + 4) with (a + len c) by (unfold len; lia). apply drop_len_app; [lia|done]. }
      rewrite (proj2 (get_range_4 b a c Ha Hb)) by (repeat split; [done|lia|congruence]).
      simpl. rewrite (proj2 (Z.eqb_eq _ _)) by done.
      rewrite (proj2 (get_range_4 b (a + 4) p ltac:(lia) Hb))
        by (replace (a + 4 + 4) with (a + 8) by lia; done).
      simpl. do 2 f_equal. lia.
Qed.

Lemma frame_prefix_len p n : frame_prefix p n → 4 ≤ len p ≤ 8.
Proof. destruct 1; unfold len; rewrite ?length_app; lia. Qed.

(** The [loop] body returns [Ok(())] exactly at an end-of-stream marker that
    ends the buffer. *)
Lemma validate_ipc_body_end b a :
  0 ≤ a ≤ len b → slice_ok b →
  validate_ipc_body b a = Ok None ↔ frame_prefix (drop (Z.to_nat a) b) 0.
Proof.
  intros Ha Hb. unfold validate_ipc_body. split.
  - intros Hv. apply result_bind_Ok in Hv as ([n a'] & Hp & Hv).
    apply read_prefix_Ok in Hp as (p & Hp & -> & Hle & Hd); [|done..].
    destruct (Z.eqb_spec n 0) as [->|Hn]; [|inv_ok; done].
    inv_ok. reflect_bools. rewrite Hb0 in Hd.
    unfold len in Hd. rewrite Nat2Z.id, drop_all, app_nil_r in Hd. by rewrite Hd.
  - intros Hp. set (p := drop (Z.to_nat a) b) in *.
    assert (a + len p = len b) as Hend by (unfold p, len in *; rewrite length_drop; lia).
    rewrite (proj2 (read_prefix_Ok b a 0 (a + len p) Ha Hb)); simpl.
    + by rewrite (proj2 (Z.eqb_eq _ _)) by done.
    + exists p. repeat split; [done|lia|]. rewrite Hend. unfold len.
      by rewrite Nat2Z.id, drop_all, app_nil_r.
Qed.

(** It continues exactly behind a whole message frame. *)
Lemma validate_ipc_body_next b a a' :
  0 ≤ a ≤ len b → slice_ok b →
  validate_ipc_body b a = Ok (Some a') ↔
    ∃ p n metadata message body,
      frame_prefix p n ∧ 0 < n ∧ len metadata = n
      ∧ root_as_message metadata = Some message ∧ bodyLength message = len body
      ∧ a' = a + len (p ++ metadata ++ body) ∧ a' ≤ len b
      ∧ drop (Z.to_nat a) b = p ++ metadata ++ body ++ drop (Z.to_nat a') b.
Proof.
  intros Ha Hb. unfold validate_ipc_body. split.
  - intros Hv. apply result_bind_Ok in Hv as ([n a1] & Hp & Hv).
    apply read_prefix_Ok in Hp as (p & Hp & -> & Hle & Hd); [|done..].
    destruct (Z.eqb_spec n 0) as [|Hn]; [by destruct (_ =? _)|]. inv_ok. reflect_bools.
    apply usize_try_from_Some in Hx as [-> [? _]], Hx3 as [-> [? _]].
    apply usize_try_from_Some in Hx0 as [-> _].
    pose proof (frame_prefix_len _ _ Hp).
    apply get_range_Some in Hx1 as (? & Hd1 & Hlen1); [|lia].
    apply bind_Some in Hx4 as (e & He & Hx4). apply usize_try_from_Some in He as [-> _].
    destruct (Z.leb_spec (a + len p + n + bodyLength x2) (len b)) as [Hfit|]; [|done].
    injection Hx4 as <-. set (body := take (Z.to_nat (bodyLength x2)) (drop (Z.to_nat (a + len p + n)) b)).
    assert (len body = bodyLength x2) as Hbody.
    { unfold body, len in *. rewrite length_take, length_drop. lia. }
    exists p, n, x1, x2, body. rewrite !len_app. repeat split; try done; try lia.
    rewrite Hd, Hd1. f_equal. f_equal. unfold body.
    replace (Z.to_nat (a + len p + n + bodyLength x2))
      with (Z.to_nat (a + len p + n) + Z.to_nat (bodyLength x2))%nat by lia.
    by rewrite <-drop_drop, take_drop.
  - intros (p & n & md & m & body & Hp & Hn & Hmd & Hm & Hbody & -> & Hle & Hd).
    pose proof (len_nonneg md). pose proof (len_nonneg body). pose proof (frame_prefix_len _ _ Hp).
    rewrite !len_app in Hle, Hd |- *. rewrite Hmd in *.
    assert (drop (Z.to_nat (a + len p)) b = md ++ body ++ drop (Z.to_nat (a + (len p + (n + len body)))) b)
      as Hd1 by (apply drop_len_app; [lia|done]).
    assert (drop (Z.to_nat (a + len p + n)) b = body ++ drop (Z.to_nat (a + (len p + (n + len body)))) b)
      as Hd2 by (rewrite <-Hmd; apply drop_len_app; [lia|by rewrite Hmd]).
    rewrite (proj2 (read_prefix_Ok b a n (a + len p) Ha Hb)); simpl.
    2: { exists p. repeat split; [done|lia|congruence]. }
    rewrite (proj2 (Z.eqb_neq n 0)) by lia.
    rewrite (usize_try_from_slice b n) by (done || lia). simpl.
    unfold usize_checked_add. rewrite (usize_try_from_slice b (a + len p + n)) by (done || lia).
    simpl. rewrite (proj2 (get_range_Some b (a + len p) (a + len p + n) md ltac:(lia)))
      by (repeat split; [lia|lia|congruence|lia]).
    simpl. rewrite Hm; simpl. rewrite Hbody.
    rewrite (usize_try_from_slice b (len body)) by (done || lia).
    simpl. rewrite (usize_try_from_slice b (a + len p + n + len body)) by (done || lia).
    simpl. rewrite (proj2 (Z.leb_le _ _)) by lia. simpl. do 2 f_equal. lia.
Qed.

Lemma validate_ipc_body_progress b a a' :
  0 ≤ a ≤ len b → slice_ok b → validate_ipc_body b a = Ok (Some a') → a < a' ≤ len b.
Proof.
  intros Ha Hb (p & n & md & m & body & Hp & _ & _ & _ & _ & -> & Hle & _)%validate_ipc_body_next; [|done..].
  apply frame_prefix_len in Hp. rewrite !len_app in *.
  pose proof (len_nonneg md). pose proof (len_nonneg body). lia.
Qed.

Lemma validate_ipc_loop_returns b fuel a :
  0 ≤ a ≤ len b → slice_ok b → len b - a < Z.of_nat fuel →
  ∃ r, validate_ipc_loop fuel b a = Some r.
Proof.
  intros Ha Hb. revert a Ha. induction fuel as [|fuel IH]; intros a Ha Hf; [lia|]. simpl.
  destruct (validate_ipc_body b a) as [[a'|]|e] eqn:Hbody; [|eauto..].
  apply validate_ipc_body_progress in Hbody; [|done..]. apply IH; lia.
Qed.

Lemma validate_ipc_loop_sound b fuel a :
  0 ≤ a ≤ len b → slice_ok b →
  validate_ipc_loop fuel b a = Some (Ok tt) → ipc_frames (drop (Z.to_nat a) b).
Proof.
  intros Ha Hb. revert a Ha. induction fuel as [|fuel IH]; intros a Ha; [done|]. simpl.
  destruct (validate_ipc_body b a) as [[a'|]|e] eqn:Hbody; [|intros _|done].
  - intros Hloop. pose proof (validate_ipc_body_progress _ _ _ Ha Hb Hbody).
    apply validate_ipc_body_next in Hbody as (p & n & md & m & body & ? & ? & ? & ? & ? & ? & ? & ->); [|done..].
    eapply frames_message; eauto. apply IH; [lia|done].
  - apply frames_end. by apply validate_ipc_body_end.
Qed.

Lemma validate_ipc_loop_complete b s :
  slice_ok b → ipc_frames s →
  ∀ fuel a, 0 ≤ a ≤ len b → drop (Z.to_nat a) b = s → len b - a < Z.of_nat fuel →
  validate_ipc_loop fuel b a = Some (Ok tt).
Proof.
  intros Hb. induction 1 as [p Hp|p n md m body rest Hp Hn Hmd Hm Hbody _ IH];
    intros [|fuel] a Ha Hd Hf; try lia; simpl.
  - subst p. by rewrite (proj2 (validate_ipc_body_end b a Ha Hb)).
  - set (a' := a + len (p ++ md ++ body)).
    assert (drop (Z.to_nat a) b = (p ++ md ++ body) ++ rest) as Hd' by (by rewrite Hd, <-!app_assoc).
    assert (drop (Z.to_nat a') b = rest) as Hrest by (apply drop_len_app; [lia|done]).
    pose proof (drop_len_bound _ _ _ _ Ha Hd') as Hle.
    assert (validate_ipc_body b a = Ok (Some a')) as Hstep.
    { apply validate_ipc_body_next; [done..|]. exists p, n, md, m, body. by rewrite Hrest. }
    rewrite Hstep. apply validate_ipc_body_progress in Hstep; [|done..]. apply IH; [lia|done|lia].
Qed.

(** [validate_ipc] always returns: its loop visits at most one frame per byte. *)
Lemma validate_ipc_total b limit :
  slice_ok b → ∃ r, validate_ipc b limit = Some r.
Proof.
  intros Hb. unfold validate_ipc. destruct (_ <? _); [eauto|].
  pose proof (len_nonneg b). apply validate_ipc_loop_returns; [lia|done|].
  unfold validate_ipc_fuel, len. lia.
Qed.

Lemma validate_ipc_accepts b limit :
  slice_ok b →
  validate_ipc b limit = Some (Ok tt) ↔ len b ≤ limit ∧ ipc_frames b.
Proof.
  intros Hb. unfold validate_ipc. pose proof (len_nonneg b).
  destruct (Z.ltb_spec limit (len b)); [naive_solver lia|]. split.
  - intros Hv. apply validate_ipc_loop_sound in Hv; [|lia|done]. done.
  - intros [_ Hf]. eapply validate_ipc_loop_complete; [done|exact Hf|lia|done|].
    unfold validate_ipc_fuel, len. lia.
Qed.
End Correctness.
