(* ===== verification/Envelope.v ===== *)
(** * Bounded IPC envelopes (grainlift-protocol/src/responses.rs, requests.rs)

    Encoding a batch through a sink that never grows past its limit, decoding
    exactly one batch, counting the memory a decoded batch pins, the null
    check of typed records, and the envelopes built from them: typed records,
    requests, responses and bind turns.  The IPC writer and reader and the
    [VgiArrow] derive macro belong to other crates: the classes [IpcCrate] and
    [VgiArrow] state their contracts. *)

From S2P Require Import Prelude Adbc WireError Options Arrow Framing.

(** ** The bounded sink *)

Record BoundedBuffer : Type := mkBoundedBuffer { bb_bytes : bytes; bb_limit : Z }.

(** [Write::write]: all or nothing. *)
Definition bb_write (sink : BoundedBuffer) (data : bytes) : result string (Z * BoundedBuffer) :=
  if usize_saturating_sub (bb_limit sink) (len (bb_bytes sink)) <? len data
  then Err "Arrow IPC payload exceeds configured limit"
  else Ok (len data, mkBoundedBuffer (bb_bytes sink ++ data) (bb_limit sink)).

(** The standard [write_all], which does not call [write] on an empty buffer. *)
Definition bb_write_all (sink : BoundedBuffer) (data : bytes) : result string BoundedBuffer :=
  if bool_decide (data = []) then Ok sink else snd <$> bb_write sink data.

(** ** Arrow memory *)

Record Buffer : Type := mkBuffer {
  data_ptr : Z; capacity : Z; ptr_offset : Z; buffer_len : Z
}.

Inductive ArrayData : Type :=
| mkArrayData (buffers : list Buffer) (nulls : option Buffer) (child_data : list ArrayData).

Definition buffer_size (b : Buffer) : Z :=
  Z.max (capacity b) (usize_saturating_add (ptr_offset b) (buffer_len b)).

(** [entry(..).and_modify(max).or_insert(size)]. *)
Definition record_buffer (sizes : gmap Z Z) (b : Buffer) : gmap Z Z :=
  let size := buffer_size b in
  match sizes !! data_ptr b with
  | Some current => <[data_ptr b := Z.max current size]> sizes
  | None => <[data_ptr b := size]> sizes
  end.

Fixpoint visit (sizes : gmap Z Z) (data : ArrayData) {struct data} : gmap Z Z :=
  let 'mkArrayData buffers nulls child_data := data in
  let sizes := foldl record_buffer sizes (buffers ++ option_list nulls) in
  foldl visit sizes child_data.

Definition buffer_bytes (columns : list ArrayData) : Z :=
  map_fold (λ _ size total, usize_saturating_add total size) 0 (foldl visit ∅ columns).

(** ** The IPC reader and writer *)

(** A writer call issues [write_all]s on its sink and then returns. *)
Definition Phase (A : Type) : Type := list bytes * result ArrowError A.

Section Writing.
Context {writer : Type} `{ArrowCrate}.
Context (sw_try_new : Schema → Phase writer)
        (sw_write : writer → RecordBatch → Phase writer)
        (sw_finish : writer → Phase unit).

(** The stream a writer emits for a schema and a list of batches when nothing fails. *)
Inductive emits_batches : writer → list RecordBatch → bytes → Prop :=
| emits_finish w chunks : sw_finish w = (chunks, Ok tt) → emits_batches w [] (concat chunks)
| emits_write w chunks w' batch batches rest :
    sw_write w batch = (chunks, Ok w') → emits_batches w' batches rest →
    emits_batches w (batch :: batches) (concat chunks ++ rest).

Inductive emits (schema : Schema) (batches : list RecordBatch) : bytes → Prop :=
| emits_new chunks w rest :
    sw_try_new schema = (chunks, Ok w) → emits_batches w batches rest →
    emits schema batches (concat chunks ++ rest).
End Writing.

(** [StreamWriter], [StreamReader] and the memory of batches.  Documented
    contract: a finished stream is framed as the IPC format says, and reading
    it yields the batches written. *)
Class IpcCrate `{ArrowCrate} : Type := {
  batch_schema : RecordBatch → Schema;
  get_array_memory_size : RecordBatch → Z;
  writer : Type;
  sw_try_new : Schema → Phase writer;
  sw_write : writer → RecordBatch → Phase writer;
  sw_finish : writer → Phase unit;
  io_to_arrow : string → ArrowError;
  sr_open : bytes → result ArrowError (list (result ArrowError RecordBatch));
  reader_layout : bytes → list ArrayData;
  stream_framed : ∀ schema batches b,
    emits sw_try_new sw_write sw_finish schema batches b → ipc_frames b;
  stream_reads : ∀ schema batches b,
    emits sw_try_new sw_write sw_finish schema batches b → sr_open b = Ok (Ok <$> batches)
}.

(** ** Nested records *)

(** What [validate_array] sees of an array: how many nulls it has and, for a
    struct, the nullability and array of each field; for a list, its values. *)
Inductive ArrowArray : Type :=
| StructArr (null_count : Z) (columns : list (bool * ArrowArray))
| ListArr (null_count : Z) (values : ArrowArray)
| LeafArr (null_count : Z).

Definition null_count (a : ArrowArray) : Z :=
  match a with StructArr n _ | ListArr n _ | LeafArr n => n end.

Fixpoint validate_array (array : ArrowArray) (nullable : bool) {struct array}
  : result ProtocolError unit :=
  if negb nullable && negb (null_count array =? 0)
  then Err (invalid "null in required response field")
  else
    match array with
    | StructArr _ columns =>
        (fix go (columns : list (bool * ArrowArray)) :=
           match columns with
           | [] => Ok tt
           | (field_nullable, child) :: columns => validate_array child field_nullable;; go columns
           end) columns
    | ListArr _ values => validate_array values false
    | LeafArr _ => Ok tt
    end.

(** A [StructArray]: its type, its array view and its conversions to and from
    a batch. *)
Class StructCrate : Type := {
  StructArray : Type;
  struct_type : Type;
  struct_type_eq :: EqDecision struct_type;
  data_type : StructArray → struct_type;
  struct_view : StructArray → ArrowArray;
  batch_of_struct : StructArray → RecordBatch;
  struct_of_batch : RecordBatch → StructArray;
  struct_of_batch_of_struct : ∀ s, struct_of_batch (batch_of_struct s) = s
}.

(** [#[derive(VgiArrow)]]: [None] of [build_singleton] is an array that is not
    a struct; errors are carried as their display strings. *)
Class VgiArrow `{StructCrate} (T : Type) : Type := {
  build_singleton : T → result string (option StructArray);
  arrow_data_type : struct_type;
  vgi_read : StructArray → result string T;
  build_type : ∀ v s, build_singleton v = Ok (Some s) → data_type s = arrow_data_type;
  build_rows : ∀ v s, build_singleton v = Ok (Some s) → num_rows (batch_of_struct s) = 1;
  build_read : ∀ v s, build_singleton v = Ok (Some s) → vgi_read s = Ok v
}.
Arguments arrow_data_type {_} T {_}.

Section Envelope.
Context `{IpcCrate} `{!StructCrate}.

(** Run one writer call against the sink: the first failing write aborts it. *)
Fixpoint write_chunks (sink : BoundedBuffer) (chunks : list bytes) : result string BoundedBuffer :=
  match chunks with
  | [] => Ok sink
  | chunk :: chunks => sink ← bb_write_all sink chunk; write_chunks sink chunks
  end.

Definition run_phase {A} (phase : Phase A) (sink : BoundedBuffer)
  : result ArrowError (A * BoundedBuffer) :=
  sink ← map_err io_to_arrow (write_chunks sink phase.1);
  a ← phase.2;
  Ok (a, sink).

Definition encode_batch_ipc (batch : RecordBatch) (limit : Z) : result ProtocolError bytes :=
  if limit <? get_array_memory_size batch
  then Err (invalid "Arrow batch exceeds configured limit")
  else
    '(writer, sink) ← map_err ArrowFailure
       (run_phase (sw_try_new (batch_schema batch)) (mkBoundedBuffer [] limit));
    '(writer, sink) ← map_err ArrowFailure (run_phase (sw_write writer batch) sink);
    '(_, sink) ← map_err ArrowFailure (run_phase (sw_finish writer) sink);
    Ok (bb_bytes sink).

Definition batch_buffer_bytes (b : bytes) : Z := buffer_bytes (reader_layout b).

Definition decode_batch_ipc (b : bytes) (limit : Z) : result ProtocolError RecordBatch :=
  validate_ipc_result b limit;;
  items ← map_err ArrowFailure (sr_open b);
  match items with
  | [] => Err (invalid "IPC stream must contain one batch")
  | item :: items =>
      batch ← map_err ArrowFailure item;
      match items with
      | Ok _ :: _ => Err (invalid "IPC stream contains multiple batches")
      | Err error :: _ => Err (ArrowFailure error)
      | [] =>
          if limit <? batch_buffer_bytes b
          then Err (invalid "decoded Arrow batch exceeds configured limit")
          else Ok batch
      end
  end.

Section Records.
Context {T : Type} `{!VgiArrow T}.

Definition encode_record_ipc (value : T) (limit : Z) : result ProtocolError bytes :=
  array ← map_err invalid (build_singleton value);
  record ← ok_or array (invalid "response type must be a record");
  validate_array (struct_view record) false;;
  encode_batch_ipc (batch_of_struct record) limit.

Definition decode_record_ipc (b : bytes) (limit : Z) : result ProtocolError T :=
  batch ← decode_batch_ipc b limit;
  require_one_row batch;;
  let record := struct_of_batch batch in
  if bool_decide (data_type record ≠ arrow_data_type T)
  then Err (invalid "unexpected typed response schema")
  else
    validate_array (struct_view record) false;;
    map_err invalid (vgi_read record).

Definition encode_record (value : T) (field : string) (limit : Z)
  : result ProtocolError RecordBatch :=
  b ← encode_record_ipc value limit;
  map_err ArrowFailure (try_new (envelope_schema field) [BinaryArray [Some b]]).

Definition decode_record (outer : RecordBatch) (field : string) (limit : Z)
  : result ProtocolError T :=
  if bool_decide (rb_fields outer ≠ envelope_schema field)
  then Err (invalid "unexpected typed envelope schema")
  else
    b ← batch_binary_value outer field;
    decode_record_ipc b limit.

Definition encode_response `{!ResponseRecord T} (value : T) (limit : Z)
  : result ProtocolError RecordBatch :=
  response_validate value;;
  encode_record value "result" limit.

Definition decode_response `{!ResponseRecord T} (outer : RecordBatch) (limit : Z)
  : result ProtocolError T :=
  value ← decode_record outer "result" limit;
  response_validate value;;
  Ok value.

Definition encode_request `{!RequestRecord T} (value : T) (limit : Z)
  : result ProtocolError RecordBatch :=
  request_validate value;;
  batch ← encode_record value "request" limit;
  encode_batch_ipc batch limit;;
  Ok batch.

Definition decode_request `{!RequestRecord T} (outer : RecordBatch) (limit : Z)
  : result ProtocolError T :=
  value ← decode_record outer "request" limit;
  request_validate value;;
  Ok value.
End Records.

Definition execute_response `{!VgiArrow ExecuteResponse} (result_id : string)
    (rows_affected : option Z) (schema : Schema) : result ProtocolError RecordBatch :=
  schema_ipc ← encode_schema schema;
  encode_response (mkExecuteResponse result_id rows_affected schema_ipc) MAX_CONTROL_BYTES.

(** ** Bind turns *)

Definition encode_bind_turn (batch : option RecordBatch) (limit : Z)
  : result ProtocolError RecordBatch :=
  payload ← match batch with Some batch => encode_batch_ipc batch limit | None => Ok [] end;
  map_err ArrowFailure
    (try_new bind_turn_schema
       [BinaryArray [Some payload]; BooleanArray [Some (bool_decide (batch = None))]]).

Definition decode_bind_turn (turn : RecordBatch) (limit : Z)
  : result ProtocolError (option RecordBatch) :=
  require_one_row turn;;
  if bool_decide (rb_fields turn ≠ bind_turn_schema)
  then Err (invalid "unexpected bind turn schema")
  else
    payload ← batch_binary_value turn "batch_ipc";
    finish ← ok_or (rb_columns turn !! 1%nat ≫= as_boolean) (invalid "invalid bind finish field");
    finish ← ok_or (row0 finish) (invalid "null bind finish field");
    if finish : bool then
      if negb (bool_decide (payload = [])) then Err (invalid "bind finish payload must be empty")
      else Ok None
    else Some <$> decode_batch_ipc payload limit.
End Envelope.

(** ** Counting memory *)

Fixpoint array_buffers (data : ArrayData) : list Buffer :=
  let 'mkArrayData buffers nulls child_data := data in
  buffers ++ option_list nulls ++ concat (array_buffers <$> child_data).

Definition all_buffers (columns : list ArrayData) : list Buffer :=
  concat (array_buffers <$> columns).

Lemma ArrayData_nested_ind (P : ArrayData → Prop) :
  (∀ buffers nulls child_data, Forall P child_data → P (mkArrayData buffers nulls child_data)) →
  ∀ data, P data.
Proof.
  intros Hnode. fix IH 1. intros [buffers nulls child_data]. apply Hnode.
  induction child_data as [|child child_data IHc]; constructor; [apply IH|apply IHc].
Qed.

Lemma visit_buffers data sizes :
  visit sizes data = foldl record_buffer sizes (array_buffers data).
Proof.
  revert sizes. induction data as [buffers nulls child_data IH] using ArrayData_nested_ind.
  intros sizes. simpl. rewrite (assoc_L (++)), (foldl_app _ (buffers ++ option_list nulls)).
  generalize (foldl record_buffer sizes (buffers ++ option_list nulls)). clear sizes.
  induction IH as [|child child_data Hc _ IHc]; intros sizes; csimpl; [done|].
  by rewrite foldl_app, Hc, IHc.
Qed.

Lemma visit_all_buffers columns sizes :
  foldl visit sizes columns = foldl record_buffer sizes (all_buffers columns).
Proof.
  revert sizes. unfold all_buffers. induction columns as [|c columns IH]; intros sizes; csimpl; [done|].
  by rewrite foldl_app, IH, visit_buffers.
Qed.

(** The largest extent recorded for an allocation. *)
Definition largest (buffers : list Buffer) (p s : Z) : Prop :=
  (∃ b, b ∈ buffers ∧ data_ptr b = p ∧ buffer_size b = s)
  ∧ ∀ b, b ∈ buffers → data_ptr b = p → buffer_size b ≤ s.

Lemma record_buffer_lookup sizes b p :
  record_buffer sizes b !! p =
    if decide (data_ptr b = p)
    then Some (match sizes !! p with Some s => Z.max s (buffer_size b) | None => buffer_size b end)
    else sizes !! p.
Proof.
  unfold record_buffer. case_decide as Hp; [subst p|];
    destruct (sizes !! data_ptr b); by rewrite ?lookup_insert_eq, ?lookup_insert_ne.
Qed.

Lemma record_buffers_None buffers p :
  foldl record_buffer ∅ buffers !! p = None ↔ ∀ b, b ∈ buffers → data_ptr b ≠ p.
Proof.
  induction buffers as [|b buffers IH] using rev_ind.
  { simpl. rewrite lookup_empty. set_solver. }
  rewrite foldl_app; simpl. rewrite record_buffer_lookup.
  setoid_rewrite elem_of_app. setoid_rewrite list_elem_of_singleton.
  case_decide; [naive_solver|]. rewrite IH. naive_solver.
Qed.

Lemma record_buffers_lookup buffers p s :
  foldl record_buffer ∅ buffers !! p = Some s ↔ largest buffers p s.
Proof.
  revert s. induction buffers as [|b buffers IH] using rev_ind; intros s.
  { simpl. rewrite lookup_empty. unfold largest. set_solver. }
  rewrite foldl_app; simpl. rewrite record_buffer_lookup. unfold largest in *.
  setoid_rewrite elem_of_app. setoid_rewrite list_elem_of_singleton.
  case_decide as Hp; [|rewrite IH; naive_solver].
  destruct (foldl record_buffer ∅ buffers !! p) as [m|] eqn:Hm.
  - destruct (proj1 (IH m) eq_refl) as [(b0 & Hb0 & Hp0 & Hs0) Hmax]. split.
    + intros [= <-]. split.
      * destruct (Z.max_spec m (buffer_size b)) as [[_ ->]|[_ ->]]; naive_solver.
      * intros b' [Hb'| ->] Hp'; [specialize (Hmax b' Hb' Hp')|]; lia.
    + intros [(b1 & Hb1 & Hp1 & Hs1) Hall]. f_equal.
      pose proof (Hall b0 ltac:(auto) Hp0). pose proof (Hall b ltac:(auto) Hp).
      destruct Hb1 as [Hb1| ->]; [pose proof (Hmax b1 Hb1 Hp1)|]; lia.
  - rewrite record_buffers_None in Hm. split.
    + intros [= <-]. split; [by eauto|]. intros b' [Hb'| ->] Hp'; [naive_solver|lia].
    + intros [(b1 & [Hb1| ->] & Hp1 & Hs1) _]; naive_solver.
Qed.

(** Saturating addition of nonnegative sizes is the sum, capped. *)
Lemma saturating_total (sizes : gmap Z Z) :
  map_Forall (λ _ s, 0 ≤ s) sizes →
  map_fold (λ _ size total, usize_saturating_add total size) 0 sizes
  = Z.min usize_max (map_fold (λ _ size total, total + size) 0 sizes).
Proof.
  rewrite map_Forall_to_list, !map_fold_foldr. generalize (map_to_list sizes). intros l Hl.
  enough (foldr (uncurry (λ _ size total, usize_saturating_add total size)) 0 l
    = Z.min usize_max (foldr (uncurry (λ _ size total, total + size)) 0 l)
    ∧ 0 ≤ foldr (uncurry (λ (_ : Z) size total, total + size)) 0 l) by tauto.
  induction Hl as [|[p s] l Hs _ [IH ?]]; simpl in *; [done|].
  rewrite IH. unfold usize_saturating_add. lia.
Qed.

Definition buffer_ok (b : Buffer) : Prop := 0 ≤ capacity b.

(** The memory charged to a decoded batch: the sum, over the distinct
    allocations its buffers point into, of the largest extent any of them
    covers, capped at [usize::MAX]. *)
Lemma buffer_bytes_spec columns :
  Forall buffer_ok (all_buffers columns) →
  ∃ sizes : gmap Z Z,
    (∀ p s, sizes !! p = Some s ↔ largest (all_buffers columns) p s)
    ∧ buffer_bytes columns = Z.min usize_max (map_fold (λ _ size total, total + size) 0 sizes).
Proof.
  intros Hok. exists (foldl record_buffer ∅ (all_buffers columns)).
  split; [apply record_buffers_lookup|].
  unfold buffer_bytes. rewrite visit_all_buffers. apply saturating_total.
  intros p s [(b & Hb & _ & <-) _]%record_buffers_lookup.
  rewrite Forall_forall in Hok. unfold buffer_size. apply Hok in Hb. unfold buffer_ok in Hb. lia.
Qed.

(** ** Null checks *)

(** The arrays in required position, that is, those that must be null-free. *)
Inductive required_at : ArrowArray → bool → ArrowArray → Prop :=
| required_here a : required_at a false a
| required_field n columns nullable field_nullable child a :
    (field_nullable, child) ∈ columns → required_at child field_nullable a →
    required_at (StructArr n columns) nullable a
| required_values n values nullable a :
    required_at values false a → required_at (ListArr n values) nullable a.

Lemma ArrowArray_nested_ind (P : ArrowArray → Prop) :
  (∀ n columns, Forall (λ c, P c.2) columns → P (StructArr n columns)) →
  (∀ n values, P values → P (ListArr n values)) → (∀ n, P (LeafArr n)) →
  ∀ a, P a.
Proof.
  intros Hs Hl Hf. fix IH 1. intros [n columns|n values|n]; [|apply Hl, IH|apply Hf].
  apply Hs. induction columns as [|[nullable child] columns IHc]; constructor; [apply IH|apply IHc].
Qed.

Lemma validate_columns_Ok (columns : list (bool * ArrowArray)) :
  (fix go (columns : list (bool * ArrowArray)) :=
     match columns with
     | [] => Ok tt
     | (field_nullable, child) :: columns => validate_array child field_nullable;; go columns
     end) columns = Ok tt
  ↔ ∀ nullable child, (nullable, child) ∈ columns → validate_array child nullable = Ok tt.
Proof.
  induction columns as [|[nullable child] columns IH]; [set_solver|].
  rewrite result_bind_unit_Ok, IH. set_solver.
Qed.

Lemma null_check_Ok {E} (nullable : bool) n (e : E) (rest : result E unit) :
  (if negb nullable && negb (n =? 0) then Err e else rest) = Ok tt
  ↔ (nullable = false → n = 0) ∧ rest = Ok tt.
Proof.
  destruct nullable; simpl; [naive_solver|]. destruct (Z.eqb_spec n 0); simpl; naive_solver.
Qed.

Lemma validate_array_Ok a nullable :
  validate_array a nullable = Ok tt ↔ ∀ r, required_at a nullable r → null_count r = 0.
Proof.
  revert nullable. induction a as [n columns IH|n values IH|n] using ArrowArray_nested_ind;
    intros nullable; cbn [validate_array null_count]; rewrite null_check_Ok.
  - rewrite validate_columns_Ok. rewrite Forall_forall in IH. split.
    + intros [Hn Hc] r Hr. inversion Hr as [|? ? ? fn child ? Hin Hchild|]; subst; [by apply Hn|].
      by eapply (IH _ Hin fn); [apply Hc|].
    + intros Hr. split; [intros ->; apply (Hr _ (required_here _))|].
      intros fn child Hin. apply (IH _ Hin). intros r Hreq. eapply Hr, required_field; eauto.
  - rewrite IH. split.
    + intros [Hn Hv] r Hr. inversion Hr; subst; [by apply Hn|by apply Hv].
    + intros Hr. split; [intros ->; apply (Hr _ (required_here _))|].
      intros r Hreq. by apply Hr, required_values.
  - split.
    + intros [Hn _] r Hr. inversion Hr; subst. by apply Hn.
    + intros Hr. split; [intros ->; apply (Hr _ (required_here _))|done].
Qed.

(** ** The sink never exceeds its limit *)

Lemma bb_write_all_Ok sink data sink' :
  len (bb_bytes sink) ≤ bb_limit sink →
  bb_write_all sink data = Ok sink' ↔
    sink' = mkBoundedBuffer (bb_bytes sink ++ data) (bb_limit sink)
    ∧ len (bb_bytes sink ++ data) ≤ bb_limit sink.
Proof.
  intros Hle. unfold bb_write_all, bb_write, usize_saturating_sub. rewrite len_app.
  pose proof (len_nonneg data). case_bool_decide as Hd.
  - subst data. rewrite app_nil_r. destruct sink; simpl in *. unfold len in *; simpl in *.
    split; [intros [= <-]; split; [done|lia] | by intros [-> _]].
  - destruct (Z.ltb_spec (Z.max 0 (bb_limit sink - len (bb_bytes sink))) (len data)); simpl.
    + split; [done|lia].
    + split; [intros [= <-]; split; [done|lia] | by intros [-> _]].
Qed.

Lemma write_chunks_Ok sink chunks sink' :
  len (bb_bytes sink) ≤ bb_limit sink →
  write_chunks sink chunks = Ok sink' ↔
    sink' = mkBoundedBuffer (bb_bytes sink ++ concat chunks) (bb_limit sink)
    ∧ len (bb_bytes sink ++ concat chunks) ≤ bb_limit sink.
Proof.
  revert sink. induction chunks as [|c chunks IH]; intros sink Hle; simpl.
  - rewrite app_nil_r. destruct sink. naive_solver.
  - rewrite result_bind_Ok. setoid_rewrite bb_write_all_Ok; [|done]. split.
    + intros (s & [-> Hs] & Hw). apply IH in Hw; [|done]. simpl in Hw. by rewrite <-app_assoc in Hw.
    + intros [-> Hlen]. eexists. split; [split; [done|]|].
      * rewrite !len_app in *. pose proof (len_nonneg (concat chunks)). lia.
      * apply IH; simpl; [|by rewrite <-app_assoc].
        rewrite !len_app in *. pose proof (len_nonneg (concat chunks)). lia.
Qed.

Section EnvelopeCorrectness.
Context `{IpcCrate} `{!StructCrate}.

Lemma run_phase_Ok {A} (phase : Phase A) sink a sink' :
  len (bb_bytes sink) ≤ bb_limit sink →
  run_phase phase sink = Ok (a, sink') ↔
    phase.2 = Ok a
    ∧ sink' = mkBoundedBuffer (bb_bytes sink ++ concat phase.1) (bb_limit sink)
    ∧ len (bb_bytes sink ++ concat phase.1) ≤ bb_limit sink.
Proof.
  intros Hle. unfold run_phase. rewrite result_bind_Ok. setoid_rewrite map_err_Ok.
  setoid_rewrite write_chunks_Ok; [|done]. split.
  - intros (s & [-> Hs] & Hr). by inv_ok.
  - intros (Ha & -> & Hs). eexists. split; [done|]. by rewrite Ha.
Qed.

(** [encode_batch_ipc] returns exactly the writer's stream for the batch, when
    neither the batch's memory nor the stream exceeds the limit. *)
Lemma encode_batch_ipc_Ok batch limit b :
  0 ≤ limit →
  encode_batch_ipc batch limit = Ok b ↔
    get_array_memory_size batch ≤ limit
    ∧ emits sw_try_new sw_write sw_finish (batch_schema batch) [batch] b
    ∧ len b ≤ limit.
Proof.
  intros Hlimit. unfold encode_batch_ipc.
  destruct (Z.ltb_spec limit (get_array_memory_size batch)); [naive_solver lia|]. split.
  - intros He. inv_ok. destruct x as [w1 s1]. inv_ok. destruct x as [w2 s2]. inv_ok.
    destruct x as [[] s3]. inv_ok.
    apply run_phase_Ok in Hx as (Hw1 & -> & Hl1); [|done].
    apply run_phase_Ok in Hx0 as (Hw2 & -> & Hl2); [|done].
    apply run_phase_Ok in Hx1 as (Hw3 & -> & Hl3); [|done]. simpl in *.
    split; [done|]. split; [|done]. rewrite <-app_assoc.
    destruct (sw_try_new _) as [c1 r1] eqn:E1, (sw_write w1 batch) as [c2 r2] eqn:E2,
      (sw_finish w2) as [c3 r3] eqn:E3; simpl in *; subst.
    eapply emits_new; [exact E1|]. eapply emits_write; [exact E2|]. by eapply emits_finish.
  - intros (_ & He & Hlen).
    inversion He as [c1 w1 r1 E1 Hr1]; subst.
    inversion Hr1 as [|? c2 w2 ? ? r2 E2 Hr2]; subst.
    inversion Hr2 as [? c3 E3|]; subst. rewrite !len_app in Hlen.
    pose proof (len_nonneg (concat c1)). pose proof (len_nonneg (concat c2)).
    pose proof (len_nonneg (concat c3)).
    rewrite (proj2 (run_phase_Ok _ (mkBoundedBuffer [] limit) w1
      (mkBoundedBuffer (concat c1) limit) ltac:(done)))
      by (rewrite E1; simpl; split; [done|split; [done|lia]]); simpl.
    rewrite (proj2 (run_phase_Ok _ (mkBoundedBuffer (concat c1) limit) w2
      (mkBoundedBuffer (concat c1 ++ concat c2) limit) ltac:(simpl; lia)))
      by (rewrite E2; simpl; rewrite len_app; split; [done|split; [done|lia]]); simpl.
    rewrite (proj2 (run_phase_Ok _ (mkBoundedBuffer (concat c1 ++ concat c2) limit) tt
      (mkBoundedBuffer ((concat c1 ++ concat c2) ++ concat c3) limit)
      ltac:(simpl; rewrite len_app; lia)))
      by (rewrite E3; simpl; rewrite !len_app; split; [done|split; [done|lia]]); simpl.
    by rewrite <-app_assoc.
Qed.

Lemma validate_ipc_result_Ok b limit :
  slice_ok b → validate_ipc_result b limit = Ok tt ↔ len b ≤ limit ∧ ipc_frames b.
Proof.
  intros Hb. rewrite <-validate_ipc_accepts by done. unfold validate_ipc_result.
  destruct (validate_ipc_total b limit Hb) as [r ->]. simpl. naive_solver.
Qed.

Lemma decode_batch_ipc_Ok b limit batch :
  slice_ok b →
  decode_batch_ipc b limit = Ok batch ↔
    len b ≤ limit ∧ ipc_frames b ∧ sr_open b = Ok [Ok batch] ∧ batch_buffer_bytes b ≤ limit.
Proof.
  intros Hb. unfold decode_batch_ipc.
  rewrite result_bind_unit_Ok, validate_ipc_result_Ok by done.
  destruct (sr_open b) as [[|[first|e] [|[second|e'] items]]|e]; simpl; try naive_solver.
  destruct (Z.ltb_spec limit (batch_buffer_bytes b)); [naive_solver lia|naive_solver].
Qed.

(** A batch that fits is read back. *)
Lemma batch_roundtrip batch limit limit' b :
  0 ≤ limit → slice_ok b →
  encode_batch_ipc batch limit = Ok b → len b ≤ limit' → batch_buffer_bytes b ≤ limit' →
  decode_batch_ipc b limit' = Ok batch.
Proof.
  intros Hl Hb (_ & He & _)%encode_batch_ipc_Ok Hlen Hmem; [|done].
  apply decode_batch_ipc_Ok; [done|]. repeat split; [done| |by apply stream_reads in He|done].
  by apply stream_framed in He.
Qed.

Section RecordCorrectness.
Context {T : Type} `{!VgiArrow T}.

Lemma encode_record_ipc_batch (value : T) limit b :
  encode_record_ipc value limit = Ok b →
  ∃ s, build_singleton value = Ok (Some s) ∧ validate_array (struct_view s) false = Ok tt
       ∧ encode_batch_ipc (batch_of_struct s) limit = Ok b.
Proof.
  unfold encode_record_ipc. intros He. inv_ok. subst. exists x0. auto.
Qed.

Lemma encode_record_ipc_bound (value : T) limit b :
  0 ≤ limit → encode_record_ipc value limit = Ok b → len b ≤ limit.
Proof.
  intros Hl (s & _ & _ & He)%encode_record_ipc_batch. by apply encode_batch_ipc_Ok in He as (_ & _ & ?).
Qed.

Lemma record_ipc_roundtrip (value : T) limit limit' b :
  0 ≤ limit → slice_ok b →
  encode_record_ipc value limit = Ok b → len b ≤ limit' → batch_buffer_bytes b ≤ limit' →
  decode_record_ipc b limit' = Ok value.
Proof.
  intros Hl Hb (s & Hs & Hv & He)%encode_record_ipc_batch Hlen Hmem. unfold decode_record_ipc.
  rewrite (batch_roundtrip _ _ limit' _ Hl Hb He Hlen Hmem); simpl.
  rewrite (proj2 (require_one_row_Ok _)) by (by eapply build_rows); simpl.
  rewrite struct_of_batch_of_struct, bool_decide_eq_false_2, Hv; simpl.
  - by rewrite (build_read value s Hs).
  - intros Hne. apply Hne. by eapply build_type.
Qed.

Lemma envelope_fits field b :
  try_new (envelope_schema field) [BinaryArray [Some b]]
  = Ok (mkRecordBatch (envelope_schema field) [BinaryArray [Some b]] 1).
Proof. apply try_new_row; [done|]. repeat constructor. Qed.

Lemma encode_record_Ok (value : T) field limit batch :
  encode_record value field limit = Ok batch ↔
    ∃ b, encode_record_ipc value limit = Ok b
         ∧ batch = mkRecordBatch (envelope_schema field) [BinaryArray [Some b]] 1.
Proof.
  unfold encode_record. rewrite result_bind_Ok. setoid_rewrite envelope_fits. naive_solver.
Qed.

Lemma decode_record_envelope field b limit :
  decode_record (mkRecordBatch (envelope_schema field) [BinaryArray [Some b]] 1) field limit
  = decode_record_ipc b limit.
Proof.
  unfold decode_record. rewrite bool_decide_eq_false_2 by (by intros []).
  unfold batch_binary_value, typed_value, column_by_name; simpl.
  by rewrite bool_decide_eq_true_2.
Qed.
End RecordCorrectness.
End EnvelopeCorrectness.
