(* ===== verification/Reference.v ===== *)
(** * Reference crates

    A small implementation of the interfaces of the Arrow crates: a byte
    serializer of schemas and batches with its parser, and from it concrete
    instances of [ArrowCrate], of the IPC stream and of struct arrays.  It
    shows that the contracts the development assumes of those crates can be
    met, and the examples of the other files compute with it. *)

From S2P Require Import Prelude Adbc WireError Options Arrow.

(** ** Serializers and parsers *)

Definition parser (A : Type) : Type := bytes → option (A * bytes).

(** [p] reads back what [s] writes, whatever follows. *)
Definition reads_back {A} (s : A → bytes) (p : parser A) : Prop :=
  ∀ a rest, p (s a ++ rest) = Some (a, rest).

Fixpoint ser_pos (p : positive) : bytes :=
  match p with
  | xH => [Byte.x02]
  | xO p => Byte.x00 :: ser_pos p
  | xI p => Byte.x01 :: ser_pos p
  end.

Fixpoint par_pos (b : bytes) : option (positive * bytes) :=
  match b with
  | Byte.x02 :: b => Some (xH, b)
  | Byte.x00 :: b => match par_pos b with Some (p, r) => Some (xO p, r) | None => None end
  | Byte.x01 :: b => match par_pos b with Some (p, r) => Some (xI p, r) | None => None end
  | _ => None
  end.

Lemma pos_reads_back : reads_back ser_pos par_pos.
Proof. intros p rest. induction p; simpl; rewrite ?IHp; done. Qed.

Definition ser_Z (z : Z) : bytes :=
  match z with Z0 => [Byte.x00] | Zpos p => Byte.x01 :: ser_pos p | Zneg p => Byte.x02 :: ser_pos p end.

Definition par_Z : parser Z := λ b,
  match b with
  | Byte.x00 :: b => Some (0, b)
  | Byte.x01 :: b => match par_pos b with Some (p, r) => Some (Zpos p, r) | None => None end
  | Byte.x02 :: b => match par_pos b with Some (p, r) => Some (Zneg p, r) | None => None end
  | _ => None
  end.

Lemma Z_reads_back : reads_back ser_Z par_Z.
Proof. intros [|p|p] rest; simpl; rewrite ?pos_reads_back; done. Qed.

Definition ser_bytes (b : bytes) : bytes := ser_Z (len b) ++ b.

Definition par_bytes : parser bytes := λ b,
  match par_Z b with
  | Some (n, r) => Some (take (Z.to_nat n) r, drop (Z.to_nat n) r)
  | None => None
  end.

Lemma bytes_reads_back : reads_back ser_bytes par_bytes.
Proof.
  intros b rest. unfold ser_bytes, par_bytes. rewrite <-app_assoc, Z_reads_back.
  unfold len. by rewrite Nat2Z.id, take_app_length, drop_app_length.
Qed.

Definition ser_string (s : string) : bytes := ser_bytes (as_bytes s).
Definition par_string : parser string := λ b,
  match par_bytes b with Some (s, r) => Some (from_bytes s, r) | None => None end.

Lemma string_reads_back : reads_back ser_string par_string.
Proof.
  intros s rest. unfold ser_string, par_string. rewrite bytes_reads_back.
  unfold from_bytes, as_bytes. by rewrite String.string_of_list_byte_of_string.
Qed.

Definition ser_bool (b : bool) : bytes := [if b then Byte.x01 else Byte.x00].
Definition par_bool : parser bool := λ b,
  match b with Byte.x01 :: r => Some (true, r) | Byte.x00 :: r => Some (false, r) | _ => None end.

Lemma bool_reads_back : reads_back ser_bool par_bool.
Proof. by intros [] rest. Qed.

Section Combinators.
Context {A B : Type} (s : A → bytes) (p : parser A) (t : B → bytes) (q : parser B).

Definition ser_pair (x : A * B) : bytes := s x.1 ++ t x.2.
Definition par_pair : parser (A * B) := λ b,
  match p b with
  | Some (x, r) => match q r with Some (y, r) => Some ((x, y), r) | None => None end
  | None => None
  end.

Lemma pair_reads_back : reads_back s p → reads_back t q → reads_back ser_pair par_pair.
Proof. intros Hs Ht [x y] rest. unfold ser_pair, par_pair. by rewrite <-app_assoc, Hs, Ht. Qed.

Definition ser_option (x : option A) : bytes :=
  match x with None => [Byte.x00] | Some a => Byte.x01 :: s a end.
Definition par_option : parser (option A) := λ b,
  match b with
  | Byte.x00 :: r => Some (None, r)
  | Byte.x01 :: r => match p r with Some (a, r) => Some (Some a, r) | None => None end
  | _ => None
  end.

Lemma option_reads_back : reads_back s p → reads_back ser_option par_option.
Proof. intros Hs [a|] rest; simpl; rewrite ?Hs; done. Qed.

Definition ser_list (l : list A) : bytes := ser_Z (len l) ++ concat (s <$> l).

Fixpoint par_many (n : nat) (b : bytes) : option (list A * bytes) :=
  match n with
  | O => Some ([], b)
  | S n =>
      match p b with
      | Some (a, r) => match par_many n r with Some (l, r) => Some (a :: l, r) | None => None end
      | None => None
      end
  end.

(** Every element takes a byte at least, which bounds the count. *)
Definition par_list : parser (list A) := λ b,
  match par_Z b with
  | Some (n, r) => if n <=? len b then par_many (Z.to_nat n) r else None
  | None => None
  end.

Lemma ser_Z_nonempty z : 1 ≤ len (ser_Z z).
Proof. destruct z; unfold len; simpl; lia. Qed.

Lemma many_reads_back l rest :
  reads_back s p → par_many (length l) (concat (s <$> l) ++ rest) = Some (l, rest).
Proof.
  intros Hs. induction l as [|a l IH]; csimpl; [done|]. by rewrite <-app_assoc, Hs, IH.
Qed.

Lemma len_concat l : (∀ a, 1 ≤ len (s a)) → len l ≤ len (concat (s <$> l)).
Proof.
  intros Hs. induction l as [|a l IH]; csimpl; [done|].
  rewrite len_cons, len_app. specialize (Hs a). lia.
Qed.

Lemma list_reads_back :
  reads_back s p → (∀ a, 1 ≤ len (s a)) → reads_back ser_list par_list.
Proof.
  intros Hs Hone l rest. unfold ser_list, par_list.
  rewrite <-app_assoc, Z_reads_back, !len_app.
  pose proof (ser_Z_nonempty (len l)). pose proof (len_concat l Hone). pose proof (len_nonneg rest).
  rewrite (proj2 (Z.leb_le _ _)) by lia. unfold len. rewrite Nat2Z.id. by apply many_reads_back.
Qed.
End Combinators.

(** ** Schemas and batches *)

Definition ser_type (t : DataType) : bytes :=
  match t with
  | Boolean => [Byte.x00] | Utf8 => [Byte.x01] | Binary => [Byte.x02] | Int64 => [Byte.x03]
  | OtherType name => Byte.x04 :: ser_string name
  end.
Definition par_type : parser DataType := λ b,
  match b with
  | Byte.x00 :: r => Some (Boolean, r) | Byte.x01 :: r => Some (Utf8, r)
  | Byte.x02 :: r => Some (Binary, r) | Byte.x03 :: r => Some (Int64, r)
  | Byte.x04 :: r => match par_string r with Some (s, r) => Some (OtherType s, r) | None => None end
  | _ => None
  end.

Lemma type_reads_back : reads_back ser_type par_type.
Proof. intros [] rest; simpl; rewrite ?string_reads_back; done. Qed.

Definition ser_meta := ser_list (ser_pair ser_string ser_string).
Definition par_meta := par_list (par_pair par_string par_string).

Lemma ser_string_nonempty s : 1 ≤ len (ser_string s).
Proof.
  unfold ser_string, ser_bytes. rewrite len_app.
  pose proof (ser_Z_nonempty (len (as_bytes s))). len_lia.
Qed.

Lemma meta_reads_back : reads_back ser_meta par_meta.
Proof.
  apply list_reads_back; [apply pair_reads_back; apply string_reads_back|].
  intros [a b]. unfold ser_pair; simpl. rewrite len_app.
  pose proof (ser_string_nonempty a). len_lia.
Qed.

Definition field_tuple (f : Field) : (string * DataType) * (bool * list (string * string)) :=
  ((f_name f, f_type f), (f_nullable f, f_metadata f)).
Definition tuple_field (x : (string * DataType) * (bool * list (string * string))) : Field :=
  mkField x.1.1 x.1.2 x.2.1 x.2.2.

Definition ser_field (f : Field) : bytes :=
  ser_pair (ser_pair ser_string ser_type) (ser_pair ser_bool ser_meta) (field_tuple f).
Definition par_field : parser Field := λ b,
  match par_pair (par_pair par_string par_type) (par_pair par_bool par_meta) b with
  | Some (x, r) => Some (tuple_field x, r)
  | None => None
  end.

Lemma field_reads_back : reads_back ser_field par_field.
Proof.
  intros f rest. unfold ser_field, par_field. rewrite pair_reads_back; [by destruct f| |];
    apply pair_reads_back;
    auto using string_reads_back, type_reads_back, bool_reads_back, meta_reads_back.
Qed.

Lemma ser_field_nonempty f : 1 ≤ len (ser_field f).
Proof.
  unfold ser_field, ser_pair; simpl. rewrite <-app_assoc, len_app.
  pose proof (ser_string_nonempty (f_name f)). len_lia.
Qed.

Definition ser_schema : list Field → bytes := ser_list ser_field.
Definition par_schema : parser (list Field) := par_list par_field.

Lemma schema_reads_back : reads_back ser_schema par_schema.
Proof. apply list_reads_back; [apply field_reads_back|apply ser_field_nonempty]. Qed.

Lemma ser_option_nonempty {A} (s : A → bytes) x : 1 ≤ len (ser_option s x).
Proof. destruct x as [a|]; [|done]. simpl. rewrite len_cons. len_lia. Qed.

Definition ser_column (c : Column) : bytes :=
  match c with
  | StringArray v => Byte.x00 :: ser_list (ser_option ser_string) v
  | BinaryArray v => Byte.x01 :: ser_list (ser_option ser_bytes) v
  | Int64Array v => Byte.x02 :: ser_list (ser_option ser_Z) v
  | BooleanArray v => Byte.x03 :: ser_list (ser_option ser_bool) v
  | OtherArray name tag => Byte.x04 :: ser_pair ser_string ser_Z (name, tag)
  end.

Definition fmap_parser {A B} (f : A → B) (r : option (A * bytes)) : option (B * bytes) :=
  match r with Some (a, r) => Some (f a, r) | None => None end.

Definition par_column : parser Column := λ b,
  match b with
  | Byte.x00 :: r => fmap_parser StringArray (par_list (par_option par_string) r)
  | Byte.x01 :: r => fmap_parser BinaryArray (par_list (par_option par_bytes) r)
  | Byte.x02 :: r => fmap_parser Int64Array (par_list (par_option par_Z) r)
  | Byte.x03 :: r => fmap_parser BooleanArray (par_list (par_option par_bool) r)
  | Byte.x04 :: r => fmap_parser (λ x, OtherArray x.1 x.2) (par_pair par_string par_Z r)
  | _ => None
  end.

Lemma options_read_back {A} (s : A → bytes) p :
  reads_back s p → reads_back (ser_list (ser_option s)) (par_list (par_option p)).
Proof. intros Hs. apply list_reads_back; [by apply option_reads_back|apply ser_option_nonempty]. Qed.

Lemma column_reads_back : reads_back ser_column par_column.
Proof.
  intros [v|v|v|v|name tag] rest; simpl;
    rewrite ?(options_read_back _ _ string_reads_back), ?(options_read_back _ _ bytes_reads_back),
      ?(options_read_back _ _ Z_reads_back), ?(options_read_back _ _ bool_reads_back),
      ?(pair_reads_back _ _ _ _ string_reads_back Z_reads_back); done.
Qed.

Lemma ser_column_nonempty c : 1 ≤ len (ser_column c).
Proof. destruct c; simpl; rewrite len_cons; len_lia. Qed.

Definition ser_batch (b : RecordBatch) : bytes :=
  ser_pair ser_schema (ser_pair (ser_list ser_column) ser_Z)
    (rb_fields b, (rb_columns b, num_rows b)).
Definition par_batch : parser RecordBatch := λ b,
  fmap_parser (λ x, mkRecordBatch x.1 x.2.1 x.2.2)
    (par_pair par_schema (par_pair (par_list par_column) par_Z) b).

Lemma batch_reads_back : reads_back ser_batch par_batch.
Proof.
  intros b rest. unfold ser_batch, par_batch. rewrite pair_reads_back; [by destruct b| |].
  - apply schema_reads_back.
  - apply pair_reads_back; [|apply Z_reads_back].
    apply list_reads_back; [apply column_reads_back|apply ser_column_nonempty].
Qed.

Lemma ser_batch_nonempty b : 1 ≤ len (ser_batch b).
Proof.
  unfold ser_batch, ser_pair, ser_schema, ser_list; simpl. rewrite !len_app.
  pose proof (ser_Z_nonempty (len (rb_fields b))).
  len_lia.
Qed.

(** ** The Arrow crate *)

Definition ref_try_new (fields : list Field) (columns : list Column) : result ArrowError RecordBatch :=
  match columns with
  | [] => Err (SchemaError "no columns")
  | c :: _ =>
      match column_rows c with
      | Some rows =>
          if bool_decide (length fields = length columns)
             && forallb (λ fc, column_fits rows fc.1 fc.2) (zip fields columns)
          then Ok (mkRecordBatch fields columns rows)
          else Err (SchemaError "columns do not fit the schema")
      | None => Err (SchemaError "unsupported column")
      end
  end.

Lemma ref_try_new_fits fields columns rows :
  fields ≠ [] → length fields = length columns →
  Forall (λ fc, column_fits rows fc.1 fc.2 = true) (zip fields columns) →
  ref_try_new fields columns = Ok (mkRecordBatch fields columns rows).
Proof.
  intros Hne Hlen Hall. destruct fields as [|f fields]; [done|].
  destruct columns as [|c columns]; [done|]. simpl in Hall.
  pose proof Hall as [Hc _]%Forall_cons. simpl in Hc. unfold ref_try_new.
  assert (column_rows c = Some rows) as ->.
  { unfold column_fits in Hc. by reflect_bools. }
  rewrite bool_decide_eq_true_2 by done.
  rewrite (proj2 (forallb_forall _ _)); [done|].
  intros x Hx. rewrite Forall_forall in Hall. by apply Hall, list_elem_of_In.
Qed.

Lemma ref_schema_decodes (s : list Field) :
  ∃ m, Some (ser_schema s) = Some m ∧ fst <$> par_schema m = Some s.
Proof.
  exists (ser_schema s). split; [done|].
  by rewrite <-(app_nil_r (ser_schema s)), schema_reads_back.
Qed.

Definition ref_arrow : ArrowCrate := {|
  Schema := list Field;
  ipc_message := bytes;
  try_new := ref_try_new;
  schema_message := ser_schema;
  root_as_message b := Some b;
  header_as_schema m := fst <$> par_schema m;
  bodyLength _ := 0;
  try_new_fits := ref_try_new_fits;
  schema_message_decodes := ref_schema_decodes
|}.

Definition ref_schema (fields : list Field) : @Schema ref_arrow := fields.
