(* ===== verification/ReferenceIpc.v ===== *)
(** * Reference IPC streams

    Instances of [IpcCrate], [StructCrate] and [VgiArrow] over the serializer
    of [Reference]: a stream is one frame whose metadata holds the batches,
    followed by the end-of-stream marker.  The examples of the later files
    compute with them. *)

From S2P Require Import Prelude Adbc WireError Options Arrow Framing Envelope Reference.

(** [i32::to_le_bytes] of a non-negative length. *)
Definition byte_of (z : Z) : byte := default Byte.x00 (Byte.of_N (Z.to_N (z mod 256))).
Definition le4 (n : Z) : bytes :=
  [byte_of n; byte_of (n / 2 ^ 8); byte_of (n / 2 ^ 16); byte_of (n / 2 ^ 24)].

Lemma byte_val_of z : byte_val (byte_of z) = z mod 256.
Proof.
  unfold byte_val, byte_of. pose proof (Z.mod_pos_bound z 256 ltac:(lia)).
  destruct (Byte.of_N (Z.to_N (z mod 256))) as [b|] eqn:Hb.
  - apply Byte.to_of_N in Hb. simpl. rewrite Hb. lia.
  - apply Byte.of_N_None_iff in Hb. lia.
Qed.

Lemma le4_value n : 0 ≤ n < 2 ^ 31 → i32_from_le_bytes (le4 n) = n.
Proof.
  intros Hn. unfold i32_from_le_bytes, le4. simpl. rewrite !byte_val_of.
  change (2 ^ 8) with 256. change (2 ^ 16) with 65536. change (2 ^ 24) with 16777216.
  replace (n mod 256 + 256 * ((n / 256) mod 256) + 65536 * ((n / 65536) mod 256)
           + 16777216 * ((n / 16777216) mod 256)) with n; [|].
  - unfold wrap_signed. change (32 - 1) with 31. change (2 ^ 32) with (2 ^ 31 + 2 ^ 31).
    rewrite Z.mod_small; lia.
  - rewrite (Z.mod_small (n / 16777216)) by (split; [apply Z.div_pos; lia|apply Z.div_lt_upper_bound; [lia|]; change (2 ^ 31) with 2147483648 in Hn; lia]).
    change 65536 with (256 * 256). change 16777216 with (256 * 256 * 256).
    rewrite <-!Z.div_div by lia.
    pose proof (Z.div_mod n 256). pose proof (Z.div_mod (n / 256) 256).
    pose proof (Z.div_mod (n / 256 / 256) 256). lia.
Qed.

Definition ser_batches : list RecordBatch → bytes := ser_list ser_batch.
Definition par_batches : parser (list RecordBatch) := par_list par_batch.

Definition ref_frame (batches : list RecordBatch) : bytes :=
  le4 (len (ser_batches batches)) ++ ser_batches batches ++ le4 0.

Definition ref_finish (batches : list RecordBatch) : Phase unit :=
  if len (ser_batches batches) <? 2 ^ 31
  then ([le4 (len (ser_batches batches)); ser_batches batches; le4 0], Ok tt)
  else ([], Err (ArrowOther "metadata too large")).

Definition ref_open (b : bytes) : result ArrowError (list (result ArrowError RecordBatch)) :=
  let n := i32_from_le_bytes (take 4 b) in
  match par_batches (take (Z.to_nat n) (drop 4 b)) with
  | Some (batches, []) => Ok (Ok <$> batches)
  | _ => Err (ArrowOther "not a stream")
  end.

Definition ref_new (schema : list Field) : Phase (list RecordBatch) := ([], Ok []).
Definition ref_write (w : list RecordBatch) (batch : RecordBatch) : Phase (list RecordBatch) :=
  ([], Ok (w ++ [batch])).

Lemma ref_emits_batches w batches b :
  emits_batches ref_write ref_finish w batches b →
  len (ser_batches (w ++ batches)) < 2 ^ 31 ∧ b = ref_frame (w ++ batches).
Proof.
  induction 1 as [w chunks Hf|w chunks w' batch batches rest Hw _ [IH1 IH2]].
  - rewrite app_nil_r. unfold ref_finish in Hf. destruct (Z.ltb_spec (len (ser_batches w)) (2 ^ 31));
      [|done]. injection Hf as <-. split; [done|]. unfold ref_frame. cbn [concat]. by rewrite app_nil_r.
  - injection Hw as <- <-. rewrite <-(app_assoc w) in *. by rewrite IH2.
Qed.

Lemma ser_batches_nonempty batches : 1 ≤ len (ser_batches batches).
Proof.
  unfold ser_batches, ser_list. rewrite len_app. pose proof (ser_Z_nonempty (len batches)). len_lia.
Qed.

Section Frames.
#[local] Existing Instance ref_arrow.

Lemma ref_emits schema batches b :
  emits ref_new ref_write ref_finish schema batches b →
  len (ser_batches batches) < 2 ^ 31 ∧ b = ref_frame batches.
Proof.
  destruct 1 as [chunks w rest Hn Hb]. injection Hn as <- <-. by apply ref_emits_batches in Hb.
Qed.

Lemma ref_framed schema batches b :
  emits ref_new ref_write ref_finish schema batches b → ipc_frames b.
Proof.
  intros [Hlt ->]%ref_emits. pose proof (ser_batches_nonempty batches). unfold ref_frame.
  assert (i32_from_le_bytes (le4 (len (ser_batches batches))) = len (ser_batches batches)) as Hn.
  { apply le4_value. len_lia. }
  replace (ser_batches batches ++ le4 0) with (ser_batches batches ++ [] ++ le4 0) by done.
  eapply (frames_message _ (len (ser_batches batches))); try done.
  - rewrite <-Hn at 2. apply bare_prefix; [done|]. rewrite Hn. len_lia.
  - lia.
  - apply frames_end. by apply (bare_prefix (le4 0)).
Qed.

Lemma ref_reads schema batches b :
  emits ref_new ref_write ref_finish schema batches b → ref_open b = Ok (Ok <$> batches).
Proof.
  intros [Hlt ->]%ref_emits. unfold ref_open, ref_frame.
  change (take 4 (le4 ?n ++ _)) with (le4 n). change (drop 4 (le4 _ ++ ?r)) with r.
  rewrite le4_value by len_lia. unfold len. rewrite Nat2Z.id, take_app_length.
  rewrite <-(app_nil_r (ser_batches batches)) at 1. unfold par_batches, ser_batches.
  rewrite list_reads_back; [done|apply batch_reads_back|apply ser_batch_nonempty].
Qed.

Definition ref_ipc : IpcCrate := {|
  batch_schema := rb_fields;
  get_array_memory_size _ := 0;
  writer := list RecordBatch;
  sw_try_new := ref_new;
  sw_write := ref_write;
  sw_finish := ref_finish;
  io_to_arrow := ArrowOther;
  sr_open := ref_open;
  reader_layout _ := [];
  stream_framed := ref_framed;
  stream_reads := ref_reads
|}.
End Frames.

(** ** Struct arrays *)

Definition column_nulls (c : Column) : Z := if null_free c then 0 else 1.

Definition ref_struct : StructCrate := {|
  StructArray := RecordBatch;
  struct_type := list Field;
  data_type := rb_fields;
  struct_view b :=
    StructArr 0 (zip_with (λ f c, (f_nullable f, LeafArr (column_nulls c)))
                   (rb_fields b) (rb_columns b));
  batch_of_struct b := b;
  struct_of_batch b := b;
  struct_of_batch_of_struct b := eq_refl
|}.

(** A record as the batch of its columns. *)
Section Records.
Context {T : Type} (fields : list Field) (columns : T → list Column)
        (read : list Column → option T).
Context (read_columns : ∀ v, read (columns v) = Some v).

Definition record_batch (v : T) : RecordBatch := mkRecordBatch fields (columns v) 1.
Definition record_build (v : T) : result string (option RecordBatch) := Ok (Some (record_batch v)).
Definition record_read (s : RecordBatch) : result string T :=
  ok_or (read (rb_columns s)) "unexpected columns".

Lemma record_build_type v s : record_build v = Ok (Some s) → rb_fields s = fields.
Proof. by intros [= <-]. Qed.
Lemma record_build_rows v s : record_build v = Ok (Some s) → num_rows s = 1.
Proof. by intros [= <-]. Qed.
Lemma record_build_read v s : record_build v = Ok (Some s) → record_read s = Ok v.
Proof. intros [= <-]. unfold record_read; simpl. by rewrite read_columns. Qed.

Definition ref_record : @VgiArrow ref_struct T :=
  Build_VgiArrow ref_struct T record_build fields record_read
    record_build_type record_build_rows record_build_read.
End Records.

Definition session_response_columns (v : SessionResponse) : list Column :=
  [StringArray [Some (sr_session_id v)]].
Definition session_response_read (c : list Column) : option SessionResponse :=
  match c with [StringArray [Some id]] => Some (mkSessionResponse id) | _ => None end.

Definition ref_session_response : @VgiArrow ref_struct SessionResponse :=
  ref_record [utf8_field "session_id"] session_response_columns session_response_read
    (λ v, match v with mkSessionResponse _ => eq_refl end).

Definition table_schema_columns (v : GetTableSchemaRequest) : list Column :=
  [StringArray [Some (gts_session_id v)]; StringArray [gts_catalog v];
   StringArray [gts_db_schema v]; StringArray [Some (gts_table_name v)]].
Definition table_schema_read (c : list Column) : option GetTableSchemaRequest :=
  match c with
  | [StringArray [Some s]; StringArray [c]; StringArray [d]; StringArray [Some t]] =>
      Some (mkGetTableSchemaRequest s c d t)
  | _ => None
  end.

Definition ref_table_schema : @VgiArrow ref_struct GetTableSchemaRequest :=
  ref_record [utf8_field "session_id"; Field_new "catalog" Utf8 true;
              Field_new "db_schema" Utf8 true; utf8_field "table_name"]
    table_schema_columns table_schema_read
    (λ v, match v with mkGetTableSchemaRequest _ _ _ _ => eq_refl end).
