(* ===== verification/EnvelopeTheorems.v ===== *)
(** * The wire format: main theorems

    What the decoders of grainlift-protocol accept and return: the framing
    check, the bounded batch codec, typed requests and responses, bind turns,
    and the accounting of decoded memory.  Each theorem is applied once to the
    reference crates. *)

From S2P Require Import Prelude Adbc WireError Options Arrow Framing Envelope.
From S2P Require Import Reference ReferenceIpc.

Section Theorems.
Context `{IpcCrate} `{!StructCrate}.

(** C21: the framing loop returns on every slice: the fuel the model gives it,
    one pass per byte, is never exhausted. *)
Theorem validate_ipc_terminates b limit :
  slice_ok b → ∃ r, validate_ipc b limit = Some r.
Proof. apply validate_ipc_total. Qed.

(** C22: [validate_ipc] accepts a payload exactly when it fits the limit and is
    a sequence of whole frames (prefix with or without continuation marker,
    metadata that parses, body of the announced length) closed by an
    end-of-stream marker with nothing behind it. *)
Theorem validate_ipc_decides_grammar b limit :
  slice_ok b → validate_ipc b limit = Some (Ok tt) ↔ len b ≤ limit ∧ ipc_frames b.
Proof. apply validate_ipc_accepts. Qed.

(** [encode_batch_ipc] returns exactly the stream the IPC writer emits for
    the one batch, and does so exactly when neither the batch's memory nor the
    stream exceeds the limit: the bounded sink neither truncates nor lets an
    oversized payload through. *)
Theorem encode_batch_ipc_exact batch limit b :
  0 ≤ limit →
  encode_batch_ipc batch limit = Ok b ↔
    get_array_memory_size batch ≤ limit
    ∧ emits sw_try_new sw_write sw_finish (batch_schema batch) [batch] b
    ∧ len b ≤ limit.
Proof. apply encode_batch_ipc_Ok. Qed.

(** [decode_batch_ipc] returns a batch exactly when the payload fits the
    limit, is well framed, holds that one batch and nothing else, and the
    memory the decoded batch pins fits the limit too. *)
Theorem decode_batch_ipc_exact b limit batch :
  slice_ok b →
  decode_batch_ipc b limit = Ok batch ↔
    len b ≤ limit ∧ ipc_frames b ∧ sr_open b = Ok [Ok batch] ∧ batch_buffer_bytes b ≤ limit.
Proof. apply decode_batch_ipc_Ok. Qed.

Section Records.
Context {T : Type} `{!VgiArrow T}.

(** A response the server could encode is one row of the fixed envelope
    whose payload fits the server's limit, and a client whose limit covers the
    payload and the memory it decodes to reads the same response back. *)
Theorem response_roundtrip `{!ResponseRecord T} (value : T) limit outer :
  0 ≤ limit → encode_response value limit = Ok outer →
  ∃ b, outer = mkRecordBatch (envelope_schema "result") [BinaryArray [Some b]] 1 ∧ len b ≤ limit
    ∧ ∀ limit', slice_ok b → len b ≤ limit' → batch_buffer_bytes b ≤ limit' →
        decode_response outer limit' = Ok value.
Proof.
  intros Hl He. unfold encode_response in He. apply result_bind_unit_Ok in He as [Hv He].
  apply encode_record_Ok in He as (b & Hb & ->). exists b. split; [done|].
  split; [by eapply encode_record_ipc_bound|]. intros limit' Hs Hlen Hmem.
  unfold decode_response. rewrite decode_record_envelope.
  rewrite (record_ipc_roundtrip value limit limit' b) by done. simpl. by rewrite Hv.
Qed.

(** A request the client could encode is validated, fits the limit with
    its whole outer envelope, and a server whose limit covers the payload and
    the memory it decodes to reads the same request back. *)
Theorem request_roundtrip `{!RequestRecord T} (value : T) limit outer :
  0 ≤ limit → encode_request value limit = Ok outer →
  request_validate value = Ok tt
  ∧ (∃ wire, encode_batch_ipc outer limit = Ok wire ∧ len wire ≤ limit)
  ∧ ∃ b, outer = mkRecordBatch (envelope_schema "request") [BinaryArray [Some b]] 1
    ∧ ∀ limit', slice_ok b → len b ≤ limit' → batch_buffer_bytes b ≤ limit' →
        decode_request outer limit' = Ok value.
Proof.
  intros Hl He. unfold encode_request in He. apply result_bind_unit_Ok in He as [Hv He].
  apply result_bind_Ok in He as (batch & Hrec & He).
  apply result_bind_Ok in He as (wire & Hw & [= <-]). split; [done|]. split.
  { exists wire. split; [done|]. by apply encode_batch_ipc_Ok in Hw as (_ & _ & ?). }
  apply encode_record_Ok in Hrec as (b & Hb & ->). exists b. split; [done|].
  intros limit' Hs Hlen Hmem. unfold decode_request. rewrite decode_record_envelope.
  rewrite (record_ipc_roundtrip value limit limit' b) by done. simpl. by rewrite Hv.
Qed.

(** C36: whatever the bytes, a request the server decodes came in an envelope
    of the exact schema with one row, from a payload within the limit that is
    well framed, holds one batch, pins no more memory than the limit and has no
    null in a required field, and it passed the request's own validation. *)
Theorem decode_request_checked `{!RequestRecord T} (value : T) limit outer :
  (∀ b, batch_binary_value outer "request" = Ok b → slice_ok b) →
  decode_request outer limit = Ok value →
  rb_fields outer = envelope_schema "request" ∧ num_rows outer = 1
  ∧ request_validate value = Ok tt
  ∧ ∃ b batch, batch_binary_value outer "request" = Ok b ∧ len b ≤ limit ∧ ipc_frames b
    ∧ sr_open b = Ok [Ok batch] ∧ batch_buffer_bytes b ≤ limit ∧ num_rows batch = 1
    ∧ validate_array (struct_view (struct_of_batch batch)) false = Ok tt.
Proof.
  intros Hslice Hd. unfold decode_request in Hd. inv_ok.
  unfold decode_record in Hx. case_bool_decide as Hfields; [done|]. inv_ok.
  pose proof Hx1 as (Hrows & _)%typed_value_Ok.
  unfold decode_record_ipc in Hx. inv_ok. reflect_bools.
  apply decode_batch_ipc_Ok in Hx2 as (? & ? & ? & ?); [|by apply Hslice].
  apply require_one_row_Ok in Hx3.
  split; [done|]. split; [done|]. split; [done|]. exists x, x0. auto 10.
Qed.
End Records.

(** A bind turn carries what it was built from: [Some batch] decodes to the
    batch, [None] to the end of the upload. *)
Theorem bind_turn_roundtrip batch limit limit' turn :
  0 ≤ limit → encode_bind_turn batch limit = Ok turn →
  (∀ b, batch_binary_value turn "batch_ipc" = Ok b →
     slice_ok b ∧ len b ≤ limit' ∧ batch_buffer_bytes b ≤ limit') →
  decode_bind_turn turn limit' = Ok batch.
Proof.
  intros Hl He Hfits. unfold encode_bind_turn in He. apply result_bind_Ok in He as (payload & Hp & He).
  apply map_err_Ok in He.
  rewrite try_new_row in He by (first [done | repeat constructor]). injection He as <-.
  assert (batch_binary_value (mkRecordBatch bind_turn_schema
    [BinaryArray [Some payload]; BooleanArray [Some (bool_decide (batch = None))]] 1) "batch_ipc"
    = Ok payload) as Hb by done.
  destruct (Hfits payload Hb) as (Hs & Hlen & Hmem). unfold decode_bind_turn.
  rewrite Hb. rewrite bool_decide_eq_false_2 by (by intros []). simpl.
  destruct batch as [batch|]; simpl.
  - by rewrite (batch_roundtrip batch limit limit' payload).
  - by injection Hp as <-.
Qed.
End Theorems.

(** The memory charged to a decoded batch is the sum, over the distinct
    allocations its buffers point into, of the largest extent any of them
    covers, capped at [usize::MAX]: shared allocations count once and none is
    left out, however the arrays nest. *)
Theorem buffer_bytes_counts_allocations columns :
  Forall buffer_ok (all_buffers columns) →
  ∃ sizes : gmap Z Z,
    (∀ p s, sizes !! p = Some s ↔ largest (all_buffers columns) p s)
    ∧ buffer_bytes columns = Z.min usize_max (map_fold (λ _ size total, total + size) 0 sizes).
Proof. apply buffer_bytes_spec. Qed.

(** The null check accepts a typed record exactly when no array in a
    required position, at any depth of structs and lists, holds a null. *)
Theorem validate_array_required a nullable :
  validate_array a nullable = Ok tt ↔ ∀ r, required_at a nullable r → null_count r = 0.
Proof. apply validate_array_Ok. Qed.

(** ** Examples on the reference crates *)

#[local] Existing Instance ref_arrow.
#[local] Existing Instance ref_ipc.
#[local] Existing Instance ref_struct.
#[local] Existing Instance ref_session_response.
#[local] Existing Instance ref_table_schema.

Definition example_batch : RecordBatch :=
  mkRecordBatch [utf8_field "name"] [StringArray [Some "grain"; Some "lift"]] 2.

Lemma validate_ipc_terminates_witness :
  ∃ r, validate_ipc (ref_frame [example_batch]) 1000 = Some r.
Proof. apply validate_ipc_terminates. vm_compute. discriminate. Defined.

Lemma validate_ipc_decides_grammar_witness :
  validate_ipc (ref_frame [example_batch]) 1000 = Some (Ok tt)
  ∧ ipc_frames (ref_frame [example_batch]).
Proof.
  assert (validate_ipc (ref_frame [example_batch]) 1000 = Some (Ok tt)) as Hv by (vm_compute; reflexivity).
  split; [exact Hv|].
  apply (proj1 (validate_ipc_decides_grammar (ref_frame [example_batch]) 1000
    ltac:(vm_compute; discriminate))) in Hv. apply Hv.
Defined.

Lemma encode_batch_ipc_exact_witness :
  encode_batch_ipc example_batch 1000 = Ok (ref_frame [example_batch])
  ∧ len (ref_frame [example_batch]) ≤ 1000.
Proof.
  assert (encode_batch_ipc example_batch 1000 = Ok (ref_frame [example_batch])) as He
    by (vm_compute; reflexivity).
  split; [exact He|].
  apply (proj1 (encode_batch_ipc_exact example_batch 1000 (ref_frame [example_batch])
    ltac:(vm_compute; discriminate))) in He. apply He.
Defined.

Lemma decode_batch_ipc_exact_witness :
  decode_batch_ipc (ref_frame [example_batch]) 1000 = Ok example_batch
  ∧ sr_open (ref_frame [example_batch]) = Ok [Ok example_batch].
Proof.
  assert (decode_batch_ipc (ref_frame [example_batch]) 1000 = Ok example_batch) as Hd
    by (vm_compute; reflexivity).
  split; [exact Hd|].
  apply (proj1 (decode_batch_ipc_exact (ref_frame [example_batch]) 1000 example_batch
    ltac:(vm_compute; discriminate))) in Hd. apply Hd.
Defined.

Definition example_session : SessionResponse := mkSessionResponse "7f3e".

Definition example_response : RecordBatch :=
  Eval vm_compute in
    default example_batch (result_ok (encode_response example_session MAX_CONTROL_BYTES)).

Lemma response_roundtrip_witness :
  decode_response example_response MAX_CONTROL_BYTES = Ok example_session.
Proof.
  destruct (response_roundtrip example_session MAX_CONTROL_BYTES example_response)
    as (b & Hb & Hlen & Hround).
  - vm_compute. discriminate.
  - vm_compute. reflexivity.
  - apply Hround.
    + unfold slice_ok. etransitivity; [exact Hlen|]. vm_compute. discriminate.
    + exact Hlen.
    + vm_compute. discriminate.
Defined.

Definition example_request : GetTableSchemaRequest :=
  mkGetTableSchemaRequest "7f3e" (Some "main") None "orders".

Definition example_request_batch : RecordBatch :=
  Eval vm_compute in
    default example_batch (result_ok (encode_request example_request MAX_CONTROL_BYTES)).

Lemma request_roundtrip_witness :
  request_validate example_request = Ok tt.
Proof.
  apply (request_roundtrip example_request MAX_CONTROL_BYTES example_request_batch).
  - vm_compute. discriminate.
  - vm_compute. reflexivity.
Defined.

Lemma decode_request_checked_witness :
  num_rows example_request_batch = 1.
Proof.
  apply (decode_request_checked example_request MAX_CONTROL_BYTES example_request_batch).
  - intros b Hb. vm_compute in Hb. injection Hb as <-. vm_compute. discriminate.
  - vm_compute. reflexivity.
Defined.

Definition example_turn : RecordBatch :=
  Eval vm_compute in
    default example_batch (result_ok (encode_bind_turn (Some example_batch) 1000)).

Lemma bind_turn_roundtrip_witness :
  decode_bind_turn example_turn 1000 = Ok (Some example_batch).
Proof.
  apply (bind_turn_roundtrip (Some example_batch) 1000 1000 example_turn).
  - vm_compute. discriminate.
  - vm_compute. reflexivity.
  - intros b Hb. vm_compute in Hb. injection Hb as <-.
    split; [vm_compute; discriminate|split; vm_compute; discriminate].
Defined.

Definition example_columns : list ArrayData :=
  [mkArrayData [mkBuffer 4096 64 0 40; mkBuffer 4096 64 40 24] (Some (mkBuffer 8192 64 0 8)) []].

Lemma buffer_bytes_counts_allocations_witness :
  buffer_bytes example_columns = 128
  ∧ ∃ sizes : gmap Z Z, ∀ p s, sizes !! p = Some s ↔ largest (all_buffers example_columns) p s.
Proof.
  split; [vm_compute; reflexivity|].
  destruct (buffer_bytes_counts_allocations example_columns) as (sizes & Hs & _).
  - repeat constructor; vm_compute; discriminate.
  - exists sizes. exact Hs.
Defined.
