(* ===== verification/Config.v ===== *)
(** * Operator configuration and policy
      (grainlift-server/src/config.rs; [SessionLimits] and [TargetAuthorizer] of
      grainlift-server/src/session.rs)

    The configuration records, loading, [Config::validate] branch by branch, the
    policy on client-supplied options and the principal-to-target allowlist.
    Deserialising TOML is a library's: [toml_from_str] gives the parsed record.  A
    Rust [HashMap] is a [gmap]; a loop over one visits [map_to_list], an order the
    program may not rely on. *)

From S2P Require Import Prelude Adbc WireError Arrow.

(** ** Session limits *)

Record SessionLimits : Type := mkSessionLimits {
  max_sessions : Z;
  max_sessions_per_principal : Z;
  max_statements_per_session : Z;
  max_results_per_session : Z
}.

Definition SessionLimits_default : SessionLimits := mkSessionLimits 1024 32 64 64.

Definition limits_validate (l : SessionLimits) : result string unit :=
  if (max_sessions l =? 0) || (max_sessions_per_principal l =? 0)
     || (max_statements_per_session l =? 0) || (max_results_per_session l =? 0)
  then Err "all session, statement, and result limits must be positive"
  else if max_sessions l <? max_sessions_per_principal l
  then Err "max_sessions_per_principal must not exceed max_sessions"
  else Ok tt.

(** ** The principal-to-target allowlist *)

Record TargetAuthorizer : Type := mkTargetAuthorizer {
  permissions : option (gmap string (gset string))
}.

Definition TargetAuthorizer_default : TargetAuthorizer := mkTargetAuthorizer None.

Definition TargetAuthorizer_new (rules : gmap string (list string)) : TargetAuthorizer :=
  if bool_decide (rules = ∅) then TargetAuthorizer_default
  else mkTargetAuthorizer (Some (list_to_set <$> rules)).

Definition allows (a : TargetAuthorizer) (principal target : string) : bool :=
  match permissions a with
  | None => true
  | Some rules =>
      let principal_name :=
        match split_once_nul principal with Some (_, name) => name | None => principal end in
      let granted :=
        match rules !! principal_name with
        | Some targets => Some targets
        | None => rules !! principal
        end in
      match granted with
      | Some targets => bool_decide ("*" ∈ targets) || bool_decide (target ∈ targets)
      | None => false
      end
  end.

(** ** Configuration records *)

Inductive IpAddr : Type := V4 (a b c d : Z) | V6 (bits : Z).
Record SocketAddr : Type := mkSocketAddr { ip : IpAddr; port : Z }.

(** 127.0.0.0/8, and ::1. *)
Definition is_loopback (a : IpAddr) : bool :=
  match a with V4 a _ _ _ => a =? 127 | V6 bits => bits =? 1 end.

Record TcpTlsConfig : Type := mkTcpTlsConfig {
  server_certificate_chain : string;
  server_private_key : string;
  client_ca : string;
  trust_domains : list string;
  handshake_timeout_seconds : Z
}.

Record TcpConfig : Type := mkTcpConfig {
  tcp_listen : SocketAddr; allow_insecure : bool; tls : option TcpTlsConfig
}.

Record IrohConfig : Type := mkIrohConfig {
  iroh_issuer : string;
  secret_key_file : string;
  endpoint_info_file : option string;
  principals : gmap string string;
  disable_relays : bool;
  max_active_streams : Z;
  max_active_streams_per_connection : Z
}.

Definition default_tls_handshake_timeout_seconds : Z := 5.
Definition default_iroh_max_active_streams : Z := 1024.
Definition default_iroh_max_active_streams_per_connection : Z := 64.

Record ServerConfig : Type := mkServerConfig {
  listen : SocketAddr;
  session_ttl_seconds : Z;
  session_reap_interval_seconds : Z;
  require_authentication : bool;
  allow_insecure_remote : bool;
  request_timeout_seconds : Z;
  driver_operation_timeout_seconds : Z;
  shutdown_grace_seconds : Z;
  max_request_body_bytes : Z;
  max_bind_bytes : Z;
  sc_max_sessions : Z;
  sc_max_sessions_per_principal : Z;
  sc_max_statements_per_session : Z;
  sc_max_results_per_session : Z
}.

Definition ServerConfig_default : ServerConfig := {|
  listen := mkSocketAddr (V4 127 0 0 1) 8080;
  session_ttl_seconds := 3600;
  session_reap_interval_seconds := 30;
  require_authentication := true;
  allow_insecure_remote := false;
  request_timeout_seconds := 300;
  driver_operation_timeout_seconds := 270;
  shutdown_grace_seconds := 30;
  max_request_body_bytes := MAX_BIND_STREAM_BYTES + BIND_ENVELOPE_HEADROOM_BYTES;
  max_bind_bytes := MAX_BIND_STREAM_BYTES;
  sc_max_sessions := 1024;
  sc_max_sessions_per_principal := 32;
  sc_max_statements_per_session := 64;
  sc_max_results_per_session := 64
|}.

Definition session_limits (c : ServerConfig) : SessionLimits :=
  mkSessionLimits (sc_max_sessions c) (sc_max_sessions_per_principal c)
    (sc_max_statements_per_session c) (sc_max_results_per_session c).

Record JwtAuthConfig : Type := mkJwtAuthConfig {
  jwt_issuer : string;
  audience : string;
  jwks_url : string;
  principal_claim : string;
  refresh_interval_seconds : Z;
  leeway_seconds : Z
}.

Definition default_principal_claim : string := "sub".
Definition default_jwks_refresh_seconds : Z := 600.
Definition default_jwt_leeway_seconds : Z := 30.

Record AuthConfig : Type := mkAuthConfig {
  static_bearer_tokens : gmap string string;
  jwt : option JwtAuthConfig;
  target_permissions : gmap string (list string)
}.

Record TargetConfig : Type := mkTargetConfig {
  driver : string;
  entrypoint : option string;
  database_options : list WireOption;
  connection_options : list WireOption;
  allow_client_database_options : bool;
  allow_client_connection_options : bool;
  allowed_client_database_options : list string;
  allowed_client_connection_options : list string
}.

Record Config : Type := mkConfig {
  server : ServerConfig;
  auth : AuthConfig;
  tcp : option TcpConfig;
  iroh : option IrohConfig;
  targets : gmap string TargetConfig
}.

(** ** The policy on client options *)

Record ClientOptionPolicy : Type := mkClientOptionPolicy {
  allow_all : bool; allowed : gset string; protected : gset string
}.

Definition ClientOptionPolicy_new (allow_all : bool) (allowed : list string)
    (configured : list WireOption) : ClientOptionPolicy :=
  mkClientOptionPolicy allow_all (list_to_set allowed) (list_to_set (wo_key <$> configured)).

Definition permits (p : ClientOptionPolicy) (key : string) : bool :=
  negb (bool_decide (key ∈ protected p)) && (allow_all p || bool_decide (key ∈ allowed p)).

Definition is_protected (p : ClientOptionPolicy) (key : string) : bool :=
  bool_decide (key ∈ protected p).

Definition database_option_policy (t : TargetConfig) : ClientOptionPolicy :=
  ClientOptionPolicy_new (allow_client_database_options t)
    (allowed_client_database_options t) (database_options t).

Definition connection_option_policy (t : TargetConfig) : ClientOptionPolicy :=
  ClientOptionPolicy_new (allow_client_connection_options t)
    (allowed_client_connection_options t) (connection_options t).

Definition target_authorizer (c : Config) : TargetAuthorizer :=
  TargetAuthorizer_new (target_permissions (auth c)).

(** [std::fs::read_to_string], and [toml::from_str] at the type [Config]. *)
Class TextFiles (W : Type) : Type := { read_to_string : string → M W string string }.
Class Toml : Type := { toml_from_str : string → result string Config }.

(** ** [Config::validate] *)

Section Validate.
Context `{RustFmt} (display_socket : SocketAddr → string).

Definition ensure (condition : bool) (message : string) : result string unit :=
  if condition then Ok tt else Err message.

(** The limits and timeouts of [server], and its plaintext listener. *)
Definition validate_server (c : Config) : result string unit :=
  let s := server c in
  ensure (negb (bool_decide (targets c = ∅))) "configuration must define at least one target";;
  ensure (negb (session_ttl_seconds s =? 0)) "server.session_ttl_seconds must be positive";;
  ensure (negb (session_reap_interval_seconds s =? 0))
    "server.session_reap_interval_seconds must be positive";;
  ensure (negb (request_timeout_seconds s =? 0)) "server.request_timeout_seconds must be positive";;
  ensure (negb (driver_operation_timeout_seconds s =? 0))
    "server.driver_operation_timeout_seconds must be positive";;
  ensure (negb (shutdown_grace_seconds s =? 0)) "server.shutdown_grace_seconds must be positive";;
  ensure (negb (max_request_body_bytes s =? 0)) "server.max_request_body_bytes must be positive";;
  ensure (negb (max_bind_bytes s =? 0)) "server.max_bind_bytes must be positive";;
  ensure (max_bind_bytes s <=? MAX_CONFIGURABLE_BIND_BYTES)
    ("server.max_bind_bytes must not exceed " +:+ show_int MAX_CONFIGURABLE_BIND_BYTES);;
  limits_validate (session_limits s);;
  ensure (is_loopback (ip (listen s)) || allow_insecure_remote s)
    ("refusing plaintext HTTP listener " +:+ display_socket (listen s) +:+
     " outside loopback; terminate TLS in front of a loopback listener or set server.allow_insecure_remote=true to acknowledge the risk").

Definition validate_tcp (s : ServerConfig) (tcp : TcpConfig) : result string unit :=
  ensure (negb (bool_decide (tls tcp = None) && negb (is_loopback (ip (tcp_listen tcp)))
                && negb (allow_insecure tcp)))
    ("refusing plaintext TCP listener " +:+ display_socket (tcp_listen tcp) +:+
     " outside loopback; configure tcp.tls or set tcp.allow_insecure=true to acknowledge the risk");;
  ensure (negb (require_authentication s && bool_decide (tls tcp = None)))
    "authenticated raw TCP requires tcp.tls with mandatory client certificates";;
  match tls tcp with
  | Some t =>
      ensure (negb (bool_decide (trust_domains t = []) || (handshake_timeout_seconds t =? 0)))
        "TCP mTLS requires at least one trust domain and a positive handshake timeout"
  | None => Ok tt
  end.

Definition is_lower_hex (b : byte) : bool := is_ascii_digit b || in_range 97 102 (byte_val b).

Definition validate_iroh (s : ServerConfig) (iroh : IrohConfig) : result string unit :=
  ensure (negb (is_blank (iroh_issuer iroh))) "Iroh issuer must not be blank";;
  ensure (negb (require_authentication s && bool_decide (principals iroh = ∅)))
    "authenticated Iroh requires at least one endpoint-to-principal mapping";;
  ensure (negb ((max_active_streams iroh =? 0) || (max_active_streams_per_connection iroh =? 0)
                || (max_active_streams iroh <? max_active_streams_per_connection iroh)))
    "Iroh stream limits must be positive and the per-connection limit must not exceed the global limit";;
  for_each (λ '(endpoint, principal),
    ensure (negb (negb (str_len endpoint =? 64) || negb (forallb is_lower_hex (as_bytes endpoint))
                  || is_blank principal))
      "Iroh principal keys must be 64 lowercase hex endpoint IDs and principals must not be blank")
    (map_to_list (principals iroh)).

Definition validate_auth (s : ServerConfig) (a : AuthConfig) : result string unit :=
  ensure (negb (negb (bool_decide (static_bearer_tokens a = ∅)) && bool_decide (is_Some (jwt a))))
    "configure either static bearer tokens or JWT authentication, not both";;
  ensure (negb (require_authentication s && bool_decide (static_bearer_tokens a = ∅)
                && bool_decide (jwt a = None)))
    "authentication is required but no static bearer tokens or JWT provider are configured";;
  for_each (λ '(token, principal),
    ensure (negb (is_blank token || is_blank principal))
      "static bearer tokens and principals must not be blank")
    (map_to_list (static_bearer_tokens a));;
  match jwt a with
  | Some j =>
      ensure (negb (is_blank (jwt_issuer j) || is_blank (audience j) || is_blank (jwks_url j)
                    || is_blank (principal_claim j)))
        "JWT issuer, audience, JWKS URL, and principal claim must not be blank";;
      ensure (negb (negb (starts_with "https://" (jwt_issuer j))
                    || negb (starts_with "https://" (jwks_url j))))
        "JWT issuer and JWKS URL must use HTTPS";;
      ensure (negb (refresh_interval_seconds j =? 0)) "JWT refresh interval must be positive"
  | None => Ok tt
  end.

Definition validate_permissions (c : Config) : result string unit :=
  let target_names : gset string := dom (targets c) in
  for_each (λ '(principal, granted),
    ensure (negb (is_blank principal)) "target permission principals must not be blank";;
    ensure (negb (bool_decide (granted = [])))
      ("target permission for " +:+ debug_str principal +:+ " must not be empty");;
    for_each (λ target,
      ensure (negb (negb (bool_decide (target = "*")) && negb (bool_decide (target ∈ target_names))))
        ("target permission for " +:+ debug_str principal +:+ " references unknown target "
         +:+ debug_str target)) granted)
    (map_to_list (target_permissions (auth c))).

Fixpoint validate_configured_from (target kind : string) (keys : gset string)
    (options : list WireOption) : result string unit :=
  match options with
  | [] => Ok tt
  | option :: options =>
      ensure (negb (is_blank (wo_key option)))
        ("target " +:+ debug_str target +:+ " has a blank " +:+ kind +:+ " option key");;
      ensure (negb (bool_decide (wo_key option ∈ keys)))
        ("target " +:+ debug_str target +:+ " repeats " +:+ kind +:+ " option "
         +:+ debug_str (wo_key option));;
      validate_configured_from target kind ({[wo_key option]} ∪ keys) options
  end.

Definition validate_configured_options (target kind : string) (options : list WireOption)
  : result string unit := validate_configured_from target kind ∅ options.

Fixpoint validate_allowed_from (target kind : string) (protected keys : gset string)
    (allowed : list string) : result string unit :=
  match allowed with
  | [] => Ok tt
  | key :: allowed =>
      ensure (negb (is_blank key))
        ("target " +:+ debug_str target +:+ " has a blank allowed client " +:+ kind +:+ " option");;
      ensure (negb (bool_decide (key ∈ keys)))
        ("target " +:+ debug_str target +:+ " repeats allowed client " +:+ kind +:+ " option "
         +:+ debug_str key);;
      ensure (negb (bool_decide (key ∈ protected)))
        ("target " +:+ debug_str target +:+ " marks server-controlled " +:+ kind +:+ " option "
         +:+ debug_str key +:+ " as client-settable");;
      validate_allowed_from target kind protected ({[key]} ∪ keys) allowed
  end.

Definition validate_option_policy (target kind : string) (allow_all : bool)
    (allowed : list string) (configured : list WireOption) : result string unit :=
  ensure (negb (allow_all && negb (bool_decide (allowed = []))))
    ("target " +:+ debug_str target +:+ " enables all client " +:+ kind
     +:+ " options and also defines an allowlist");;
  validate_allowed_from target kind (list_to_set (wo_key <$> configured)) ∅ allowed.

Definition validate_target (name : string) (t : TargetConfig) : result string unit :=
  ensure (negb (is_blank name || is_blank (driver t))) "target names and driver names must not be blank";;
  validate_configured_options name "database" (database_options t);;
  validate_configured_options name "connection" (connection_options t);;
  validate_option_policy name "database" (allow_client_database_options t)
    (allowed_client_database_options t) (database_options t);;
  validate_option_policy name "connection" (allow_client_connection_options t)
    (allowed_client_connection_options t) (connection_options t).

Definition config_validate (c : Config) : result string unit :=
  validate_server c;;
  match tcp c with Some tcp => validate_tcp (server c) tcp | None => Ok tt end;;
  match iroh c with Some iroh => validate_iroh (server c) iroh | None => Ok tt end;;
  validate_auth (server c) (auth c);;
  validate_permissions c;;
  for_each (λ '(name, target), validate_target name target) (map_to_list (targets c)).

(** ** Loading *)

Context `{!Toml}.

Definition from_toml (contents : string) : result string Config :=
  config ← toml_from_str contents;
  config_validate config;;
  Ok config.

Definition from_path {W} `{!TextFiles W} (path : string) : M W string Config :=
  contents ← read_to_string path;
  mlift (from_toml contents).
End Validate.

(** ** What a valid configuration is *)

Definition limits_ok (l : SessionLimits) : Prop :=
  max_sessions l ≠ 0 ∧ max_sessions_per_principal l ≠ 0
  ∧ max_statements_per_session l ≠ 0 ∧ max_results_per_session l ≠ 0
  ∧ max_sessions_per_principal l ≤ max_sessions l.

Definition server_ok (c : Config) : Prop :=
  let s := server c in
  targets c ≠ ∅ ∧ session_ttl_seconds s ≠ 0 ∧ session_reap_interval_seconds s ≠ 0
  ∧ request_timeout_seconds s ≠ 0 ∧ driver_operation_timeout_seconds s ≠ 0
  ∧ shutdown_grace_seconds s ≠ 0 ∧ max_request_body_bytes s ≠ 0
  ∧ max_bind_bytes s ≠ 0 ∧ max_bind_bytes s ≤ MAX_CONFIGURABLE_BIND_BYTES
  ∧ limits_ok (session_limits s)
  ∧ (is_loopback (ip (listen s)) = true ∨ allow_insecure_remote s = true).

Definition tcp_ok (s : ServerConfig) (t : TcpConfig) : Prop :=
  match tls t with
  | None => (is_loopback (ip (tcp_listen t)) = true ∨ allow_insecure t = true)
            ∧ require_authentication s = false
  | Some x => trust_domains x ≠ [] ∧ handshake_timeout_seconds x ≠ 0
  end.

Definition endpoint_ok (endpoint : string) : Prop :=
  str_len endpoint = 64 ∧ forallb is_lower_hex (as_bytes endpoint) = true.

Definition iroh_ok (s : ServerConfig) (i : IrohConfig) : Prop :=
  is_blank (iroh_issuer i) = false
  ∧ (require_authentication s = true → principals i ≠ ∅)
  ∧ max_active_streams i ≠ 0 ∧ max_active_streams_per_connection i ≠ 0
  ∧ max_active_streams_per_connection i ≤ max_active_streams i
  ∧ map_Forall (λ endpoint principal, endpoint_ok endpoint ∧ is_blank principal = false)
      (principals i).

Definition jwt_ok (j : JwtAuthConfig) : Prop :=
  is_blank (jwt_issuer j) = false ∧ is_blank (audience j) = false
  ∧ is_blank (jwks_url j) = false ∧ is_blank (principal_claim j) = false
  ∧ starts_with "https://" (jwt_issuer j) = true ∧ starts_with "https://" (jwks_url j) = true
  ∧ refresh_interval_seconds j ≠ 0.

Definition auth_ok (s : ServerConfig) (a : AuthConfig) : Prop :=
  (static_bearer_tokens a = ∅ ∨ jwt a = None)
  ∧ (require_authentication s = true → static_bearer_tokens a ≠ ∅ ∨ jwt a ≠ None)
  ∧ map_Forall (λ token principal, is_blank token = false ∧ is_blank principal = false)
      (static_bearer_tokens a)
  ∧ (∀ j, jwt a = Some j → jwt_ok j).

Definition permissions_ok (c : Config) : Prop :=
  map_Forall (λ principal granted,
    is_blank principal = false ∧ granted ≠ []
    ∧ Forall (λ target, target = "*" ∨ is_Some (targets c !! target)) granted)
    (target_permissions (auth c)).

Definition option_keys_ok (options : list WireOption) : Prop :=
  Forall (λ o, is_blank (wo_key o) = false) options ∧ NoDup (wo_key <$> options).

Definition policy_ok (allow_all : bool) (allowed : list string) (configured : list WireOption) : Prop :=
  (allow_all = true → allowed = [])
  ∧ Forall (λ key, is_blank key = false ∧ key ∉ wo_key <$> configured) allowed ∧ NoDup allowed.

Definition target_ok (name : string) (t : TargetConfig) : Prop :=
  is_blank name = false ∧ is_blank (driver t) = false
  ∧ option_keys_ok (database_options t) ∧ option_keys_ok (connection_options t)
  ∧ policy_ok (allow_client_database_options t) (allowed_client_database_options t) (database_options t)
  ∧ policy_ok (allow_client_connection_options t) (allowed_client_connection_options t)
      (connection_options t).

Definition config_ok (c : Config) : Prop :=
  server_ok c ∧ (∀ t, tcp c = Some t → tcp_ok (server c) t)
  ∧ (∀ i, iroh c = Some i → iroh_ok (server c) i)
  ∧ auth_ok (server c) (auth c) ∧ permissions_ok c ∧ map_Forall target_ok (targets c).

Lemma ensure_Ok b m : ensure b m = Ok tt ↔ b = true.
Proof. by destruct b. Qed.

Lemma limits_validate_Ok l : limits_validate l = Ok tt ↔ limits_ok l.
Proof.
  unfold limits_validate, limits_ok. destruct (_ || _) eqn:Hz.
  - reflect_bools. rewrite !orb_true_iff, !Z.eqb_eq in Hz. naive_solver.
  - reflect_bools. destruct (Z.ltb_spec (max_sessions l) (max_sessions_per_principal l)); naive_solver lia.
Qed.

(** Rewrite a chain of [ensure]s into propositions. *)
Ltac ensure_simpl :=
  rewrite ?result_bind_unit_Ok, ?ensure_Ok, ?negb_true_iff, ?orb_false_iff, ?andb_false_iff,
    ?negb_false_iff, ?orb_true_iff, ?bool_decide_eq_false, ?bool_decide_eq_true,
    ?Z.eqb_neq, ?Z.eqb_eq, ?Z.leb_le, ?Z.ltb_ge.

Section ValidateCorrect.
Context `{RustFmt} (display_socket : SocketAddr → string).

Lemma validate_server_Ok c : validate_server display_socket c = Ok tt ↔ server_ok c.
Proof. unfold validate_server, server_ok. ensure_simpl. rewrite limits_validate_Ok. tauto. Qed.

Lemma validate_tcp_Ok s t : validate_tcp display_socket s t = Ok tt ↔ tcp_ok s t.
Proof.
  unfold validate_tcp, tcp_ok. ensure_simpl. destruct (tls t) as [x|]; ensure_simpl; naive_solver.
Qed.

Lemma validate_iroh_Ok s i : validate_iroh s i = Ok tt ↔ iroh_ok s i.
Proof.
  unfold validate_iroh, iroh_ok, endpoint_ok. ensure_simpl.
  rewrite for_each_Ok, map_Forall_to_list.
  assert (Forall (λ a : string * string, (let '(endpoint, principal) := a in
      ensure (negb (negb (str_len endpoint =? 64) || negb (forallb is_lower_hex (as_bytes endpoint))
                    || is_blank principal))
       "Iroh principal keys must be 64 lowercase hex endpoint IDs and principals must not be blank")
      = Ok tt) (map_to_list (principals i))
    ↔ Forall (uncurry (λ endpoint principal, (str_len endpoint = 64
      ∧ forallb is_lower_hex (as_bytes endpoint) = true) ∧ is_blank principal = false))
      (map_to_list (principals i))) as ->.
  { apply Forall_iff. intros [e p]. simpl. ensure_simpl. tauto. }
  destruct (require_authentication s); naive_solver.
Qed.

Lemma validate_auth_Ok s a : validate_auth s a = Ok tt ↔ auth_ok s a.
Proof.
  unfold validate_auth, auth_ok. ensure_simpl. rewrite for_each_Ok, map_Forall_to_list.
  assert (Forall (λ x : string * string, (let '(token, principal) := x in
      ensure (negb (is_blank token || is_blank principal))
        "static bearer tokens and principals must not be blank") = Ok tt)
      (map_to_list (static_bearer_tokens a))
    ↔ Forall (uncurry (λ token principal, is_blank token = false ∧ is_blank principal = false))
      (map_to_list (static_bearer_tokens a))) as ->.
  { apply Forall_iff. intros [e p]. simpl. ensure_simpl. tauto. }
  assert ((match jwt a with
           | Some j =>
               ensure (negb (is_blank (jwt_issuer j) || is_blank (audience j) || is_blank (jwks_url j)
                             || is_blank (principal_claim j)))
                 "JWT issuer, audience, JWKS URL, and principal claim must not be blank";;
               ensure (negb (negb (starts_with "https://" (jwt_issuer j))
                             || negb (starts_with "https://" (jwks_url j))))
                 "JWT issuer and JWKS URL must use HTTPS";;
               ensure (negb (refresh_interval_seconds j =? 0)) "JWT refresh interval must be positive"
           | None => Ok tt
           end = Ok tt) ↔ ∀ j, jwt a = Some j → jwt_ok j) as ->.
  { destruct (jwt a) as [j|]; [|naive_solver]. ensure_simpl. unfold jwt_ok. split.
    - intros Hj j' [= <-]. tauto.
    - intros Hj. specialize (Hj j eq_refl). tauto. }
  destruct (jwt a) as [j|], (require_authentication s); simpl; naive_solver.
Qed.

Lemma validate_permissions_Ok c : validate_permissions c = Ok tt ↔ permissions_ok c.
Proof.
  unfold validate_permissions, permissions_ok. rewrite for_each_Ok, map_Forall_to_list.
  apply Forall_iff. intros [p g]. simpl. ensure_simpl. rewrite for_each_Ok.
  do 2 (apply and_iff_compat_l). apply Forall_iff. intros t. ensure_simpl.
  by rewrite elem_of_dom.
Qed.

Lemma validate_configured_from_Ok target kind keys options :
  validate_configured_from target kind keys options = Ok tt
  ↔ option_keys_ok options ∧ Forall (λ o, wo_key o ∉ keys) options.
Proof.
  unfold option_keys_ok. revert keys; induction options as [|o os IH]; intros keys; csimpl.
  { split; [|done]. intros _. repeat constructor. }
  ensure_simpl. rewrite IH, !Forall_cons, NoDup_cons, list_elem_of_fmap.
  rewrite !Forall_forall. set_solver.
Qed.

Lemma validate_configured_options_Ok target kind options :
  validate_configured_options target kind options = Ok tt ↔ option_keys_ok options.
Proof.
  unfold validate_configured_options. rewrite validate_configured_from_Ok, Forall_forall. set_solver.
Qed.

Lemma validate_allowed_from_Ok target kind protected keys allowed :
  validate_allowed_from target kind protected keys allowed = Ok tt
  ↔ Forall (λ key, is_blank key = false ∧ key ∉ protected) allowed
    ∧ NoDup allowed ∧ Forall (λ key, key ∉ keys) allowed.
Proof.
  revert keys; induction allowed as [|k ks IH]; intros keys; simpl.
  { split; [|done]. intros _. repeat constructor. }
  ensure_simpl. rewrite IH, !Forall_cons, NoDup_cons, !Forall_forall. set_solver.
Qed.

Lemma validate_option_policy_Ok target kind allow_all allowed configured :
  validate_option_policy target kind allow_all allowed configured = Ok tt
  ↔ policy_ok allow_all allowed configured.
Proof.
  unfold validate_option_policy, policy_ok. ensure_simpl.
  rewrite validate_allowed_from_Ok, !Forall_forall. setoid_rewrite elem_of_list_to_set.
  destruct allow_all; set_solver.
Qed.

Lemma validate_target_Ok name t : validate_target name t = Ok tt ↔ target_ok name t.
Proof.
  unfold validate_target, target_ok. ensure_simpl.
  rewrite !validate_configured_options_Ok, !validate_option_policy_Ok. tauto.
Qed.

Lemma config_validate_parts c :
  config_validate display_socket c = Ok tt ↔ config_ok c.
Proof.
  unfold config_validate, config_ok. ensure_simpl.
  rewrite validate_server_Ok, validate_auth_Ok, validate_permissions_Ok, for_each_Ok,
    map_Forall_to_list.
  assert (Forall (λ a : string * TargetConfig, (let '(name, t) := a in validate_target name t)
      = Ok tt) (map_to_list (targets c)) ↔ Forall (uncurry target_ok) (map_to_list (targets c)))
    as ->.
  { apply Forall_iff. intros [n t]. simpl. apply validate_target_Ok. }
  destruct (tcp c) as [t|], (iroh c) as [i|];
    rewrite ?validate_tcp_Ok, ?validate_iroh_Ok; naive_solver.
Qed.
End ValidateCorrect.

(** ** Main theorems *)

(** The name an allowlist entry is looked up by: the part of the principal
    behind its authentication domain. *)
Definition bare_name (principal : string) : string :=
  match split_once_nul principal with Some (_, name) => name | None => principal end.

Section Main.
Context `{RustFmt} (display_socket : SocketAddr → string).

(** C37: [Config::validate] accepts a configuration exactly when it is valid:
    limits and timeouts positive and in bounds, plaintext listeners on loopback
    or acknowledged, one source of credentials where authentication is
    required, an allowlist that names known targets, targets with distinct
    option keys and client allowlists disjoint from the operator's options. *)
Theorem config_validate_decides c :
  config_validate display_socket c = Ok tt ↔ config_ok c.
Proof. apply config_validate_parts. Qed.

(** Under a configuration that validates and requires authentication every
    listener can tell principals apart: HTTP has bearer tokens or JWT (not
    both), raw TCP has mutual TLS with a trust domain, Iroh maps at least one
    endpoint, and no credential or principal is blank. *)
Theorem validated_config_authenticates c :
  config_validate display_socket c = Ok tt → require_authentication (server c) = true →
  (static_bearer_tokens (auth c) ≠ ∅ ∨ jwt (auth c) ≠ None)
  ∧ ¬ (static_bearer_tokens (auth c) ≠ ∅ ∧ jwt (auth c) ≠ None)
  ∧ (∀ t, tcp c = Some t → ∃ x, tls t = Some x ∧ trust_domains x ≠ [])
  ∧ (∀ i, iroh c = Some i → principals i ≠ ∅)
  ∧ (∀ token p, static_bearer_tokens (auth c) !! token = Some p →
       is_blank token = false ∧ is_blank p = false).
Proof.
  intros (_ & Htcp & Hiroh & (Hone & Hsome & Hblank & _) & _)%config_validate_parts Hreq.
  split; [by apply Hsome|]. split; [naive_solver|]. split; [|split].
  - intros t Ht. specialize (Htcp t Ht). unfold tcp_ok in Htcp.
    destruct (tls t) as [x|]; [naive_solver|]. destruct Htcp. congruence.
  - intros i Hi. by apply (Hiroh i Hi).
  - intros token p. apply Hblank.
Qed.
(** Loading gives exactly what the file says, and nothing that is not valid. *)
Theorem loaded_configuration_is_valid `{!Toml} {W} `{!TextFiles W} path w c w' :
  from_path display_socket path w = (Ok c, w') ↔
    ∃ contents, read_to_string path w = (Ok contents, w') ∧ toml_from_str contents = Ok c ∧ config_ok c.
Proof.
  unfold from_path, from_toml. split.
  - intros (contents & w1 & Hr & Hl)%bind_Ok. apply mlift_Ok in Hl as [Hl ->].
    apply result_bind_Ok in Hl as (c' & Hc & Hl). apply result_bind_unit_Ok in Hl as [Hv [= ->]].
    exists contents. by rewrite <-(config_validate_parts display_socket).
  - intros (contents & Hr & Hc & Hv%(config_validate_parts display_socket)).
    unfold mbind, M_bind. rewrite Hr. unfold mlift. rewrite Hc. simpl. by rewrite Hv.
Qed.
End Main.

(** The allowlist grants a target exactly when no rules are configured or
    the entry of the principal's bare name (or, when there is none, of the full
    principal) lists the target or ["*"]: with rules configured, an unknown
    principal is denied. *)
Theorem allowlist_decides rules principal target :
  allows (TargetAuthorizer_new rules) principal target = true ↔
    rules = ∅
    ∨ ∃ granted,
        (rules !! bare_name principal = Some granted
         ∨ rules !! bare_name principal = None ∧ rules !! principal = Some granted)
        ∧ ("*" ∈ granted ∨ target ∈ granted).
Proof.
  unfold TargetAuthorizer_new, allows. case_bool_decide as Hr; simpl; [tauto|].
  fold (bare_name principal). rewrite !lookup_fmap.
  destruct (rules !! bare_name principal) as [g|] eqn:Hg; simpl;
    [|destruct (rules !! principal) as [g|] eqn:Hp; simpl; [|naive_solver]];
    rewrite orb_true_iff, !bool_decide_eq_true, !elem_of_list_to_set; naive_solver.
Qed.

Definition example_config : Config := {|
  server := ServerConfig_default;
  auth := mkAuthConfig {["secret" := "alice"]} None {["alice" := ["orders"]]};
  tcp := None;
  iroh := None;
  targets := {["orders" := mkTargetConfig "sqlite" None [mkWireOption "uri" (JsonString "file:o.db")]
                [] false false ["timeout"] []]}
|}.

Lemma validated_config_authenticates_witness :
  ¬ (static_bearer_tokens (auth example_config) ≠ ∅ ∧ jwt (auth example_config) ≠ None).
Proof.
  apply (validated_config_authenticates (H := simple_fmt) (λ _, "127.0.0.1:8080") example_config).
  - vm_compute. reflexivity.
  - reflexivity.
Defined.
