(* ===== verification/Backend.v ===== *)
(** * The backend interface and the driver manager (grainlift-server/src/backend.rs)

    The traits [Backend], [BackendConnection] and [BackendStatement] are the
    class [Backend]: native handles, the mutable [World] behind them, and one
    operation per trait method.  [merge_options] and [DriverManagerBackend] are
    the repository's implementation; the driver manager crate it calls is the
    class [DriverManager]. *)

From S2P Require Import Prelude Adbc WireError Arrow Config.

(** ** The vocabulary of [adbc_core] *)

Record PartitionedResult (Schema : Type) : Type := mkPartitionedResult {
  pr_partitions : list bytes; pr_schema : Schema; pr_rows_affected : Z
}.
Arguments mkPartitionedResult {Schema} _ _ _.
Arguments pr_partitions {Schema} _.
Arguments pr_schema {Schema} _.
Arguments pr_rows_affected {Schema} _.

Class AdbcOptions : Type := {
  InfoCode : Type;
  InfoCode_eq :: EqDecision InfoCode;
  InfoCode_countable :: Countable InfoCode;
  info_code_from : Z → InfoCode;
  ObjectDepth : Type;
  object_depth_try_from : Z → result AdbcError ObjectDepth
}.

(** An owned reader over batches that are already staged. *)
Abbreviation StagedReader := (list (result ArrowError RecordBatch)).

(** ** The traits *)

Class Backend `{ArrowCrate} `{AdbcOptions} : Type := {
  World : Type;
  Conn : Type;
  Stmt : Type;
  NativeReader : Type;
  Cancel : Type;

  reader_schema : NativeReader → Schema;
  reader_next : NativeReader → World → option (result ArrowError RecordBatch) * World;
  try_cancel : Cancel → M World AdbcError unit;

  backend_open : TargetConfig → list (string * OptionValue) → list (string * OptionValue) →
    M World AdbcError Conn;

  conn_cancel_handle : Conn → Cancel;
  conn_new_statement : Conn → M World AdbcError Stmt;
  conn_set_option : Conn → string → OptionValue → M World AdbcError unit;
  conn_get_option_string : Conn → string → M World AdbcError string;
  conn_get_option_bytes : Conn → string → M World AdbcError bytes;
  conn_get_option_int : Conn → string → M World AdbcError Z;
  conn_get_option_double : Conn → string → M World AdbcError Z;
  conn_get_info : Conn → option (gset InfoCode) → M World AdbcError NativeReader;
  conn_get_objects : Conn → ObjectDepth → option string → option string → option string →
    option (list string) → option string → M World AdbcError NativeReader;
  conn_get_table_schema : Conn → option string → option string → string → M World AdbcError Schema;
  conn_get_table_types : Conn → M World AdbcError NativeReader;
  conn_get_statistic_names : Conn → M World AdbcError NativeReader;
  conn_get_statistics : Conn → option string → option string → option string → bool →
    M World AdbcError NativeReader;
  conn_commit : Conn → M World AdbcError unit;
  conn_rollback : Conn → M World AdbcError unit;
  conn_read_partition : Conn → bytes → M World AdbcError NativeReader;

  stmt_set_option : Stmt → string → OptionValue → M World AdbcError unit;
  stmt_get_option_string : Stmt → string → M World AdbcError string;
  stmt_get_option_bytes : Stmt → string → M World AdbcError bytes;
  stmt_get_option_int : Stmt → string → M World AdbcError Z;
  stmt_get_option_double : Stmt → string → M World AdbcError Z;
  stmt_bind : Stmt → RecordBatch → M World AdbcError unit;
  stmt_bind_stream : Stmt → StagedReader → M World AdbcError unit;
  stmt_set_sql_query : Stmt → string → M World AdbcError unit;
  stmt_set_substrait_plan : Stmt → bytes → M World AdbcError unit;
  stmt_prepare : Stmt → M World AdbcError unit;
  stmt_execute : Stmt → M World AdbcError NativeReader;
  stmt_execute_update : Stmt → M World AdbcError (option Z);
  stmt_execute_schema : Stmt → M World AdbcError Schema;
  stmt_execute_partitions : Stmt → M World AdbcError (PartitionedResult Schema);
  stmt_get_parameter_schema : Stmt → M World AdbcError Schema;
  stmt_cancel_handle : Stmt → Cancel
}.

(** ** Merging client options with the operator's *)

(** [Vec::dedup]: drop consecutive repetitions. *)
Fixpoint dedup (l : list string) : list string :=
  match l with
  | [] => []
  | a :: l =>
      match dedup l with
      | b :: l' => if bool_decide (a = b) then b :: l' else a :: b :: l'
      | [] => [a]
      end
  end.

Definition rejected_keys (policy : ClientOptionPolicy) (client : list (string * OptionValue))
  : list string := filter (λ key, permits policy key = false) client.*1.

(** [client.into_iter().collect::<HashMap>()]: the last value of a key wins. *)
Definition collect_map (client : list (string * OptionValue)) : gmap string OptionValue :=
  foldl (λ merged '(key, value), <[key := value]> merged) ∅ client.

Section Merge.
Context `{AdbcCore} `{RustFmt} `{Base64}.

Fixpoint merge_configured (merged : gmap string OptionValue) (configured : list WireOption)
  : result AdbcError (gmap string OptionValue) :=
  match configured with
  | [] => Ok merged
  | option :: configured =>
      value ← map_err (λ e, with_message_and_status (protocol_error_to_string e) InvalidArguments)
                (json_into_adbc (wo_value option));
      merge_configured (<[wo_key option := value]> merged) configured
  end.

Definition rejection_reason (policy : ClientOptionPolicy) (key : string) : string :=
  if is_protected policy key then "is controlled by the proxy server"
  else "is not allowed by the target policy".

Definition option_rejection (policy : ClientOptionPolicy) (kind key : string) : AdbcError :=
  with_message_and_status
    ("client " +:+ kind +:+ " option " +:+ debug_str key +:+ " " +:+ rejection_reason policy key)
    InvalidArguments.

Definition merge_options (client : list (string * OptionValue)) (configured : list WireOption)
    (policy : ClientOptionPolicy) (kind : string)
  : result AdbcError (list (string * OptionValue)) :=
  let rejected := dedup (merge_sort String.le (rejected_keys policy client)) in
  match rejected with
  | key :: _ => Err (option_rejection policy kind key)
  | [] => map_to_list <$> merge_configured (collect_map client) configured
  end.
End Merge.

(** ** The driver manager *)

Class DriverManager `{ArrowCrate} `{AdbcOptions} : Type := {
  DmWorld : Type; ManagedDriver : Type; ManagedDatabase : Type;
  ManagedConnection : Type; ManagedStatement : Type; ManagedReader : Type; ManagedCancel : Type;
  OptionDatabase : Type; OptionConnection : Type; OptionStatement : Type;
  database_option_from : string → OptionDatabase;
  connection_option_from : string → OptionConnection;
  statement_option_from : string → OptionStatement;
  load_from_name : string → option bytes → M DmWorld AdbcError ManagedDriver;
  new_database_with_opts : ManagedDriver → list (OptionDatabase * OptionValue) →
    M DmWorld AdbcError ManagedDatabase;
  new_connection_with_opts : ManagedDatabase → list (OptionConnection * OptionValue) →
    M DmWorld AdbcError ManagedConnection
}.

Section Open.
Context `{AdbcCore} `{RustFmt} `{Base64} `{DriverManager}.

Definition DriverManagerBackend_open (target : TargetConfig)
    (database_options connection_options : list (string * OptionValue))
  : M DmWorld AdbcError ManagedConnection :=
  driver ← load_from_name (driver target) (as_bytes <$> entrypoint target);
  database_options ← mlift (merge_options database_options (Config.database_options target)
                              (database_option_policy target) "database");
  connection_options ← mlift (merge_options connection_options (Config.connection_options target)
                                (connection_option_policy target) "connection");
  database ← new_database_with_opts driver
    ((λ '(key, value), (database_option_from key, value)) <$> database_options);
  new_connection_with_opts database
    ((λ '(key, value), (connection_option_from key, value)) <$> connection_options).
End Open.

(** ** Correctness of the merge *)

Lemma elem_of_dedup l x : x ∈ dedup l ↔ x ∈ l.
Proof.
  induction l as [|a l IH]; simpl; [done|].
  destruct (dedup l) as [|b l']; [set_solver|]. case_bool_decide; set_solver.
Qed.

Lemma dedup_head l : head (dedup l) = head l.
Proof.
  induction l as [|a l IH]; simpl; [done|].
  destruct (dedup l); [done|]. case_bool_decide; naive_solver.
Qed.

(** The first rejected key is the least one the policy refuses. *)
Definition least_rejected (policy : ClientOptionPolicy) (client : list (string * OptionValue))
    (key : string) : Prop :=
  key ∈ client.*1 ∧ permits policy key = false
  ∧ ∀ k, k ∈ client.*1 → permits policy k = false → String.le key k.

Lemma rejected_head policy client key :
  head (dedup (merge_sort String.le (rejected_keys policy client))) = Some key →
  least_rejected policy client key.
Proof.
  rewrite dedup_head. intros Hh.
  pose proof (merge_sort_Permutation String.le (rejected_keys policy client)) as Hperm.
  pose proof (StronglySorted_merge_sort String.le (rejected_keys policy client)) as Hsort.
  destruct (merge_sort _ _) as [|k ks]; simplify_eq/=.
  apply StronglySorted_inv in Hsort as [_ Hle]. rewrite Forall_forall in Hle.
  assert (key ∈ rejected_keys policy client) as Hin by (rewrite <-Hperm; set_solver).
  apply list_elem_of_filter in Hin as [??]. repeat split; [done..|].
  intros k Hk Hp. assert (k ∈ rejected_keys policy client) as Hk' by (by apply list_elem_of_filter).
  rewrite <-Hperm, elem_of_cons in Hk'. destruct Hk' as [->|]; [reflexivity|auto].
Qed.

Lemma rejected_none policy client :
  dedup (merge_sort String.le (rejected_keys policy client)) = []
  ↔ ∀ key, key ∈ client.*1 → permits policy key = true.
Proof.
  split.
  - intros Hd key Hk. destruct (permits policy key) eqn:Hp; [done|exfalso].
    assert (key ∈ dedup (merge_sort String.le (rejected_keys policy client))) as Hin.
    { rewrite elem_of_dedup, merge_sort_Permutation. by apply list_elem_of_filter. }
    rewrite Hd in Hin. set_solver.
  - intros Hall. apply elem_of_nil_inv. intros key.
    rewrite elem_of_dedup, merge_sort_Permutation. intros [Hp Hk]%list_elem_of_filter.
    by rewrite Hall in Hp.
Qed.

Section MergeCorrect.
Context `{AdbcCore} `{RustFmt} `{Base64}.

Lemma merge_options_rejects client configured policy kind e :
  (∃ key, key ∈ client.*1 ∧ permits policy key = false) →
  merge_options client configured policy kind = Err e →
  ∃ key, least_rejected policy client key ∧ e = option_rejection policy kind key.
Proof.
  intros (k & Hk & Hp). unfold merge_options.
  destruct (dedup _) as [|key ks] eqn:Hd.
  { apply rejected_none with (key := k) in Hd; [congruence|done]. }
  intros [= <-]. exists key. split; [|done]. apply rejected_head. by rewrite Hd.
Qed.

(** The operator's values as the last configured value of each key. *)
Fixpoint configured_value (configured : list WireOption) (key : string) : option JsonOptionValue :=
  match configured with
  | [] => None
  | o :: configured =>
      match configured_value configured key with
      | Some v => Some v
      | None => if bool_decide (wo_key o = key) then Some (wo_value o) else None
      end
  end.

Lemma merge_configured_Ok merged configured m :
  merge_configured merged configured = Ok m →
  ∀ key, m !! key =
    match configured_value configured key with
    | Some v => result_ok (json_into_adbc v)
    | None => merged !! key
    end.
Proof.
  revert merged; induction configured as [|o os IH]; intros merged; simpl.
  { by intros [= <-]. }
  intros Hm key. apply result_bind_Ok in Hm as (v & Hv & Hm). apply map_err_Ok in Hv.
  rewrite (IH _ Hm key). destruct (configured_value os key) as [v'|]; [done|].
  case_bool_decide as Hk; subst.
  - by rewrite lookup_insert_eq, Hv.
  - by rewrite lookup_insert_ne.
Qed.

(** An operator value that does not decode fails the merge. *)
Lemma merge_configured_decodes merged configured m :
  merge_configured merged configured = Ok m →
  Forall (λ o, is_ok (json_into_adbc (wo_value o)) = true) configured.
Proof.
  revert merged; induction configured as [|o os IH]; intros merged; simpl; [by constructor|].
  intros Hm. apply result_bind_Ok in Hm as (v & Hv & Hm). apply map_err_Ok in Hv.
  constructor; [by rewrite Hv|]. by eapply IH.
Qed.

Lemma configured_value_None configured key :
  configured_value configured key = None ↔ key ∉ wo_key <$> configured.
Proof.
  induction configured as [|o os IH]; csimpl; [set_solver|].
  destruct (configured_value os key); [naive_solver set_solver|].
  case_bool_decide; set_solver.
Qed.

Lemma merge_options_Ok client configured policy kind merged :
  merge_options client configured policy kind = Ok merged →
  (∀ key, key ∈ client.*1 → permits policy key = true)
  ∧ NoDup merged.*1
  ∧ ∀ key value, (key, value) ∈ merged ↔
      match configured_value configured key with
      | Some v => json_into_adbc v = Ok value
      | None => collect_map client !! key = Some value
      end.
Proof.
  unfold merge_options. destruct (dedup _) as [|] eqn:Hd; [|done].
  intros Hm. apply result_fmap_Ok in Hm as (m & Hm & ->).
  split; [by apply rejected_none|]. split; [apply NoDup_fst_map_to_list|].
  intros key value. rewrite elem_of_map_to_list, (merge_configured_Ok _ _ _ Hm key).
  destruct (configured_value configured key); [|done].
  destruct (json_into_adbc _); naive_solver.
Qed.
End MergeCorrect.

(** ** Main theorems *)

Section Main.
Context `{AdbcCore} `{RustFmt} `{Base64}.

(** The options a native driver is opened with, under a target's own
    policy: every client key was allowed and none belongs to the operator; each
    key appears once; an operator's option always carries the operator's value,
    any other key the client's last value for it, and nothing is added or lost. *)
Theorem merge_options_composes client configured allow_all allowed kind merged :
  merge_options client configured (ClientOptionPolicy_new allow_all allowed configured) kind
    = Ok merged →
  (∀ key, key ∈ client.*1 →
     (key ∉ wo_key <$> configured) ∧ (allow_all = true ∨ key ∈ allowed))
  ∧ NoDup merged.*1
  ∧ ∀ key value, (key, value) ∈ merged ↔
      match configured_value configured key with
      | Some v => json_into_adbc v = Ok value
      | None => collect_map client !! key = Some value
      end.
Proof.
  intros (Hp & Hnd & Hm)%merge_options_Ok. split; [|done]. intros key Hk.
  specialize (Hp key Hk). unfold permits, ClientOptionPolicy_new in Hp; simpl in Hp.
  rewrite andb_true_iff, negb_true_iff, orb_true_iff, bool_decide_eq_false, bool_decide_eq_true,
    !elem_of_list_to_set in Hp. exact Hp.
Qed.

(** One client key the policy refuses is enough: nothing is merged, and the
    error, with status InvalidArguments, names the least refused key and says
    whether the operator controls it; it never contains an option value. *)
Theorem merge_options_refuses client configured policy kind key :
  key ∈ client.*1 → permits policy key = false →
  ∃ least, least_rejected policy client least
    ∧ merge_options client configured policy kind = Err (option_rejection policy kind least)
    ∧ status (option_rejection policy kind least) = InvalidArguments.
Proof.
  intros Hk Hp.
  destruct (merge_options client configured policy kind) as [m|e] eqn:Hm.
  { apply merge_options_Ok in Hm as [Hall _]. rewrite Hall in Hp; done. }
  destruct (merge_options_rejects client configured policy kind e) as (least & Hl & ->);
    [by exists key|done|]. exists least. split; [done|]. split; [done|].
  apply with_message_and_status_status.
Qed.
End Main.

Definition example_policy : ClientOptionPolicy :=
  ClientOptionPolicy_new false ["uri"; "user"] [mkWireOption "password" (JsonString "server")].

Lemma merge_options_composes_witness :
  merge_options (H := simple_core) (H0 := simple_fmt) (H1 := ref_base64)
    [("uri", OptString "db"); ("user", OptString "alice")]
    [mkWireOption "password" (JsonString "server")] example_policy "database"
  = Ok [("user", OptString "alice"); ("uri", OptString "db"); ("password", OptString "server")]
  ∧ NoDup ["user"; "uri"; "password"].
Proof.
  assert (merge_options (H := simple_core) (H0 := simple_fmt) (H1 := ref_base64)
    [("uri", OptString "db"); ("user", OptString "alice")]
    [mkWireOption "password" (JsonString "server")] example_policy "database"
    = Ok [("user", OptString "alice"); ("uri", OptString "db"); ("password", OptString "server")])
    as Hm by (vm_compute; reflexivity).
  split; [exact Hm|].
  exact (proj1 (proj2 (merge_options_composes (H := simple_core) (H0 := simple_fmt)
    (H1 := ref_base64) _ _ false ["uri"; "user"] _ _ Hm))).
Defined.

Lemma merge_options_refuses_witness :
  ∃ least, least_rejected example_policy [("password", OptString "mine"); ("key", OptInt 1)] least.
Proof.
  destruct (merge_options_refuses (H := simple_core) (H0 := simple_fmt) (H1 := ref_base64)
    [("password", OptString "mine"); ("key", OptInt 1)] [] example_policy "database" "key")
    as (least & Hl & _).
  - simpl. right. left.
  - vm_compute. reflexivity.
  - exists least. exact Hl.
Defined.
