(* ===== verification/ManagerBackend.v ===== *)
(** * The driver manager backend (grainlift-server/src/backend.rs)

    [DriverManagerBackend] is the [Backend] the server runs with: each method of
    [ManagerConnection] and [ManagerStatement] converts the option key, if it has
    one, and calls the driver manager.  The driver manager's connections and
    statements are the interface [ManagedAdbc], and the instance below discharges
    the interface every other component is verified against. *)

From S2P Require Import Prelude Adbc WireError Arrow Config Backend.

Class ManagedAdbc `{DriverManager} : Type := {
  mc_get_cancel_handle : ManagedConnection → ManagedCancel;
  mc_new_statement : ManagedConnection → M DmWorld AdbcError ManagedStatement;
  mc_set_option : ManagedConnection → OptionConnection → OptionValue → M DmWorld AdbcError unit;
  mc_get_option_string : ManagedConnection → OptionConnection → M DmWorld AdbcError string;
  mc_get_option_bytes : ManagedConnection → OptionConnection → M DmWorld AdbcError bytes;
  mc_get_option_int : ManagedConnection → OptionConnection → M DmWorld AdbcError Z;
  mc_get_option_double : ManagedConnection → OptionConnection → M DmWorld AdbcError Z;
  mc_get_info : ManagedConnection → option (gset InfoCode) → M DmWorld AdbcError ManagedReader;
  mc_get_objects : ManagedConnection → ObjectDepth → option string → option string → option string →
    option (list string) → option string → M DmWorld AdbcError ManagedReader;
  mc_get_table_schema : ManagedConnection → option string → option string → string →
    M DmWorld AdbcError Schema;
  mc_get_table_types : ManagedConnection → M DmWorld AdbcError ManagedReader;
  mc_get_statistic_names : ManagedConnection → M DmWorld AdbcError ManagedReader;
  mc_get_statistics : ManagedConnection → option string → option string → option string → bool →
    M DmWorld AdbcError ManagedReader;
  mc_commit : ManagedConnection → M DmWorld AdbcError unit;
  mc_rollback : ManagedConnection → M DmWorld AdbcError unit;
  mc_read_partition : ManagedConnection → bytes → M DmWorld AdbcError ManagedReader;
  ms_set_option : ManagedStatement → OptionStatement → OptionValue → M DmWorld AdbcError unit;
  ms_get_option_string : ManagedStatement → OptionStatement → M DmWorld AdbcError string;
  ms_get_option_bytes : ManagedStatement → OptionStatement → M DmWorld AdbcError bytes;
  ms_get_option_int : ManagedStatement → OptionStatement → M DmWorld AdbcError Z;
  ms_get_option_double : ManagedStatement → OptionStatement → M DmWorld AdbcError Z;
  ms_bind : ManagedStatement → RecordBatch → M DmWorld AdbcError unit;
  ms_bind_stream : ManagedStatement → StagedReader → M DmWorld AdbcError unit;
  ms_set_sql_query : ManagedStatement → string → M DmWorld AdbcError unit;
  ms_set_substrait_plan : ManagedStatement → bytes → M DmWorld AdbcError unit;
  ms_prepare : ManagedStatement → M DmWorld AdbcError unit;
  ms_execute : ManagedStatement → M DmWorld AdbcError ManagedReader;
  ms_execute_update : ManagedStatement → M DmWorld AdbcError (option Z);
  ms_execute_schema : ManagedStatement → M DmWorld AdbcError Schema;
  ms_execute_partitions : ManagedStatement → M DmWorld AdbcError (PartitionedResult Schema);
  ms_get_parameter_schema : ManagedStatement → M DmWorld AdbcError Schema;
  ms_get_cancel_handle : ManagedStatement → ManagedCancel;
  mr_schema : ManagedReader → Schema;
  mr_next : ManagedReader → DmWorld → option (result ArrowError RecordBatch) * DmWorld;
  mh_try_cancel : ManagedCancel → M DmWorld AdbcError unit
}.

Section Instance.
Context `{AdbcCore} `{RustFmt} `{Base64} `{DriverManager} `{!ManagedAdbc}.

(** [struct ManagerConnection] and [struct ManagerStatement]. *)
Record ManagerConnection : Type := mkManagerConnection { mcn_connection : ManagedConnection }.
Record ManagerStatement : Type := mkManagerStatement { mst_statement : ManagedStatement }.

Definition manager_open (target : TargetConfig)
    (database_options connection_options : list (string * OptionValue))
  : M DmWorld AdbcError ManagerConnection :=
  connection ← DriverManagerBackend_open target database_options connection_options;
  mret (mkManagerConnection connection).

Definition manager_new_statement (c : ManagerConnection) : M DmWorld AdbcError ManagerStatement :=
  statement ← mc_new_statement (mcn_connection c);
  mret (mkManagerStatement statement).

(** The methods of [ManagerStatement] that run a query, and its cancel handle. *)
Definition manager_execute (s : ManagerStatement) : M DmWorld AdbcError ManagedReader :=
  ms_execute (mst_statement s).
Definition manager_execute_update (s : ManagerStatement) : M DmWorld AdbcError (option Z) :=
  ms_execute_update (mst_statement s).
Definition manager_execute_schema (s : ManagerStatement) : M DmWorld AdbcError Schema :=
  ms_execute_schema (mst_statement s).
Definition manager_execute_partitions (s : ManagerStatement)
  : M DmWorld AdbcError (PartitionedResult Schema) := ms_execute_partitions (mst_statement s).
Definition manager_get_parameter_schema (s : ManagerStatement) : M DmWorld AdbcError Schema :=
  ms_get_parameter_schema (mst_statement s).
Definition manager_cancel_handle (s : ManagerStatement) : ManagedCancel :=
  ms_get_cancel_handle (mst_statement s).

Definition DriverManagerBackend : Backend := {|
  World := DmWorld;
  Conn := ManagerConnection;
  Stmt := ManagerStatement;
  NativeReader := ManagedReader;
  Cancel := ManagedCancel;
  reader_schema := mr_schema;
  reader_next := mr_next;
  try_cancel := mh_try_cancel;
  backend_open := manager_open;
  conn_cancel_handle c := mc_get_cancel_handle (mcn_connection c);
  conn_new_statement := manager_new_statement;
  conn_set_option c key value := mc_set_option (mcn_connection c) (connection_option_from key) value;
  conn_get_option_string c key := mc_get_option_string (mcn_connection c) (connection_option_from key);
  conn_get_option_bytes c key := mc_get_option_bytes (mcn_connection c) (connection_option_from key);
  conn_get_option_int c key := mc_get_option_int (mcn_connection c) (connection_option_from key);
  conn_get_option_double c key := mc_get_option_double (mcn_connection c) (connection_option_from key);
  conn_get_info c codes := mc_get_info (mcn_connection c) codes;
  conn_get_objects c depth catalog db_schema table_name table_type column_name :=
    mc_get_objects (mcn_connection c) depth catalog db_schema table_name table_type column_name;
  conn_get_table_schema c catalog db_schema table_name :=
    mc_get_table_schema (mcn_connection c) catalog db_schema table_name;
  conn_get_table_types c := mc_get_table_types (mcn_connection c);
  conn_get_statistic_names c := mc_get_statistic_names (mcn_connection c);
  conn_get_statistics c catalog db_schema table_name approximate :=
    mc_get_statistics (mcn_connection c) catalog db_schema table_name approximate;
  conn_commit c := mc_commit (mcn_connection c);
  conn_rollback c := mc_rollback (mcn_connection c);
  conn_read_partition c partition := mc_read_partition (mcn_connection c) partition;
  stmt_set_option s key value := ms_set_option (mst_statement s) (statement_option_from key) value;
  stmt_get_option_string s key := ms_get_option_string (mst_statement s) (statement_option_from key);
  stmt_get_option_bytes s key := ms_get_option_bytes (mst_statement s) (statement_option_from key);
  stmt_get_option_int s key := ms_get_option_int (mst_statement s) (statement_option_from key);
  stmt_get_option_double s key := ms_get_option_double (mst_statement s) (statement_option_from key);
  stmt_bind s batch := ms_bind (mst_statement s) batch;
  stmt_bind_stream s reader := ms_bind_stream (mst_statement s) reader;
  stmt_set_sql_query s query := ms_set_sql_query (mst_statement s) query;
  stmt_set_substrait_plan s plan := ms_set_substrait_plan (mst_statement s) plan;
  stmt_prepare s := ms_prepare (mst_statement s);
  stmt_execute := manager_execute;
  stmt_execute_update := manager_execute_update;
  stmt_execute_schema := manager_execute_schema;
  stmt_execute_partitions := manager_execute_partitions;
  stmt_get_parameter_schema := manager_get_parameter_schema;
  stmt_cancel_handle := manager_cancel_handle
|}.

(** ** Opening under a target's policy *)

Definition option_pairs {O} (from : string → O) (options : list (string * OptionValue))
  : list (O * OptionValue) := (λ '(key, value), (from key, value)) <$> options.

Definition policy_refuses (policy : ClientOptionPolicy) (options : list (string * OptionValue)) : Prop :=
  ∃ key, key ∈ options.*1 ∧ permits policy key = false.

(** The database step runs with the merged options or not at all. *)
Lemma open_Ok target db co w conn w' :
  DriverManagerBackend_open target db co w = (Ok conn, w') →
  ∃ driver database merged_db merged_co w1 w2,
    load_from_name (Config.driver target) (as_bytes <$> entrypoint target) w = (Ok driver, w1)
    ∧ merge_options db (Config.database_options target) (database_option_policy target) "database" = Ok merged_db
    ∧ merge_options co (Config.connection_options target) (connection_option_policy target) "connection" = Ok merged_co
    ∧ Backend.new_database_with_opts driver (option_pairs database_option_from merged_db) w1 = (Ok database, w2)
    ∧ new_connection_with_opts database (option_pairs connection_option_from merged_co) w2 = (Ok conn, w').
Proof.
  unfold DriverManagerBackend_open. intros (driver & w1 & Hl & Ho)%bind_Ok.
  apply bind_Ok in Ho as (mdb & w1' & [= Hdb <-] & Ho). apply bind_Ok in Ho as (mco & w1'' & [= Hco <-] & Ho).
  apply bind_Ok in Ho as (database & w2 & Hd & Hc). by exists driver, database, mdb, mco, w1, w2.
Qed.

Lemma collect_map_key (options : list (string * OptionValue)) key value :
  collect_map options !! key = Some value → key ∈ options.*1.
Proof.
  unfold collect_map. assert (∀ m : gmap string OptionValue, foldl (λ merged '(key, value), <[key := value]> merged) m options !! key
    = Some value → m !! key = Some value ∨ key ∈ options.*1) as Hgen.
  { induction options as [|[k v] options IH]; intros m; simpl; [by left|].
    intros [Hm|Hk]%IH; [|set_solver]. destruct (decide (k = key)) as [->|]; [set_solver|].
    rewrite lookup_insert_ne in Hm by done. by left. }
  intros [Hm|Hk]%Hgen; [by rewrite lookup_empty in Hm|done].
Qed.

(** What a successful merge holds, and when there is none. *)
Lemma merged_under_policy client configured policy kind merged key value :
  merge_options client configured policy kind = Ok merged →
  (key, value) ∈ merged ↔
    match configured_value configured key with
    | Some v => json_into_adbc v = Ok value
    | None => permits policy key = true ∧ collect_map client !! key = Some value
    end.
Proof.
  intros (Hp & _ & ->)%merge_options_Ok. destruct (configured_value configured key); [done|].
  split; [|tauto]. intros Hc. split; [|done]. by eapply Hp, collect_map_key.
Qed.

Lemma refused_merge client configured policy kind :
  policy_refuses policy client → ∃ e, merge_options client configured policy kind = Err e.
Proof.
  intros (key & Hk & Hp). destruct (merge_options client configured policy kind) as [m|e] eqn:Hm; [|by exists e].
  apply merge_options_Ok in Hm as [Hall _]. specialize (Hall _ Hk). congruence.
Qed.
End Instance.

(** ** Main theorems *)

Section Main.
Context `{AdbcCore} `{RustFmt} `{Base64} `{DriverManager} `{!ManagedAdbc}.

(** C39: the backend opens a native connection only under the target's policy: if
    it succeeds the driver of the target was loaded and its database and connection
    were opened with options in which every operator key has the operator's value
    and every other key is one the client sent and the policy permits; if the
    policy refuses a client key the open fails having at most loaded the driver,
    without creating a database. *)
Theorem open_applies_policy target db co w :
  match DriverManagerBackend_open target db co w with
  | (Ok conn, w') =>
      ∃ driver database merged_db merged_co w1 w2,
        load_from_name (Config.driver target) (as_bytes <$> entrypoint target) w = (Ok driver, w1)
        ∧ Backend.new_database_with_opts driver (option_pairs database_option_from merged_db) w1 = (Ok database, w2)
        ∧ new_connection_with_opts database (option_pairs connection_option_from merged_co) w2 = (Ok conn, w')
        ∧ (∀ key value, (key, value) ∈ merged_db ↔
             match configured_value (Config.database_options target) key with
             | Some v => json_into_adbc v = Ok value
             | None => permits (database_option_policy target) key = true
                       ∧ collect_map db !! key = Some value
             end)
        ∧ (∀ key value, (key, value) ∈ merged_co ↔
             match configured_value (Config.connection_options target) key with
             | Some v => json_into_adbc v = Ok value
             | None => permits (connection_option_policy target) key = true
                       ∧ collect_map co !! key = Some value
             end)
  | (Err e, w') =>
      policy_refuses (database_option_policy target) db
      ∨ policy_refuses (connection_option_policy target) co →
      w' = (load_from_name (Config.driver target) (as_bytes <$> entrypoint target) w).2
  end.
Proof.
  destruct (DriverManagerBackend_open target db co w) as [[conn|e] w'] eqn:Ho.
  - apply open_Ok in Ho as (driver & database & mdb & mco & w1 & w2 & Hl & Hdb & Hco & Hd & Hc).
    exists driver, database, mdb, mco, w1, w2. split_and!; [done..| |]; intros key value; by eapply merged_under_policy.
  - unfold DriverManagerBackend_open in Ho. unfold mbind, M_bind in Ho.
    destruct (load_from_name _ _ w) as [[driver|e'] w1]; [|by injection Ho as _ <-].
    unfold mlift in Ho. intros [Hr|Hr].
    + destruct (refused_merge db (Config.database_options target) _ "database" Hr) as [e1 He1].
      rewrite He1 in Ho. by injection Ho as _ <-.
    + destruct (refused_merge co (Config.connection_options target) _ "connection" Hr) as [e1 He1].
      rewrite He1 in Ho. destruct (merge_options db _ _ _); by injection Ho as _ <-.
Qed.
End Main.
