(* ===== verification/ReferenceBackend.v ===== *)
(** * A reference backend

    An in-memory implementation of the [Backend] interface for the examples:
    its world is the queue of items its readers will produce, and every other
    operation succeeds. *)

From S2P Require Import Prelude Adbc WireError Arrow Config Backend Reference.

Definition ref_options : AdbcOptions := {|
  InfoCode := Z;
  info_code_from z := z;
  ObjectDepth := Z;
  object_depth_try_from z := Ok z
|}.

Definition ref_world : Type := list (result ArrowError RecordBatch).

Definition ref_ok {A} (a : A) : M ref_world AdbcError A := λ w, (Ok a, w).

Definition ref_backend : @Backend ref_arrow ref_options := {|
  World := ref_world;
  Conn := unit;
  Stmt := unit;
  NativeReader := unit;
  Cancel := unit;
  reader_schema _ := ([utf8_field "name"] : @Schema ref_arrow);
  reader_next _ w := match w with [] => (None, []) | item :: w => (Some item, w) end;
  try_cancel _ := ref_ok tt;
  backend_open _ _ _ := ref_ok tt;
  conn_cancel_handle _ := tt;
  conn_new_statement _ := ref_ok tt;
  conn_set_option _ _ _ := ref_ok tt;
  conn_get_option_string _ _ := ref_ok "";
  conn_get_option_bytes _ _ := ref_ok [];
  conn_get_option_int _ _ := ref_ok 0;
  conn_get_option_double _ _ := ref_ok 0;
  conn_get_info _ _ := ref_ok tt;
  conn_get_objects _ _ _ _ _ _ _ := ref_ok tt;
  conn_get_table_schema _ _ _ _ := ref_ok ([] : @Schema ref_arrow);
  conn_get_table_types _ := ref_ok tt;
  conn_get_statistic_names _ := ref_ok tt;
  conn_get_statistics _ _ _ _ _ := ref_ok tt;
  conn_commit _ := ref_ok tt;
  conn_rollback _ := ref_ok tt;
  conn_read_partition _ _ := ref_ok tt;
  stmt_set_option _ _ _ := ref_ok tt;
  stmt_get_option_string _ _ := ref_ok "";
  stmt_get_option_bytes _ _ := ref_ok [];
  stmt_get_option_int _ _ := ref_ok 0;
  stmt_get_option_double _ _ := ref_ok 0;
  stmt_bind _ batch := λ w, (Ok tt, w ++ [Ok batch]);
  stmt_bind_stream _ reader := λ w, (Ok tt, w ++ reader);
  stmt_set_sql_query _ _ := ref_ok tt;
  stmt_set_substrait_plan _ _ := ref_ok tt;
  stmt_prepare _ := ref_ok tt;
  stmt_execute _ := ref_ok tt;
  stmt_execute_update _ := ref_ok (Some 0);
  stmt_execute_schema _ := ref_ok ([] : @Schema ref_arrow);
  stmt_execute_partitions _ :=
    ref_ok (mkPartitionedResult [] ([] : @Schema ref_arrow) 0);
  stmt_get_parameter_schema _ := ref_ok ([] : @Schema ref_arrow);
  stmt_cancel_handle _ := tt
|}.

Definition ref_reader : @NativeReader ref_arrow ref_options ref_backend := tt.
Definition ref_conn : @Conn ref_arrow ref_options ref_backend := tt.
Definition ref_cancel : @Cancel ref_arrow ref_options ref_backend := tt.
Definition ref_items (items : ref_world) : @World ref_arrow ref_options ref_backend := items.
