(* ===== verification/ResultCursor.v ===== *)
(** * Result cursors ([ResultEntry] of grainlift-server/src/session.rs)

    A result is read by sequence number.  The entry keeps the last batch and a
    terminal error, so that a client that lost a response asks for the same
    sequence again and receives the same answer while the native reader
    advances once.  The reader is a native one, with the [World] behind it. *)

From S2P Require Import Prelude Adbc WireError Arrow Config Backend Reference ReferenceBackend.

Section ResultEntry.
Context `{AdbcCore} `{Backend}.

Record ResultEntry : Type := mkResultEntry {
  owner_statement_id : option string;
  reader : NativeReader;
  re_schema : Schema;
  next_sequence : Z;
  last : option (Z * RecordBatch);
  terminal_error : option (Z * AdbcError);
  finished : bool
}.

Definition ResultEntry_new (owner : option string) (r : NativeReader) : ResultEntry :=
  mkResultEntry owner r (reader_schema r) 0 None None false.

Definition result_schema_of (entry : ResultEntry) : Schema := re_schema entry.

Definition sequence_error (expected sequence : Z) : AdbcError :=
  with_message_and_status
    ("invalid result sequence: expected " +:+ show_int expected +:+ ", got " +:+ show_int sequence)
    InvalidState.

(** The reader is asked for the batch of [sequence]. *)
Definition fetch (entry : ResultEntry) (w : World) (sequence : Z)
  : result AdbcError (option RecordBatch) * (ResultEntry * World) :=
  match reader_next (reader entry) w with
  | (Some (Ok batch), w) =>
      (Ok (Some batch),
       (mkResultEntry (owner_statement_id entry) (reader entry) (re_schema entry)
          (wrap_signed 64 (next_sequence entry + 1)) (Some (sequence, batch))
          (terminal_error entry) (finished entry), w))
  | (Some (Err error), w) =>
      let error := error_from_arrow error in
      (Err error,
       (mkResultEntry (owner_statement_id entry) (reader entry) (re_schema entry)
          (next_sequence entry) (last entry) (Some (sequence, error)) true, w))
  | (None, w) =>
      (Ok None,
       (mkResultEntry (owner_statement_id entry) (reader entry) (re_schema entry)
          (next_sequence entry) None (terminal_error entry) true, w))
  end.

Definition replayed_batch (entry : ResultEntry) (sequence : Z) : option RecordBatch :=
  match last entry with
  | Some (last_sequence, batch) => if sequence =? last_sequence then Some batch else None
  | None => None
  end.

Definition replayed_error (entry : ResultEntry) (sequence : Z) : option AdbcError :=
  match terminal_error entry with
  | Some (error_sequence, error) => if sequence =? error_sequence then Some error else None
  | None => None
  end.

Definition result_next (sequence : Z) : M (ResultEntry * World) AdbcError (option RecordBatch) :=
  λ '(entry, w),
    match replayed_batch entry sequence, replayed_error entry sequence with
    | Some batch, _ => (Ok (Some batch), (entry, w))
    | None, Some error => (Err error, (entry, w))
    | None, None =>
        if negb (sequence =? next_sequence entry)
        then (Err (sequence_error (next_sequence entry) sequence), (entry, w))
        else if finished entry then (Ok None, (entry, w))
        else fetch entry w sequence
    end.

(** ** The invariant

    [fetched] is the list of batches the reader has produced so far. *)

Definition cursor_inv (entry : ResultEntry) (fetched : list RecordBatch) : Prop :=
  len fetched ≤ i64_max
  ∧ next_sequence entry = len fetched
  ∧ (∀ s batch, last entry = Some (s, batch) →
       s = len fetched - 1 ∧ list.last fetched = Some batch)
  ∧ (finished entry = false → last entry = None → fetched = [])
  ∧ (∀ s error, terminal_error entry = Some (s, error) → s = len fetched ∧ finished entry = true).

Lemma cursor_inv_new owner r : cursor_inv (ResultEntry_new owner r) [].
Proof. unfold cursor_inv, i64_max. simpl. repeat split; try done; naive_solver. Qed.

Lemma len_snoc {A} (l : list A) x : len (l ++ [x]) = len l + 1.
Proof. rewrite len_app. done. Qed.

Lemma wrap_signed_succ n : 0 ≤ n → n + 1 ≤ i64_max → wrap_signed 64 (n + 1) = n + 1.
Proof. unfold wrap_signed, i64_max. simpl. intros. rewrite Z.mod_small; lia. Qed.

(** The answers a reader that has produced [fetched] may give, and the
    batches it has produced afterwards. *)
Inductive answer (entry : ResultEntry) (w : World) (fetched : list RecordBatch) (sequence : Z)
  : result AdbcError (option RecordBatch) → ResultEntry * World → list RecordBatch → Prop :=
| answer_replay batch :
    sequence = len fetched - 1 → list.last fetched = Some batch →
    answer entry w fetched sequence (Ok (Some batch)) (entry, w) fetched
| answer_batch batch entry' w' :
    sequence = len fetched → reader_next (reader entry) w = (Some (Ok batch), w') →
    reader entry' = reader entry →
    answer entry w fetched sequence (Ok (Some batch)) (entry', w') (fetched ++ [batch])
| answer_failed error entry' w' :
    sequence = len fetched → reader_next (reader entry) w = (Some (Err error), w') →
    terminal_error entry' = Some (sequence, error_from_arrow error) →
    answer entry w fetched sequence (Err (error_from_arrow error)) (entry', w') fetched
| answer_end entry' w' :
    sequence = len fetched → reader_next (reader entry) w = (None, w') → finished entry' = true →
    answer entry w fetched sequence (Ok None) (entry', w') fetched
| answer_ended :
    sequence = len fetched → finished entry = true →
    answer entry w fetched sequence (Ok None) (entry, w) fetched
| answer_error_again error :
    sequence = len fetched → terminal_error entry = Some (sequence, error) →
    answer entry w fetched sequence (Err error) (entry, w) fetched
| answer_out_of_order :
    sequence ≠ len fetched →
    answer entry w fetched sequence (Err (sequence_error (len fetched) sequence)) (entry, w) fetched.

Lemma fetch_answer entry w fetched :
  cursor_inv entry fetched → len fetched < i64_max → finished entry = false →
  ∃ fetched',
    answer entry w fetched (len fetched) (fetch entry w (len fetched)).1
      (fetch entry w (len fetched)).2 fetched'
    ∧ cursor_inv (fetch entry w (len fetched)).2.1 fetched'.
Proof.
  intros (Hb & Hn & Hl & Hf & Ht) Hlt Hfin. pose proof (len_nonneg fetched) as Hpos.
  unfold fetch. destruct (reader_next (reader entry) w) as [[[batch|error]|] w'] eqn:Hr; simpl.
  - exists (fetched ++ [batch]). split; [by econstructor|].
    unfold cursor_inv; simpl. rewrite len_snoc, Hn, wrap_signed_succ by lia.
    split; [lia|]. split; [done|]. split.
    { intros s b [= <- <-]. rewrite last_snoc. split; [lia|done]. }
    split; [done|]. intros s e He. destruct (Ht s e He). congruence.
  - exists fetched. split; [by econstructor|]. unfold cursor_inv; simpl.
    repeat split; try done; naive_solver.
  - exists fetched. split; [by econstructor|]. unfold cursor_inv; simpl.
    repeat split; try done; naive_solver.
Qed.

Lemma result_next_answer entry w fetched sequence :
  cursor_inv entry fetched → len fetched < i64_max →
  ∃ fetched',
    answer entry w fetched sequence (result_next sequence (entry, w)).1
      (result_next sequence (entry, w)).2 fetched'
    ∧ cursor_inv (result_next sequence (entry, w)).2.1 fetched'.
Proof.
  intros Hinv Hlt. pose proof Hinv as (Hb & Hn & Hl & Hf & Ht). unfold result_next.
  destruct (replayed_batch entry sequence) as [batch|] eqn:Hrb.
  { unfold replayed_batch in Hrb. destruct (last entry) as [[s b]|] eqn:Hlast; [|done].
    destruct (Z.eqb_spec sequence s); simplify_eq. destruct (Hl s batch eq_refl).
    exists fetched. simpl. split; [by constructor|done]. }
  destruct (replayed_error entry sequence) as [error|] eqn:Hre.
  { unfold replayed_error in Hre. destruct (terminal_error entry) as [[s b]|] eqn:Hterm; [|done].
    destruct (Z.eqb_spec sequence s); simplify_eq. destruct (Ht s error eq_refl).
    exists fetched. simpl. split; [|done]. apply answer_error_again; congruence. }
  destruct (Z.eqb_spec sequence (next_sequence entry)) as [->|Hne]; simpl.
  - rewrite Hn. destruct (finished entry) eqn:Hfin; simpl.
    + exists fetched. split; [by apply answer_ended|done].
    + by apply fetch_answer.
  - exists fetched. rewrite Hn. split; [|done]. apply answer_out_of_order. congruence.
Qed.

(** ** Delivery

    What a reader produces from now on when nothing else uses its world. *)

Inductive Ending : Type := EndOfStream | Failure (error : ArrowError).

Inductive yields (r : NativeReader) : World → list RecordBatch → Ending → Prop :=
| yields_end w w' : reader_next r w = (None, w') → yields r w [] EndOfStream
| yields_fail w w' error : reader_next r w = (Some (Err error), w') → yields r w [] (Failure error)
| yields_batch w w' batch batches ending :
    reader_next r w = (Some (Ok batch), w') → yields r w' batches ending →
    yields r w (batch :: batches) ending.

(** A client's requests, one after the other, and the answers. *)
Fixpoint run_requests (requests : list Z) (s : ResultEntry * World)
  : list (result AdbcError (option RecordBatch)) :=
  match requests with
  | [] => []
  | sequence :: requests =>
      let '(a, s) := result_next sequence s in a :: run_requests requests s
  end.

(** Sequence [from], [from + 1], ... each asked once and then retried
    [retries] times. *)
Fixpoint retrying (from : Z) (retries : list nat) : list Z :=
  match retries with
  | [] => []
  | k :: retries => replicate (S k) from ++ retrying (from + 1) retries
  end.

Fixpoint answers_of (batches : list RecordBatch) (ending : Ending) (retries : list nat)
  : list (result AdbcError (option RecordBatch)) :=
  match retries, batches with
  | k :: retries, batch :: batches =>
      replicate (S k) (Ok (Some batch)) ++ answers_of batches ending retries
  | k :: _, [] =>
      replicate (S k) (match ending with
                       | EndOfStream => Ok None
                       | Failure error => Err (error_from_arrow error)
                       end)
  | [], _ => []
  end.

Lemma run_requests_app l k s :
  run_requests (l ++ k) s =
    run_requests l s ++ run_requests k (foldl (λ s sequence, (result_next sequence s).2) s l).
Proof.
  revert s; induction l as [|a l IH]; intros s; [done|]. simpl.
  destruct (result_next a s) as [x s'] eqn:Hs. simpl. by rewrite IH.
Qed.

(** A request whose answer leaves a state that answers it the same way again. *)
Lemma run_replicate sequence a k s :
  result_next sequence s = (a, s) →
  run_requests (replicate k sequence) s = replicate k a
  ∧ foldl (λ s sequence, (result_next sequence s).2) s (replicate k sequence) = s.
Proof.
  intros Hs. induction k as [|k [IH1 IH2]]; [done|]. cbn [replicate run_requests foldl].
  rewrite Hs. cbn [snd]. by rewrite IH1, IH2.
Qed.

Lemma run_retries sequence a k s s' :
  result_next sequence s = (a, s') → result_next sequence s' = (a, s') →
  run_requests (replicate (S k) sequence) s = replicate (S k) a
  ∧ foldl (λ s sequence, (result_next sequence s).2) s (replicate (S k) sequence) = s'.
Proof.
  intros Hs Hs'. cbn [replicate run_requests foldl]. rewrite Hs. cbn [snd].
  by destruct (run_replicate sequence a k s' Hs') as [-> ->].
Qed.

(** A cursor about to fetch sequence [n] for the first time. *)
Definition fresh_at (entry : ResultEntry) (n : Z) : Prop :=
  next_sequence entry = n ∧ finished entry = false ∧ terminal_error entry = None
  ∧ ∀ s batch, last entry = Some (s, batch) → s < n.

Lemma fresh_fetch entry w n : fresh_at entry n → result_next n (entry, w) = fetch entry w n.
Proof.
  intros (Hn & Hf & Ht & Hl). unfold result_next, replayed_batch, replayed_error.
  rewrite Ht, Hn, Z.eqb_refl, Hf. destruct (last entry) as [[s b]|]; [|done].
  specialize (Hl s b eq_refl). destruct (Z.eqb_spec n s); [lia|done].
Qed.

(** Fetching the batch [n], and asking for it again. *)
Lemma fresh_batch entry w w' n batch :
  fresh_at entry n → 0 ≤ n < i64_max → reader_next (reader entry) w = (Some (Ok batch), w') →
  ∃ entry', result_next n (entry, w) = (Ok (Some batch), (entry', w'))
    ∧ result_next n (entry', w') = (Ok (Some batch), (entry', w'))
    ∧ fresh_at entry' (n + 1) ∧ reader entry' = reader entry.
Proof.
  intros Hfresh Hn Hr. rewrite (fresh_fetch _ _ _ Hfresh). unfold fetch. rewrite Hr.
  destruct Hfresh as (Hseq & Hf & Ht & Hl). eexists. split; [done|]. split.
  { unfold result_next, replayed_batch; simpl. by rewrite Z.eqb_refl. }
  split; [|done]. unfold fresh_at; simpl. rewrite Hseq, wrap_signed_succ by lia.
  repeat split; try done. intros s b [= <- <-]. lia.
Qed.

Lemma delivery_ending entry w n ending k :
  fresh_at entry n → yields (reader entry) w [] ending →
  run_requests (replicate (S k) n) (entry, w) = answers_of [] ending [k].
Proof.
  intros Hfresh Hy. inversion Hy as [w1 w' Hr|w1 w' error Hr|]; subst.
  - edestruct (run_retries n (Ok None) k (entry, w)) as [-> _]; [| |done].
    + rewrite (fresh_fetch _ _ _ Hfresh). unfold fetch. by rewrite Hr.
    + destruct Hfresh as (Hseq & Hf & Ht & Hl).
      unfold result_next, replayed_batch, replayed_error; simpl. by rewrite Ht, Hseq, Z.eqb_refl.
  - edestruct (run_retries n (Err (error_from_arrow error)) k (entry, w)) as [-> _]; [| |done].
    + rewrite (fresh_fetch _ _ _ Hfresh). unfold fetch. by rewrite Hr.
    + destruct Hfresh as (Hseq & Hf & Ht & Hl).
      unfold result_next, replayed_batch, replayed_error; simpl. rewrite Z.eqb_refl.
      destruct (last entry) as [[s b]|]; [|done]. specialize (Hl s b eq_refl).
      destruct (Z.eqb_spec n s); [lia|done].
Qed.

Lemma delivery entry w batches ending retries n :
  fresh_at entry n → yields (reader entry) w batches ending →
  length retries = S (length batches) → 0 ≤ n → n + len batches ≤ i64_max →
  run_requests (retrying n retries) (entry, w) = answers_of batches ending retries.
Proof.
  revert entry w n retries.
  induction batches as [|batch batches IH]; intros entry w n retries Hfresh Hy Hlen Hpos Hn.
  - destruct retries as [|k [|]]; try done. cbn [retrying]. rewrite app_nil_r.
    by apply delivery_ending.
  - destruct retries as [|k retries]; [done|]. rewrite len_cons in Hn.
    pose proof (len_nonneg batches).
    inversion Hy as [| |w1 w' b bs e Hr Hy']; subst.
    destruct (fresh_batch entry w w' n batch) as (entry' & Hfirst & Hagain & Hfresh' & Hreader);
      [done|lia|done|].
    cbn [retrying answers_of]. rewrite run_requests_app.
    destruct (run_retries _ _ k _ _ Hfirst Hagain) as [-> ->]. f_equal.
    apply IH; [done|by rewrite Hreader|simpl in Hlen; lia|lia|lia].
Qed.
End ResultEntry.

(** ** Main theorems *)

Section Main.
Context `{AdbcCore} `{Backend}.

(** A client that reads a result in order, repeating every request as often
    as it likes, receives each batch of the native reader once per request at
    its sequence number, then the end of the stream or the reader's error, the
    same answer at every repetition; no batch is skipped or duplicated. *)
Theorem cursor_delivers_each_batch owner r w batches ending retries :
  yields r w batches ending → length retries = S (length batches) → len batches ≤ i64_max →
  run_requests (retrying 0 retries) (ResultEntry_new owner r, w) = answers_of batches ending retries.
Proof. intros Hy Hr Hlen. apply delivery; [|done..]. repeat split; naive_solver. Qed.

(** Whatever the sequence number asked for and however the world changed in
    between, an answer is the last batch again, the next item of the reader, the
    end or the error that ended it, or a refusal that changes nothing; the
    cursor keeps counting exactly the batches the reader produced. *)
Theorem cursor_answers entry w fetched sequence :
  cursor_inv entry fetched → len fetched < i64_max →
  ∃ fetched',
    answer entry w fetched sequence (result_next sequence (entry, w)).1
      (result_next sequence (entry, w)).2 fetched'
    ∧ cursor_inv (result_next sequence (entry, w)).2.1 fetched'.
Proof. apply result_next_answer. Qed.
End Main.

Section Example.
#[local] Existing Instance simple_core.
#[local] Existing Instance ref_arrow.
#[local] Existing Instance ref_options.
#[local] Existing Instance ref_backend.

Definition example_rows (n : Z) : RecordBatch :=
  mkRecordBatch [Field_new "n" Int64 false] [Int64Array [Some n]] 1.

Lemma cursor_delivers_each_batch_witness :
  run_requests [0; 0; 1; 2; 2] (ResultEntry_new None ref_reader, ref_items [Ok (example_rows 7); Ok (example_rows 8)])
  = [Ok (Some (example_rows 7)); Ok (Some (example_rows 7)); Ok (Some (example_rows 8));
     Ok None; Ok None].
Proof.
  apply (cursor_delivers_each_batch None ref_reader (ref_items [Ok (example_rows 7); Ok (example_rows 8)])
    [example_rows 7; example_rows 8] EndOfStream [1; 0; 1]%nat).
  - eapply yields_batch; [reflexivity|]. eapply yields_batch; [reflexivity|].
    eapply yields_end. reflexivity.
  - reflexivity.
  - vm_compute. discriminate.
Defined.

Lemma cursor_answers_witness :
  ∃ fetched', cursor_inv (result_next 5 (ResultEntry_new None ref_reader, ref_items [])).2.1 fetched'.
Proof.
  destruct (cursor_answers (ResultEntry_new None ref_reader) (ref_items []) [] 5) as (fetched' & _ & Hinv).
  - exact (cursor_inv_new None ref_reader).
  - vm_compute. reflexivity.
  - exists fetched'. exact Hinv.
Defined.
End Example.
