(* ===== verification/BindUpload.v ===== *)
(** * Bind uploads (grainlift-server/src/bind_upload.rs)

    One actor per upload stages Arrow batches in an anonymous file.  Its state
    is [Actor]; [step] handles one command of the channel, and
    [push]/[finish]/[cancel] are the client side, which blocks for the reply.
    The file system is the interface [FileSystem]; the IPC writer and reader
    are [IpcCrate]'s. *)

From S2P Require Import Prelude Adbc WireError Options Arrow Framing Envelope.
From S2P Require Import Config Backend Reference ReferenceIpc.

(** An anonymous file.  [file_write] reports how many bytes of its buffer it
    took, as [Write::write] documents. *)
Class FileSystem : Type := {
  tempfile : result string unit;
  file_write : bytes → bytes → result string Z;
  file_seek : bytes → result string unit;
  file_write_count : ∀ content buf count, file_write content buf = Ok count → 0 ≤ count ≤ len buf
}.

Record CountingFile : Type := mkCountingFile { content : bytes; written : Z }.

Section Upload.
Context `{AdbcCore} `{RustFmt} `{ArrowCrate} `{!IpcCrate} `{FileSystem}.

Definition upload_invalid_data (m : string) : AdbcError := with_message_and_status m InvalidData.
Definition upload_invalid_state (m : string) : AdbcError := with_message_and_status m InvalidState.
Definition upload_io_error (m : string) : AdbcError := with_message_and_status m IO.

(** [<CountingFile as Write>::write]. *)
Definition counting_write (file : CountingFile) (buf : bytes) : result string (Z * CountingFile) :=
  count ← file_write (content file) buf;
  Ok (count, mkCountingFile (content file ++ take (Z.to_nat count) buf)
               (usize_saturating_add (written file) count)).

(** The standard [write_all]: every iteration writes at least one byte or
    fails, so the length of the buffer bounds the iterations. *)
Fixpoint counting_write_all (fuel : nat) (file : CountingFile) (buf : bytes)
  : result string CountingFile :=
  match buf, fuel with
  | [], _ => Ok file
  | _, O => Err "failed to write whole buffer"
  | _, S fuel =>
      '(count, file) ← counting_write file buf;
      if count =? 0 then Err "failed to write whole buffer"
      else counting_write_all fuel file (drop (Z.to_nat count) buf)
  end.

Fixpoint counting_write_chunks (file : CountingFile) (chunks : list bytes)
  : result string CountingFile :=
  match chunks with
  | [] => Ok file
  | chunk :: chunks =>
      file ← counting_write_all (length chunk) file chunk;
      counting_write_chunks file chunks
  end.

(** A call of the IPC writer on the file. *)
Definition run_file_phase {A} (phase : Phase A) (file : CountingFile)
  : result ArrowError (A * CountingFile) :=
  file ← map_err io_to_arrow (counting_write_chunks file phase.1);
  a ← phase.2;
  Ok (a, file).

Inductive Command : Type := Push (batch : RecordBatch) | Finish | CancelUpload.

Inductive Actor : Type :=
| Running (w : writer) (file : CountingFile) (terminal : option AdbcError)
| Failing (error : AdbcError)
| Stopped.

Inductive Reply : Type :=
| PushReply (r : result AdbcError unit)
| FinishReply (r : result AdbcError StagedReader)
| NoReply.

(** [run] up to its loop: the file and the writer. *)
Definition run_start (schema : Schema) : Actor :=
  match tempfile with
  | Err error => Failing (upload_io_error ("create bind upload file: " +:+ error))
  | Ok _ =>
      match run_file_phase (sw_try_new schema) (mkCountingFile [] 0) with
      | Ok (w, file) => Running w file None
      | Err error =>
          Failing (upload_invalid_data ("initialize bind upload: " +:+ display_arrow error))
      end
  end.

Definition over_limit (max_bytes actual : Z) : AdbcError :=
  upload_invalid_data ("bind stream exceeds the " +:+ show_int max_bytes +:+ " byte limit ("
                       +:+ show_int actual +:+ " bytes)").

Definition finish_reader (w : writer) (file : CountingFile) (max_bytes : Z)
  : result AdbcError StagedReader :=
  '(_, file) ← map_err (λ e, upload_invalid_data ("finish bind upload: " +:+ display_arrow e))
                (run_file_phase (sw_finish w) file);
  if max_bytes <? written file then Err (over_limit max_bytes (written file))
  else
    map_err (λ e, upload_io_error ("rewind bind upload: " +:+ e)) (file_seek (content file));;
    map_err (λ e, upload_invalid_data ("open staged bind stream: " +:+ display_arrow e))
      (sr_open (content file)).

(** The body of [Command::Push] without a terminal error. *)
Definition stage (w : writer) (file : CountingFile) (max_bytes : Z) (batch : RecordBatch)
  : result AdbcError (writer * CountingFile) :=
  '(w, file) ← map_err (λ e, upload_invalid_data ("stage bind batch: " +:+ display_arrow e))
                 (run_file_phase (sw_write w batch) file);
  if max_bytes <? written file then Err (over_limit max_bytes (written file))
  else Ok (w, file).

(** One iteration of [run]'s loop, or of [fail_all]'s.  Once a terminal error
    is kept, the writer and the file are not used again. *)
Definition step (max_bytes : Z) (actor : Actor) (command : Command) : Reply * Actor :=
  match actor, command with
  | Running w file terminal, Push batch =>
      match terminal with
      | Some error => (PushReply (Err error), actor)
      | None =>
          match stage w file max_bytes batch with
          | Ok (w, file) => (PushReply (Ok tt), Running w file None)
          | Err error => (PushReply (Err error), Running w file (Some error))
          end
      end
  | Running w file terminal, Finish =>
      (FinishReply (match terminal with
                    | Some error => Err error
                    | None => finish_reader w file max_bytes
                    end), Stopped)
  | Failing error, Push _ => (PushReply (Err error), actor)
  | Failing error, Finish => (FinishReply (Err error), Stopped)
  | (Running _ _ _ | Failing _), CancelUpload => (NoReply, Stopped)
  | Stopped, _ => (NoReply, Stopped)
  end.

Record BindUpload : Type := mkBindUpload { actor : Actor; max_bytes : Z }.

(** [spawned] is whether the operating system started the actor's thread. *)
Definition upload_start (spawned : result string unit) (schema : Schema) (max_bytes : Z)
  : result AdbcError BindUpload :=
  map_err (λ e, upload_io_error ("start bind upload worker: " +:+ e)) spawned;;
  Ok (mkBindUpload (run_start schema) max_bytes).

Definition push (u : BindUpload) (batch : RecordBatch) : result AdbcError unit * BindUpload :=
  let '(reply, a) := step (max_bytes u) (actor u) (Push batch) in
  (match reply with
   | PushReply r => r
   | _ => Err (upload_invalid_state "bind upload worker stopped")
   end, mkBindUpload a (max_bytes u)).

Definition finish (u : BindUpload) : result AdbcError StagedReader :=
  match (step (max_bytes u) (actor u) Finish).1 with
  | FinishReply r => r
  | _ => Err (upload_invalid_state "bind upload worker stopped")
  end.

(** [cancel] consumes the upload; its channel closes whether or not the
    command fits the queue. *)
Definition upload_cancel (u : BindUpload) : BindUpload :=
  mkBindUpload (step (max_bytes u) (actor u) CancelUpload).2 (max_bytes u).

(** Push several batches, stopping at the first error, as the exchange does. *)
Fixpoint push_all (u : BindUpload) (batches : list RecordBatch)
  : result AdbcError unit * BindUpload :=
  match batches with
  | [] => (Ok tt, u)
  | batch :: batches =>
      match push u batch with
      | (Ok _, u) => push_all u batches
      | (Err e, u) => (Err e, u)
      end
  end.

(** ** The file holds what was written *)

Definition file_ok (file : CountingFile) : Prop :=
  written file = Z.min usize_max (len (content file)).

Lemma counting_write_all_Ok fuel file buf file' :
  file_ok file → counting_write_all fuel file buf = Ok file' →
  content file' = content file ++ buf ∧ file_ok file'.
Proof.
  revert file buf; induction fuel as [|fuel IH]; intros file buf Hok; simpl.
  { destruct buf; [|done]. intros [= <-]. by rewrite app_nil_r. }
  destruct buf as [|b buf]; [intros [= <-]; by rewrite app_nil_r|].
  intros Hw. apply result_bind_Ok in Hw as ([count file1] & Hw1 & Hw).
  destruct (count =? 0); [done|]. unfold counting_write in Hw1.
  apply result_bind_Ok in Hw1 as (c & Hc & [= <- <-]).
  pose proof (file_write_count _ _ _ Hc) as Hcount.
  apply IH in Hw as [Hc2 Hok2].
  - simpl in Hc2. by rewrite Hc2, <-(assoc_L (++)), take_drop.
  - unfold file_ok, usize_saturating_add in *; simpl.
    rewrite len_app. unfold len at 2. rewrite length_take, Hok.
    unfold len in *. lia.
Qed.

Lemma counting_write_chunks_Ok file chunks file' :
  file_ok file → counting_write_chunks file chunks = Ok file' →
  content file' = content file ++ concat chunks ∧ file_ok file'.
Proof.
  revert file; induction chunks as [|c cs IH]; intros file Hok; simpl.
  { intros [= <-]. by rewrite app_nil_r. }
  intros Hw. apply result_bind_Ok in Hw as (file1 & Hw1 & Hw).
  apply counting_write_all_Ok in Hw1 as [Hc1 Hok1]; [|done].
  apply IH in Hw as [Hc2 Hok2]; [|done]. by rewrite Hc2, Hc1, (assoc_L (++)).
Qed.

Lemma run_file_phase_Ok {A} (phase : Phase A) file a file' :
  file_ok file → run_file_phase phase file = Ok (a, file') →
  phase = (phase.1, Ok a) ∧ content file' = content file ++ concat phase.1 ∧ file_ok file'.
Proof.
  intros Hok Hr. unfold run_file_phase in Hr. destruct phase as [chunks r]; simpl in *.
  inv_ok. apply counting_write_chunks_Ok in Hx as [??]; [|done]. naive_solver.
Qed.

(** ** The invariant

    Everything staged so far is a prefix of the stream that finishing would
    emit, and it is within the limit. *)

Inductive stages (w : writer) (staged : bytes) : list RecordBatch → writer → bytes → Prop :=
| stages_nil : stages w staged [] w staged
| stages_snoc batches w1 b1 batch chunks w2 :
    stages w staged batches w1 b1 → sw_write w1 batch = (chunks, Ok w2) →
    stages w staged (batches ++ [batch]) w2 (b1 ++ concat chunks).

Definition upload_inv (schema : Schema) (u : BindUpload) (batches : list RecordBatch) : Prop :=
  match actor u with
  | Running w file None =>
      ∃ chunks w0, sw_try_new schema = (chunks, Ok w0)
        ∧ stages w0 (concat chunks) batches w (content file) ∧ file_ok file
        ∧ (batches ≠ [] → written file ≤ max_bytes u)
  | _ => True
  end.

Lemma stages_emits w staged batches w1 b1 rest batches' :
  stages w staged batches w1 b1 → emits_batches sw_write sw_finish w1 batches' rest →
  ∃ tail, emits_batches sw_write sw_finish w (batches ++ batches') tail ∧ b1 ++ rest = staged ++ tail.
Proof.
  intros Hs. revert batches' rest.
  induction Hs as [|batches w1 b1 batch chunks w2 Hs IH Hw]; intros batches' rest He.
  { by exists rest. }
  destruct (IH (batch :: batches') (concat chunks ++ rest)) as (tail & Ht & Heq).
  { by econstructor. }
  exists tail. by rewrite <-!(assoc_L (++)).
Qed.

Lemma upload_start_inv spawned schema limit u :
  upload_start spawned schema limit = Ok u → upload_inv schema u [].
Proof.
  unfold upload_start. intros Hu. inv_ok. unfold upload_inv, run_start; simpl.
  destruct tempfile; [|done].
  destruct (run_file_phase _ _) as [[w file]|] eqn:Hr; [|done].
  apply run_file_phase_Ok in Hr as (Hp & Hc & Hok); [|done]. simpl in Hc.
  exists (sw_try_new schema).1, w. rewrite Hc. repeat split; try done. constructor.
Qed.

Lemma push_inv schema u batches batch u' :
  upload_inv schema u batches → push u batch = (Ok tt, u') →
  upload_inv schema u' (batches ++ [batch]) ∧ max_bytes u' = max_bytes u.
Proof.
  destruct u as [[w file [error|]|error|] limit]; unfold push; simpl; try naive_solver.
  intros (chunks & w0 & Hnew & Hst & Hok & Hlim).
  destruct (stage w file limit batch) as [[w1 file1]|e] eqn:Hs; [|by intros [=]].
  intros [= <-]. split; [|done]. unfold stage in Hs. inv_ok. destruct x as [w2 file2].
  destruct (Z.ltb_spec limit (written file2)); inv_ok. simplify_eq.
  apply run_file_phase_Ok in Hx as (Hp & Hc & Hok2); [|done].
  exists chunks, w0. split; [done|]. rewrite Hc. split; [by econstructor|]. done.
Qed.

Lemma push_all_inv schema u batches u' :
  upload_inv schema u [] → push_all u batches = (Ok tt, u') →
  upload_inv schema u' batches ∧ max_bytes u' = max_bytes u.
Proof.
  change batches with ([] ++ batches) at 2. generalize (@nil RecordBatch) as pushed.
  revert u; induction batches as [|batch batches IH]; intros u pushed Hinv; simpl.
  { intros [= <-]. by rewrite app_nil_r. }
  destruct (push u batch) as [[[]|] u1] eqn:Hp; [|done]. intros Hall.
  destruct (push_inv _ _ _ _ _ Hinv Hp) as [Hinv1 Hm].
  destruct (IH u1 (pushed ++ [batch]) Hinv1 Hall) as [Hr ->].
  by rewrite <-(assoc_L (++)) in Hr.
Qed.

Lemma finish_reads schema u batches r :
  upload_inv schema u batches → max_bytes u < usize_max → finish u = Ok r →
  r = Ok <$> batches
  ∧ ∃ b, emits sw_try_new sw_write sw_finish schema batches b ∧ len b ≤ max_bytes u.
Proof.
  destruct u as [[w file [error|]|error|] limit]; unfold finish; simpl; try done.
  intros (chunks & w0 & Hnew & Hst & Hok & _) Hlim Hf. unfold finish_reader in Hf. inv_ok.
  destruct x as [[] file1].
  apply run_file_phase_Ok in Hx as (Hp & Hc & Hok1); [|done].
  destruct (Z.ltb_spec limit (written file1)) as [|Hle]; [done|]. inv_ok.
  destruct (stages_emits _ _ _ _ _ (concat (sw_finish w).1) [] Hst) as (tail & Ht & Heq).
  { by apply emits_finish. }
  rewrite app_nil_r in Ht. assert (emits sw_try_new sw_write sw_finish schema batches (content file1)) as He.
  { rewrite Hc, Heq. by econstructor. }
  split; [|exists (content file1); split; [done|]].
  - pose proof (stream_reads _ _ _ He) as Hr. congruence.
  - unfold file_ok in Hok1. lia.
Qed.

(** Once a push fails, its error is the answer to every later command. *)
Lemma push_error_sticky u batch e u' :
  push u batch = (Err e, u') →
  (∀ batch', push u' batch' = (Err e, u')) ∧ finish u' = Err e.
Proof.
  destruct u as [[w file [error|]|error|] limit]; unfold push, finish; simpl;
    [by intros [= <- <-]| |by intros [= <- <-]..].
  destruct (stage w file limit batch) as [[w1 file1]|e1]; [done|]. by intros [= <- <-].
Qed.
End Upload.

(** ** Main theorems *)

Section Main.
Context `{AdbcCore} `{RustFmt} `{ArrowCrate} `{!IpcCrate} `{FileSystem}.

(** The reader an upload finishes with yields exactly the batches that were
    pushed, in order, whatever way the file accepted the writes, and the whole
    stream on disk is within the byte limit. *)
Theorem upload_delivers_pushed spawned schema limit u batches u' r :
  limit < usize_max →
  upload_start spawned schema limit = Ok u → push_all u batches = (Ok tt, u') →
  finish u' = Ok r →
  r = Ok <$> batches
  ∧ ∃ b, emits sw_try_new sw_write sw_finish schema batches b ∧ len b ≤ limit.
Proof.
  intros Hlim Hstart Hpush Hfin. pose proof (upload_start_inv _ _ _ _ Hstart) as Hinv.
  destruct (push_all_inv _ _ _ _ Hinv Hpush) as [Hinv' Hm].
  assert (max_bytes u = limit) as Hu by (unfold upload_start in Hstart; by inv_ok).
  rewrite <-Hu, <-Hm. apply finish_reads; [done|lia|done].
Qed.

(** A push that fails is final: the same error answers every later push and
    the finish, so that an upload with a lost or oversized batch can never be
    bound. *)
Theorem upload_error_is_final u batch e u' :
  push u batch = (Err e, u') →
  (∀ batches, batches ≠ [] → push_all u' batches = (Err e, u')) ∧ finish u' = Err e.
Proof.
  intros Hp. destruct (push_error_sticky _ _ _ _ Hp) as [Hagain Hfin]. split; [|done].
  intros [|b bs] Hne; [done|]. simpl. by rewrite Hagain.
Qed.

(** An acknowledged push leaves at most the configured number of bytes
    staged, and a push that would leave more is refused with InvalidData. *)
Theorem upload_respects_limit u batch :
  match push u batch with
  | (Ok _, u') => ∃ w file, actor u' = Running w file None ∧ written file ≤ max_bytes u
  | (Err e, _) =>
      ∀ w file, actor u = Running w file None →
      ∀ w' file', run_file_phase (sw_write w batch) file = Ok (w', file') →
      status e = InvalidData ∧ max_bytes u < written file'
  end.
Proof.
  destruct u as [[w file [error|]|error|] limit]; unfold push; simpl; try naive_solver.
  unfold stage. destruct (run_file_phase (sw_write w batch) file) as [[w1 file1]|e] eqn:Hr;
    simpl; [|intros ?? Heq ?? Hr'; simplify_eq; congruence].
  destruct (Z.ltb_spec limit (written file1)); simpl; [|eauto].
  intros ?? Heq ?? Hr'. simplify_eq. rewrite Hr in Hr'. simplify_eq. split; [|done].
  apply with_message_and_status_status.
Qed.
End Main.

(** A file that takes every write. *)
Lemma ref_file_write_count (content buf : bytes) count :
  @Ok string Z (len buf) = Ok count → 0 ≤ count ≤ len buf.
Proof. intros [= <-]. split; [apply len_nonneg|done]. Qed.

Definition ref_files : FileSystem := {|
  tempfile := Ok tt;
  file_write content buf := Ok (len buf);
  file_seek _ := Ok tt;
  file_write_count := ref_file_write_count
|}.

Section Example.
#[local] Existing Instance simple_core.
#[local] Existing Instance simple_fmt.
#[local] Existing Instance ref_arrow.
#[local] Existing Instance ref_ipc.
#[local] Existing Instance ref_files.

Definition staged_rows (n : Z) : RecordBatch :=
  mkRecordBatch [Field_new "n" Int64 false] [Int64Array [Some n]] 1.

Definition example_upload : BindUpload := mkBindUpload (Running [] (mkCountingFile [] 0) None) 1000.

Definition example_pushed : BindUpload :=
  (push_all example_upload [staged_rows 1; staged_rows 2]).2.

Lemma upload_delivers_pushed_witness :
  finish example_pushed = Ok [Ok (staged_rows 1); Ok (staged_rows 2)]
  ∧ ∃ b, emits sw_try_new sw_write sw_finish (ref_schema [Field_new "n" Int64 false])
           [staged_rows 1; staged_rows 2] b ∧ len b ≤ 1000.
Proof.
  assert (finish example_pushed = Ok [Ok (staged_rows 1); Ok (staged_rows 2)]) as Hf
    by (vm_compute; reflexivity).
  split; [exact Hf|].
  assert (upload_start (Ok tt) (ref_schema [Field_new "n" Int64 false]) 1000 = Ok example_upload)
    as Hstart by reflexivity.
  assert (push_all example_upload [staged_rows 1; staged_rows 2] = (Ok tt, example_pushed))
    as Hpush by reflexivity.
  exact (proj2 (upload_delivers_pushed (Ok tt) (ref_schema [Field_new "n" Int64 false]) 1000
    example_upload [staged_rows 1; staged_rows 2] example_pushed
    [Ok (staged_rows 1); Ok (staged_rows 2)]
    ltac:(vm_compute; reflexivity) Hstart Hpush Hf)).
Defined.

Lemma upload_error_is_final_witness :
  let u := mkBindUpload (Failing (simple_error "create bind upload file: full" IO)) 10 in
  finish u = Err (simple_error "create bind upload file: full" IO).
Proof.
  apply (upload_error_is_final
    (mkBindUpload (Failing (simple_error "create bind upload file: full" IO)) 10) (staged_rows 1)).
  reflexivity.
Defined.
End Example.
