(* ===== verification/Partitions.v ===== *)
(** * Signed partition descriptors (grainlift-server/src/partitions.rs)

    [execute_partitions] hands the client opaque tokens: [GLP2], an HMAC tag and
    a typed record naming the owner and the expiry.  [seal] and [open] are
    modelled with the keyed hash as the interface [Hmac] and the wall clock, in
    nanoseconds since the epoch, as an argument. *)

From S2P Require Import Prelude Adbc WireError Options Arrow Framing Envelope.
From S2P Require Import Reference ReferenceIpc.

(** HMAC-SHA-256: a function of the key and the concatenated updates, with
    32 bytes of output. *)
Class Hmac : Type := {
  hmac : bytes → bytes → bytes;
  hmac_length : ∀ key b, length (hmac key b) = 32%nat
}.

Record PartitionClaims : Type := mkPartitionClaims {
  version : Z; expires_at_ms : Z; owner : string; descriptor : bytes
}.

Record PartitionSigner : Type := mkPartitionSigner { key : bytes; ttl : Z }.

(** [PartitionSigner::new] with the key it drew. *)
Definition PartitionSigner_new (random : bytes) (ttl : Z) : PartitionSigner :=
  mkPartitionSigner random ttl.

(** [Duration::as_millis] of a duration in nanoseconds. *)
Definition as_millis (d : Z) : Z := d / 1000000.

(** [format!("{byte:02x}")]. *)
Definition hex_digit (n : Z) : Ascii.ascii :=
  Ascii.ascii_of_N (Z.to_N (if n <? 10 then 48 + n else 87 + n)).
Definition hex_byte (b : byte) : string :=
  String (hex_digit (byte_val b / 16)) (String (hex_digit (byte_val b mod 16)) EmptyString).
Fixpoint hex (l : bytes) : string :=
  match l with [] => "" | b :: l => hex_byte b +:+ hex l end.

Section Partitions.
Context `{AdbcCore} `{Hmac} `{IpcCrate} `{!StructCrate} `{!VgiArrow PartitionClaims}.

Definition partition_invalid : AdbcError :=
  with_message_and_status
    "Partition descriptor is invalid, expired, or unavailable to this principal" NotFound.

(** A clock before the epoch has no duration since it. *)
Definition now_ms (now : Z) : result AdbcError Z :=
  if now <? 0 then Err partition_invalid
  else ok_or (i64_try_from (as_millis now)) partition_invalid.

Definition mac (s : PartitionSigner) (b : bytes) : bytes := hmac (key s) b.

Definition owner_preimage (target principal : string) : bytes :=
  as_bytes target ++ [Byte.x00] ++ as_bytes principal.

Definition owner_of (s : PartitionSigner) (target principal : string) : string :=
  hex (mac s (owner_preimage target principal)).

Definition GLP2 : bytes := as_bytes "GLP2".

Definition seal (s : PartitionSigner) (now : Z) (target principal : string) (descriptor : bytes)
    (limit : Z) : result AdbcError bytes :=
  lifetime ← ok_or (i64_try_from (as_millis (ttl s))) partition_invalid;
  now ← now_ms now;
  expires_at_ms ← ok_or (i64_checked_add now lifetime) partition_invalid;
  let claims := mkPartitionClaims 1 expires_at_ms (owner_of s target principal) descriptor in
  payload ← map_err (λ _, partition_invalid)
              (encode_record_ipc claims (usize_saturating_sub limit 36));
  Ok (GLP2 ++ mac s payload ++ payload).

Definition open (s : PartitionSigner) (now : Z) (target principal : string) (token : bytes)
    (limit : Z) : result AdbcError bytes :=
  if (len token <? 36) || (limit <? len token) || negb (bool_decide (take 4 token = GLP2))
  then Err partition_invalid
  else if negb (bool_decide (take 32 (drop 4 token) = mac s (drop 36 token)))
  then Err partition_invalid
  else
    claims ← map_err (λ _, partition_invalid) (decode_record_ipc (drop 36 token) (limit - 36));
    if negb (version claims =? 1) then Err partition_invalid
    else
      now ← now_ms now;
      if (expires_at_ms claims <=? now)
         || negb (bool_decide (owner claims = owner_of s target principal))
      then Err partition_invalid
      else Ok (descriptor claims).

(** ** What [open] accepts *)

Definition token_ok (s : PartitionSigner) (now_ms : Z) (target principal : string)
    (token : bytes) (limit : Z) (claims : PartitionClaims) : Prop :=
  len token ≤ limit
  ∧ (∃ payload, token = GLP2 ++ mac s payload ++ payload
       ∧ decode_record_ipc payload (limit - 36) = Ok claims)
  ∧ version claims = 1 ∧ now_ms < expires_at_ms claims
  ∧ owner claims = owner_of s target principal.

Lemma token_parts s payload :
  take 4 (GLP2 ++ mac s payload ++ payload) = GLP2
  ∧ take 32 (drop 4 (GLP2 ++ mac s payload ++ payload)) = mac s payload
  ∧ drop 36 (GLP2 ++ mac s payload ++ payload) = payload
  ∧ len (GLP2 ++ mac s payload ++ payload) = 36 + len payload.
Proof.
  pose proof (hmac_length (key s) payload) as Hl. fold (mac s payload) in Hl.
  split; [done|]. split; [|split].
  - change (drop 4 (GLP2 ++ mac s payload ++ payload)) with (mac s payload ++ payload).
    by rewrite <-Hl, take_app_length.
  - change (drop 36 (GLP2 ++ mac s payload ++ payload)) with (drop 32 (mac s payload ++ payload)).
    by rewrite <-Hl, drop_app_length.
  - rewrite !len_app. unfold len at 2. rewrite Hl. unfold len; simpl. lia.
Qed.

Lemma token_split s (token : bytes) :
  take 4 token = GLP2 → take 32 (drop 4 token) = mac s (drop 36 token) →
  token = GLP2 ++ mac s (drop 36 token) ++ drop 36 token.
Proof.
  intros Ht1 Ht2. rewrite <-Ht1, <-Ht2.
  replace (drop 36 token) with (drop 32 (drop 4 token)) by (by rewrite drop_drop).
  by rewrite !take_drop.
Qed.

Lemma open_accepts s now ms target principal token limit d :
  now_ms now = Ok ms →
  open s now target principal token limit = Ok d ↔
    ∃ claims, token_ok s ms target principal token limit claims ∧ descriptor claims = d.
Proof.
  intros Hms. unfold open, token_ok. split.
  - intros Ho. inv_ok. reflect_bools. rewrite Hms in Hx0. inv_ok. subst.
    exists x. split; [|done]. repeat split; try done; try lia.
    exists (drop 36 token). split; [by apply token_split|done].
  - intros (claims & (Hlen & (payload & -> & Hd) & Hv & He & Ho) & <-).
    destruct (token_parts s payload) as (Ht1 & Ht2 & Ht3 & Ht4). rewrite Ht1, Ht2, Ht3.
    rewrite !bool_decide_eq_true_2 by done. rewrite Ht4 in Hlen |- *.
    pose proof (len_nonneg payload).
    rewrite (proj2 (Z.ltb_ge (36 + len payload) 36)) by lia.
    rewrite (proj2 (Z.ltb_ge limit (36 + len payload))) by lia. simpl.
    rewrite Hd; simpl. rewrite Hv, Hms; simpl. rewrite bool_decide_eq_true_2 by done.
    by rewrite (proj2 (Z.leb_gt (expires_at_ms claims) ms)) by lia.
Qed.

(** ** Owners *)

Lemma hex_digit_inj a b : 0 ≤ a < 16 → 0 ≤ b < 16 → hex_digit a = hex_digit b → a = b.
Proof.
  unfold hex_digit. intros Ha Hb Heq. apply (f_equal Ascii.N_of_ascii) in Heq.
  destruct (Z.ltb_spec a 10), (Z.ltb_spec b 10); rewrite !Ascii.N_ascii_embedding in Heq; lia.
Qed.

Lemma hex_inj l k : hex l = hex k → l = k.
Proof.
  revert k; induction l as [|b l IH]; intros [|c k]; try done.
  change (hex (b :: l)) with (hex_byte b +:+ hex l). change (hex (c :: k)) with (hex_byte c +:+ hex k).
  intros [= Hhi Hlo Htl]. apply IH in Htl as ->. f_equal. apply byte_val_inj.
  pose proof (byte_val_range b). pose proof (byte_val_range c).
  apply hex_digit_inj in Hhi; [|split; [apply Z.div_pos; lia|apply Z.div_lt_upper_bound; lia]..].
  apply hex_digit_inj in Hlo; [|apply Z.mod_pos_bound; lia..].
  rewrite (Z.div_mod (byte_val b) 16), (Z.div_mod (byte_val c) 16) by lia. congruence.
Qed.

Lemma as_bytes_no_nul s : contains_nul s = false → Byte.x00 ∉ as_bytes s.
Proof.
  induction s as [|c s IH]; simpl; [set_solver|]. intros [Hc Hs]%orb_false_iff.
  change (as_bytes (String c s)) with (Ascii.byte_of_ascii c :: as_bytes s).
  apply not_elem_of_cons. split; [|by apply IH]. intros Heq.
  apply bool_decide_eq_false in Hc. apply Hc.
  rewrite <-(Ascii.ascii_of_byte_of_ascii c), <-Heq. done.
Qed.

Lemma app_sep_inj {A} (x : A) a b c d :
  x ∉ a → x ∉ c → a ++ [x] ++ b = c ++ [x] ++ d → a = c ∧ b = d.
Proof.
  revert c; induction a as [|y a IH]; intros [|z c] Ha Hc; simpl.
  - naive_solver.
  - intros [= -> _]. set_solver.
  - intros [= -> _]. set_solver.
  - intros [= -> Heq]. destruct (IH c) as [-> ->]; set_solver.
Qed.

Lemma owner_preimage_inj target target' principal principal' :
  contains_nul target = false → contains_nul target' = false →
  owner_preimage target principal = owner_preimage target' principal' →
  target = target' ∧ principal = principal'.
Proof.
  intros Ht%as_bytes_no_nul Ht'%as_bytes_no_nul Heq.
  apply app_sep_inj in Heq as [??]; [|done..]. split; by apply as_bytes_inj.
Qed.

(** ** Sealing *)

Lemma seal_Ok s now target principal d limit token :
  seal s now target principal d limit = Ok token →
  ∃ ms payload, now_ms now = Ok ms
    ∧ encode_record_ipc (mkPartitionClaims 1 (ms + as_millis (ttl s)) (owner_of s target principal) d)
        (usize_saturating_sub limit 36) = Ok payload
    ∧ token = GLP2 ++ mac s payload ++ payload.
Proof.
  unfold seal. intros Hs. inv_ok. apply i64_try_from_Some in Hx as [-> _].
  apply i64_try_from_Some in Hx1 as [-> _]. eauto 10.
Qed.

Lemma seal_bound s now target principal d limit token :
  36 ≤ limit → seal s now target principal d limit = Ok token → len token ≤ limit.
Proof.
  intros Hl (ms & payload & _ & He & ->)%seal_Ok.
  destruct (token_parts s payload) as (_ & _ & _ & ->).
  apply encode_record_ipc_bound in He; unfold usize_saturating_sub in *; lia.
Qed.

(** The memory the decoded claims of a token pin, which [open] bounds too. *)
Definition token_memory (token : bytes) : Z := batch_buffer_bytes (drop 36 token).

Lemma seal_claims s now target principal d limit token limit' :
  slice_ok token →
  seal s now target principal d limit = Ok token →
  len token ≤ limit' → token_memory token ≤ limit' - 36 →
  ∃ ms payload, now_ms now = Ok ms ∧ token = GLP2 ++ mac s payload ++ payload
    ∧ decode_record_ipc payload (limit' - 36)
      = Ok (mkPartitionClaims 1 (ms + as_millis (ttl s)) (owner_of s target principal) d).
Proof.
  intros Hslice (ms & payload & Hms & He & ->)%seal_Ok Hlen Hmem.
  destruct (token_parts s payload) as (_ & _ & Hdrop & Hl).
  unfold token_memory in Hmem. rewrite Hdrop in Hmem. rewrite Hl in Hlen.
  exists ms, payload. split; [done|]. split; [done|].
  eapply record_ipc_roundtrip; [| |exact He|lia|done].
  - unfold usize_saturating_sub. lia.
  - unfold slice_ok in *. lia.
Qed.

Lemma open_sealed s now target principal d limit token limit' now' target' principal' :
  slice_ok token →
  seal s now target principal d limit = Ok token →
  len token ≤ limit' → token_memory token ≤ limit' - 36 →
  ∀ ms ms' d', now_ms now = Ok ms → now_ms now' = Ok ms' →
  open s now' target' principal' token limit' = Ok d' ↔
    ms' < ms + as_millis (ttl s)
    ∧ owner_of s target principal = owner_of s target' principal' ∧ d' = d.
Proof.
  intros Hslice Hs Hlen Hmem ms ms' d' Hms Hms'.
  destruct (seal_claims _ _ _ _ _ _ _ _ Hslice Hs Hlen Hmem) as (ms0 & payload & Hms0 & -> & Hd).
  rewrite Hms in Hms0. injection Hms0 as <-. rewrite (open_accepts _ _ _ _ _ _ _ _ Hms'). split.
  - intros (claims & (_ & (payload' & Htok & Hd') & _ & Hexp & Hown) & <-).
    assert (payload' = payload) as ->.
    { destruct (token_parts s payload) as (_ & _ & <- & _). rewrite Htok.
      by destruct (token_parts s payload') as (_ & _ & -> & _). }
    rewrite Hd in Hd'. injection Hd' as <-. simpl in *. auto.
  - intros (Hexp & Hown & ->). eexists. split; [split; [done|split; [by exists payload|simpl; auto]]|done].
Qed.
End Partitions.

(** ** Main theorems *)

Section Main.
Context `{AdbcCore} `{Hmac} `{IpcCrate} `{!StructCrate} `{!VgiArrow PartitionClaims}.

(** C34: a sealed descriptor can be opened again exactly until it expires, and
    only by the principal and for the target it was sealed for, provided the
    two owner tags do not collide; it then yields the descriptor unchanged.
    Target names do not contain NUL, so that no other split of the joined name
    can stand for the same owner. *)
Theorem sealed_descriptor_opens s now target principal d limit token limit' now' target' principal'
    ms ms' d' :
  contains_nul target = false → contains_nul target' = false →
  (mac s (owner_preimage target principal) = mac s (owner_preimage target' principal') →
   owner_preimage target principal = owner_preimage target' principal') →
  slice_ok token → seal s now target principal d limit = Ok token →
  len token ≤ limit' → token_memory token ≤ limit' - 36 →
  now_ms now = Ok ms → now_ms now' = Ok ms' →
  open s now' target' principal' token limit' = Ok d' ↔
    ms' < ms + as_millis (ttl s) ∧ target' = target ∧ principal' = principal ∧ d' = d.
Proof.
  intros Ht Ht' Hcoll Hslice Hseal Hlen Hmem Hms Hms'.
  rewrite (open_sealed _ _ _ _ _ _ _ _ _ _ _ Hslice Hseal Hlen Hmem _ _ _ Hms Hms').
  assert (owner_of s target principal = owner_of s target' principal'
    ↔ target' = target ∧ principal' = principal) as ->; [|tauto].
  split; [|by intros [-> ->]]. intros Heq%hex_inj%Hcoll.
  by apply owner_preimage_inj in Heq as [-> ->].
Qed.

(** C35: [open] accepts a token exactly when it fits the limit, is [GLP2], the
    tag of its payload and the payload, and the payload is a record of version 1
    that has not expired and names the caller; every other token, whatever its
    bytes, is refused with the same NotFound error. *)
Theorem open_decides_tokens s now ms target principal token limit :
  now_ms now = Ok ms →
  match open s now target principal token limit with
  | Ok d => ∃ claims, token_ok s ms target principal token limit claims ∧ descriptor claims = d
  | Err e => e = partition_invalid
             ∧ ∀ claims, ¬ token_ok s ms target principal token limit claims
  end.
Proof.
  intros Hms. destruct (open s now target principal token limit) as [d|e] eqn:Ho.
  - by apply (open_accepts _ _ _ _ _ _ _ _ Hms) in Ho.
  - split.
    + unfold open in Ho. destruct (_ || _); [congruence|]. destruct (negb _); [congruence|].
      destruct (decode_record_ipc _ _) as [c|]; simpl in Ho; [|congruence].
      destruct (negb _); [congruence|]. rewrite Hms in Ho; simpl in Ho.
      destruct (_ || _); congruence.
    + intros claims Htok.
      pose proof (proj2 (open_accepts s now ms target principal token limit (descriptor claims) Hms))
        as Hopen.
      rewrite Hopen in Ho; [done|]. by exists claims.
Qed.

(** A token never exceeds the limit it was sealed under, so that the sum the
    server charges for a partition list is an upper bound of what it sends. *)
Theorem sealed_descriptor_bounded s now target principal d limit token :
  36 ≤ limit → seal s now target principal d limit = Ok token → len token ≤ limit.
Proof. apply seal_bound. Qed.
End Main.

(** ** Example *)

Definition partition_claims_columns (c : PartitionClaims) : list Column :=
  [Int64Array [Some (version c)]; Int64Array [Some (expires_at_ms c)];
   StringArray [Some (owner c)]; BinaryArray [Some (descriptor c)]].
Definition partition_claims_read (c : list Column) : option PartitionClaims :=
  match c with
  | [Int64Array [Some v]; Int64Array [Some e]; StringArray [Some o]; BinaryArray [Some d]] =>
      Some (mkPartitionClaims v e o d)
  | _ => None
  end.

Definition ref_partition_claims : @VgiArrow ref_struct PartitionClaims :=
  ref_record [Field_new "version" Int64 false; Field_new "expires_at_ms" Int64 false;
              utf8_field "owner"; Field_new "descriptor" Binary false]
    partition_claims_columns partition_claims_read
    (λ v, match v with mkPartitionClaims _ _ _ _ => eq_refl end).

(** A checksum with 32 bytes of output, in place of the keyed hash. *)
Definition ref_hash (key b : bytes) : bytes :=
  le4 (foldl (λ sum x, (31 * sum + byte_val x) mod 2 ^ 31) 7 (key ++ b)) ++ repeat Byte.x00 28.

Lemma ref_hash_length key b : length (ref_hash key b) = 32%nat.
Proof. reflexivity. Qed.

Definition ref_hmac : Hmac := {| hmac := ref_hash; hmac_length := ref_hash_length |}.

Section Example.
#[local] Existing Instance simple_core.
#[local] Existing Instance ref_hmac.
#[local] Existing Instance ref_arrow.
#[local] Existing Instance ref_ipc.
#[local] Existing Instance ref_struct.
#[local] Existing Instance ref_partition_claims.

Definition example_signer : PartitionSigner := mkPartitionSigner (repeat Byte.x11 32) 60000000000.

Definition example_token : bytes :=
  Eval vm_compute in
    default [] (result_ok (seal example_signer 5000000 "target" "alice" [Byte.x00; Byte.xff] 65536)).

Lemma sealed_descriptor_opens_witness :
  open example_signer 6000000 "target" "alice" example_token 65536 = Ok [Byte.x00; Byte.xff].
Proof.
  apply (sealed_descriptor_opens example_signer 5000000 "target" "alice" [Byte.x00; Byte.xff] 65536
    example_token 65536 6000000 "target" "alice" 5 6).
  - reflexivity.
  - reflexivity.
  - intros _. reflexivity.
  - vm_compute. discriminate.
  - vm_compute. reflexivity.
  - vm_compute. discriminate.
  - vm_compute. discriminate.
  - vm_compute. reflexivity.
  - vm_compute. reflexivity.
  - split; [vm_compute; reflexivity|]. split; [reflexivity|]. split; reflexivity.
Defined.

Lemma open_decides_tokens_witness :
  open example_signer 6000000 "target" "bob" example_token 65536 = Err partition_invalid.
Proof.
  pose proof (open_decides_tokens example_signer 6000000 6 "target" "bob" example_token 65536
    ltac:(vm_compute; reflexivity)) as Ho.
  destruct (open example_signer 6000000 "target" "bob" example_token 65536) as [d|e] eqn:Hd.
  - vm_compute in Hd. discriminate Hd.
  - destruct Ho as [He _]. rewrite He. reflexivity.
Defined.

Lemma sealed_descriptor_bounded_witness : len example_token ≤ 65536.
Proof.
  apply (sealed_descriptor_bounded example_signer 5000000 "target" "alice" [Byte.x00; Byte.xff] 65536).
  - vm_compute. discriminate.
  - vm_compute. reflexivity.
Defined.
End Example.
