(* ===== verification/Session.v ===== *)
(** * Sessions (grainlift-server/src/session.rs: [SessionWorker], [Session])

    A session owns a native connection, its statements, its open results and
    its bind uploads.  Operations on native handles are jobs for one worker
    thread; [call] models how a caller and the worker can part ways: a full
    queue, a dead worker, a reply, a deadline that abandons a queued job, and a
    deadline that passes while the job runs.  In the last case the job stays in
    the session's backlog and takes effect later, before any later job.

    Which of these happens, the identifiers the system draws and whether a
    thread can be spawned come from the [Global] state, so that a theorem
    about every [Global] covers every schedule. *)

From S2P Require Import Prelude Adbc WireError Options Arrow Framing Envelope.
From S2P Require Import Config Backend ResultCursor BindUpload.

(** What becomes of one call to the worker. *)
Inductive Outcome : Type := Replied | QueueFull | WorkerStopped | Abandoned | RanLate.

Inductive BindMode : Type := Batch | Stream.

Section Session.
Context `{AdbcCore} `{RustFmt} `{ArrowCrate} `{!IpcCrate} `{FileSystem} `{AdbcOptions} `{!Backend}.
(** [Uuid::new_v4]: the n-th identifier drawn. *)
Context (uuid : nat → string).

(** ** Data *)

Record StatementEntry : Type := mkStatementEntry { se_statement : Mutex Stmt; se_cancel : Cancel }.

Record SessionResources : Type := mkSessionResources {
  connection : Mutex Conn;
  statements : Mutex (gmap string StatementEntry);
  results : Mutex (gmap string (Mutex ResultEntry))
}.

(** What a worker job reads and writes. *)
Record JobState : Type := mkJobState {
  j_world : World; j_uuids : nat; j_resources : SessionResources
}.

Record BindUploadEntry : Type := mkBindUploadEntry {
  bu_statement_id : string; bu_mode : BindMode; bu_upload : BindUpload
}.

Record Session : Type := mkSession {
  s_principal : string;
  s_target : string;
  s_last_used : Mutex Z;
  s_resources : SessionResources;
  s_timeout : Z;
  s_backlog : list (JobState → JobState);
  s_connection_cancel : Cancel;
  s_connection_option_policy : ClientOptionPolicy;
  s_bind_uploads : Mutex (gmap string BindUploadEntry);
  s_limits : SessionLimits
}.

(** The process outside the session: the native world, the clock, and the
    choices the environment will make. *)
Record Global : Type := mkGlobal {
  g_world : World;
  g_clock : Z;
  g_uuids : nat;
  g_outcomes : list Outcome;
  g_spawns : list (result string unit)
}.

Record SState : Type := mkSState { st_global : Global; st_session : Session }.

Definition set_world (w : World) (g : Global) : Global :=
  mkGlobal w (g_clock g) (g_uuids g) (g_outcomes g) (g_spawns g).
Definition set_resources (r : SessionResources) (s : Session) : Session :=
  mkSession (s_principal s) (s_target s) (s_last_used s) r (s_timeout s) (s_backlog s)
    (s_connection_cancel s) (s_connection_option_policy s) (s_bind_uploads s) (s_limits s).
Definition set_backlog (b : list (JobState → JobState)) (s : Session) : Session :=
  mkSession (s_principal s) (s_target s) (s_last_used s) (s_resources s) (s_timeout s) b
    (s_connection_cancel s) (s_connection_option_policy s) (s_bind_uploads s) (s_limits s).
Definition set_last_used (t : Mutex Z) (s : Session) : Session :=
  mkSession (s_principal s) (s_target s) t (s_resources s) (s_timeout s) (s_backlog s)
    (s_connection_cancel s) (s_connection_option_policy s) (s_bind_uploads s) (s_limits s).
Definition set_uploads (u : gmap string BindUploadEntry) (s : SState) : SState :=
  let x := st_session s in
  mkSState (st_global s)
    (mkSession (s_principal x) (s_target x) (s_last_used x) (s_resources x) (s_timeout x)
       (s_backlog x) (s_connection_cancel x) (s_connection_option_policy x)
       (mx_set (s_bind_uploads x) u) (s_limits x)).
Definition set_statements (m : gmap string StatementEntry) (j : JobState) : JobState :=
  let r := j_resources j in
  mkJobState (j_world j) (j_uuids j)
    (mkSessionResources (connection r) (mx_set (statements r) m) (results r)).
Definition set_results (m : gmap string (Mutex ResultEntry)) (j : JobState) : JobState :=
  let r := j_resources j in
  mkJobState (j_world j) (j_uuids j)
    (mkSessionResources (connection r) (statements r) (mx_set (results r) m)).

(** ** Errors *)

Definition quota (kind : string) : AdbcError :=
  with_message_and_status (kind +:+ " quota exceeded") InvalidState.
Definition internal (m : string) : AdbcError := with_message_and_status m Internal.
Definition busy (m : string) : AdbcError := with_message_and_status m InvalidState.
Definition timeout (m : string) : AdbcError := with_message_and_status m Timeout.
Definition invalid_data (m : string) : AdbcError := with_message_and_status m InvalidData.
Definition not_found (kind : string) : AdbcError :=
  with_message_and_status (kind +:+ " was not found") NotFound.

(** ** The worker *)

Abbreviation Job := (M JobState AdbcError).
Abbreviation Op := (M SState AdbcError).

Definition next_outcome (g : Global) : Outcome * Global :=
  match g_outcomes g with
  | [] => (Replied, g)
  | o :: os => (o, mkGlobal (g_world g) (g_clock g) (g_uuids g) os (g_spawns g))
  end.

Definition job_state (s : SState) : JobState :=
  mkJobState (g_world (st_global s)) (g_uuids (st_global s)) (s_resources (st_session s)).

(** The jobs that outlived their deadline, in the order they were queued. *)
Definition run_backlog (s : SState) : JobState :=
  foldl (λ j job, job j) (job_state s) (s_backlog (st_session s)).

Definition put_job (j : JobState) (s : SState) : SState :=
  let g := st_global s in
  mkSState (mkGlobal (j_world j) (g_clock g) (j_uuids j) (g_outcomes g) (g_spawns g))
    (set_backlog [] (set_resources (j_resources j) (st_session s))).

(** The backlog runs between two operations. *)
Definition settle (s : SState) : SState := put_job (run_backlog s) s.

Definition call {A} (operation : Job A) : Op A := λ s,
  let '(outcome, g) := next_outcome (st_global s) in
  let s := mkSState g (st_session s) in
  let deadline :=
    timeout ("downstream operation exceeded " +:+ debug_duration (s_timeout (st_session s))) in
  match outcome with
  | Replied => let '(r, j) := operation (run_backlog s) in (r, put_job j s)
  | QueueFull => (Err (busy "session worker queue is full"), s)
  | WorkerStopped => (Err (internal "session worker stopped"), s)
  | Abandoned => (Err deadline, s)
  | RanLate =>
      (Err deadline,
       mkSState g (set_backlog (s_backlog (st_session s) ++ [λ j, (operation j).2]) (st_session s)))
  end.

(** ** Jobs *)

(** A native call, on the world. *)
Definition on_world {A} (m : M World AdbcError A) : Job A := λ j,
  let '(r, w) := m (j_world j) in (r, mkJobState w (j_uuids j) (j_resources j)).

Definition draw_uuid : Job string := λ j,
  (Ok (uuid (j_uuids j)), mkJobState (j_world j) (S (j_uuids j)) (j_resources j)).

Definition lock_connection : Job Conn := λ j,
  (lock (connection (j_resources j)) (internal "connection is poisoned"), j).
Definition lock_statements : Job (gmap string StatementEntry) := λ j,
  (lock (statements (j_resources j)) (internal "statement registry is poisoned"), j).
Definition lock_results : Job (gmap string (Mutex ResultEntry)) := λ j,
  (lock (results (j_resources j)) (internal "result registry is poisoned"), j).

Definition connection_job {A} (operation : Conn → M World AdbcError A) : Job A :=
  c ← lock_connection; on_world (operation c).

Definition new_statement_job (limit : Z) : Job string :=
  registered ← lock_statements;
  if limit <=? Z.of_nat (size registered) then mthrow (quota "statement")
  else
    c ← lock_connection;
    statement ← on_world (conn_new_statement c);
    id ← draw_uuid;
    mmodify (set_statements
      (<[id := mkStatementEntry (Mutex_new statement) (stmt_cancel_handle statement)]> registered));;
    mret id.

Definition statement_job {A} (id : string) (operation : Stmt → M World AdbcError A) : Job A :=
  registered ← lock_statements;
  entry ← mlift (ok_or (registered !! id) (not_found "statement"));
  statement ← mlift (lock (se_statement entry) (internal "statement is poisoned"));
  on_world (operation statement).

Definition close_statement_job (id : string) : Job unit :=
  registered ← lock_statements;
  match registered !! id with
  | Some _ => mmodify (set_statements (delete id registered))
  | None => mthrow (not_found "statement")
  end.

(** [retain] keeps the entries of other owners; a poisoned entry goes. *)
Definition keeps (statement_id : string) (r : Mutex ResultEntry) : bool :=
  negb (mx_poisoned r) && negb (bool_decide (owner_statement_id (mx_data r) = Some statement_id)).

Definition retain_others (statement_id : string) (m : gmap string (Mutex ResultEntry))
  : gmap string (Mutex ResultEntry) := filter (λ '(_, r), keeps statement_id r = true) m.

Definition invalidate_job (statement_id : string) : Job unit :=
  registered ← lock_results;
  mmodify (set_results (retain_others statement_id registered)).

Definition insert_result_job (limit : Z) (owner : option string) (r : NativeReader)
  : Job (string * Schema) :=
  id ← draw_uuid;
  registered ← lock_results;
  if limit <=? Z.of_nat (size registered) then mthrow (quota "result")
  else
    mmodify (set_results (<[id := Mutex_new (ResultEntry_new owner r)]> registered));;
    mret (id, reader_schema r).

Definition result_schema_job (id : string) : Job Schema :=
  registered ← lock_results;
  entry ← mlift (ok_or (registered !! id) (not_found "result"));
  entry ← mlift (lock entry (internal "result is poisoned"));
  mret (result_schema_of entry).

(** [ResultEntry::next] on the shared entry of the registry. *)
Definition advance_result (registered : gmap string (Mutex ResultEntry)) (id : string)
    (shared : Mutex ResultEntry) (entry : ResultEntry) (sequence : Z)
  : Job (option RecordBatch) := λ j,
  let '(r, (entry, w)) := result_next sequence (entry, j_world j) in
  (r, set_results (<[id := mx_set shared entry]> registered)
        (mkJobState w (j_uuids j) (j_resources j))).

Definition next_result_job (id : string) (sequence : Z) : Job (option RecordBatch) :=
  registered ← lock_results;
  shared ← mlift (ok_or (registered !! id) (not_found "result"));
  entry ← mlift (lock shared (internal "result is poisoned"));
  advance_result registered id shared entry sequence.

Definition close_result_job (id : string) : Job unit :=
  registered ← lock_results;
  match registered !! id with
  | Some _ => mmodify (set_results (delete id registered))
  | None => mthrow (not_found "result")
  end.

(** ** Operations *)

Definition with_connection {A} (operation : Conn → M World AdbcError A) : Op A :=
  call (connection_job operation).

Definition connection_option_rejection (policy : ClientOptionPolicy) (key : string) : AdbcError :=
  option_rejection policy "connection" key.

Definition set_connection_option (key : string) (value : OptionValue) : Op unit := λ s,
  let policy := s_connection_option_policy (st_session s) in
  if negb (permits policy key) then (Err (connection_option_rejection policy key), s)
  else with_connection (λ c, conn_set_option c key value) s.

(** Cancellation does not go through the worker. *)
Definition cancel_now (c : Cancel) : Op unit := λ s,
  let '(r, w) := try_cancel c (g_world (st_global s)) in
  (r, mkSState (set_world w (st_global s)) (st_session s)).

Definition cancel_connection : Op unit := λ s,
  cancel_now (s_connection_cancel (st_session s)) s.

Definition commit : Op unit := with_connection conn_commit.
Definition rollback : Op unit := with_connection conn_rollback.

Definition new_statement : Op string := λ s,
  call (new_statement_job (max_statements_per_session (s_limits (st_session s)))) s.

Definition with_statement {A} (id : string) (operation : Stmt → M World AdbcError A) : Op A :=
  call (statement_job id operation).

Definition session_statements (s : SState) : Mutex (gmap string StatementEntry) :=
  statements (s_resources (st_session s)).
Definition session_results (s : SState) : Mutex (gmap string (Mutex ResultEntry)) :=
  results (s_resources (st_session s)).

Definition lock_statements_now : Op (gmap string StatementEntry) := λ s,
  (lock (session_statements s) (internal "statement registry is poisoned"), s).
Definition lock_uploads : Op (gmap string BindUploadEntry) := λ s,
  (lock (s_bind_uploads (st_session s)) (internal "bind upload registry is poisoned"), s).

Definition cancel_statement (id : string) : Op unit :=
  registered ← lock_statements_now;
  entry ← mlift (ok_or (registered !! id) (not_found "statement"));
  cancel_now (se_cancel entry).

Definition invalidate_statement_results (id : string) : Op unit := call (invalidate_job id).

(** The uploads of other statements stay; those of [id] are removed and cancelled. *)
Definition uploads_of_others (id : string) (m : gmap string BindUploadEntry)
  : gmap string BindUploadEntry := filter (λ '(_, e), bu_statement_id e ≠ id) m.

Definition close_statement (id : string) : Op unit :=
  call (close_statement_job id);;
  invalidate_statement_results id;;
  uploads ← lock_uploads;
  mmodify (set_uploads (uploads_of_others id uploads)).

Definition op_spawn : Op (result string unit) := λ s,
  let g := st_global s in
  match g_spawns g with
  | [] => (Ok (Ok tt), s)
  | r :: rs => (Ok r, mkSState (mkGlobal (g_world g) (g_clock g) (g_uuids g) (g_outcomes g) rs)
                        (st_session s))
  end.

Definition op_uuid : Op string := λ s,
  let g := st_global s in
  (Ok (uuid (g_uuids g)),
   mkSState (mkGlobal (g_world g) (g_clock g) (S (g_uuids g)) (g_outcomes g) (g_spawns g))
     (st_session s)).

Definition start_bind_upload (statement_id : string) (mode : BindMode) (schema : Schema)
    (max_bytes : Z) : Op string :=
  registered ← lock_statements_now;
  if bool_decide (registered !! statement_id = None) then mthrow (not_found "statement")
  else
    spawned ← op_spawn;
    upload ← mlift (upload_start spawned schema max_bytes);
    id ← op_uuid;
    uploads ← lock_uploads;
    mmodify (set_uploads (<[id := mkBindUploadEntry statement_id mode upload]> uploads));;
    mret id.

Definition push_entry (uploads : gmap string BindUploadEntry) (id : string)
    (entry : BindUploadEntry) (batch : RecordBatch) : Op unit := λ s,
  let '(r, upload) := push (bu_upload entry) batch in
  (r, set_uploads (<[id := mkBindUploadEntry (bu_statement_id entry) (bu_mode entry) upload]>
                     uploads) s).

Definition push_bind_upload (id : string) (batch : RecordBatch) : Op unit :=
  uploads ← lock_uploads;
  entry ← mlift (ok_or (uploads !! id) (not_found "bind upload"));
  push_entry uploads id entry batch.

(** The batch of a [Batch] upload: exactly one. *)
Definition single_batch (reader : StagedReader) : result AdbcError RecordBatch :=
  match reader with
  | [] => Err (invalid_data "bind requires exactly one record batch")
  | first :: rest =>
      batch ← map_err error_from_arrow first;
      if bool_decide (rest = []) then Ok batch
      else Err (invalid_data "bind requires exactly one record batch")
  end.

Definition finish_bind_upload (id : string) : Op unit :=
  uploads ← lock_uploads;
  entry ← mlift (ok_or (uploads !! id) (not_found "bind upload"));
  mmodify (set_uploads (delete id uploads));;
  reader ← mlift (finish (bu_upload entry));
  match bu_mode entry with
  | Batch =>
      batch ← mlift (single_batch reader);
      with_statement (bu_statement_id entry) (λ s, stmt_bind s batch)
  | Stream => with_statement (bu_statement_id entry) (λ s, stmt_bind_stream s reader)
  end.

Definition cancel_bind_upload (id : string) : SState → SState := λ s,
  match lock (s_bind_uploads (st_session s)) tt with
  | Ok uploads => set_uploads (delete id uploads) s
  | Err _ => s
  end.

Definition insert_owned_result (owner : option string) (r : NativeReader)
  : Op (string * Schema) := λ s,
  call (insert_result_job (max_results_per_session (s_limits (st_session s))) owner r) s.

Definition insert_result (r : NativeReader) : Op (string * Schema) := insert_owned_result None r.

Definition insert_statement_result (id : string) (r : NativeReader) : Op (string * Schema) :=
  invalidate_statement_results id;;
  insert_owned_result (Some id) r.

Definition result_schema (id : string) : Op Schema := call (result_schema_job id).
Definition next_result (id : string) (sequence : Z) : Op (option RecordBatch) :=
  call (next_result_job id sequence).
Definition close_result (id : string) : Op unit := call (close_result_job id).

(** [Drop for Session]: the cleanup thread cancels the connection, then every
    statement, when it can be spawned. *)
Definition drop_session (spawned : result string unit) (s : Session) (w : World) : World :=
  let cancels :=
    match lock (statements (s_resources s)) tt with
    | Ok m => se_cancel <$> (map_to_list m).*2
    | Err _ => []
    end in
  match spawned with
  | Ok _ => foldl (λ w c, (try_cancel c w).2) w (s_connection_cancel s :: cancels)
  | Err _ => w
  end.
End Session.
