(* ===== verification/SessionSteps.v ===== *)
(** * What a session guarantees (grainlift-server/src/session.rs)

    Handlers of one session run concurrently; what is atomic is one job of the
    worker and what is done under one lock: a [section].  An operation of
    [Session] is a [program] of sections, and [session_operations_are_steps]
    shows that it is exactly its program.  [session_step] is one section of some
    operation, the late jobs, or the rest of the process, so that an invariant of
    the steps holds under every interleaving of operations and every worker
    outcome. *)

From S2P Require Import Prelude Adbc WireError Options Arrow Framing Envelope.
From S2P Require Import Config Backend ResultCursor BindUpload Session.
From S2P Require Import Reference ReferenceIpc ReferenceBackend.

Section SessionSteps.
Context `{AdbcCore} `{RustFmt} `{ArrowCrate} `{!IpcCrate} `{FileSystem} `{AdbcOptions} `{!Backend}.
Context (uuid : nat → string).

(** The jobs a session sends to its worker. *)
Inductive session_job (l : SessionLimits) : ∀ A, M JobState AdbcError A → Prop :=
| job_connection A (op : Conn → M World AdbcError A) : session_job l A (connection_job op)
| job_new_statement :
    session_job l string (new_statement_job uuid (max_statements_per_session l))
| job_statement A id (op : Stmt → M World AdbcError A) : session_job l A (statement_job id op)
| job_close_statement id : session_job l unit (close_statement_job id)
| job_invalidate id : session_job l unit (invalidate_job id)
| job_insert_result owner r :
    session_job l (string * Schema) (insert_result_job uuid (max_results_per_session l) owner r)
| job_result_schema id : session_job l Schema (result_schema_job id)
| job_next_result id n : session_job l (option RecordBatch) (next_result_job id n)
| job_close_result id : session_job l unit (close_result_job id).
Arguments session_job _ {A} _.

(** ** Sections

    What runs without interruption, with the type of its answer. *)

Inductive section : Type → Type :=
| OnWorker {A} (job : SessionLimits → M JobState AdbcError A) :
    (∀ l, session_job l (job l)) → section A
| CheckOption (key : string) : section unit
| CancelConnection : section unit
| CancelStatement (id : string) : section unit
| FindStatement (id : string) : section unit
| StartUpload (schema : Schema) (max : Z) : section BindUpload
| DrawUuid : section string
| RegisterUpload (id : string) (e : BindUploadEntry) : section unit
| PushUpload (id : string) (batch : RecordBatch) : section unit
| TakeUpload (id : string) : section BindUploadEntry
| DropUpload (id : string) : section unit
| DropUploadsOf (statement_id : string) : section unit.

(** Why a call to the worker may end without its job having run. *)
Definition declined (s : SState) (o : Outcome) : option AdbcError :=
  match o with
  | Replied => None
  | QueueFull => Some (busy "session worker queue is full")
  | WorkerStopped => Some (internal "session worker stopped")
  | Abandoned | RanLate =>
      Some (timeout ("downstream operation exceeded " +:+ debug_duration (s_timeout (st_session s))))
  end.

(** The worker runs the late jobs and then this one; or the job never runs; or
    it joins the late jobs. *)
Inductive on_worker {A} (job : M JobState AdbcError A) (s : SState) : result AdbcError A → SState → Prop :=
| worker_replies g r j :
    next_outcome (st_global s) = (Replied, g) →
    job (run_backlog (mkSState g (st_session s))) = (r, j) →
    on_worker job s r (put_job j (mkSState g (st_session s)))
| worker_declines o g e :
    next_outcome (st_global s) = (o, g) → o ≠ RanLate → declined s o = Some e →
    on_worker job s (Err e) (mkSState g (st_session s))
| worker_late g e :
    next_outcome (st_global s) = (RanLate, g) → declined s RanLate = Some e →
    on_worker job s (Err e)
      (mkSState g (set_backlog (s_backlog (st_session s) ++ [λ j, (job j).2]) (st_session s))).

Inductive finds_statement (id : string) (s : SState) : result AdbcError StatementEntry → Prop :=
| statements_poisoned :
    mx_poisoned (session_statements s) = true →
    finds_statement id s (Err (internal "statement registry is poisoned"))
| statement_missing :
    mx_poisoned (session_statements s) = false → mx_data (session_statements s) !! id = None →
    finds_statement id s (Err (not_found "statement"))
| statement_found e :
    mx_poisoned (session_statements s) = false → mx_data (session_statements s) !! id = Some e →
    finds_statement id s (Ok e).

Definition cancels (c : Cancel) (s : SState) (r : result AdbcError unit) (s' : SState) : Prop :=
  ∃ w, try_cancel c (g_world (st_global s)) = (r, w)
       ∧ s' = mkSState (set_world w (st_global s)) (st_session s).

(** The operating system starts a thread, or does not. *)
Inductive spawns (g : Global) : result string unit → Global → Prop :=
| spawns_default : g_spawns g = [] → spawns g (Ok tt) g
| spawns_next r rs :
    g_spawns g = r :: rs → spawns g r (mkGlobal (g_world g) (g_clock g) (g_uuids g) (g_outcomes g) rs).

(** Under the lock of the uploads: [body] is what becomes of the table. *)
Definition uploads_of (s : SState) : gmap string BindUploadEntry := mx_data (s_bind_uploads (st_session s)).

Inductive with_uploads {A}
    (body : gmap string BindUploadEntry → result AdbcError A → gmap string BindUploadEntry → Prop) (s : SState)
  : result AdbcError A → SState → Prop :=
| uploads_poisoned :
    mx_poisoned (s_bind_uploads (st_session s)) = true →
    with_uploads body s (Err (internal "bind upload registry is poisoned")) s
| uploads_locked r m :
    mx_poisoned (s_bind_uploads (st_session s)) = false → body (uploads_of s) r m →
    with_uploads body s r (set_uploads m s).

(** A batch goes to the upload it names, and changes nothing else of it. *)
Inductive pushes (id : string) (batch : RecordBatch) (m : gmap string BindUploadEntry)
  : result AdbcError unit → gmap string BindUploadEntry → Prop :=
| pushes_unknown : m !! id = None → pushes id batch m (Err (not_found "bind upload")) m
| pushes_known sid mode u r u' :
    m !! id = Some (mkBindUploadEntry sid mode u) → push u batch = (r, u') →
    pushes id batch m r (<[id := mkBindUploadEntry sid mode u']> m).

Inductive takes_upload (id : string) (m : gmap string BindUploadEntry)
  : result AdbcError BindUploadEntry → gmap string BindUploadEntry → Prop :=
| takes_unknown : m !! id = None → takes_upload id m (Err (not_found "bind upload")) m
| takes_known e : m !! id = Some e → takes_upload id m (Ok e) (delete id m).

(** Exactly the uploads of the statement go. *)
Definition drops_of (sid : string) (m : gmap string BindUploadEntry) (r : result AdbcError unit)
    (m' : gmap string BindUploadEntry) : Prop :=
  r = Ok tt ∧ ∀ id e, m' !! id = Some e ↔ m !! id = Some e ∧ bu_statement_id e ≠ sid.

(** An upload as [BindUpload::start] leaves it. *)
Definition fresh_upload (u : BindUpload) : Prop := ∃ schema max, u = mkBindUpload (run_start schema) max.

(** What a section does to the session, and its answer. *)
Definition performs {A} (sec : section A) (s : SState) : result AdbcError A → SState → Prop :=
  match sec in section A return result AdbcError A → SState → Prop with
  | OnWorker job _ => on_worker (job (s_limits (st_session s))) s
  | CheckOption key => λ r s',
      s' = s ∧ r = if permits (s_connection_option_policy (st_session s)) key then Ok tt
                   else Err (connection_option_rejection (s_connection_option_policy (st_session s)) key)
  | CancelConnection => cancels (s_connection_cancel (st_session s)) s
  | CancelStatement id => λ r s',
      (∃ e, finds_statement id s (Ok e) ∧ cancels (se_cancel e) s r s')
      ∨ ∃ e, finds_statement id s (Err e) ∧ r = Err e ∧ s' = s
  | FindStatement id => λ r s', s' = s ∧ ∃ x, finds_statement id s x ∧ r = (λ _, tt) <$> x
  | StartUpload schema max => λ r s',
      ∃ spawned g, spawns (st_global s) spawned g ∧ s' = mkSState g (st_session s)
        ∧ r = match spawned with
              | Ok _ => Ok (mkBindUpload (run_start schema) max)
              | Err e => Err (upload_io_error ("start bind upload worker: " +:+ e))
              end
  | DrawUuid => λ r s',
      r = Ok (uuid (g_uuids (st_global s)))
      ∧ s' = mkSState (mkGlobal (g_world (st_global s)) (g_clock (st_global s)) (S (g_uuids (st_global s)))
                         (g_outcomes (st_global s)) (g_spawns (st_global s))) (st_session s)
  | RegisterUpload id e => λ r s',
      fresh_upload (bu_upload e) ∧ (∃ n, (n < g_uuids (st_global s))%nat ∧ id = uuid n)
      ∧ with_uploads (λ m r m', r = Ok tt ∧ m' = <[id := e]> m) s r s'
  | PushUpload id batch => with_uploads (pushes id batch) s
  | TakeUpload id => with_uploads (takes_upload id) s
  | DropUpload id => λ r s',
      r = Ok tt ∧ (mx_poisoned (s_bind_uploads (st_session s)) = true ∧ s' = s
        ∨ mx_poisoned (s_bind_uploads (st_session s)) = false ∧ s' = set_uploads (delete id (uploads_of s)) s)
  | DropUploadsOf sid => with_uploads (drops_of sid) s
  end.

(** ** Steps of a session *)

(** What happens between the sections of the operations: a late job completes,
    and the rest of the process draws identifiers, lets time pass, and uses the
    driver of which the session only has a part. *)
Inductive elsewhere (s : SState) : SState → Prop :=
| step_settle : elsewhere s (settle s)
| step_environment g :
    (g_uuids (st_global s) ≤ g_uuids g)%nat → g_clock (st_global s) ≤ g_clock g →
    elsewhere s (mkSState g (st_session s)).

Inductive session_step (s s' : SState) : Prop :=
| step_section A (sec : section A) r : performs sec s r s' → session_step s s'
| step_elsewhere : elsewhere s s' → session_step s s'.

(** ** Operations as programs of sections *)

Inductive program (A : Type) : Type :=
| Return (r : result AdbcError A)
| Do {B} (sec : section B) (k : B → program A).
Arguments Return {A}.
Arguments Do {A B}.

(** Sections in order, up to the first that fails. *)
Fixpoint runs {A} (p : program A) (s : SState) (r : result AdbcError A) (s' : SState) : Prop :=
  match p with
  | Return x => r = x ∧ s' = s
  | Do sec k =>
      (∃ e, performs sec s (Err e) s' ∧ r = Err e)
      ∨ ∃ b s1, performs sec s (Ok b) s1 ∧ runs (k b) s1 r s'
  end.

Definition given {A B} (x : result AdbcError B) (k : B → program A) : program A :=
  match x with Ok b => k b | Err e => Return (Err e) end.
Definition only {A} (sec : section A) : program A := Do sec (λ x, Return (Ok x)).

Definition connection_program {A} (op : Conn → M World AdbcError A) : program A :=
  only (OnWorker (λ _, connection_job op) (λ l, job_connection l A op)).
Definition statement_program {A} (id : string) (op : Stmt → M World AdbcError A) : program A :=
  only (OnWorker (λ _, statement_job id op) (λ l, job_statement l A id op)).
Definition set_option_program (key : string) (value : OptionValue) : program unit :=
  Do (CheckOption key) (λ _, connection_program (λ c, conn_set_option c key value)).
Definition new_statement_program : program string :=
  only (OnWorker (λ l, new_statement_job uuid (max_statements_per_session l)) job_new_statement).
Definition invalidate_program (id : string) : program unit :=
  only (OnWorker (λ _, invalidate_job id) (λ l, job_invalidate l id)).
Definition close_statement_program (id : string) : program unit :=
  Do (OnWorker (λ _, close_statement_job id) (λ l, job_close_statement l id)) (λ _,
  Do (OnWorker (λ _, invalidate_job id) (λ l, job_invalidate l id)) (λ _,
  only (DropUploadsOf id))).
Definition start_upload_program (sid : string) (mode : BindMode) (schema : Schema) (max : Z) : program string :=
  Do (FindStatement sid) (λ _,
  Do (StartUpload schema max) (λ upload,
  Do DrawUuid (λ id,
  Do (RegisterUpload id (mkBindUploadEntry sid mode upload)) (λ _, Return (Ok id))))).
Definition finish_upload_program (id : string) : program unit :=
  Do (TakeUpload id) (λ e,
  given (finish (bu_upload e)) (λ reader,
  match bu_mode e with
  | Batch => given (single_batch reader) (λ batch,
      statement_program (bu_statement_id e) (λ s, stmt_bind s batch))
  | Stream => statement_program (bu_statement_id e) (λ s, stmt_bind_stream s reader)
  end)).
Definition insert_program (owner : option string) (rd : NativeReader) : program (string * Schema) :=
  only (OnWorker (λ l, insert_result_job uuid (max_results_per_session l) owner rd)
    (λ l, job_insert_result l owner rd)).
Definition execute_program (id : string) (rd : NativeReader) : program (string * Schema) :=
  Do (OnWorker (λ _, invalidate_job id) (λ l, job_invalidate l id)) (λ _, insert_program (Some id) rd).
Definition result_schema_program (id : string) : program Schema :=
  only (OnWorker (λ _, result_schema_job id) (λ l, job_result_schema l id)).
Definition next_result_program (id : string) (n : Z) : program (option RecordBatch) :=
  only (OnWorker (λ _, next_result_job id n) (λ l, job_next_result l id n)).
Definition close_result_program (id : string) : program unit :=
  only (OnWorker (λ _, close_result_job id) (λ l, job_close_result l id)).

(** Operations under way: the sections of any number of them, interleaved. *)
Inductive task : Type :=
| Task {A : Type} (p : program A).

Inductive interleaved : SState * list task → SState * list task → Prop :=
| next_section i A B (sec : section B) (k : B → program A) r s s' tasks :
    tasks !! i = Some (Task (Do sec k)) → performs sec s r s' →
    interleaved (s, tasks) (s', <[i := Task (given r k)]> tasks)
| between s s' tasks : elsewhere s s' → interleaved (s, tasks) (s', tasks).

(** ** Quotas *)

Definition within (l : SessionLimits) (r : SessionResources) : Prop :=
  Z.of_nat (size (mx_data (statements r))) ≤ max_statements_per_session l
  ∧ Z.of_nat (size (mx_data (results r))) ≤ max_results_per_session l.

Definition keeps_quota (l : SessionLimits) (f : JobState → JobState) : Prop :=
  ∀ j, within l (j_resources j) → within l (j_resources (f j)).

(** Within the quotas, now and after every job that is still to run. *)
Definition quota_inv (x : Session) : Prop :=
  within (s_limits x) (s_resources x) ∧ Forall (keeps_quota (s_limits x)) (s_backlog x).

Definition session_inv (s : SState) : Prop := quota_inv (st_session s).

Lemma size_insert_le `{Countable K} {A} (m : gmap K A) k a :
  Z.of_nat (size (<[k := a]> m)) ≤ Z.of_nat (size m) + 1.
Proof. rewrite map_size_insert. destruct (m !! k); simpl; lia. Qed.

Lemma size_delete_le `{Countable K} {A} (m : gmap K A) k :
  Z.of_nat (size (delete k m)) ≤ Z.of_nat (size m).
Proof. rewrite map_size_delete. destruct (m !! k); simpl; lia. Qed.

Lemma size_update `{Countable K} {A} (m : gmap K A) k a b :
  m !! k = Some b → size (<[k := a]> m) = size m.
Proof. intros Hk. by rewrite map_size_insert, Hk. Qed.

Lemma size_retain id (m : gmap string (Mutex ResultEntry)) :
  Z.of_nat (size (retain_others id m)) ≤ Z.of_nat (size m).
Proof.
  unfold retain_others. apply Nat2Z.inj_le, map_subseteq_size, map_filter_subseteq.
Qed.

(** A job that keeps the session within its quotas. *)
Definition job_ok (l : SessionLimits) {A} (job : M JobState AdbcError A) : Prop :=
  keeps_quota l (λ j, (job j).2).

Lemma job_ok_bind l {A B} (m : M JobState AdbcError A) (k : A → M JobState AdbcError B) :
  job_ok l m → (∀ a, job_ok l (k a)) → job_ok l (m ≫= k).
Proof.
  intros Hm Hk j Hj. specialize (Hm j Hj). unfold mbind, M_bind. cbn beta in *.
  destruct (m j) as [[a|e] j1]; [by apply Hk|done].
Qed.

Lemma job_ok_pure l {A} (m : M JobState AdbcError A) :
  (∀ j, j_resources (m j).2 = j_resources j) → job_ok l m.
Proof. intros Hm j Hj. simpl. by rewrite Hm. Qed.

Lemma job_ok_on_world l {A} (m : M World AdbcError A) : job_ok l (on_world m).
Proof. apply job_ok_pure. intros j. unfold on_world. by destruct (m (j_world j)). Qed.

Lemma job_ok_statements l {B} (k : gmap string StatementEntry → M JobState AdbcError B) :
  (∀ m, Z.of_nat (size m) ≤ max_statements_per_session l → job_ok l (k m)) →
  job_ok l (lock_statements ≫= k).
Proof.
  intros Hk j Hj. unfold mbind, M_bind, lock_statements, lock. cbn beta.
  destruct (mx_poisoned _); [done|]. by apply Hk; [apply Hj|].
Qed.

Lemma job_ok_results l {B} (k : gmap string (Mutex ResultEntry) → M JobState AdbcError B) :
  (∀ m, Z.of_nat (size m) ≤ max_results_per_session l → job_ok l (k m)) →
  job_ok l (lock_results ≫= k).
Proof.
  intros Hk j Hj. unfold mbind, M_bind, lock_results, lock. cbn beta.
  destruct (mx_poisoned _); [done|]. by apply Hk; [apply Hj|].
Qed.

Lemma job_ok_set_statements l m :
  Z.of_nat (size m) ≤ max_statements_per_session l → job_ok l (mmodify (set_statements m)).
Proof. intros Hm j [_ Hr]. by split. Qed.

Lemma job_ok_set_results l m :
  Z.of_nat (size m) ≤ max_results_per_session l → job_ok l (mmodify (set_results m)).
Proof. intros Hm j [Hs _]. by split. Qed.

Lemma job_ok_advance l m id shared entry n :
  m !! id = Some shared → Z.of_nat (size m) ≤ max_results_per_session l →
  job_ok l (advance_result m id shared entry n).
Proof.
  intros Hid Hm j [Hs _]. unfold advance_result.
  destruct (result_next n (entry, j_world j)) as [r [entry' w]]. split; [done|].
  simpl. by rewrite (size_update _ _ _ shared).
Qed.

Lemma job_ok_lift l {A B} (r : result AdbcError A) (k : A → M JobState AdbcError B) :
  (∀ a, r = Ok a → job_ok l (k a)) → job_ok l (mlift r ≫= k).
Proof. intros Hk j Hj. destruct r as [a|e]; [by apply (Hk a)|done]. Qed.

Hint Resolve job_ok_bind job_ok_on_world job_ok_set_statements job_ok_set_results : grainlift.
Hint Extern 2 (job_ok _ _) => (apply job_ok_pure; intros; reflexivity) : grainlift.

Lemma session_job_quota l A (job : M JobState AdbcError A) : session_job l job → job_ok l job.
Proof.
  destruct 1.
  - apply job_ok_bind; auto with grainlift.
  - apply job_ok_statements. intros m Hm. destruct (Z.leb_spec (max_statements_per_session l) (Z.of_nat (size m))).
    { auto with grainlift. }
    apply job_ok_bind; [auto with grainlift|]. intros c.
    apply job_ok_bind; [auto with grainlift|]. intros st.
    apply job_ok_bind; [auto with grainlift|]. intros id.
    apply job_ok_bind; [|auto with grainlift]. apply job_ok_set_statements.
    rewrite size_insert_le. lia.
  - apply job_ok_statements. intros m Hm. apply job_ok_lift. intros entry _.
    apply job_ok_lift; auto with grainlift.
  - apply job_ok_statements. intros m Hm. destruct (m !! id); [|auto with grainlift].
    apply job_ok_set_statements. rewrite size_delete_le. done.
  - apply job_ok_results. intros m Hm. apply job_ok_set_results. rewrite size_retain. done.
  - apply job_ok_bind; [auto with grainlift|]. intros id. apply job_ok_results. intros m Hm.
    destruct (Z.leb_spec (max_results_per_session l) (Z.of_nat (size m))); [auto with grainlift|].
    apply job_ok_bind; [|auto with grainlift]. apply job_ok_set_results.
    rewrite size_insert_le. lia.
  - apply job_ok_results. intros m Hm. do 2 (apply job_ok_lift; intros ? _). auto with grainlift.
  - apply job_ok_results. intros m Hm. apply job_ok_lift. intros shared Hid%ok_or_Ok.
    apply job_ok_lift. intros entry _. by apply job_ok_advance.
  - apply job_ok_results. intros m Hm. destruct (m !! id); [|auto with grainlift].
    apply job_ok_set_results. rewrite size_delete_le. done.
Qed.

(** ** The invariant under every step *)

Lemma run_backlog_within s :
  session_inv s → within (s_limits (st_session s)) (j_resources (run_backlog s)).
Proof.
  intros [Hw Hb]. unfold run_backlog.
  assert (within (s_limits (st_session s)) (j_resources (job_state s))) as Hj by done.
  revert Hj. generalize (job_state s). induction Hb as [|f fs Hf _ IH]; intros j Hj; [done|].
  simpl. apply IH, Hf, Hj.
Qed.

Lemma put_job_inv j s :
  within (s_limits (st_session s)) (j_resources j) → session_inv (put_job j s).
Proof. intros Hj. split; [done|constructor]. Qed.

Lemma call_inv A (job : M JobState AdbcError A) s :
  session_job (s_limits (st_session s)) job → session_inv s → session_inv (call job s).2.
Proof.
  intros Hjob%session_job_quota Hinv. unfold call.
  destruct (next_outcome (st_global s)) as [o g]. destruct o; try done.
  - assert (session_inv (mkSState g (st_session s))) as Hinv' by done.
    pose proof (Hjob _ (run_backlog_within _ Hinv')) as Hj. simpl in Hj.
    destruct (job (run_backlog (mkSState g (st_session s)))) as [r j]. by apply put_job_inv.
  - destruct Hinv as [Hw Hb]. split; [done|]. simpl. apply Forall_app. split; [done|].
    by apply Forall_singleton.
Qed.

(** A section is a call to the worker, or leaves the worker's state alone; the
    identity of the session stays what it was. *)
Definition same_identity (x y : Session) : Prop :=
  s_principal y = s_principal x ∧ s_target y = s_target x ∧ s_last_used y = s_last_used x
  ∧ s_timeout y = s_timeout x ∧ s_connection_cancel y = s_connection_cancel x
  ∧ s_connection_option_policy y = s_connection_option_policy x ∧ s_limits y = s_limits x.
Definition same_work (x y : Session) : Prop :=
  s_resources y = s_resources x ∧ s_backlog y = s_backlog x.

Lemma on_worker_call {A} (job : M JobState AdbcError A) s r s' :
  call job s = (r, s') ↔ on_worker job s r s'.
Proof.
  unfold call. split.
  - destruct (next_outcome (st_global s)) as [o g] eqn:Ho. destruct o; [..|].
    + destruct (job _) as [r1 j] eqn:Hj. intros [= <- <-]. by eapply worker_replies.
    + intros [= <- <-]. by eapply worker_declines.
    + intros [= <- <-]. by eapply worker_declines.
    + intros [= <- <-]. by eapply worker_declines.
    + intros [= <- <-]. by eapply worker_late.
  - destruct 1 as [g r j Ho Hj|o g e Ho Hne He|g e Ho He]; rewrite Ho.
    + by rewrite Hj.
    + destruct o; try done; by injection He as <-.
    + by injection He as <-.
Qed.

Lemma call_identity {A} (job : M JobState AdbcError A) s :
  same_identity (st_session s) (st_session (call job s).2).
Proof.
  unfold call. destruct (next_outcome (st_global s)) as [[] g]; try done.
  by destruct (job _).
Qed.

Lemma with_uploads_session {A} body s (r : result AdbcError A) s' :
  with_uploads body s r s' →
  same_identity (st_session s) (st_session s') ∧ same_work (st_session s) (st_session s').
Proof. by destruct 1. Qed.

Lemma performs_session {A} (sec : section A) s r s' :
  performs sec s r s' →
  (∃ job, session_job (s_limits (st_session s)) job ∧ call job s = (r, s'))
  ∨ same_identity (st_session s) (st_session s') ∧ same_work (st_session s) (st_session s').
Proof.
  destruct sec as [A job Hjob| | | | | | | | | | |]; simpl; intros Hs; [left|right..].
  - exists (job (s_limits (st_session s))). split; [apply Hjob|]. by apply on_worker_call.
  - by destruct Hs as [-> _].
  - by destruct Hs as (w & _ & ->).
  - by destruct Hs as [(e & _ & w & _ & ->)|(e & _ & _ & ->)].
  - by destruct Hs as [-> _].
  - by destruct Hs as (x & g & _ & -> & _).
  - by destruct Hs as [_ ->].
  - by eapply with_uploads_session, Hs.
  - by eapply with_uploads_session, Hs.
  - by eapply with_uploads_session, Hs.
  - by destruct Hs as [_ [[_ ->]|[_ ->]]].
  - by eapply with_uploads_session, Hs.
Qed.

Lemma session_step_identity s s' :
  session_step s s' → same_identity (st_session s) (st_session s').
Proof.
  destruct 1 as [A sec r Hs|[|g]]; [|done..].
  apply performs_session in Hs as [(job & _ & Hcall)|[? _]]; [|done].
  pose proof (call_identity job s) as Hid. by rewrite Hcall in Hid.
Qed.

Lemma session_step_limits s s' :
  session_step s s' → s_limits (st_session s') = s_limits (st_session s).
Proof. by intros (_ & _ & _ & _ & _ & _ & ?)%session_step_identity. Qed.

Lemma session_step_inv s s' : session_step s s' → session_inv s → session_inv s'.
Proof.
  intros Hstep Hinv. pose proof (session_step_limits s s' Hstep) as Hlim.
  destruct Hstep as [A sec r Hs|[|g]].
  - apply performs_session in Hs as [(job & Hjob & Hcall)|[_ [Hres Hback]]].
    + pose proof (call_inv _ job s Hjob Hinv) as Hinv'. by rewrite Hcall in Hinv'.
    + unfold session_inv, quota_inv in *. by rewrite Hlim, Hres, Hback.
  - apply put_job_inv, run_backlog_within, Hinv.
  - done.
Qed.

Lemma session_steps_inv s s' : rtc session_step s s' → session_inv s → session_inv s'.
Proof. induction 1; eauto using session_step_inv. Qed.

Lemma session_steps_limits s s' :
  rtc session_step s s' → s_limits (st_session s') = s_limits (st_session s).
Proof. induction 1 as [|s1 s2 s3 Hs _ IH]; [done|]. by rewrite IH, (session_step_limits _ _ Hs). Qed.

(** ** Operations are their programs *)

(** From [s], the operation answers and does what its program may, no more and
    no less. *)
Definition implements_at {A} (op : M SState AdbcError A) (p : program A) (s : SState) : Prop :=
  ∀ r s', op s = (r, s') ↔ runs p s r s'.
Definition implements {A} (op : M SState AdbcError A) (p : program A) : Prop := ∀ s, implements_at op p s.

Lemma implements_ext {A} (op op' : M SState AdbcError A) p s :
  op s = op' s → implements_at op' p s → implements_at op p s.
Proof. unfold implements_at. by intros ->. Qed.

Lemma implements_do {A B} (m : M SState AdbcError B) (k : B → M SState AdbcError A) sec p s :
  (∀ x s1, m s = (x, s1) ↔ performs sec s x s1) →
  (∀ b s1, m s = (Ok b, s1) → implements_at (k b) (p b) s1) → implements_at (m ≫= k) (Do sec p) s.
Proof.
  intros Hm Hk r s'. simpl. unfold mbind, M_bind. split.
  - destruct (m s) as [[b|e] s1] eqn:Hms; intros Hr.
    + right. exists b, s1. split; [by apply Hm|]. by apply Hk.
    + left. injection Hr as <- <-. exists e. split; [by apply Hm|done].
  - intros [(e & Hp%Hm & ->)|(b & s1 & Hp%Hm & Hr)]; rewrite Hp; [done|]. by apply (Hk b s1 Hp).
Qed.

Lemma implements_only {A} (m : M SState AdbcError A) sec s :
  (∀ x s1, m s = (x, s1) ↔ performs sec s x s1) → implements_at m (only sec) s.
Proof.
  intros Hm. apply (implements_ext _ (m ≫= mret)).
  { unfold mbind, M_bind. by destruct (m s) as [[]]. }
  apply implements_do; [done|]. intros b s1 _ r s'. simpl. unfold mret, M_ret. naive_solver.
Qed.

Lemma implements_given {A B} (x : result AdbcError B) (k : B → M SState AdbcError A) p s :
  (∀ b, x = Ok b → implements_at (k b) (p b) s) → implements_at (mlift x ≫= k) (given x p) s.
Proof.
  destruct x as [b|e]; intros Hk; [by apply Hk|]. intros r s'. simpl. unfold mbind, M_bind, mlift. naive_solver.
Qed.

(** *** Each section *)

Lemma worker_performs {A} (job : SessionLimits → M JobState AdbcError A) Hjob s r s' :
  call (job (s_limits (st_session s))) s = (r, s') ↔ performs (OnWorker job Hjob) s r s'.
Proof. apply on_worker_call. Qed.

Lemma cancel_now_performs c s r s' : cancel_now c s = (r, s') ↔ cancels c s r s'.
Proof.
  unfold cancel_now, cancels. destruct (try_cancel c (g_world (st_global s))) as [x w]. naive_solver.
Qed.

Lemma finds_statement_iff id s x :
  finds_statement id s x ↔
  (m ← lock (session_statements s) (internal "statement registry is poisoned");
   ok_or (m !! id) (not_found "statement")) = x.
Proof.
  unfold lock. split.
  - by destruct 1 as [Hp|Hp Hm|e Hp Hm]; rewrite Hp; simpl; rewrite ?Hm.
  - intros <-. destruct (mx_poisoned (session_statements s)) eqn:Hp; [by apply statements_poisoned|]. simpl.
    destruct (mx_data (session_statements s) !! id) as [e|] eqn:He; [by apply statement_found|by apply statement_missing].
Qed.

Lemma cancel_statement_performs id s r s' :
  cancel_statement id s = (r, s') ↔ performs (CancelStatement id) s r s'.
Proof.
  cbn [performs]. setoid_rewrite finds_statement_iff.
  unfold cancel_statement, lock_statements_now, mlift. unfold mbind at 1 2, M_bind.
  destruct (lock (session_statements s) _) as [m|e0]; simpl; [|naive_solver].
  destruct (ok_or (m !! id) _) as [e|e0]; [|naive_solver]. rewrite cancel_now_performs. naive_solver.
Qed.

Definition find_statement (id : string) : M SState AdbcError unit :=
  registered ← lock_statements_now;
  if bool_decide (registered !! id = None) then mthrow (not_found "statement") else mret tt.

Lemma find_statement_performs id s r s' :
  find_statement id s = (r, s') ↔ performs (FindStatement id) s r s'.
Proof.
  cbn [performs]. setoid_rewrite finds_statement_iff.
  unfold find_statement, lock_statements_now. unfold mbind at 1, M_bind.
  destruct (lock (session_statements s) _) as [m|e0]; simpl; [|naive_solver].
  destruct (m !! id) as [e|] eqn:He; simpl; unfold mret, M_ret, mthrow; naive_solver.
Qed.

Definition spawn_upload (schema : Schema) (max : Z) : M SState AdbcError BindUpload :=
  spawned ← op_spawn; mlift (upload_start spawned schema max).

Lemma spawn_upload_performs schema max s r s' :
  spawn_upload schema max s = (r, s') ↔ performs (StartUpload schema max) s r s'.
Proof.
  cbn [performs]. unfold spawn_upload, op_spawn, upload_start, mlift, mbind, M_bind. split.
  - destruct (g_spawns (st_global s)) as [|x rs] eqn:Hg.
    + intros [= <- <-]. exists (Ok tt), (st_global s). split; [by apply spawns_default|]. by destruct s.
    + intros [= <- <-]. eexists x, _. split; [by apply spawns_next|]. by destruct x as [[]|].
  - intros (x & g & [Hg|y rs Hg] & -> & ->); rewrite Hg; [by destruct s|]. by destruct y as [[]|].
Qed.

Lemma op_uuid_performs s r s' : op_uuid uuid s = (r, s') ↔ performs DrawUuid s r s'.
Proof. cbn [performs]. unfold op_uuid. naive_solver. Qed.

(** Under the lock of the uploads. *)
Lemma locked_performs {A} (k : gmap string BindUploadEntry → M SState AdbcError A) body s r s' :
  (∀ x s1, k (uploads_of s) s = (x, s1) ↔ ∃ m, body (uploads_of s) x m ∧ s1 = set_uploads m s) →
  (lock_uploads ≫= k) s = (r, s') ↔ with_uploads body s r s'.
Proof.
  intros Hk. unfold mbind, M_bind, lock_uploads, lock. split.
  - destruct (mx_poisoned (s_bind_uploads (st_session s))) eqn:Hp.
    + intros [= <- <-]. by apply uploads_poisoned.
    + intros (m & Hb & ->)%Hk. by apply uploads_locked.
  - destruct 1 as [Hp|r m Hp Hb]; rewrite Hp; [done|]. apply Hk. eauto.
Qed.

Lemma set_uploads_same s : set_uploads (uploads_of s) s = s.
Proof. by destruct s as [g [? ? ? ? ? ? ? ? [p m] ?]]. Qed.

Lemma push_performs id batch s r s' :
  push_bind_upload id batch s = (r, s') ↔ performs (PushUpload id batch) s r s'.
Proof.
  apply locked_performs. intros x s1. unfold mlift, ok_or, push_entry. unfold mbind, M_bind. split.
  - destruct (uploads_of s !! id) as [[sid mode u]|] eqn:He; simpl.
    + destruct (push u batch) as [r1 u'] eqn:Hp. intros [= <- <-]. eexists. split; [by eapply pushes_known|done].
    + intros [= <- <-]. eexists. split; [by apply pushes_unknown|]. by rewrite set_uploads_same.
  - intros (m & [Hm|sid mode u r1 u' Hm Hp] & ->); rewrite Hm; simpl; [by rewrite set_uploads_same|]. by rewrite Hp.
Qed.

Definition take_upload (id : string) : M SState AdbcError BindUploadEntry :=
  uploads ← lock_uploads;
  entry ← mlift (ok_or (uploads !! id) (not_found "bind upload"));
  mmodify (set_uploads (delete id uploads));;
  mret entry.

Lemma take_upload_performs id s r s' :
  take_upload id s = (r, s') ↔ performs (TakeUpload id) s r s'.
Proof.
  apply locked_performs. intros x s1. unfold mlift, ok_or, mmodify. unfold mbind, M_bind. split.
  - destruct (uploads_of s !! id) as [e|] eqn:He.
    + intros [= <- <-]. eexists. split; [by apply takes_known|done].
    + intros [= <- <-]. eexists. split; [by apply takes_unknown|]. by rewrite set_uploads_same.
  - intros (m & [Hm|e Hm] & ->); rewrite Hm; [by rewrite set_uploads_same|done].
Qed.

Lemma uploads_of_others_lookup sid m uid e :
  uploads_of_others sid m !! uid = Some e ↔ m !! uid = Some e ∧ bu_statement_id e ≠ sid.
Proof. unfold uploads_of_others. by rewrite map_lookup_filter_Some. Qed.

Lemma drop_uploads_performs sid s r s' :
  (uploads ← lock_uploads; mmodify (set_uploads (uploads_of_others sid uploads))) s = (r, s')
    ↔ performs (DropUploadsOf sid) s r s'.
Proof.
  apply locked_performs. intros x s1. unfold mmodify. split.
  - intros [= <- <-]. eexists. split; [split; [done|]|done]. intros id e. apply uploads_of_others_lookup.
  - intros (m & [-> Hm] & ->). do 2 f_equal. apply map_eq. intros id. apply option_eq. intros e.
    by rewrite Hm, uploads_of_others_lookup.
Qed.

Lemma drop_upload_performs id s r s' :
  (Ok tt, cancel_bind_upload id s) = (r, s') ↔ performs (DropUpload id) s r s'.
Proof.
  cbn [performs]. unfold cancel_bind_upload, lock.
  destruct (mx_poisoned (s_bind_uploads (st_session s))); naive_solver.
Qed.

(** *** Each operation *)

Lemma call_implements {A} (job : SessionLimits → M JobState AdbcError A) Hjob :
  implements (λ s, call (job (s_limits (st_session s))) s) (only (OnWorker job Hjob)).
Proof. intros s. apply implements_only. intros x s1. apply worker_performs. Qed.

Lemma with_connection_implements {A} (op : Conn → M World AdbcError A) :
  implements (with_connection op) (connection_program op).
Proof. exact (call_implements (λ _, connection_job op) _). Qed.

Lemma with_statement_implements {A} id (op : Stmt → M World AdbcError A) :
  implements (with_statement id op) (statement_program id op).
Proof. exact (call_implements (λ _, statement_job id op) _). Qed.

Lemma new_statement_implements : implements (new_statement uuid) new_statement_program.
Proof. exact (call_implements (λ l, new_statement_job uuid (max_statements_per_session l)) _). Qed.

Lemma invalidate_implements id : implements (invalidate_statement_results id) (invalidate_program id).
Proof. exact (call_implements (λ _, invalidate_job id) _). Qed.

Lemma insert_implements owner rd : implements (insert_owned_result uuid owner rd) (insert_program owner rd).
Proof. exact (call_implements (λ l, insert_result_job uuid (max_results_per_session l) owner rd) _). Qed.

Lemma result_schema_implements id : implements (result_schema id) (result_schema_program id).
Proof. exact (call_implements (λ _, result_schema_job id) _). Qed.

Lemma next_result_implements id n : implements (next_result id n) (next_result_program id n).
Proof. exact (call_implements (λ _, next_result_job id n) _). Qed.

Lemma close_result_implements id : implements (close_result id) (close_result_program id).
Proof. exact (call_implements (λ _, close_result_job id) _). Qed.

Lemma set_option_implements key value :
  implements (set_connection_option key value) (set_option_program key value).
Proof.
  intros s r s'. unfold set_connection_option. cbn [set_option_program runs performs].
  pose proof (with_connection_implements (λ c, conn_set_option c key value) s r s') as Hconn.
  destruct (permits _ key); simpl; split.
  - intros Hrun%Hconn. right. by exists tt, s.
  - intros [(e & [_ He] & _)|(u & s1 & [-> _] & Hrun)]; [done|by apply Hconn].
  - intros [= <- <-]. left. eexists. split; [done|done].
  - intros [(e & [-> [= ->]] & ->)|(u & s1 & [_ Hu] & _)]; done.
Qed.

Lemma cancel_connection_implements : implements cancel_connection (only CancelConnection).
Proof. intros s. apply implements_only. intros r s'. apply cancel_now_performs. Qed.

Lemma cancel_statement_implements id : implements (cancel_statement id) (only (CancelStatement id)).
Proof. intros s. apply implements_only. intros r s'. apply cancel_statement_performs. Qed.

Lemma close_statement_implements id : implements (close_statement id) (close_statement_program id).
Proof.
  intros s. apply implements_do; [intros ? ?; apply on_worker_call|]. intros _ s1 _.
  apply implements_do; [intros ? ?; apply on_worker_call|]. intros _ s2 _.
  apply implements_only. intros r s'. apply drop_uploads_performs.
Qed.

Lemma upload_start_fresh spawned schema max u : upload_start spawned schema max = Ok u → fresh_upload u.
Proof. unfold upload_start. destruct spawned as [[]|e]; [|done]. intros [= <-]. by exists schema, max. Qed.

(** The last section registers a new upload under the identifier just drawn. *)
Lemma register_implements sid mode u s s1 id :
  fresh_upload u → op_uuid uuid s = (Ok id, s1) →
  implements_at
    (uploads ← lock_uploads; mmodify (set_uploads (<[id := mkBindUploadEntry sid mode u]> uploads));; mret id)
    (Do (RegisterUpload id (mkBindUploadEntry sid mode u)) (λ _, Return (Ok id))) s1.
Proof.
  intros Hu Hid. eapply (implements_ext _
    ((uploads ← lock_uploads; mmodify (set_uploads (<[id := mkBindUploadEntry sid mode u]> uploads))) ≫= λ _, mret id)).
  { unfold mbind, M_bind. by destruct (lock_uploads s1) as [[]]. }
  apply implements_do; [|by intros [] s2 _ r s'; simpl; unfold mret, M_ret; naive_solver].
  intros x s2. cbn [performs]. rewrite (locked_performs _ (λ m r m', r = Ok tt ∧ m' = <[id := mkBindUploadEntry sid mode u]> m)).
  - split; [|by intros (_ & _ & ?)]. intros Hw. split; [done|]. split; [|done].
    injection Hid as <- <-. exists (g_uuids (st_global s)). simpl. split; [lia|done].
  - intros x' s3. unfold mmodify. naive_solver.
Qed.

Lemma start_upload_implements sid mode schema max :
  implements (start_bind_upload uuid sid mode schema max) (start_upload_program sid mode schema max).
Proof.
  intros s. eapply (implements_ext _ (find_statement sid ≫= λ _, spawn_upload schema max ≫= λ u, op_uuid uuid ≫= λ id,
    uploads ← lock_uploads; mmodify (set_uploads (<[id := mkBindUploadEntry sid mode u]> uploads));; mret id)).
  { unfold start_bind_upload, find_statement, lock_statements_now, spawn_upload, mbind, M_bind.
    destruct (lock (session_statements s) _) as [m|e]; [|done]. case_bool_decide; [done|].
    unfold mret at 2, M_ret. cbn beta iota. by destruct (op_spawn s) as [[x|e] s1]. }
  apply implements_do; [apply find_statement_performs|]. intros _ s1 _.
  apply implements_do; [apply spawn_upload_performs|]. intros u s2 Hspawn.
  apply implements_do; [apply op_uuid_performs|]. intros id s3 Hid.
  eapply register_implements; [|exact Hid]. unfold spawn_upload, mbind, M_bind in Hspawn.
  destruct (op_spawn s1) as [[x|e] s4]; [|done]. injection Hspawn as Hstart _. by eapply upload_start_fresh.
Qed.

Lemma push_implements id batch : implements (push_bind_upload id batch) (only (PushUpload id batch)).
Proof. intros s. apply implements_only. intros r s'. apply push_performs. Qed.

Lemma finish_upload_implements id : implements (finish_bind_upload id) (finish_upload_program id).
Proof.
  intros s. eapply (implements_ext _ (take_upload id ≫= λ e, mlift (finish (bu_upload e)) ≫= λ reader,
    match bu_mode e with
    | Batch => batch ← mlift (single_batch reader); with_statement (bu_statement_id e) (λ s, stmt_bind s batch)
    | Stream => with_statement (bu_statement_id e) (λ s, stmt_bind_stream s reader)
    end)).
  { unfold finish_bind_upload, take_upload, lock_uploads, mlift, mmodify, mbind, M_bind.
    destruct (lock (s_bind_uploads (st_session s)) _) as [m|e]; [|done]. by destruct (ok_or (m !! id) _). }
  apply implements_do; [apply take_upload_performs|]. intros e s1 _.
  apply implements_given. intros reader _. destruct (bu_mode e); [|apply with_statement_implements].
  apply implements_given. intros batch _. apply with_statement_implements.
Qed.

Lemma cancel_upload_implements id : implements (mmodify (cancel_bind_upload id)) (only (DropUpload id)).
Proof. intros s. apply implements_only. intros r s'. apply drop_upload_performs. Qed.

Lemma execute_implements id rd : implements (insert_statement_result uuid id rd) (execute_program id rd).
Proof.
  intros s. apply implements_do; [intros ? ?; apply on_worker_call|]. intros _ s1 _. apply insert_implements.
Qed.

(** *** Programs, interleaved, are steps *)

Lemma runs_steps {A} (p : program A) s r s' : runs p s r s' → rtc session_step s s'.
Proof.
  revert s. induction p as [x|B sec k IH]; intros s.
  - by intros [_ ->].
  - intros [(e & Hp & _)|(b & s1 & Hp & Hr)]; [by eapply rtc_once, step_section|].
    eapply rtc_l; [by eapply step_section|]. by eapply IH.
Qed.

Lemma interleaved_steps s tasks s' tasks' :
  rtc interleaved (s, tasks) (s', tasks') → rtc session_step s s'.
Proof.
  intros Hrun. remember (s, tasks) as c eqn:Hc. remember (s', tasks') as c' eqn:Hc'.
  revert s tasks Hc. induction Hrun as [c|c c1 c2 Hs _ IH]; intros s tasks ->; [by injection Hc' as -> ->|].
  specialize (IH Hc'). inversion Hs; subst.
  - eapply rtc_l; [by eapply step_section|by eapply IH].
  - eapply rtc_l; [by eapply step_elsewhere|by eapply IH].
Qed.

Definition steps_of {A} (op : M SState AdbcError A) : Prop := ∀ s, rtc session_step s (op s).2.

Lemma implements_steps {A} (op : M SState AdbcError A) p : implements op p → steps_of op.
Proof. intros Hop s. eapply runs_steps, (Hop s), surjective_pairing. Qed.
End SessionSteps.

(** ** Main theorems *)

Section Main.
Context `{AdbcCore} `{RustFmt} `{ArrowCrate} `{!IpcCrate} `{FileSystem} `{AdbcOptions} `{!Backend}.
Context (uuid : nat → string).

(** A call that returned [Ok] ran its job, after every late one. *)
Lemma call_Ok {A} (job : M JobState AdbcError A) s a s' :
  call job s = (Ok a, s') →
  ∃ g j, job (run_backlog (mkSState g (st_session s))) = (Ok a, j)
         ∧ s' = put_job j (mkSState g (st_session s)).
Proof.
  unfold call. destruct (next_outcome (st_global s)) as [[] g]; try done.
  destruct (job _) as [r j] eqn:Hj. intros [= -> <-]. eauto.
Qed.

Lemma invalidate_Ok id s s' :
  invalidate_statement_results id s = (Ok tt, s') →
  s_backlog (st_session s') = []
  ∧ mx_poisoned (session_results s') = false
  ∧ (∃ m, mx_data (session_results s') = retain_others id m)
  ∧ (s_backlog (st_session s) = [] → session_statements s' = session_statements s)
  ∧ s_bind_uploads (st_session s') = s_bind_uploads (st_session s)
  ∧ s_limits (st_session s') = s_limits (st_session s).
Proof.
  intros (g & j & Hj & ->)%call_Ok. apply bind_Ok in Hj as (m & j1 & Hl & Hj).
  unfold lock_results, lock in Hl.
  destruct (mx_poisoned (results (j_resources (run_backlog (mkSState g (st_session s)))))) eqn:Hp; [done|].
  injection Hl as <- <-. injection Hj as <-. split; [done|]. split; [exact Hp|].
  split; [eexists; reflexivity|]. split; [|done]. intros Hb. unfold run_backlog. simpl.
  by rewrite Hb.
Qed.

Lemma retain_others_lookup id (m : gmap string (Mutex ResultEntry)) rid r :
  retain_others id m !! rid = Some r ↔
    m !! rid = Some r ∧ mx_poisoned r = false ∧ owner_statement_id (mx_data r) ≠ Some id.
Proof.
  unfold retain_others. rewrite map_lookup_filter_Some. unfold keeps.
  rewrite andb_true_iff, !negb_true_iff, bool_decide_eq_false. done.
Qed.

(** C24: every operation of a session is its program of locked sections.  From
    every state, whatever the worker does with its jobs, an operation gives the
    answer and the state that its program gives, and no other; a section is one
    job of the worker, or what the code does under one lock.  However the
    sections of any number of programs interleave, with late jobs and the rest of
    the process between them, the session takes steps of [session_step]. *)
Theorem session_operations_are_steps :
  (∀ A (op : Conn → M World AdbcError A),
     implements uuid (with_connection op) (connection_program uuid op))
  ∧ (∀ A id (op : Stmt → M World AdbcError A),
     implements uuid (with_statement id op) (statement_program uuid id op))
  ∧ (∀ key value, implements uuid (set_connection_option key value) (set_option_program uuid key value))
  ∧ implements uuid cancel_connection (only uuid (CancelConnection uuid))
  ∧ implements uuid (new_statement uuid) (new_statement_program uuid)
  ∧ (∀ id, implements uuid (cancel_statement id) (only uuid (CancelStatement uuid id))
           ∧ implements uuid (close_statement id) (close_statement_program uuid id)
           ∧ implements uuid (invalidate_statement_results id) (invalidate_program uuid id))
  ∧ (∀ id mode schema max,
     implements uuid (start_bind_upload uuid id mode schema max) (start_upload_program uuid id mode schema max))
  ∧ (∀ id batch, implements uuid (push_bind_upload id batch) (only uuid (PushUpload uuid id batch)))
  ∧ (∀ id, implements uuid (finish_bind_upload id) (finish_upload_program uuid id)
           ∧ implements uuid (mmodify (cancel_bind_upload id)) (only uuid (DropUpload uuid id)))
  ∧ (∀ rd, implements uuid (insert_result uuid rd) (insert_program uuid None rd))
  ∧ (∀ id rd, implements uuid (insert_statement_result uuid id rd) (execute_program uuid id rd))
  ∧ (∀ id n, implements uuid (result_schema id) (result_schema_program uuid id)
             ∧ implements uuid (next_result id n) (next_result_program uuid id n)
             ∧ implements uuid (close_result id) (close_result_program uuid id))
  ∧ ∀ s tasks s' tasks', rtc (interleaved uuid) (s, tasks) (s', tasks') → rtc (session_step uuid) s s'.
Proof.
  split; [intros A op; apply with_connection_implements|].
  split; [intros A id op; apply with_statement_implements|].
  split; [intros key value; apply set_option_implements|].
  split; [apply cancel_connection_implements|]. split; [apply new_statement_implements|].
  split; [intros id; split_and!;
    [apply cancel_statement_implements|apply close_statement_implements|apply invalidate_implements]|].
  split; [intros id mode schema max; apply start_upload_implements|].
  split; [intros id batch; apply push_implements|].
  split; [intros id; split; [apply finish_upload_implements|apply cancel_upload_implements]|].
  split; [intros rd; apply insert_implements|]. split; [intros id rd; apply execute_implements|].
  split; [intros id n; split_and!;
    [apply result_schema_implements|apply next_result_implements|apply close_result_implements]|].
  intros s tasks s' tasks'. apply interleaved_steps.
Qed.

(** C23: no interleaving of operations, and no deadline that passes while a job
    runs, takes a session over its statement or result quota. *)
Theorem session_quotas_hold s s' :
  session_inv s → rtc (session_step uuid) s s' →
  Z.of_nat (size (mx_data (session_statements s')))
    ≤ max_statements_per_session (s_limits (st_session s))
  ∧ Z.of_nat (size (mx_data (session_results s')))
    ≤ max_results_per_session (s_limits (st_session s)).
Proof.
  intros Hinv Hsteps. destruct (session_steps_inv uuid _ _ Hsteps Hinv) as [Hw _].
  by rewrite (session_steps_limits uuid _ _ Hsteps) in Hw.
Qed.

(** A statement that was closed successfully is gone with everything it
    owned: no result and no bind upload of it is registered any more, and every
    other statement still is. *)
Theorem close_statement_cleans id s s' :
  s_backlog (st_session s) = [] → close_statement id s = (Ok tt, s') →
  is_Some (mx_data (session_statements s) !! id)
  ∧ mx_data (session_statements s') = delete id (mx_data (session_statements s))
  ∧ (∀ rid r, mx_data (session_results s') !! rid = Some r →
       owner_statement_id (mx_data r) ≠ Some id)
  ∧ (∀ uid e, mx_data (s_bind_uploads (st_session s')) !! uid = Some e → bu_statement_id e ≠ id).
Proof.
  intros Hb Hc. unfold close_statement in Hc.
  apply bind_Ok in Hc as ([] & s1 & Hc1 & Hc). apply bind_Ok in Hc as ([] & s2 & Hc2 & Hc).
  apply bind_Ok in Hc as (ups & s3 & Hc3 & Hc).
  apply call_Ok in Hc1 as (g & j & Hj & ->). unfold run_backlog in Hj. simpl in Hj. rewrite Hb in Hj.
  simpl in Hj. apply bind_Ok in Hj as (m & j1 & Hl & Hj). unfold lock_statements, lock in Hl.
  simpl in Hl. destruct (mx_poisoned (statements (s_resources (st_session s)))); [done|].
  injection Hl as <- <-.
  destruct (mx_data (statements (s_resources (st_session s))) !! id) as [e|] eqn:He; [|done].
  injection Hj as <-. apply invalidate_Ok in Hc2 as (_ & _ & [rm Hr] & Hst & Hup & _).
  specialize (Hst eq_refl). unfold lock_uploads, lock in Hc3.
  destruct (mx_poisoned (s_bind_uploads (st_session s2))); [done|]. injection Hc3 as <- <-.
  injection Hc as <-. split; [eauto|]. split; [|split].
  - change (session_statements (set_uploads _ s2)) with (session_statements s2). by rewrite Hst.
  - intros rid r. change (session_results (set_uploads _ s2)) with (session_results s2).
    rewrite Hr. by intros (_ & _ & ?)%retain_others_lookup.
  - intros uid en. simpl. by intros [_ ?]%uploads_of_others_lookup.
Qed.
(** A successful [execute] leaves exactly one registered result of its
    statement, the new one, at the start of its reader: results of earlier
    executions are gone. *)
Theorem statement_result_is_unique id r s rid schema s' :
  insert_statement_result uuid id r s = (Ok (rid, schema), s') →
  schema = reader_schema r
  ∧ mx_data (session_results s') !! rid = Some (Mutex_new (ResultEntry_new (Some id) r))
  ∧ ∀ rid' r', mx_data (session_results s') !! rid' = Some r' →
      owner_statement_id (mx_data r') = Some id → rid' = rid.
Proof.
  intros (? & s1 & Hinv & Hins)%bind_Ok. destruct x.
  apply invalidate_Ok in Hinv as (Hb & _ & [m Hm] & _ & _ & Hlim).
  unfold insert_owned_result in Hins. apply call_Ok in Hins as (g & j & Hj & ->).
  unfold run_backlog in Hj. simpl in Hj. rewrite Hb in Hj. simpl in Hj.
  apply bind_Ok in Hj as (i & j1 & Hu & Hj). injection Hu as <- <-.
  apply bind_Ok in Hj as (reg & j2 & Hl & Hj). unfold lock_results, lock in Hl. simpl in Hl.
  destruct (mx_poisoned (results (s_resources (st_session s1)))); [done|]. injection Hl as <- <-.
  destruct (_ <=? _); [done|]. apply bind_Ok in Hj as ([] & j3 & Hset & Hret).
  injection Hset as <-. injection Hret as <- <- <-. split; [done|].
  change (mx_data (session_results (put_job _ _))) with
    (<[uuid (g_uuids g) := Mutex_new (ResultEntry_new (Some id) r)]> (mx_data (session_results s1))).
  split; [by rewrite lookup_insert_eq|]. intros rid' r' Hr' Hown.
  apply lookup_insert_Some in Hr' as [[<- _]|[_ Hr']]; [done|].
  rewrite Hm in Hr'. apply retain_others_lookup in Hr' as (_ & _ & ?). done.
Qed.

(** An option the target's policy does not let clients set never reaches
    the driver: [set_connection_option] answers InvalidArguments and changes
    nothing, not even the worker's queue. *)
Theorem refused_option_is_inert key value s :
  permits (s_connection_option_policy (st_session s)) key = false →
  ∃ e, set_connection_option key value s = (Err e, s) ∧ status e = InvalidArguments.
Proof.
  intros Hp. unfold set_connection_option. rewrite Hp. eexists. split; [done|].
  apply with_message_and_status_status.
Qed.

(** Finishing an upload consumes it, binds only a stream that was staged
    without error, and in batch mode only a stream of exactly one batch. *)
Theorem finished_upload_is_bound id s s' :
  finish_bind_upload id s = (Ok tt, s') →
  ∃ entry reader,
    mx_data (s_bind_uploads (st_session s)) !! id = Some entry
    ∧ finish (bu_upload entry) = Ok reader
    ∧ (bu_mode entry = Batch → ∃ batch, reader = [Ok batch])
    ∧ mx_data (s_bind_uploads (st_session s')) !! id = None.
Proof.
  intros (ups & s1 & Hl & Hf)%bind_Ok. unfold lock_uploads, lock in Hl.
  destruct (mx_poisoned (s_bind_uploads (st_session s))); [done|]. injection Hl as <- <-.
  apply bind_Ok in Hf as (entry & s1 & He & Hf). unfold mlift in He. injection He as He <-.
  apply ok_or_Ok in He. apply bind_Ok in Hf as ([] & s2 & Hs2 & Hf). injection Hs2 as <-.
  apply bind_Ok in Hf as (reader & s3 & Hr & Hf). unfold mlift in Hr. injection Hr as Hr <-.
  assert (∀ A (op : Stmt → M World AdbcError A) a s3,
    with_statement (bu_statement_id entry) op (set_uploads (delete id (mx_data (s_bind_uploads (st_session s)))) s) = (Ok a, s3) →
    mx_data (s_bind_uploads (st_session s3)) !! id = None) as Hgone.
  { intros A op a s3 (g & j & _ & ->)%call_Ok. simpl. apply lookup_delete_eq. }
  exists entry, reader. split; [done|]. split; [done|].
  destruct (bu_mode entry); [|split; [done|by eapply Hgone]].
  apply bind_Ok in Hf as (batch & s4 & Hb & Hf). unfold mlift in Hb. injection Hb as Hb <-.
  split; [|by eapply Hgone]. intros _. exists batch. unfold single_batch in Hb.
  destruct reader as [|first rest]; [done|]. inv_ok. apply bool_decide_eq_true in Hb0. by subst.
Qed.

(** C40: a deadline that passes while [new_statement] is running loses the
    handle: the caller receives Timeout, and once the job completes the session
    has one more statement under an identifier that no caller was told, which
    keeps counting against the quota. *)
Theorem late_statement_is_unreachable s outcomes w st :
  g_outcomes (st_global s) = RanLate :: outcomes → s_backlog (st_session s) = [] →
  mx_poisoned (session_statements s) = false →
  mx_poisoned (connection (s_resources (st_session s))) = false →
  Z.of_nat (size (mx_data (session_statements s)))
    < max_statements_per_session (s_limits (st_session s)) →
  conn_new_statement (mx_data (connection (s_resources (st_session s)))) (g_world (st_global s))
    = (Ok st, w) →
  let '(r, s1) := new_statement uuid s in
  (∃ e, r = Err e ∧ status e = Timeout)
  ∧ mx_data (session_statements (settle s1)) =
      <[uuid (g_uuids (st_global s)) := mkStatementEntry (Mutex_new st) (stmt_cancel_handle st)]>
        (mx_data (session_statements s)).
Proof.
  intros Ho Hb Hps Hpc Hlt Hnew. unfold new_statement, call, next_outcome. rewrite Ho. simpl.
  split; [eexists; split; [done|apply with_message_and_status_status]|].
  unfold session_statements, settle, put_job, run_backlog. simpl. rewrite Hb. simpl.
  unfold new_statement_job, lock_statements, mbind, M_bind, lock. simpl.
  unfold session_statements in *. rewrite Hps.
  destruct (Z.leb_spec (max_statements_per_session (s_limits (st_session s)))
    (Z.of_nat (size (mx_data (statements (s_resources (st_session s))))))); [lia|].
  unfold lock_connection, lock. simpl. rewrite Hpc. unfold on_world. simpl. by rewrite Hnew.
Qed.
End Main.

(** ** Examples *)

Section Example.
#[local] Existing Instance simple_core.
#[local] Existing Instance simple_fmt.
#[local] Existing Instance ref_arrow.
#[local] Existing Instance ref_ipc.
#[local] Existing Instance ref_files.
#[local] Existing Instance ref_options.
#[local] Existing Instance ref_backend.

Fixpoint example_uuid (n : nat) : string :=
  match n with O => "id-0" | S n => "i" +:+ example_uuid n end.

Definition example_state (outcomes : list Outcome) (ups : gmap string BindUploadEntry) : SState :=
  mkSState (mkGlobal (ref_items []) 0 0 outcomes [])
    (mkSession "alice" "orders" (Mutex_new 0)
       (mkSessionResources (Mutex_new ref_conn)
          (Mutex_new {["s1" := mkStatementEntry (Mutex_new tt) ref_cancel]}) (Mutex_new ∅))
       1000 [] ref_cancel (ClientOptionPolicy_new false ["timeout"] [])
       (Mutex_new ups) (mkSessionLimits 4 2 2 2)).

Lemma pair_fst {A B} (p : A * B) a : p.1 = a → p = (a, p.2).
Proof. destruct p. simpl. by intros ->. Qed.

Lemma session_quotas_hold_witness :
  Z.of_nat (size (mx_data (session_statements
    (settle (new_statement example_uuid (example_state [RanLate] ∅)).2)))) ≤ 2.
Proof.
  refine (proj1 (session_quotas_hold example_uuid (example_state [RanLate] ∅)
    (settle (new_statement example_uuid (example_state [RanLate] ∅)).2) _ _)).
  - split; [split; vm_compute; discriminate|constructor].
  - eapply rtc_r; [apply (implements_steps example_uuid (new_statement example_uuid) (new_statement_program example_uuid)),
      new_statement_implements|]. apply step_elsewhere, step_settle.
Defined.

Lemma close_statement_cleans_witness :
  mx_data (session_statements (close_statement "s1" (example_state [] ∅)).2)
  = delete "s1" (mx_data (session_statements (example_state [] ∅))).
Proof.
  refine (proj1 (proj2 (close_statement_cleans "s1" (example_state [] ∅)
    (close_statement "s1" (example_state [] ∅)).2 _ _))).
  - reflexivity.
  - apply pair_fst. vm_compute. reflexivity.
Defined.

Lemma statement_result_is_unique_witness :
  mx_data (session_results (insert_statement_result example_uuid "s1" ref_reader (example_state [] ∅)).2)
    !! "id-0" = Some (Mutex_new (ResultEntry_new (Some "s1") ref_reader)).
Proof.
  refine (proj1 (proj2 (statement_result_is_unique example_uuid "s1" ref_reader (example_state [] ∅)
    "id-0" (reader_schema ref_reader)
    (insert_statement_result example_uuid "s1" ref_reader (example_state [] ∅)).2 _))).
  reflexivity.
Defined.

Lemma refused_option_is_inert_witness :
  ∃ e, set_connection_option "password" (OptString "x") (example_state [] ∅)
       = (Err e, example_state [] ∅).
Proof.
  destruct (refused_option_is_inert "password" (OptString "x") (example_state [] ∅)) as (e & He & _).
  - vm_compute. reflexivity.
  - exists e. exact He.
Defined.

Definition example_ups : gmap string BindUploadEntry :=
  {["u1" := mkBindUploadEntry "s1" Batch
              (mkBindUpload (Running [staged_rows 1] (mkCountingFile [] 0) None) 1000)]}.

Lemma finished_upload_is_bound_witness :
  ∃ entry reader, mx_data (s_bind_uploads (st_session (example_state [] example_ups))) !! "u1" = Some entry
    ∧ finish (bu_upload entry) = Ok reader.
Proof.
  destruct (finished_upload_is_bound "u1" (example_state [] example_ups)
    (finish_bind_upload "u1" (example_state [] example_ups)).2) as (entry & reader & H1 & H2 & _).
  - reflexivity.
  - exists entry, reader. split; [exact H1|exact H2].
Defined.

Lemma late_statement_is_unreachable_witness :
  mx_data (session_statements (settle (new_statement example_uuid (example_state [RanLate] ∅)).2))
  = <["id-0" := mkStatementEntry (Mutex_new tt) ref_cancel]>
      (mx_data (session_statements (example_state [RanLate] ∅))).
Proof.
  refine (proj2 (late_statement_is_unreachable example_uuid (example_state [RanLate] ∅) []
    (ref_items []) tt _ _ _ _ _ _)); reflexivity.
Defined.
End Example.
