(* ===== verification/WorkerThread.v ===== *)
(** * The worker thread of a session (grainlift-server/src/session.rs, [SessionWorker])

    [Session.call] lets an outcome that is given in advance decide how a call and
    the worker part ways.  Here is the thread itself: callers that submit jobs
    through a bounded queue, wait for a reply with a deadline and give up, and a
    worker that takes the jobs one by one, in any interleaving.  The calls can be
    put in an order in which [Session.call], with suitable outcomes, gives the
    same answers and the same state. *)

From S2P Require Import Prelude Adbc WireError Options Arrow Framing Envelope.
From S2P Require Import Config Backend ResultCursor BindUpload Session.
From S2P Require Import Reference ReferenceIpc ReferenceBackend.

Section Worker.
Context `{AdbcCore} `{RustFmt} `{ArrowCrate} `{!IpcCrate} `{AdbcOptions} `{!Backend}.
(** What the jobs answer; the deadline of a call. *)
Context {T : Type} (operation_timeout : Z).

Abbreviation Job := (M JobState AdbcError T).
Abbreviation Answer := (result AdbcError T).

(** ** State *)

(** The channel of one reply: its sender goes with the job. *)
Inductive Reply : Type := ReplyPending | ReplySent (r : Answer) | ReplyClosed.

(** Where a caller is: before [try_send], in [recv_timeout], before it sets
    [abandoned], or done. *)
Inductive Stage : Type := Submitting | Awaiting | Expiring | Answered (r : Answer).

Record CallState : Type := mkCall {
  cs_job : Job; cs_stage : Stage; cs_abandoned : bool; cs_reply : Reply
}.

(** Where the worker is: at [recv], with a job it took, in the operation, before
    the reply; it is dead when a job panicked. *)
Inductive WorkerState : Type :=
| AtRecv | Took (id : nat) | InOperation (id : nat) | ToReply (id : nat) (r : Answer) | Dead.

(** [w_order] and [w_ran] are auxiliary: the calls in the order in which they
    took effect or were given up, and what the operations that ran answered. *)
Record Worker : Type := mkWorker {
  w_jobs : JobState; w_queue : list nat; w_state : WorkerState; w_calls : gmap nat CallState;
  w_order : list nat; w_ran : gmap nat Answer
}.

(** [SessionWorker::start]. *)
Definition started (j : JobState) : Worker := mkWorker j [] AtRecv ∅ [] ∅.

Definition worker_queue_length : nat := 32.

Definition set_stage (stage : Stage) (c : CallState) : CallState :=
  mkCall (cs_job c) stage (cs_abandoned c) (cs_reply c).
Definition set_abandoned (c : CallState) : CallState := mkCall (cs_job c) (cs_stage c) true (cs_reply c).
Definition set_reply (r : Reply) (c : CallState) : CallState :=
  mkCall (cs_job c) (cs_stage c) (cs_abandoned c) r.

Definition on_call (id : nat) (f : CallState → CallState) (s : Worker) : Worker :=
  mkWorker (w_jobs s) (w_queue s) (w_state s) (alter f id (w_calls s)) (w_order s) (w_ran s).
Definition with_queue (q : list nat) (s : Worker) : Worker :=
  mkWorker (w_jobs s) q (w_state s) (w_calls s) (w_order s) (w_ran s).
Definition worker_at (w : WorkerState) (s : Worker) : Worker :=
  mkWorker (w_jobs s) (w_queue s) w (w_calls s) (w_order s) (w_ran s).
Definition with_jobs (j : JobState) (s : Worker) : Worker :=
  mkWorker j (w_queue s) (w_state s) (w_calls s) (w_order s) (w_ran s).

(** Auxiliary: a call is placed in the order, once. *)
Definition placed (id : nat) (s : Worker) : Worker :=
  mkWorker (w_jobs s) (w_queue s) (w_state s) (w_calls s)
    (if bool_decide (id ∈ w_order s) then w_order s else w_order s ++ [id]) (w_ran s).
Definition ran (id : nat) (r : Answer) (s : Worker) : Worker :=
  mkWorker (w_jobs s) (w_queue s) (w_state s) (w_calls s) (w_order s) (<[id := r]> (w_ran s)).

Definition queue_full : AdbcError := busy "session worker queue is full".
Definition worker_stopped : AdbcError := internal "session worker stopped".
Definition deadline : AdbcError :=
  timeout ("downstream operation exceeded " +:+ debug_duration operation_timeout).

(** ** Steps *)

Definition stage_of (s : Worker) (id : nat) : option Stage := cs_stage <$> w_calls s !! id.

Inductive worker_step (s : Worker) : Worker → Prop :=
(** The callers. *)
| call_starts id job :
    w_calls s !! id = None →
    worker_step s (mkWorker (w_jobs s) (w_queue s) (w_state s)
      (<[id := mkCall job Submitting false ReplyPending]> (w_calls s)) (w_order s) (w_ran s))
| call_submits id :
    stage_of s id = Some Submitting → w_state s ≠ Dead → (length (w_queue s) < worker_queue_length)%nat →
    worker_step s (on_call id (set_stage Awaiting) (with_queue (w_queue s ++ [id]) s))
| call_finds_full id :
    stage_of s id = Some Submitting → w_state s ≠ Dead → (worker_queue_length ≤ length (w_queue s))%nat →
    worker_step s (placed id (on_call id (set_stage (Answered (Err queue_full))) s))
| call_finds_dead id :
    stage_of s id = Some Submitting → w_state s = Dead →
    worker_step s (placed id (on_call id (set_stage (Answered (Err worker_stopped))) s))
| call_receives id c r :
    w_calls s !! id = Some c → cs_stage c = Awaiting → cs_reply c = ReplySent r →
    worker_step s (on_call id (set_stage (Answered r)) s)
| call_lost id c :
    w_calls s !! id = Some c → cs_stage c = Awaiting → cs_reply c = ReplyClosed →
    worker_step s (placed id (on_call id (set_stage (Answered (Err worker_stopped))) s))
| call_expires id c :
    w_calls s !! id = Some c → cs_stage c = Awaiting → cs_reply c = ReplyPending →
    worker_step s (on_call id (set_stage Expiring) s)
| call_abandons id :
    stage_of s id = Some Expiring →
    worker_step s (placed id (on_call id (λ c, set_abandoned (set_stage (Answered (Err deadline)) c)) s))
(** The worker. *)
| worker_takes id q :
    w_state s = AtRecv → w_queue s = id :: q → worker_step s (worker_at (Took id) (with_queue q s))
| worker_skips id c :
    w_state s = Took id → w_calls s !! id = Some c → cs_abandoned c = true →
    worker_step s (worker_at AtRecv (on_call id (set_reply ReplyClosed) s))
| worker_enters id c :
    w_state s = Took id → w_calls s !! id = Some c → cs_abandoned c = false →
    worker_step s (worker_at (InOperation id) s)
| worker_runs id c r j :
    w_state s = InOperation id → w_calls s !! id = Some c → cs_job c (w_jobs s) = (r, j) →
    worker_step s (worker_at (ToReply id r) (ran id r (placed id (with_jobs j s))))
| worker_replies id r :
    w_state s = ToReply id r →
    worker_step s (worker_at AtRecv (on_call id (set_reply (ReplySent r)) s))
| worker_panics id j :
    w_state s = InOperation id →
    worker_step s (worker_at Dead (with_queue []
      (foldr (λ id s, on_call id (set_reply ReplyClosed) s) (with_jobs j s) (id :: w_queue s)))).

(** ** The calls one after the other *)

(** [Session.call], once for each job; the outcomes are those of the session. *)
Fixpoint calls_in_order (jobs : list Job) (s : SState) : list Answer * SState :=
  match jobs with
  | [] => ([], s)
  | job :: jobs =>
      let '(r, s) := Session.call job s in
      let '(rs, s) := calls_in_order jobs s in (r :: rs, s)
  end.

Definition with_outcomes (os : list Outcome) (s : SState) : SState :=
  let g := st_global s in
  mkSState (mkGlobal (g_world g) (g_clock g) (g_uuids g) os (g_spawns g)) (st_session s).

(** What one call answers and does, late jobs at once. *)
Definition eager_call (job : Job) (o : Outcome) (j : JobState) : Answer * JobState :=
  match o with
  | Replied => job j
  | QueueFull => (Err queue_full, j)
  | WorkerStopped => (Err worker_stopped, j)
  | Abandoned => (Err deadline, j)
  | RanLate => (Err deadline, (job j).2)
  end.

Fixpoint eagerly (l : list (Job * Outcome)) (j : JobState) : list Answer * JobState :=
  match l with
  | [] => ([], j)
  | (job, o) :: l =>
      let '(r, j) := eager_call job o j in
      let '(rs, j) := eagerly l j in (r :: rs, j)
  end.

Lemma call_eager (job : Job) o os s :
  s_timeout (st_session s) = operation_timeout → g_outcomes (st_global s) = o :: os →
  let '(r, s') := Session.call job s in
  (r, run_backlog s') = eager_call job o (run_backlog s)
  ∧ g_outcomes (st_global s') = os ∧ s_timeout (st_session s') = operation_timeout.
Proof.
  intros Ht Ho. destruct s as [g x]. simpl in *. unfold Session.call, next_outcome. simpl. rewrite Ho. simpl. rewrite Ht.
  destruct o; simpl; unfold run_backlog, job_state; simpl.
  - destruct (job _) as [r j]. unfold put_job. simpl. by destruct j.
  - done.
  - done.
  - done.
  - by rewrite foldl_app.
Qed.

Lemma calls_eagerly l s :
  s_timeout (st_session s) = operation_timeout → g_outcomes (st_global s) = l.*2 →
  let '(rs, s') := calls_in_order l.*1 s in (rs, run_backlog s') = eagerly l (run_backlog s).
Proof.
  revert s. induction l as [|[job o] l IH]; intros s Ht Ho; [done|]. rewrite fmap_cons in *.
  cbn [calls_in_order eagerly fst snd].
  pose proof (call_eager job o l.*2 s Ht Ho) as Hc. destruct (Session.call job s) as [r s1].
  destruct Hc as (Hc & Ho1 & Ht1). rewrite <-Hc. specialize (IH s1 Ht1 Ho1).
  destruct (calls_in_order l.*1 s1) as [rs s2]. by rewrite <-IH.
Qed.

(** ** Replaying the order *)

Section Replay.
Implicit Types (jobs : nat → option Job) (rans : gmap nat Answer) (order pre post : list nat).

(** The operations that ran, in the order of the calls. *)
Definition run_one jobs rans (j : JobState) (id : nat) : JobState :=
  match rans !! id, jobs id with Some _, Some job => (job j).2 | _, _ => j end.
Definition replay jobs rans (j : JobState) order : JobState := foldl (run_one jobs rans) j order.

(** Each of them answered what it answers there. *)
Fixpoint replay_answers jobs rans (j : JobState) order : Prop :=
  match order with
  | [] => True
  | id :: order =>
      (∀ r, rans !! id = Some r → ∃ job, jobs id = Some job ∧ (job j).1 = r)
      ∧ replay_answers jobs rans (run_one jobs rans j id) order
  end.

Lemma replay_app jobs rans j pre post :
  replay jobs rans j (pre ++ post) = replay jobs rans (replay jobs rans j pre) post.
Proof. apply foldl_app. Qed.

Lemma replay_answers_app jobs rans j pre post :
  replay_answers jobs rans j (pre ++ post)
  ↔ replay_answers jobs rans j pre ∧ replay_answers jobs rans (replay jobs rans j pre) post.
Proof. revert j. induction pre as [|id pre IH]; intros j; simpl; [tauto|]. rewrite IH. tauto. Qed.

Lemma replay_ext jobs jobs' rans rans' j order :
  (∀ id, id ∈ order → jobs id = jobs' id ∧ rans !! id = rans' !! id) →
  replay jobs rans j order = replay jobs' rans' j order
  ∧ (replay_answers jobs rans j order → replay_answers jobs' rans' j order).
Proof.
  revert j. induction order as [|id order IH]; intros j Heq; [done|]. simpl.
  destruct (Heq id) as [Hj Hr]; [by left|].
  assert (run_one jobs rans j id = run_one jobs' rans' j id) as -> by (unfold run_one; by rewrite Hj, Hr).
  rewrite Hj, Hr. destruct (IH (run_one jobs' rans' j id)) as [-> Ha]; [|naive_solver].
  intros id' Hid'. apply Heq. by right.
Qed.

(** Calls whose operation did not run. *)
Lemma replay_idle jobs rans j order :
  (∀ id, id ∈ order → rans !! id = None) → replay jobs rans j order = j ∧ replay_answers jobs rans j order.
Proof.
  revert j. induction order as [|id order IH]; intros j Hn; [done|]. simpl.
  assert (rans !! id = None) as Hid by (apply Hn; by left).
  assert (run_one jobs rans j id = j) as -> by (unfold run_one; by rewrite Hid).
  rewrite Hid. destruct (IH j) as [-> Ha]; [|done]. intros id' Hid'. apply Hn. by right.
Qed.

(** The operation of a call runs that has its place, nothing having run since. *)
Lemma replay_run jobs rans j pre id post job r j' :
  NoDup (pre ++ id :: post) → (∀ id', id' ∈ id :: post → rans !! id' = None) →
  jobs id = Some job → job (replay jobs rans j (pre ++ id :: post)) = (r, j') →
  replay_answers jobs rans j (pre ++ id :: post) →
  replay jobs (<[id := r]> rans) j (pre ++ id :: post) = j'
  ∧ replay_answers jobs (<[id := r]> rans) j (pre ++ id :: post).
Proof.
  intros Hnd Hn Hjob Hrun Ha. apply NoDup_app in Hnd as (_ & Hpre & [Hid _]%NoDup_cons).
  rewrite replay_app in *. rewrite (proj1 (replay_idle _ _ _ (id :: post) Hn)) in Hrun.
  apply replay_answers_app in Ha as [Ha _]. rewrite replay_answers_app.
  destruct (replay_ext jobs jobs rans (<[id := r]> rans) j pre) as [<- Ha'].
  { intros id' Hid'. split; [done|]. rewrite lookup_insert_ne; [done|]. intros <-. apply (Hpre id Hid'). by left. }
  simpl. rewrite lookup_insert_eq.
  assert (run_one jobs (<[id := r]> rans) (replay jobs rans j pre) id = j') as ->
    by (unfold run_one; by rewrite lookup_insert_eq, Hjob, Hrun).
  destruct (replay_idle jobs (<[id := r]> rans) j' post) as [-> Hpost].
  { intros id' Hid'. rewrite lookup_insert_ne by (by intros <-). apply Hn. by right. }
  split; [done|]. split; [by apply Ha'|]. split; [|done]. intros r' [= <-]. exists job. by rewrite Hrun.
Qed.
End Replay.

(** ** Invariant *)

(** Where the job of a call is. *)
Inductive Position : Type := Elsewhere | Queued | Held | Operating | Replying (r : Answer).

Definition in_queue (s : Worker) (id : nat) : Position :=
  if bool_decide (id ∈ w_queue s) then Queued else Elsewhere.

Definition position_of (s : Worker) (id : nat) : Position :=
  match w_state s with
  | Took id' => if bool_decide (id' = id) then Held else in_queue s id
  | InOperation id' => if bool_decide (id' = id) then Operating else in_queue s id
  | ToReply id' r => if bool_decide (id' = id) then Replying r else in_queue s id
  | AtRecv | Dead => in_queue s id
  end.

Definition waiting (stage : Stage) : Prop := stage = Awaiting ∨ stage = Expiring.
Definition pending (p : Position) : Prop := p = Queued ∨ p = Held ∨ p = Operating.

(** The life of a call: its stage, whether it was abandoned, its reply channel,
    where its job is, what the job answered and whether it has its place. *)
Inductive life : Stage → bool → Reply → Position → option Answer → bool → Prop :=
| life_submitting : life Submitting false ReplyPending Elsewhere None false
| life_refused e reply :
    e = queue_full ∨ e = worker_stopped → reply = ReplyPending ∨ reply = ReplyClosed →
    life (Answered (Err e)) false reply Elsewhere None true
| life_waiting stage p : waiting stage → pending p → life stage false ReplyPending p None false
| life_given_up p : pending p → life (Answered (Err deadline)) true ReplyPending p None true
| life_ran stage r : waiting stage → life stage false ReplyPending (Replying r) (Some r) true
| life_ran_late r : life (Answered (Err deadline)) true ReplyPending (Replying r) (Some r) true
| life_replied stage r :
    waiting stage ∨ stage = Answered r → life stage false (ReplySent r) Elsewhere (Some r) true
| life_late r : life (Answered (Err deadline)) true (ReplySent r) Elsewhere (Some r) true
| life_lost stage : waiting stage → life stage false ReplyClosed Elsewhere None false
| life_dropped : life (Answered (Err deadline)) true ReplyClosed Elsewhere None true.

Definition lives (s : Worker) (id : nat) (call : option CallState) : Prop :=
  match call with
  | Some c => life (cs_stage c) (cs_abandoned c) (cs_reply c) (position_of s id) (w_ran s !! id) (bool_decide (id ∈ w_order s))
  | None => position_of s id = Elsewhere ∧ w_ran s !! id = None ∧ id ∉ w_order s
  end.

Definition job_of (s : Worker) (id : nat) : option Job := cs_job <$> w_calls s !! id.

Record worker_inv (j : JobState) (s : Worker) : Prop := mkWorkerInv {
  wi_lives : ∀ id, lives s id (w_calls s !! id);
  wi_queue : NoDup (w_queue s);
  wi_held : match w_state s with
            | Took id | InOperation id | ToReply id _ => id ∉ w_queue s
            | AtRecv => True
            | Dead => w_queue s = []
            end;
  wi_order : NoDup (w_order s);
  wi_operating : ∀ id pre post, w_state s = InOperation id → w_order s = pre ++ id :: post →
    ∀ id', id' ∈ post → w_ran s !! id' = None;
  wi_answers : replay_answers (job_of s) (w_ran s) j (w_order s);
  wi_jobs : w_state s ≠ Dead → replay (job_of s) (w_ran s) j (w_order s) = w_jobs s
}.

Lemma started_inv j : worker_inv j (started j).
Proof.
  split; simpl; try done; try by constructor.
  intros id. rewrite !lookup_empty. split; [done|]. split; [done|apply not_elem_of_nil].
Qed.

(** What a step that changes one call leaves of the others. *)
Lemma lives_other s s' id (f : CallState → CallState) :
  w_calls s' = alter f id (w_calls s) →
  (∀ id', id' ≠ id → position_of s' id' = position_of s id' ∧ w_ran s' !! id' = w_ran s !! id'
     ∧ (id' ∈ w_order s' ↔ id' ∈ w_order s)) →
  (∀ c, w_calls s !! id = Some c → lives s id (Some c) → lives s' id (Some (f c))) →
  (w_calls s !! id ≠ None) →
  (∀ id, lives s id (w_calls s !! id)) → ∀ id, lives s' id (w_calls s' !! id).
Proof.
  intros Hcalls Hother Hself Hsome Hl id'. rewrite Hcalls. specialize (Hl id').
  destruct (decide (id' = id)) as [->|Hne].
  - rewrite lookup_alter_eq. destruct (w_calls s !! id) as [c|] eqn:Hc; [|done]. by apply Hself.
  - rewrite lookup_alter_ne by done. destruct (Hother id' Hne) as (Hp & Hr & Ho).
    unfold lives in *. rewrite Hp, Hr. destruct (w_calls s !! id') as [c|]; [|by rewrite Ho].
    by rewrite (bool_decide_ext _ _ Ho).
Qed.

Lemma placed_elem id id' s : id' ∈ w_order (placed id s) ↔ id' = id ∨ id' ∈ w_order s.
Proof. simpl. case_bool_decide; [naive_solver|]. rewrite elem_of_app, list_elem_of_singleton. tauto. Qed.

Lemma placed_NoDup id s : NoDup (w_order s) → NoDup (w_order (placed id s)).
Proof. simpl. case_bool_decide; [done|]. intros Hn. apply NoDup_app. split; [done|]. split; [set_solver|]. apply NoDup_singleton. Qed.

(** Giving its place to a call whose operation did not run. *)
Lemma placed_idle j jobs rans id s :
  rans !! id = None ∨ id ∈ w_order s →
  replay jobs rans j (w_order (placed id s)) = replay jobs rans j (w_order s)
  ∧ (replay_answers jobs rans j (w_order s) → replay_answers jobs rans j (w_order (placed id s))).
Proof.
  simpl. case_bool_decide as Hin; [done|]. intros [Hn|?]; [|done]. rewrite replay_app, replay_answers_app.
  destruct (replay_idle jobs rans (replay jobs rans j (w_order s)) [id]) as [-> Ha]; [|done].
  by intros id' ->%list_elem_of_singleton.
Qed.

Lemma placed_operating (rans : gmap nat Answer) id id1 pre post s :
  rans !! id = None ∨ id ∈ w_order s →
  (∀ pre post, w_order s = pre ++ id1 :: post → ∀ id', id' ∈ post → rans !! id' = None) →
  w_order (placed id s) = pre ++ id1 :: post → ∀ id', id' ∈ post → rans !! id' = None.
Proof.
  simpl. case_bool_decide as Hin; [intros _ Hop; apply Hop|]. intros [Hn|?] Hop Heq; [|done].
  destruct (decide (post = [])) as [->|Hne]; [by intros id' ?%not_elem_of_nil|].
  destruct (exists_last Hne) as (post' & x & ->). rewrite app_comm_cons, app_assoc in Heq.
  apply app_inj_tail in Heq as [Heq ->]. intros id' [Hid' | ->%list_elem_of_singleton]%elem_of_app; [by eapply Hop|done].
Qed.

(** ** Steps of the callers *)

Lemma job_of_alter s id f id' :
  (∀ c, cs_job (f c) = cs_job c) → cs_job <$> alter f id (w_calls s) !! id' = job_of s id'.
Proof.
  intros Hf. unfold job_of. destruct (decide (id' = id)) as [->|Hne]; [|by rewrite lookup_alter_ne].
  rewrite lookup_alter_eq. destruct (w_calls s !! id); simpl; [by rewrite Hf|done].
Qed.

(** A caller moves on, and may be given its place. *)
Definition place_if (b : bool) (id : nat) (s : Worker) : Worker := if b then placed id s else s.

Lemma caller_inv j s id c f (b : bool) :
  w_calls s !! id = Some c → (∀ c, cs_job (f c) = cs_job c) →
  w_ran s !! id = None ∨ id ∈ w_order s →
  life (cs_stage (f c)) (cs_abandoned (f c)) (cs_reply (f c)) (position_of s id) (w_ran s !! id)
    (b || bool_decide (id ∈ w_order s)) →
  worker_inv j s → worker_inv j (place_if b id (on_call id f s)).
Proof.
  intros Hc Hf Hran Hlife [Hl Hq Hh Ho Hop Ha Hj].
  assert (∀ id', id' ∈ w_order (place_if b id (on_call id f s)) ↔ b = true ∧ id' = id ∨ id' ∈ w_order s) as Helem.
  { intros id'. destruct b; [|simpl; naive_solver]. etrans; [apply (placed_elem id id' (on_call id f s))|]. simpl. naive_solver. }
  assert (∀ id', job_of (place_if b id (on_call id f s)) id' = job_of s id') as Hjobs
    by (intros id'; destruct b; by apply job_of_alter).
  assert (w_ran (place_if b id (on_call id f s)) = w_ran s ∧ w_state (place_if b id (on_call id f s)) = w_state s
    ∧ w_queue (place_if b id (on_call id f s)) = w_queue s ∧ w_jobs (place_if b id (on_call id f s)) = w_jobs s)
    as (Hran' & Hst & Hqu & Hjb) by by destruct b.
  assert (replay (job_of s) (w_ran s) j (w_order (place_if b id (on_call id f s))) = replay (job_of s) (w_ran s) j (w_order s)
    ∧ (replay_answers (job_of s) (w_ran s) j (w_order s)
       → replay_answers (job_of s) (w_ran s) j (w_order (place_if b id (on_call id f s))))) as [Hrep Hans]
    by (destruct b; [by apply (placed_idle j (job_of s) (w_ran s) id (on_call id f s))|done]).
  destruct (replay_ext (job_of s) (job_of (place_if b id (on_call id f s))) (w_ran s) (w_ran s) j
    (w_order (place_if b id (on_call id f s)))) as [Hrep' Hans']; [by intros id' _; rewrite Hjobs|].
  split.
  - apply (lives_other s _ id f); [by destruct b| |intros c' [= ->]%(eq_trans (eq_sym Hc)) _|congruence|done].
    + intros id' Hne. rewrite Hran', Helem. unfold position_of, in_queue. rewrite Hst, Hqu. naive_solver.
    + assert (bool_decide (id ∈ w_order (place_if b id (on_call id f s))) = b || bool_decide (id ∈ w_order s)) as Hbit.
      { destruct b; simpl orb; [apply bool_decide_eq_true_2, Helem; by left|apply bool_decide_ext; by rewrite Helem; naive_solver]. }
      unfold lives. rewrite Hbit, Hran'. unfold position_of, in_queue in *. by rewrite Hst, Hqu.
  - by rewrite Hqu.
  - by rewrite Hst, Hqu.
  - destruct b; [by apply placed_NoDup|done].
  - rewrite Hst, Hran'. intros id1 pre post Hw. destruct b; [|by apply Hop].
    apply (placed_operating (w_ran s) id id1 pre post (on_call id f s)); [done|]. intros; by eapply Hop.
  - rewrite Hran'. by apply Hans', Hans.
  - rewrite Hst, Hran', Hjb, <-Hrep', Hrep. done.
Qed.

(** Steps that neither run an operation nor place a call. *)
Lemma replay_same j s s' :
  w_order s' = w_order s → w_ran s' = w_ran s → (∀ id, id ∈ w_order s → job_of s' id = job_of s id) →
  worker_inv j s →
  replay_answers (job_of s') (w_ran s') j (w_order s')
  ∧ replay (job_of s') (w_ran s') j (w_order s') = replay (job_of s) (w_ran s) j (w_order s).
Proof.
  intros -> -> Hjobs Hs.
  destruct (replay_ext (job_of s) (job_of s') (w_ran s) (w_ran s) j (w_order s)) as [-> Ha];
    [by intros id Hid; rewrite Hjobs|]. split; [apply Ha, Hs|done].
Qed.

Lemma call_starts_inv j s id job :
  w_calls s !! id = None → worker_inv j s →
  worker_inv j (mkWorker (w_jobs s) (w_queue s) (w_state s)
    (<[id := mkCall job Submitting false ReplyPending]> (w_calls s)) (w_order s) (w_ran s)).
Proof.
  intros Hnone Hs. set (s' := mkWorker _ _ _ _ _ _).
  pose proof (wi_lives _ _ Hs id) as Hid. rewrite Hnone in Hid. destruct Hid as (Hpos & Hran & Hnot).
  destruct (replay_same j s s') as [Ha Hr]; [done..| |exact Hs|].
  { intros id' Hid'. unfold job_of, s'. simpl. rewrite lookup_insert_ne; [done|]. by intros <-. }
  destruct Hs as [Hl Hq Hh Ho Hop _ Hj]. split; try done; [|by rewrite Hr].
  intros id'. simpl. destruct (decide (id' = id)) as [->|Hne]; [|rewrite lookup_insert_ne by done; apply Hl].
  rewrite lookup_insert_eq. unfold lives. change (position_of s' id) with (position_of s id).
  rewrite Hpos. simpl. rewrite Hran, bool_decide_eq_false_2 by done. constructor.
Qed.

Lemma life_submitting_inv a rep p o b :
  life Submitting a rep p o b → a = false ∧ rep = ReplyPending ∧ p = Elsewhere ∧ o = None ∧ b = false.
Proof.
  inversion 1 as [| |st' p' Hw| |st' r Hw| |st' r Hw| |st' Hw|]; subst; try done; exfalso;
    unfold waiting in Hw; destruct_or?; discriminate.
Qed.

(** The call is not on its way through the worker. *)
Lemma elsewhere_spec s id :
  position_of s id = Elsewhere →
  (id ∉ w_queue s) ∧ (match w_state s with Took id' | InOperation id' | ToReply id' _ => id' ≠ id | _ => True end).
Proof. unfold position_of, in_queue. destruct (w_state s); repeat case_bool_decide; done. Qed.

Lemma call_submits_inv j s id :
  stage_of s id = Some Submitting → w_state s ≠ Dead →
  worker_inv j s → worker_inv j (on_call id (set_stage Awaiting) (with_queue (w_queue s ++ [id]) s)).
Proof.
  intros Hstage Hlive Hs. set (s' := on_call _ _ _).
  unfold stage_of in Hstage. destruct (w_calls s !! id) as [c|] eqn:Hc; [|done]. injection Hstage as Hstage.
  pose proof (wi_lives _ _ Hs id) as Hid. rewrite Hc in Hid. unfold lives in Hid. rewrite Hstage in Hid.
  apply life_submitting_inv in Hid as (Habandoned & Hreply & Hpos & Hran & Hplace).
  destruct (elsewhere_spec s id) as [Hnq Hbusy]; [done|].
  destruct (replay_same j s s') as [Ha Hr]; [done..| |exact Hs|].
  { intros id' _. by apply (job_of_alter s id (set_stage Awaiting)). }
  destruct Hs as [Hl Hq Hh Ho Hop _ Hj]. split; try done; simpl.
  - apply (lives_other s s' id (set_stage Awaiting)); [done| |intros c' [= ->]%(eq_trans (eq_sym Hc)) _|congruence|done].
    + intros id' Hne. split; [|done]. unfold position_of, in_queue. simpl.
      rewrite (bool_decide_ext (id' ∈ w_queue s ++ [id]) (id' ∈ w_queue s)); [done|].
      rewrite elem_of_app, list_elem_of_singleton. naive_solver.
    + unfold lives. simpl. assert (position_of s' id = Queued) as ->.
      { unfold position_of, in_queue. simpl. rewrite (bool_decide_eq_true_2 (id ∈ w_queue s ++ [id])) by set_solver.
        destruct (w_state s); rewrite ?bool_decide_eq_false_2 by done; done. }
      rewrite Habandoned, Hreply, Hran, Hplace.
      apply life_waiting; by left.
  - apply NoDup_app. split; [done|]. split; [set_solver|]. apply NoDup_singleton.
  - destruct (w_state s); [done|set_solver..|done].
  - intros Hd. etrans; [exact Hr|by apply Hj].
Qed.

(** ** Steps of the worker *)

(** A call whose job the worker has yet to run waits, or has given up. *)
Lemma life_pending_inv st a rep p o b :
  life st a rep p o b → pending p →
  rep = ReplyPending ∧ o = None
  ∧ (waiting st ∧ a = false ∧ b = false ∨ st = Answered (Err deadline) ∧ a = true ∧ b = true).
Proof. intros Hlife Hp. destruct Hlife; try (exfalso; destruct Hp as [|[|]]; discriminate); tauto. Qed.

Lemma life_replying_inv st a rep r o b :
  life st a rep (Replying r) o b →
  o = Some r ∧ b = true ∧ (waiting st ∧ a = false ∨ st = Answered (Err deadline) ∧ a = true).
Proof.
  inversion 1 as [| |st' p Hw Hp|p Hp| | | | | |]; subst; try tauto; exfalso; destruct Hp as [|[|]]; discriminate.
Qed.

Lemma life_pending st a rep p p' o b : life st a rep p o b → pending p → pending p' → life st a rep p' o b.
Proof.
  intros Hlife Hp Hp'. apply life_pending_inv in Hlife as (-> & -> & [(Hw & -> & ->)|(-> & -> & ->)]); [| |done].
  - by apply life_waiting.
  - by apply life_given_up.
Qed.

Lemma in_queue_cons s s' id id' q :
  w_queue s = id :: q → w_queue s' = q → id' ≠ id → in_queue s' id' = in_queue s id'.
Proof.
  intros Hs Hs' Hne. unfold in_queue. rewrite Hs, Hs'.
  rewrite (bool_decide_ext (id' ∈ id :: q) (id' ∈ q)); [done|]. rewrite elem_of_cons. naive_solver.
Qed.

Lemma worker_takes_inv j s id q :
  w_state s = AtRecv → w_queue s = id :: q → worker_inv j s →
  worker_inv j (worker_at (Took id) (with_queue q s)).
Proof.
  intros Hw Hqu Hs. set (s' := worker_at _ _).
  destruct (replay_same j s s') as [Ha Hr]; [done..|].
  destruct Hs as [Hl Hq Hh Ho Hop _ Hj]. rewrite Hqu in Hq. apply NoDup_cons in Hq as [Hid Hq]. split; try done; simpl.
  - intros id'. specialize (Hl id'). unfold lives in *. change (w_ran s') with (w_ran s). change (w_order s') with (w_order s).
    assert (position_of s id' = in_queue s id') as Hp by (unfold position_of; by rewrite Hw).
    assert (position_of s' id' = if bool_decide (id = id') then Held else in_queue s' id') as Hp' by done.
    rewrite Hp in Hl. rewrite Hp'. case_bool_decide as Heq; [subst id'|].
    + assert (in_queue s id = Queued) as Hin.
      { unfold in_queue. rewrite Hqu, bool_decide_eq_true_2; [done|by left]. }
      rewrite Hin in Hl. destruct (w_calls s !! id) as [c|]; [|by destruct Hl].
      eapply life_pending; [exact Hl|by left|by right; left].
    + by rewrite (in_queue_cons s s' id id' q).
  - intros _. etrans; [exact Hr|]. apply Hj. by rewrite Hw.
Qed.

(** The call the worker holds. *)
Lemma held_call s id : lives s id (w_calls s !! id) → position_of s id ≠ Elsewhere → ∃ c, w_calls s !! id = Some c
  ∧ life (cs_stage c) (cs_abandoned c) (cs_reply c) (position_of s id) (w_ran s !! id) (bool_decide (id ∈ w_order s)).
Proof. destruct (w_calls s !! id) as [c|]; [by exists c|]. intros (? & _). done. Qed.

Lemma position_held s id : w_state s = Took id → position_of s id = Held.
Proof. unfold position_of. intros ->. by rewrite bool_decide_eq_true_2. Qed.
Lemma position_operating s id : w_state s = InOperation id → position_of s id = Operating.
Proof. unfold position_of. intros ->. by rewrite bool_decide_eq_true_2. Qed.
Lemma position_replying s id r : w_state s = ToReply id r → position_of s id = Replying r.
Proof. unfold position_of. intros ->. by rewrite bool_decide_eq_true_2. Qed.

Lemma worker_skips_inv j s id c :
  w_state s = Took id → w_calls s !! id = Some c → cs_abandoned c = true → worker_inv j s →
  worker_inv j (worker_at AtRecv (on_call id (set_reply ReplyClosed) s)).
Proof.
  intros Hw Hc Hab Hs. set (s' := worker_at _ _).
  destruct (replay_same j s s') as [Ha Hr]; [done..|by intros id' _; apply (job_of_alter s id (set_reply ReplyClosed))|exact Hs|].
  destruct Hs as [Hl Hq Hh Ho Hop _ Hj]. rewrite Hw in Hh. split; try done; simpl.
  - apply (lives_other s s' id (set_reply ReplyClosed)); [done| | |congruence|done].
    + intros id' Hne. split; [|done]. unfold position_of. rewrite Hw, bool_decide_eq_false_2 by done. done.
    + intros c' [= ->]%(eq_trans (eq_sym Hc)) Hlife. unfold lives in *. rewrite (position_held s id Hw), Hab in Hlife.
      simpl. assert (position_of s' id = Elsewhere) as ->.
      { unfold position_of, in_queue. simpl. by rewrite bool_decide_eq_false_2. }
      rewrite Hab. apply life_pending_inv in Hlife as (_ & -> & [(_ & [=] & _)|(-> & _ & ->)]); [|by right; left].
      constructor.
  - intros _. etrans; [exact Hr|]. apply Hj. by rewrite Hw.
Qed.

Lemma worker_enters_inv j s id c :
  w_state s = Took id → w_calls s !! id = Some c → cs_abandoned c = false → worker_inv j s →
  worker_inv j (worker_at (InOperation id) s).
Proof.
  intros Hw Hc Hab Hs. set (s' := worker_at _ _).
  destruct (replay_same j s s') as [Ha Hr]; [done..|].
  destruct Hs as [Hl Hq Hh Ho Hop _ Hj]. rewrite Hw in Hh. pose proof (Hl id) as Hid. rewrite Hc in Hid.
  unfold lives in Hid. rewrite (position_held s id Hw), Hab in Hid. split; try done; simpl.
  - intros id'. specialize (Hl id'). unfold lives in *. change (w_ran s') with (w_ran s). change (w_order s') with (w_order s).
    destruct (decide (id' = id)) as [->|Hne].
    + rewrite (position_held s id Hw) in Hl. rewrite (position_operating s' id) by done. rewrite Hc in *.
      eapply life_pending; [exact Hl|by right; left|by right; right].
    + assert (position_of s' id' = position_of s id') as ->; [|done].
      unfold position_of. simpl. by rewrite Hw, bool_decide_eq_false_2.
  - intros id1 pre post [= <-] Heq. exfalso.
    apply life_pending_inv in Hid as (_ & _ & [(_ & _ & Hnot)|(_ & [=] & _)]); [|by right; left].
    apply bool_decide_eq_false_1 in Hnot. apply Hnot. rewrite Heq. set_solver.
  - intros _. etrans; [exact Hr|]. apply Hj. by rewrite Hw.
Qed.

Lemma worker_replies_inv j s id r :
  w_state s = ToReply id r → worker_inv j s →
  worker_inv j (worker_at AtRecv (on_call id (set_reply (ReplySent r)) s)).
Proof.
  intros Hw Hs. set (s' := worker_at _ _).
  destruct (replay_same j s s') as [Ha Hr]; [done..|by intros id' _; apply (job_of_alter s id (set_reply (ReplySent r)))|exact Hs|].
  destruct Hs as [Hl Hq Hh Ho Hop _ Hj]. rewrite Hw in Hh.
  destruct (held_call s id (Hl id)) as (c & Hc & _); [by rewrite (position_replying s id r Hw)|]. split; try done; simpl.
  - apply (lives_other s s' id (set_reply (ReplySent r))); [done| | |congruence|done].
    + intros id' Hne. split; [|done]. unfold position_of. rewrite Hw, bool_decide_eq_false_2 by done. done.
    + intros c' [= ->]%(eq_trans (eq_sym Hc)) Hlife. unfold lives in *. rewrite (position_replying s id r Hw) in Hlife.
      simpl. assert (position_of s' id = Elsewhere) as ->.
      { unfold position_of, in_queue. simpl. by rewrite bool_decide_eq_false_2. }
      apply life_replying_inv in Hlife as (-> & -> & [[Hwait ->]|[-> ->]]); constructor. by left.
  - intros _. etrans; [exact Hr|]. apply Hj. by rewrite Hw.
Qed.

Lemma worker_runs_inv j s id c r j' :
  w_state s = InOperation id → w_calls s !! id = Some c → cs_job c (w_jobs s) = (r, j') → worker_inv j s →
  worker_inv j (worker_at (ToReply id r) (ran id r (placed id (with_jobs j' s)))).
Proof.
  intros Hw Hc Hrun [Hl Hq Hh Ho Hop Ha Hj]. set (s' := worker_at _ _). rewrite Hw in Hh.
  pose proof (Hl id) as Hid. rewrite Hc in Hid. unfold lives in Hid. rewrite (position_operating s id Hw) in Hid.
  apply life_pending_inv in Hid as (Hreply & Hnone & Hid); [|by right; right].
  assert (∃ pre post, w_order s' = pre ++ id :: post ∧ ∀ id', id' ∈ id :: post → w_ran s !! id' = None) as (pre & post & Hord & Hpost).
  { unfold s'. simpl. case_bool_decide as Hin.
    - apply list_elem_of_split in Hin as (pre & post & Heq). exists pre, post. split; [done|].
      intros id' [->|Hin]%elem_of_cons; [done|]. by eapply Hop.
    - exists (w_order s), []. split; [done|]. by intros id' ->%list_elem_of_singleton. }
  destruct (placed_idle j (job_of s) (w_ran s) id (with_jobs j' s)) as [Hrep Hans]; [by left|].
  change (w_order (placed id (with_jobs j' s))) with (w_order s') in Hrep, Hans.
  assert (NoDup (w_order s')) as Hnd by by apply (placed_NoDup id (with_jobs j' s)).
  destruct (replay_run (job_of s) (w_ran s) j pre id post (cs_job c) r j') as [Hjobs' Hans'].
  { by rewrite <-Hord. } { done. } { unfold job_of. by rewrite Hc. }
  { rewrite <-Hord, Hrep. simpl. rewrite Hj; [done|by rewrite Hw]. } { rewrite <-Hord. by apply Hans. }
  rewrite <-Hord in Hjobs', Hans'. split; try done; simpl.
  - intros id'. specialize (Hl id'). unfold lives in *. change (w_calls s') with (w_calls s).
    change (w_ran s') with (<[id := r]> (w_ran s)).
    assert (id' ∈ w_order s' ↔ id' = id ∨ id' ∈ w_order s) as Helem by exact (placed_elem id id' (with_jobs j' s)).
    destruct (decide (id' = id)) as [->|Hne].
    + rewrite Hc, lookup_insert_eq, (position_replying s' id r), bool_decide_eq_true_2 by (try done; apply Helem; by left).
      rewrite Hreply. destruct Hid as [(Hwait & -> & _)|(-> & -> & _)]; by constructor.
    + rewrite lookup_insert_ne by done.
      assert (position_of s' id' = position_of s id') as ->.
      { unfold position_of. simpl. by rewrite Hw, !bool_decide_eq_false_2 by done. }
      destruct (w_calls s !! id'); [|rewrite Helem; naive_solver].
      by rewrite (bool_decide_ext (id' ∈ w_order s') (id' ∈ w_order s)) by (rewrite Helem; naive_solver).
Qed.

(** A panic: the thread and the jobs it had or was to get are gone. *)
Lemma closed_calls s l id :
  w_calls (foldr (λ id s, on_call id (set_reply ReplyClosed) s) s l) !! id
  = if bool_decide (id ∈ l) then set_reply ReplyClosed <$> w_calls s !! id else w_calls s !! id.
Proof.
  induction l as [|id' l IH]; [done|]. cbn [foldr on_call w_calls].
  destruct (decide (id' = id)) as [->|Hne].
  - rewrite lookup_alter_eq, IH, (bool_decide_eq_true_2 (id ∈ id :: l)) by by left.
    case_bool_decide; [|done]. by destruct (w_calls s !! id).
  - rewrite lookup_alter_ne, IH by done. by rewrite (bool_decide_ext (id ∈ id' :: l) (id ∈ l)) by (rewrite elem_of_cons; naive_solver).
Qed.

Lemma closed_rest s l :
  let s' := foldr (λ id s, on_call id (set_reply ReplyClosed) s) s l in
  w_order s' = w_order s ∧ w_ran s' = w_ran s.
Proof. induction l as [|id l IH]; [done|]. exact IH. Qed.

Lemma worker_panics_inv j s id j' :
  w_state s = InOperation id → worker_inv j s →
  worker_inv j (worker_at Dead (with_queue []
    (foldr (λ id s, on_call id (set_reply ReplyClosed) s) (with_jobs j' s) (id :: w_queue s)))).
Proof.
  intros Hw Hs. set (s' := worker_at _ _).
  destruct (closed_rest (with_jobs j' s) (id :: w_queue s)) as [Hord Hran].
  assert (∀ id', w_calls s' !! id' = if bool_decide (id' ∈ id :: w_queue s) then set_reply ReplyClosed <$> w_calls s !! id'
    else w_calls s !! id') as Hcalls by exact (closed_calls (with_jobs j' s) (id :: w_queue s)).
  destruct (replay_same j s s') as [Ha Hr]; [exact Hord|exact Hran| |exact Hs|].
  { intros id' _. unfold job_of. rewrite Hcalls. case_bool_decide; [|done]. by destruct (w_calls s !! id'). }
  destruct Hs as [Hl Hq Hh Ho Hop _ Hj]. split; try done; [|apply NoDup_nil_2|exact (eq_ind_r NoDup Ho Hord)].
  intros id'. specialize (Hl id'). unfold lives in *. rewrite Hcalls.
  change (w_ran s') with (w_ran (foldr (λ id s, on_call id (set_reply ReplyClosed) s) (with_jobs j' s) (id :: w_queue s))).
  change (w_order s') with (w_order (foldr (λ id s, on_call id (set_reply ReplyClosed) s) (with_jobs j' s) (id :: w_queue s))).
  rewrite Hord, Hran. simpl w_ran. simpl w_order.
  assert (position_of s' id' = Elsewhere) as ->.
  { change (in_queue (with_queue [] s') id' = Elsewhere). unfold in_queue.
    by rewrite bool_decide_eq_false_2 by apply not_elem_of_nil. }
  assert (position_of s id' = if bool_decide (id' ∈ id :: w_queue s) then (if bool_decide (id = id') then Operating else Queued) else Elsewhere) as Hp.
  { unfold position_of, in_queue. rewrite Hw. repeat case_bool_decide; set_solver. }
  rewrite Hp in Hl. destruct (w_calls s !! id') as [c|]; case_bool_decide; simpl in *; try done; [|naive_solver].
  apply life_pending_inv in Hl as (_ & -> & [(Hwait & -> & ->)|(-> & -> & ->)]);
    [by constructor|constructor|case_bool_decide; [by right; right|by left]].
Qed.

(** ** Steps of a caller that waits *)

Lemma life_placed st a rep p o b : life st a rep p o b → o = None ∨ b = true.
Proof. destruct 1; tauto. Qed.

(** It goes on waiting, or gives up. *)
Lemma life_waiting_inv st a rep p o b :
  life st a rep p o b → waiting st →
  a = false ∧ (∀ st', waiting st' → life st' false rep p o b) ∧ life (Answered (Err deadline)) true rep p o true.
Proof.
  destruct 1 as [|e reply He Hr|st p Hw Hp|p Hp|st r Hw|r|st r Hw|r|st Hw|]; intros Hst;
    try (exfalso; destruct Hst; discriminate).
  - split; [done|]. split; [intros st' Hst'; by apply life_waiting|by apply life_given_up].
  - split; [done|]. split; [intros st' Hst'; by apply life_ran|apply life_ran_late].
  - split; [done|]. split; [intros st' Hst'; apply life_replied; by left|apply life_late].
  - split; [done|]. split; [intros st' Hst'; by apply life_lost|apply life_dropped].
Qed.

Lemma life_sent_inv st a r p o b :
  life st a (ReplySent r) p o b → waiting st → p = Elsewhere ∧ o = Some r ∧ b = true.
Proof. inversion 1 as [|e reply He Hr| | | | | | | |]; subst; try done; intros [|]; done. Qed.

Lemma life_closed_inv st a p o b :
  life st a ReplyClosed p o b → waiting st → p = Elsewhere ∧ o = None.
Proof. by inversion 1; subst. Qed.

Lemma call_submitting j s id :
  worker_inv j s → stage_of s id = Some Submitting →
  ∃ c, w_calls s !! id = Some c ∧ cs_abandoned c = false ∧ cs_reply c = ReplyPending
    ∧ position_of s id = Elsewhere ∧ w_ran s !! id = None.
Proof.
  intros Hs Hstage. unfold stage_of in Hstage. pose proof (wi_lives _ _ Hs id) as Hid.
  destruct (w_calls s !! id) as [c|]; [|done]. injection Hstage as Hstage. exists c. split; [done|].
  unfold lives in Hid. rewrite Hstage in Hid. by apply life_submitting_inv in Hid as (-> & -> & -> & -> & _).
Qed.

(** A call that finds no room or no worker. *)
Lemma call_refused_inv j s id e :
  e = queue_full ∨ e = worker_stopped → stage_of s id = Some Submitting → worker_inv j s →
  worker_inv j (placed id (on_call id (set_stage (Answered (Err e))) s)).
Proof.
  intros He Hstage Hs. destruct (call_submitting j s id) as (c & Hc & Ha & Hr & Hp & Hn); [done..|].
  apply (caller_inv j s id c (set_stage (Answered (Err e))) true); [done..|by left| |done].
  simpl. rewrite Ha, Hr, Hp, Hn. by apply life_refused; [|left].
Qed.

(** A call that waits moves on. *)
Lemma call_waits_inv j s id c f (b : bool) :
  w_calls s !! id = Some c → (∀ c, cs_job (f c) = cs_job c) →
  (life (cs_stage c) (cs_abandoned c) (cs_reply c) (position_of s id) (w_ran s !! id) (bool_decide (id ∈ w_order s)) →
   life (cs_stage (f c)) (cs_abandoned (f c)) (cs_reply (f c)) (position_of s id) (w_ran s !! id)
     (b || bool_decide (id ∈ w_order s))) →
  worker_inv j s → worker_inv j (place_if b id (on_call id f s)).
Proof.
  intros Hc Hf Hlife Hs. pose proof (wi_lives _ _ Hs id) as Hid. rewrite Hc in Hid.
  apply (caller_inv j s id c f b); [done..| |by apply Hlife|done].
  destruct (life_placed _ _ _ _ _ _ Hid) as [Hn|Hin]; [by left|right; by apply bool_decide_eq_true_1 in Hin].
Qed.

Lemma worker_step_keeps j s s' : worker_step s s' → worker_inv j s → worker_inv j s'.
Proof.
  destruct 1 as [id job Hn|id Hst Hd Hl|id Hst Hd Hl|id Hst Hd|id c r Hc Hst Hr|id c Hc Hst Hr|id c Hc Hst Hr
    |id Hst|id q Hw Hq|id c Hw Hc Ha|id c Hw Hc Ha|id c r j' Hw Hc Hrun|id r Hw|id j' Hw]; intros Hs.
  - by apply call_starts_inv.
  - by apply call_submits_inv.
  - apply call_refused_inv; [by left|done..].
  - apply call_refused_inv; [by right|done..].
  - apply (call_waits_inv j s id c (set_stage (Answered r)) false); [done..| |done]. simpl. rewrite Hst, Hr. intros Hl.
    destruct (life_waiting_inv _ _ _ _ _ _ Hl) as (-> & _); [by left|].
    destruct (life_sent_inv _ _ _ _ _ _ Hl) as (-> & -> & ->); [by left|]. apply life_replied. by right.
  - apply (call_waits_inv j s id c (set_stage (Answered (Err worker_stopped))) true); [done..| |done].
    simpl. rewrite Hst, Hr. intros Hl. destruct (life_waiting_inv _ _ _ _ _ _ Hl) as (-> & _); [by left|].
    destruct (life_closed_inv _ _ _ _ _ Hl) as (-> & ->); [by left|]. by apply life_refused; right.
  - apply (call_waits_inv j s id c (set_stage Expiring) false); [done..| |done]. simpl. rewrite Hst. intros Hl.
    destruct (life_waiting_inv _ _ _ _ _ _ Hl) as (-> & Hlife & _); [by left|]. apply Hlife. by right.
  - unfold stage_of in Hst. destruct (w_calls s !! id) as [c|] eqn:Hc; [|done]. injection Hst as Hst.
    apply (call_waits_inv j s id c (λ c, set_abandoned (set_stage (Answered (Err deadline)) c)) true); [done..| |done].
    simpl. rewrite Hst. intros Hl. apply (life_waiting_inv _ _ _ _ _ _ Hl). by right.
  - by apply worker_takes_inv.
  - by eapply worker_skips_inv.
  - by eapply worker_enters_inv.
  - by eapply worker_runs_inv.
  - by apply worker_replies_inv.
  - by apply worker_panics_inv.
Qed.

Lemma worker_reachable_inv j s : rtc worker_step (started j) s → worker_inv j s.
Proof.
  intros Hsteps. pose proof (started_inv j) as Hs. revert Hs.
  induction Hsteps as [|s1 s2 s3 Hstep _ IH]; [done|]. intros Hs. by eapply IH, worker_step_keeps.
Qed.

(** The order only grows at its end. *)
Lemma placed_prefix id s : w_order s `prefix_of` w_order (placed id s).
Proof. simpl. case_bool_decide; [done|]. by apply prefix_app_r. Qed.

Lemma worker_step_order s s' : worker_step s s' → w_order s `prefix_of` w_order s'.
Proof.
  destruct 1; try done; try exact (placed_prefix _ _).
  change (w_order s `prefix_of` w_order (foldr (λ id s, on_call id (set_reply ReplyClosed) s) (with_jobs j s) (id :: w_queue s))).
  by destruct (closed_rest (with_jobs j s) (id :: w_queue s)) as [-> _].
Qed.

(** ** The calls have an order *)

(** The outcome of a call that has its place. *)
Lemma outcome_of_call j s id c :
  worker_inv j s → w_calls s !! id = Some c → id ∈ w_order s →
  ∃ o, ∀ j1, (∀ r, w_ran s !! id = Some r → (cs_job c j1).1 = r) →
    (eager_call (cs_job c) o j1).2 = run_one (job_of s) (w_ran s) j1 id
    ∧ ∀ r, cs_stage c = Answered r → (eager_call (cs_job c) o j1).1 = r.
Proof.
  intros Hs Hc Hin. pose proof (wi_lives _ _ Hs id) as Hl. rewrite Hc in Hl. unfold lives in Hl.
  rewrite bool_decide_eq_true_2 in Hl by done. unfold run_one, job_of. rewrite Hc. cbn [fmap option_fmap option_map].
  remember (w_ran s !! id) as o eqn:Ho. clear Ho.
  inversion Hl as [|e reply He Hr Hst Ha|st p Hw|p Hp Hst Ha|st r Hw Hst Ha|r Hst Ha|st r Hw Hst Ha|r Hst Ha|st|Hst Ha]; subst.
  - destruct He as [->| ->]; [exists QueueFull|exists WorkerStopped]; intros j1 _; (split; [done|]); by intros r [= <-].
  - exists Abandoned. intros j1 _. split; [done|]. by intros r [= <-].
  - exists Replied. intros j1 Hr. split; [done|]. intros r' Hr'. rewrite Hr' in Hw. by destruct Hw.
  - exists RanLate. intros j1 _. split; [done|]. by intros r' [= <-].
  - exists Replied. intros j1 Hr. split; [done|]. intros r' Hr'. rewrite Hr' in Hw.
    destruct Hw as [[|]|[= ->]]; [done..|]. by apply Hr.
  - exists RanLate. intros j1 _. split; [done|]. by intros r' [= <-].
  - exists Abandoned. intros j1 _. split; [done|]. by intros r [= <-].
Qed.

Definition answers (s : Worker) (id : nat) (r : Answer) : Prop :=
  ∀ r', stage_of s id = Some (Answered r') → r' = r.

Lemma eager_order j s order j1 :
  worker_inv j s → (∀ id, id ∈ order → id ∈ w_order s) →
  replay_answers (job_of s) (w_ran s) j1 order →
  ∃ l rs, Forall2 (λ id job, job_of s id = Some job) order l.*1
    ∧ eagerly l j1 = (rs, replay (job_of s) (w_ran s) j1 order) ∧ Forall2 (answers s) order rs.
Proof.
  intros Hs. revert j1. induction order as [|id order IH]; intros j1 Hin Ha; [by exists [], []|].
  destruct Ha as [Hid Ha]. assert (id ∈ w_order s) as Hplace by (apply Hin; by left).
  pose proof (wi_lives _ _ Hs id) as Hl. destruct (w_calls s !! id) as [c|] eqn:Hc; [|by destruct Hl as (_ & _ & ?)].
  destruct (outcome_of_call j s id c Hs Hc Hplace) as [o Ho].
  destruct (Ho j1) as [Hj Hr].
  { intros r Hran. destruct (Hid r Hran) as (job & Hjob & Heq). unfold job_of in Hjob. rewrite Hc in Hjob. by injection Hjob as <-. }
  destruct (IH (run_one (job_of s) (w_ran s) j1 id)) as (l & rs & Hjobs & Hrun & Hrs);
    [intros id' Hid'; apply Hin; by right|done|].
  exists ((cs_job c, o) :: l), ((eager_call (cs_job c) o j1).1 :: rs). split; [|split].
  - constructor; [|done]. unfold job_of. by rewrite Hc.
  - simpl. destruct (eager_call (cs_job c) o j1) as [r j2]. simpl in Hj. by rewrite Hj, Hrun.
  - constructor; [|done]. intros r' Hst. unfold stage_of in Hst. rewrite Hc in Hst. injection Hst as Hst. by rewrite (Hr r' Hst).
Qed.

Lemma answered_in_order j s id r :
  worker_inv j s → stage_of s id = Some (Answered r) → id ∈ w_order s.
Proof.
  intros Hs Hst. pose proof (wi_lives _ _ Hs id) as Hl. unfold stage_of in Hst.
  destruct (w_calls s !! id) as [c|]; [|done]. injection Hst as Hst. unfold lives in Hl. rewrite Hst in Hl.
  apply (bool_decide_eq_true_1 (id ∈ w_order s)). remember (bool_decide (id ∈ w_order s)) as b eqn:Hb. clear Hb.
  inversion Hl as [| |st p [Hw|Hw]| | | | | |st [Hw|Hw]|]; done.
Qed.

Lemma order_grows s s' : rtc worker_step s s' → w_order s `prefix_of` w_order s'.
Proof. induction 1 as [|s1 s2 s3 Hstep _ IH]; [done|]. etrans; [by apply worker_step_order|done]. Qed.

(** C6: the calls of a session are linearizable, whatever the interleaving of
    the callers with the worker thread: with a queue of 32 jobs, replies that
    arrive before or after the deadline, jobs that are abandoned before, while or
    after they run and jobs that panic.  The calls that took effect or were given
    up are in an order in which every answered call occurs once, which only grows
    at its end (so that a call answered before another starts comes first), and
    for suitable outcomes [Session.call], applied to them in that order, gives
    each answered call its answer and, unless a job panicked, the connection and
    the global state that the worker has. *)
Theorem worker_calls_linearize j s :
  rtc worker_step (started j) s →
  NoDup (w_order s)
  ∧ (∀ id r, stage_of s id = Some (Answered r) → id ∈ w_order s)
  ∧ (∀ s', rtc worker_step s s' → w_order s `prefix_of` w_order s')
  ∧ ∃ jobs os, Forall2 (λ id job, cs_job <$> w_calls s !! id = Some job) (w_order s) jobs
    ∧ ∀ x, s_timeout (st_session x) = operation_timeout → s_backlog (st_session x) = [] → job_state x = j →
      let '(rs, x') := calls_in_order jobs (with_outcomes os x) in
      Forall2 (λ id r, ∀ r', stage_of s id = Some (Answered r') → r' = r) (w_order s) rs
      ∧ (w_state s ≠ Dead → run_backlog x' = w_jobs s).
Proof.
  intros Hsteps. pose proof (worker_reachable_inv j s Hsteps) as Hs.
  split; [apply Hs|]. split; [intros id r; by apply (answered_in_order j)|]. split; [by apply order_grows|].
  destruct (eager_order j s (w_order s) j) as (l & rs & Hjobs & Hrun & Hrs); [done..|apply Hs|].
  exists l.*1, l.*2. split; [exact Hjobs|]. intros x Ht Hb Hj.
  pose proof (calls_eagerly l (with_outcomes l.*2 x) Ht eq_refl) as Hc.
  destruct (calls_in_order l.*1 (with_outcomes l.*2 x)) as [rs' x'].
  assert (run_backlog (with_outcomes l.*2 x) = j) as Hstart.
  { unfold run_backlog. simpl. rewrite Hb. simpl. rewrite <-Hj. by destruct x. }
  rewrite Hstart, Hrun in Hc. injection Hc as -> Hfin. split; [exact Hrs|]. intros Hd. rewrite Hfin. by apply Hs.
Qed.
End Worker.

(** ** Examples *)

Section Example.
#[local] Existing Instance simple_core.
#[local] Existing Instance simple_fmt.
#[local] Existing Instance ref_arrow.
#[local] Existing Instance ref_ipc.
#[local] Existing Instance ref_options.
#[local] Existing Instance ref_backend.

(** A job that draws an identifier. *)
Definition draw : M JobState AdbcError nat :=
  λ j, (Ok (j_uuids j), mkJobState (j_world j) (S (j_uuids j)) (j_resources j)).

Definition idle_session : SState :=
  mkSState (mkGlobal (ref_items []) 0 0 [] [])
    (mkSession "alice" "orders" (Mutex_new 0)
       (mkSessionResources (Mutex_new ref_conn) (Mutex_new ∅) (Mutex_new ∅))
       1000 [] ref_cancel (ClientOptionPolicy_new false [] [])
       (Mutex_new ∅) (mkSessionLimits 4 2 2 2)).

Definition drawn (n : nat) : JobState :=
  mkJobState (ref_items []) n (s_resources (st_session idle_session)).

(** The first of two calls gave up while its job ran; the second got the
    answer that shows that its job ran after that one. *)
Definition two_calls : Worker :=
  mkWorker (drawn 2) [] AtRecv
    (<[0%nat := mkCall draw (Answered (Err (deadline 1000))) true (ReplySent (Ok 0%nat))]>
      {[1%nat := mkCall draw (Answered (Ok 1%nat)) false (ReplySent (Ok 1%nat))]})
    [0%nat; 1%nat] (<[0%nat := Ok 0%nat]> {[1%nat := Ok 1%nat]}).

Lemma two_calls_reached : rtc (worker_step 1000) (started (job_state idle_session)) two_calls.
Proof.
  eapply rtc_l; [apply (call_starts _ _ 0 draw); reflexivity|].
  eapply rtc_l; [apply (call_starts _ _ 1 draw); reflexivity|].
  eapply rtc_l; [apply (call_submits _ _ 0); [reflexivity|discriminate|apply Nat.ltb_lt; reflexivity]|].
  eapply rtc_l; [apply (worker_takes _ _ 0); reflexivity|].
  eapply rtc_l; [eapply (worker_enters _ _ 0); reflexivity|].
  eapply rtc_l; [eapply (call_expires _ _ 0); reflexivity|].
  eapply rtc_l; [apply (call_abandons _ _ 0); reflexivity|].
  eapply rtc_l; [apply (call_submits _ _ 1); [reflexivity|discriminate|apply Nat.ltb_lt; reflexivity]|].
  eapply rtc_l; [eapply (worker_runs _ _ 0); reflexivity|].
  eapply rtc_l; [apply (worker_replies _ _ 0); reflexivity|].
  eapply rtc_l; [apply (worker_takes _ _ 1); reflexivity|].
  eapply rtc_l; [eapply (worker_enters _ _ 1); reflexivity|].
  eapply rtc_l; [eapply (worker_runs _ _ 1); reflexivity|].
  eapply rtc_l; [apply (worker_replies _ _ 1); reflexivity|].
  eapply rtc_l; [eapply (call_receives _ _ 1); reflexivity|]. apply rtc_refl.
Qed.

Lemma worker_calls_linearize_witness :
  ∃ jobs os, let '(rs, s) := calls_in_order jobs (with_outcomes os idle_session) in
    rs = [Err (deadline 1000); Ok 1%nat] ∧ run_backlog s = drawn 2.
Proof.
  destruct (worker_calls_linearize 1000 _ two_calls two_calls_reached) as (_ & _ & _ & jobs & os & _ & Hcalls).
  exists jobs, os. specialize (Hcalls idle_session eq_refl eq_refl eq_refl).
  destruct (calls_in_order jobs (with_outcomes os idle_session)) as [rs s]. destruct Hcalls as [Hrs Hs]. split.
  - change (w_order two_calls) with [0%nat; 1%nat] in Hrs.
    inversion Hrs as [|id r order rs' Hfirst Hrest]; subst. inversion Hrest as [|id' r' order' rs'' Hsecond Hnil]; subst.
    inversion Hnil; subst. f_equal; [symmetry; by apply Hfirst|f_equal; symmetry; by apply Hsecond].
  - apply Hs. discriminate.
Defined.
End Example.
