(* ===== verification/Manager.v ===== *)
(** * The session manager (grainlift-server/src/session.rs: [SessionManager])

    The registry of sessions, admission with global and per-principal quotas,
    leases, shutdown.  [Arc<Session>] is a location of a heap that counts the
    strong references: the registry holds one per session and every handler in
    flight one more, which is what [get] and [reap_expired] look at.  Each
    definition is one method; the locked sections that other threads can
    interleave with are definitions of their own. *)

From S2P Require Import Prelude Adbc WireError Options Arrow Framing Envelope Partitions.
From S2P Require Import Config Backend ResultCursor BindUpload Session.

Section Manager.
Context `{AdbcCore} `{RustFmt} `{ArrowCrate} `{!IpcCrate} `{FileSystem} `{AdbcOptions} `{!Backend}.
Context (uuid : nat → string).

(** ** Data *)

Abbreviation loc := nat.

Record SessionRegistry : Type := mkSessionRegistry {
  sessions : gmap string loc;
  opening_total : Z;
  opening_by_principal : gmap string Z
}.

Definition SessionRegistry_default : SessionRegistry := mkSessionRegistry ∅ 0 ∅.

(** The fields of [SessionManager] that never change. *)
Record Manager : Type := mkManager {
  mg_targets : gmap string TargetConfig;
  mg_ttl : Z;
  mg_require_authentication : bool;
  mg_limits : SessionLimits;
  mg_authorizer : TargetAuthorizer;
  mg_operation_timeout : Z;
  mg_partition_signer : PartitionSigner
}.

Record MState : Type := mkMState {
  m_global : Global;
  m_registry : Mutex SessionRegistry;
  m_heap : gmap loc (nat * Session);
  m_next_loc : loc;
  m_closing : bool
}.

Abbreviation Act := (M MState AdbcError).

Definition set_global (g : Global) (s : MState) : MState :=
  mkMState g (m_registry s) (m_heap s) (m_next_loc s) (m_closing s).
Definition set_registry (r : SessionRegistry) (s : MState) : MState :=
  mkMState (m_global s) (mx_set (m_registry s) r) (m_heap s) (m_next_loc s) (m_closing s).
Definition set_sessions (m : gmap string loc) (s : MState) : MState :=
  let r := mx_data (m_registry s) in
  set_registry (mkSessionRegistry m (opening_total r) (opening_by_principal r)) s.
Definition set_heap (h : gmap loc (nat * Session)) (s : MState) : MState :=
  mkMState (m_global s) (m_registry s) h (m_next_loc s) (m_closing s).
Definition set_closing (s : MState) : MState :=
  mkMState (m_global s) (m_registry s) (m_heap s) (m_next_loc s) true.

Definition lock_registry : Act SessionRegistry := λ s,
  (lock (m_registry s) (internal "session registry is poisoned"), s).

(** ** Reference counts *)

Definition spawn_now (g : Global) : result string unit * Global :=
  match g_spawns g with
  | [] => (Ok tt, g)
  | r :: rs => (r, mkGlobal (g_world g) (g_clock g) (g_uuids g) (g_outcomes g) rs)
  end.

(** The last reference is gone: [Drop for Session]. *)
Definition run_drop (x : Session) (g : Global) : Global :=
  let '(spawned, g) := spawn_now g in set_world (drop_session spawned x (g_world g)) g.

Definition drop_arc (l : loc) (s : MState) : MState :=
  match m_heap s !! l with
  | Some (S (S n), x) => set_heap (<[l := (S n, x)]> (m_heap s)) s
  | Some (_, x) => set_global (run_drop x (m_global s)) (set_heap (delete l (m_heap s)) s)
  | None => s
  end.

Definition drop_arcs (ls : list loc) (s : MState) : MState := foldl (λ s l, drop_arc l s) s ls.

Definition clone_arc (l : loc) (s : MState) : MState :=
  match m_heap s !! l with
  | Some (n, x) => set_heap (<[l := (S n, x)]> (m_heap s)) s
  | None => s
  end.

Definition session_at (s : MState) (l : loc) : option Session := snd <$> m_heap s !! l.
Definition strong_count (s : MState) (l : loc) : nat := default 0%nat (fst <$> m_heap s !! l).
Definition principal_at (s : MState) (l : loc) : option string := s_principal <$> session_at s l.

(** ** Expiry *)

Definition elapsed (now last_used : Z) : Z := Z.max 0 (now - last_used).

Definition lease_expired (mg : Manager) (s : MState) (x : Session) : result AdbcError bool :=
  last_used ← lock (s_last_used x) (internal "session lease is poisoned");
  Ok (mg_ttl mg <? elapsed (g_clock (m_global s)) last_used).

(** The loop of [reap_expired]: sessions in flight are skipped. *)
Fixpoint expired_sessions (mg : Manager) (s : MState) (l : list (string * loc))
  : result AdbcError (list (string * loc)) :=
  match l with
  | [] => Ok []
  | (id, a) :: l =>
      if (1 <? strong_count s a)%nat then expired_sessions mg s l
      else
        match session_at s a with
        | None => expired_sessions mg s l
        | Some x =>
            expired ← lease_expired mg s x;
            rest ← expired_sessions mg s l;
            Ok (if expired : bool then (id, a) :: rest else rest)
        end
  end.

Definition remove_ids (ids : list string) (m : gmap string loc) : gmap string loc :=
  foldr delete m ids.

Definition reap_expired (mg : Manager) : Act Z :=
  registry ← lock_registry;
  mprim (λ s,
    match expired_sessions mg s (map_to_list (sessions registry)) with
    | Err e => (Err e, s)
    | Ok expired =>
        (Ok (len expired),
         drop_arcs expired.*2 (set_sessions (remove_ids expired.*1 (sessions registry)) s))
    end).

(** ** Admission *)

Definition active_for (s : MState) (registry : SessionRegistry) (principal : string) : Z :=
  len (filter (λ a, principal_at s a = Some principal) (map_to_list (sessions registry)).*2).

Definition opening_for (registry : SessionRegistry) (principal : string) : Z :=
  default 0 (opening_by_principal registry !! principal).

(** The locked section of [reserve_open]. *)
Definition reserve_locked (mg : Manager) (principal : string) : Act unit :=
  registry ← lock_registry;
  mprim (λ s,
    if m_closing s then (Err (busy "proxy is shutting down"), s)
    else if max_sessions (mg_limits mg)
              <=? Z.of_nat (size (sessions registry)) + opening_total registry
    then (Err (quota "global session"), s)
    else if max_sessions_per_principal (mg_limits mg)
              <=? active_for s registry principal + opening_for registry principal
    then (Err (quota "per-principal session"), s)
    else
      (Ok tt, set_registry
         (mkSessionRegistry (sessions registry) (opening_total registry + 1)
            (<[principal := opening_for registry principal + 1]> (opening_by_principal registry))) s)).

Definition reserve_open (mg : Manager) (principal : string) : Act unit := λ s,
  if m_closing s then (Err (busy "proxy is shutting down"), s)
  else (reap_expired mg;; reserve_locked mg principal) s.

Definition release_open_reservation_locked (registry : SessionRegistry) (principal : string)
  : SessionRegistry :=
  let total := usize_saturating_sub (opening_total registry) 1 in
  match opening_by_principal registry !! principal with
  | None => mkSessionRegistry (sessions registry) total (opening_by_principal registry)
  | Some opening =>
      let opening := usize_saturating_sub opening 1 in
      mkSessionRegistry (sessions registry) total
        (if opening =? 0 then delete principal (opening_by_principal registry)
         else <[principal := opening]> (opening_by_principal registry))
  end.

Definition release_open_reservation (principal : string) : Act unit :=
  registry ← lock_registry;
  mmodify (set_registry (release_open_reservation_locked registry principal)).

(** ** Opening a session *)

Definition act_spawn : Act (result string unit) := λ s,
  let '(r, g) := spawn_now (m_global s) in (Ok r, set_global g s).

Definition act_uuid : Act string := λ s,
  let g := m_global s in
  (Ok (uuid (g_uuids g)),
   set_global (mkGlobal (g_world g) (g_clock g) (S (g_uuids g)) (g_outcomes g) (g_spawns g)) s).

(** The thread that opens the native connection, and its deadline.  A late
    open still happens; its connection is dropped with the reply channel. *)
Definition open_thread (mg : Manager) (target : TargetConfig)
    (database_options connection_options : list (string * OptionValue))
  : M MState AdbcError (result AdbcError Conn) := λ s,
  let '(spawned, g) := spawn_now (m_global s) in
  match spawned with
  | Err error => (Ok (Err (internal ("start connection open worker: " +:+ error))), set_global g s)
  | Ok _ =>
      let '(outcome, g) := next_outcome g in
      let '(r, w) := backend_open target database_options connection_options (g_world g) in
      let deadline :=
        timeout ("downstream connection open exceeded "
                 +:+ debug_duration (mg_operation_timeout mg)) in
      match outcome with
      | Replied | QueueFull => (Ok r, set_global (set_world w g) s)
      | WorkerStopped => (Ok (Err (internal "connection open worker stopped")), set_global g s)
      | Abandoned => (Ok (Err deadline), set_global g s)
      | RanLate => (Ok (Err deadline), set_global (set_world w g) s)
      end
  end.

Definition new_session (mg : Manager) (principal target_name : string) (target : TargetConfig)
    (c : Conn) (now : Z) : Session :=
  mkSession principal target_name (Mutex_new now)
    (mkSessionResources (Mutex_new c) (Mutex_new ∅) (Mutex_new ∅))
    (mg_operation_timeout mg) [] (conn_cancel_handle c) (connection_option_policy target)
    (Mutex_new ∅) (mg_limits mg).

(** The last locked section of [open]: the reservation becomes a session. *)
Definition register (principal id : string) (x : Session) : Act string :=
  registry ← lock_registry;
  mprim (λ s,
    let registry := release_open_reservation_locked registry principal in
    let s := set_registry registry s in
    if m_closing s
    then (Err (busy "proxy is shutting down"), set_global (run_drop x (m_global s)) s)
    else
      let l := m_next_loc s in
      let replaced := option_list (sessions registry !! id) in
      (Ok id, drop_arcs replaced
                (set_sessions (<[id := l]> (sessions registry))
                   (mkMState (m_global s) (m_registry s) (<[l := (1%nat, x)]> (m_heap s)) (S l)
                      (m_closing s))))).

Definition start_session (mg : Manager) (principal target_name : string) (target : TargetConfig)
    (c : Conn) : Act string :=
  id ← act_uuid;
  worker ← act_spawn;
  match worker with
  | Err error =>
      release_open_reservation principal;;
      act_spawn;;
      mthrow (internal ("start session worker: " +:+ error))
  | Ok _ =>
      now ← mgets (λ s, g_clock (m_global s));
      register principal id (new_session mg principal target_name target c now)
  end.

Definition finish_open (mg : Manager) (principal target_name : string) (target : TargetConfig)
    (opened : result AdbcError Conn) : Act string :=
  match opened with
  | Err error => release_open_reservation principal;; mthrow error
  | Ok c => start_session mg principal target_name target c
  end.

Definition open (mg : Manager) (principal target_name : string)
    (database_options connection_options : list (string * OptionValue)) : Act string :=
  if negb (allows (mg_authorizer mg) principal target_name)
  then mthrow (with_message_and_status "principal is not authorized for the requested target"
                 Unauthorized)
  else
    target ← mlift (ok_or (mg_targets mg !! target_name)
                      (with_message_and_status "target is not configured" NotFound));
    reserve_open mg principal;;
    opened ← open_thread mg target database_options connection_options;
    finish_open mg principal target_name target opened.

(** ** Lookup, close, shutdown *)

Definition wrong_principal : AdbcError :=
  with_message_and_status "session does not belong to the authenticated principal" Unauthorized.

(** The registered session [id] of [principal]. *)
Definition find_session (registry : SessionRegistry) (id principal : string) (s : MState)
  : result AdbcError (loc * Session) :=
  a ← ok_or (sessions registry !! id) (not_found "session");
  x ← ok_or (session_at s a) (not_found "session");
  if bool_decide (s_principal x ≠ principal) then Err wrong_principal else Ok (a, x).

Definition touch (a : loc) (now : Z) (s : MState) : MState :=
  match m_heap s !! a with
  | Some (n, x) => set_heap (<[a := (n, set_last_used (mx_set (s_last_used x) now) x)]> (m_heap s)) s
  | None => s
  end.

Definition get (mg : Manager) (id principal : string) : Act loc :=
  registry ← lock_registry;
  mprim (λ s,
    match find_session registry id principal s with
    | Err e => (Err e, s)
    | Ok (a, x) =>
        match lease_expired mg s x with
        | Err e => (Err e, s)
        | Ok expired =>
            if expired && negb (1 <? strong_count s a)%nat
            then (Err (not_found "expired session"),
                  drop_arc a (set_sessions (delete id (sessions registry)) s))
            else (Ok a, clone_arc a (touch a (g_clock (m_global s)) s))
        end
    end).

Definition close (id principal : string) : Act unit :=
  registry ← lock_registry;
  mprim (λ s,
    match find_session registry id principal s with
    | Err e => (Err e, s)
    | Ok (a, _) => (Ok tt, drop_arc a (set_sessions (delete id (sessions registry)) s))
    end).

(** The second half of [close_all], under the lock. *)
Definition detach_all : Act Z :=
  registry ← lock_registry;
  mprim (λ s, (Ok (Z.of_nat (size (sessions registry))),
        drop_arcs (map_to_list (sessions registry)).*2 (set_sessions ∅ s))).

Definition close_all : Act Z := mmodify set_closing;; detach_all.

(** ** Telemetry *)

Record ResourceCounts : Type := mkResourceCounts {
  rc_sessions : Z; rc_statements : Z; rc_results : Z; rc_bind_uploads : Z; rc_opening_sessions : Z
}.

Definition add_counts (counts : ResourceCounts) (x : Session) : result AdbcError ResourceCounts :=
  st ← lock (statements (s_resources x)) (internal "statement registry is poisoned");
  rs ← lock (results (s_resources x)) (internal "result registry is poisoned");
  bs ← lock (s_bind_uploads x) (internal "bind upload registry is poisoned");
  Ok (mkResourceCounts (rc_sessions counts) (rc_statements counts + Z.of_nat (size st))
        (rc_results counts + Z.of_nat (size rs)) (rc_bind_uploads counts + Z.of_nat (size bs))
        (rc_opening_sessions counts)).

Fixpoint sum_counts (counts : ResourceCounts) (xs : list Session) : result AdbcError ResourceCounts :=
  match xs with
  | [] => Ok counts
  | x :: xs => counts ← add_counts counts x; sum_counts counts xs
  end.

Definition resource_counts : Act ResourceCounts :=
  registry ← lock_registry;
  mprim (λ s, (sum_counts (mkResourceCounts (Z.of_nat (size (sessions registry))) 0 0 0
                      (opening_total registry))
          (omap (session_at s) (map_to_list (sessions registry)).*2), s)).

(** An operation of a session through a reference a handler holds. *)
Definition on_session {A} (a : loc) (op : M SState AdbcError A) : Act A := λ s,
  match m_heap s !! a with
  | Some (n, x) =>
      let '(r, st) := op (mkSState (m_global s) x) in
      (r, set_heap (<[a := (n, st_session st)]> (m_heap s)) (set_global (st_global st) s))
  | None => (Err (not_found "session"), s)
  end.
End Manager.
