(* ===== verification/LeaseTable.v ===== *)
(** * An abstract specification of the session manager

    What [SessionManager] (grainlift-server/src/session.rs) promises, without
    heap, reference counts or native resources: a table of leases, each with its
    owner, the time it was last used and the number of requests that use it, a
    multiset of the principals whose open is in progress, and a flag for
    shutdown.  Every call is a function on the table.  ManagerRefinement proves
    that the manager implements it. *)

From stdpp Require Import gmultiset.
From S2P Require Import Prelude Adbc WireError Options Arrow Framing Envelope Partitions.
From S2P Require Import Config Backend ResultCursor BindUpload Session Manager.

(** ** Sizes of finite maps *)

Lemma size_filter_insert_le `{Countable K} {A} (P : K * A → Prop) `{!∀ x, Decision (P x)}
    (m : gmap K A) k a :
  (size (filter P (<[k := a]> m)) ≤ (if decide (P (k, a)) then 1 else 0) + size (filter P m))%nat.
Proof.
  case_decide.
  - rewrite map_filter_insert_True by done. rewrite map_size_insert. case_match; simpl; lia.
  - rewrite map_filter_insert_False by done. rewrite map_filter_delete, map_size_delete.
    destruct (_ !! k); simpl; lia.
Qed.

Lemma size_filter_subseteq `{Countable K} {A} (P : K * A → Prop) `{!∀ x, Decision (P x)}
    (m m' : gmap K A) : m ⊆ m' → (size (filter P m) ≤ size (filter P m'))%nat.
Proof.
  intros Hm. apply map_subseteq_size, map_filter_strong_subseteq_ext. intros i x [HP Hx].
  split; [done|]. by eapply lookup_weaken.
Qed.

(** ** The table *)

Record Lease : Type := mkLease { owner : string; used_at : Z; users : nat }.

Record LeaseTable : Type := mkLeaseTable {
  leases : gmap string Lease; opening : gmultiset string; shut : bool
}.

Definition empty_table : LeaseTable := mkLeaseTable ∅ ∅ false.

Definition with_leases (m : gmap string Lease) (T : LeaseTable) : LeaseTable :=
  mkLeaseTable m (opening T) (shut T).
Definition with_opening (o : gmultiset string) (T : LeaseTable) : LeaseTable :=
  mkLeaseTable (leases T) o (shut T).

Definition owned (p : string) (T : LeaseTable) : gmap string Lease :=
  filter (λ '(_, l), owner l = p) (leases T).

Section LeaseTable.
Context `{AdbcCore}.
Context (ttl : Z) (limits : SessionLimits).

(** A lease nobody uses and that is older than the time to live. *)
Definition stale (now : Z) (l : Lease) : bool :=
  (users l =? 0)%nat && (ttl <? elapsed now (used_at l)).

(** ** The calls *)

Inductive table_call : Type :=
| Reap (now : Z)
| Reserve (p : string)
| Release (p : string)
| Register (p id : string) (now : Z)
| Lookup (id p : string) (now : Z)
| Done (id : option string)
| CloseSession (id p : string)
| BeginShutdown
| Detach
| Elsewhere.

Abbreviation answer := (result AdbcError unit).

Definition reap (now : Z) (T : LeaseTable) : LeaseTable :=
  with_leases (filter (λ '(_, l), stale now l = false) (leases T)) T.

Definition reserve (p : string) (T : LeaseTable) : answer * LeaseTable :=
  if shut T then (Err (busy "proxy is shutting down"), T)
  else if max_sessions limits <=? Z.of_nat (size (leases T) + size (opening T))
  then (Err (quota "global session"), T)
  else if max_sessions_per_principal limits
            <=? Z.of_nat (size (owned p T) + multiplicity p (opening T))
  then (Err (quota "per-principal session"), T)
  else (Ok tt, with_opening ({[+ p +]} ⊎ opening T) T).

Definition release (p : string) (T : LeaseTable) : LeaseTable :=
  with_opening (opening T ∖ {[+ p +]}) T.

Definition register_lease (p id : string) (now : Z) (T : LeaseTable) : answer * LeaseTable :=
  let T := release p T in
  if shut T then (Err (busy "proxy is shutting down"), T)
  else (Ok tt, with_leases (<[id := mkLease p now 0]> (leases T)) T).

Definition lookup_lease (id p : string) (now : Z) (T : LeaseTable) : answer * LeaseTable :=
  match leases T !! id with
  | None => (Err (not_found "session"), T)
  | Some l =>
      if bool_decide (owner l ≠ p) then (Err wrong_principal, T)
      else if stale now l
      then (Err (not_found "expired session"), with_leases (delete id (leases T)) T)
      else (Ok tt, with_leases (<[id := mkLease p now (S (users l))]> (leases T)) T)
  end.

(** A request that used the lease ends. *)
Definition leave_lease (id : string) (T : LeaseTable) : LeaseTable :=
  match leases T !! id with
  | None => T
  | Some l =>
      with_leases (<[id := mkLease (owner l) (used_at l) (pred (users l))]> (leases T)) T
  end.

Definition close_lease (id p : string) (T : LeaseTable) : answer * LeaseTable :=
  match leases T !! id with
  | None => (Err (not_found "session"), T)
  | Some l =>
      if bool_decide (owner l ≠ p) then (Err wrong_principal, T)
      else (Ok tt, with_leases (delete id (leases T)) T)
  end.

(** What the call answers and the table after it. *)
Definition perform (c : table_call) (T : LeaseTable) : answer * LeaseTable :=
  match c with
  | Reap now => (Ok tt, reap now T)
  | Reserve p => reserve p T
  | Release p => (Ok tt, release p T)
  | Register p id now => register_lease p id now T
  | Lookup id p now => lookup_lease id p now T
  | Done (Some id) => (Ok tt, leave_lease id T)
  | Done None => (Ok tt, T)
  | CloseSession id p => close_lease id p T
  | BeginShutdown => (Ok tt, mkLeaseTable (leases T) (opening T) true)
  | Detach => (Ok tt, with_leases ∅ T)
  | Elsewhere => (Ok tt, T)
  end.

(** A sequence of calls, with all the answers. *)
Fixpoint perform_all (cs : list table_call) (T : LeaseTable) : list answer * LeaseTable :=
  match cs with
  | [] => ([], T)
  | c :: cs =>
      let '(a, T) := perform c T in
      let '(l, T) := perform_all cs T in (a :: l, T)
  end.

(** Opening a session, nobody else calling: [native] is what the driver and the
    threads of the proxy answer once the open is under way. *)
Definition open_lease {A} (permitted : result AdbcError A) (p : string) (now : Z)
    (native : A → result AdbcError string) (T : LeaseTable) : result AdbcError string * LeaseTable :=
  match permitted with
  | Err e => (Err e, T)
  | Ok a =>
      if shut T then (Err (busy "proxy is shutting down"), T)
      else
        match reserve p (reap now T) with
        | (Err e, T) => (Err e, T)
        | (Ok _, T) =>
            match native a with
            | Err e => (Err e, release p T)
            | Ok id => let '(r, T) := register_lease p id now T in ((λ _, id) <$> r, T)
            end
        end
  end.

(** ** The quotas *)

Definition table_ok (T : LeaseTable) : Prop :=
  Z.of_nat (size (leases T) + size (opening T)) ≤ max_sessions limits
  ∧ ∀ p, Z.of_nat (size (owned p T) + multiplicity p (opening T))
         ≤ max_sessions_per_principal limits.

Definition no_more (T T' : LeaseTable) : Prop :=
  (size (leases T') + size (opening T') ≤ size (leases T) + size (opening T))%nat
  ∧ ∀ p, (size (owned p T') + multiplicity p (opening T')
          ≤ size (owned p T) + multiplicity p (opening T))%nat.

Lemma no_more_ok T T' : no_more T T' → table_ok T → table_ok T'.
Proof. intros [Hs Hp] [Hs' Hp']. split; [lia|]. intros p. specialize (Hp p). specialize (Hp' p). lia. Qed.

Lemma no_more_leases m T : m ⊆ leases T → no_more T (with_leases m T).
Proof.
  intros Hm. split; simpl.
  - pose proof (map_subseteq_size m _ Hm). lia.
  - intros p. pose proof (size_filter_subseteq (λ '(_, l), owner l = p) _ _ Hm) as Hf.
    unfold owned. simpl. lia.
Qed.

(** Updating a lease in place, for the same owner. *)
Lemma no_more_update id l l' T :
  leases T !! id = Some l → owner l' = owner l → no_more T (with_leases (<[id := l']> (leases T)) T).
Proof.
  intros Hl Ho. split; simpl.
  - rewrite map_size_insert, Hl. simpl. lia.
  - intros p. unfold owned. simpl. rewrite <-(insert_id _ _ _ Hl) at 2.
    destruct (decide (owner l = p)) as [Hp|Hp].
    + rewrite !map_filter_insert_True by (simpl; congruence). rewrite !map_size_insert. lia.
    + rewrite !map_filter_insert_False by (simpl; congruence). lia.
Qed.

Lemma size_release p (o : gmultiset string) :
  p ∈ o → size o = S (size (o ∖ {[+ p +]})).
Proof.
  intros Hp. rewrite (gmultiset_disj_union_difference' p o Hp) at 1.
  by rewrite gmultiset_size_disj_union, gmultiset_size_singleton.
Qed.

(** The caller of a call that ends an open is one of those in progress. *)
Definition call_ok (c : table_call) (T : LeaseTable) : Prop :=
  match c with Release p | Register p _ _ => p ∈ opening T | _ => True end.

Lemma release_no_more p T : no_more T (release p T).
Proof.
  split; simpl.
  - pose proof (gmultiset_subseteq_size (opening T ∖ {[+ p +]}) (opening T)
      ltac:(multiset_solver)). lia.
  - intros q. unfold owned; simpl. rewrite multiplicity_difference. lia.
Qed.

Lemma register_no_more p id now T : p ∈ opening T → no_more T (register_lease p id now T).2.
Proof.
  intros Hp. unfold register_lease. destruct (shut _); simpl; [apply release_no_more|]. split; simpl.
  - rewrite (size_release p (opening T) Hp), map_size_insert. destruct (_ !! id); simpl; lia.
  - intros q. unfold owned; simpl. rewrite multiplicity_difference, multiplicity_singleton.
    pose proof (size_filter_insert_le (λ '(_, l), owner l = q) (leases T) id (mkLease p now 0)) as Hf.
    rewrite elem_of_multiplicity in Hp. simpl in Hf.
    repeat case_decide; simplify_eq; lia.
Qed.

Lemma reserve_ok p T : table_ok T → table_ok (reserve p T).2.
Proof.
  intros [Hs Hp]. unfold reserve. destruct (shut T); [done|].
  destruct (Z.leb_spec (max_sessions limits) (Z.of_nat (size (leases T) + size (opening T)))); [done|].
  destruct (Z.leb_spec (max_sessions_per_principal limits)
    (Z.of_nat (size (owned p T) + multiplicity p (opening T)))); [done|].
  split; simpl.
  - rewrite gmultiset_size_disj_union, gmultiset_size_singleton. lia.
  - intros q. specialize (Hp q). unfold owned in *; simpl. rewrite multiplicity_disj_union, multiplicity_singleton.
    case_decide; simplify_eq; lia.
Qed.

Lemma perform_ok c T : call_ok c T → table_ok T → table_ok (perform c T).2.
Proof.
  intros Hc HT. destruct c as [now|p|p|p id now|id p now|[id|]|id p| | |]; simpl; try exact HT.
  - eapply no_more_ok; [|exact HT]. apply no_more_leases, map_subseteq_spec. intros i l [Hl _]%map_lookup_filter_Some.
    exact Hl.
  - by apply reserve_ok.
  - eapply no_more_ok; [apply release_no_more|exact HT].
  - eapply no_more_ok; [by apply register_no_more|exact HT].
  - unfold lookup_lease. destruct (leases T !! id) as [l|] eqn:Hl; [|exact HT].
    case_bool_decide as Ho; [exact HT|]. destruct (stale now l).
    + eapply no_more_ok; [apply no_more_leases, delete_subseteq|exact HT].
    + eapply no_more_ok; [apply (no_more_update id l); [done|]|exact HT].
      simpl. by destruct (decide (owner l = p)).
  - unfold leave_lease. destruct (leases T !! id) as [l|] eqn:Hl; [|exact HT].
    eapply no_more_ok; [by apply (no_more_update id l)|exact HT].
  - unfold close_lease. destruct (leases T !! id) as [l|]; [|exact HT].
    case_bool_decide; [exact HT|]. eapply no_more_ok; [apply no_more_leases, delete_subseteq|exact HT].
  - eapply no_more_ok; [apply no_more_leases, map_empty_subseteq|exact HT].
Qed.
End LeaseTable.
