(* ===== verification/ManagerSteps.v ===== *)
(** * What the session manager guarantees (grainlift-server/src/session.rs)

    [mstep] has a rule per atomic section of the manager: admission, the end of
    an open (registered or released), lookup, the release of a reference, close,
    reaping, shutdown, and a step of a session by a handler that holds it.  The
    ghost part of [GState] records the opens in progress and the references
    handlers hold.  [manager_inv] is invariant, so quotas, the accounting of
    opens and the reference counts hold under every interleaving. *)

From S2P Require Import Prelude Adbc WireError Options Arrow Framing Envelope Partitions.
From S2P Require Import Config Backend ResultCursor BindUpload Session SessionSteps Manager.
From S2P Require Import Reference ReferenceIpc ReferenceBackend.

(** ** Counting *)

#[global] Instance len_Permutation A : Proper ((≡ₚ) ==> (=)) (@len A).
Proof. intros l k Hlk. unfold len. by rewrite Hlk. Qed.

Lemma length_filter_perm {A} (P : A → Prop) `{!∀ a, Decision (P a)} l k :
  l ≡ₚ k → length (filter P l) = length (filter P k).
Proof. by intros ->. Qed.

Lemma length_filter_agree {A} (P Q : A → Prop) `{!∀ a, Decision (P a)} `{!∀ a, Decision (Q a)} l :
  (∀ a, a ∈ l → P a ↔ Q a) → length (filter P l) = length (filter Q l).
Proof.
  induction l as [|a l IH]; intros Heq; [done|]. rewrite !filter_cons.
  assert (P a ↔ Q a) by set_solver. assert (length (filter P l) = length (filter Q l)) by set_solver.
  destruct (decide (P a)), (decide (Q a)); simpl; tauto || congruence.
Qed.

Section ManagerSteps.
Context `{AdbcCore} `{RustFmt} `{ArrowCrate} `{!IpcCrate} `{FileSystem} `{AdbcOptions} `{!Backend}.
Context (uuid : nat → string) (mg : Manager).

(** ** States and steps *)

Record GState : Type := mkGState {
  gs : MState; pending : list string; held : list nat; detached : bool
}.

Definition registry (s : MState) : SessionRegistry := mx_data (m_registry s).
Definition registered (s : MState) : list nat := (map_to_list (sessions (registry s))).*2.
Definition healthy (s : MState) : Prop := mx_poisoned (m_registry s) = false.

Inductive mstep : GState → GState → Prop :=
| ms_admit p s s' pend hd d :
    reserve_locked mg p s = (Ok tt, s') → mstep (mkGState s pend hd d) (mkGState s' (p :: pend) hd d)
| ms_release p s pend pend' hd d :
    healthy s → pend ≡ₚ p :: pend' →
    mstep (mkGState s pend hd d)
      (mkGState (release_open_reservation p s).2 pend' hd d)
| ms_register p id t target c now s pend pend' hd d :
    healthy s → pend ≡ₚ p :: pend' →
    mstep (mkGState s pend hd d)
      (mkGState (register p id (new_session mg p t target c now) s).2 pend' hd d)
| ms_reap s pend hd d :
    mstep (mkGState s pend hd d) (mkGState (reap_expired mg s).2 pend hd d)
| ms_get id p a s s' pend hd d :
    get mg id p s = (Ok a, s') → mstep (mkGState s pend hd d) (mkGState s' pend (a :: hd) d)
| ms_get_refused id p e s s' pend hd d :
    get mg id p s = (Err e, s') → mstep (mkGState s pend hd d) (mkGState s' pend hd d)
| ms_done a s pend hd hd' d :
    hd ≡ₚ a :: hd' → mstep (mkGState s pend hd d) (mkGState (drop_arc a s) pend hd' d)
| ms_close id p s pend hd d :
    mstep (mkGState s pend hd d) (mkGState (close id p s).2 pend hd d)
| ms_closing s pend hd d :
    mstep (mkGState s pend hd d) (mkGState (set_closing s) pend hd d)
| ms_detach n s s' pend hd d :
    m_closing s = true → detach_all s = (Ok n, s') →
    mstep (mkGState s pend hd d) (mkGState s' pend hd true)
| ms_session a n x st s pend hd d :
    a ∈ hd → m_heap s !! a = Some (n, x) →
    session_step uuid (mkSState (m_global s) x) st →
    mstep (mkGState s pend hd d)
      (mkGState (set_heap (<[a := (n, st_session st)]> (m_heap s)) (set_global (st_global st) s))
         pend hd d)
| ms_environment g s pend hd d :
    mstep (mkGState s pend hd d) (mkGState (set_global g s) pend hd d).

(** ** The invariant *)

(** Every cell counts the references to it: the registry's and the handlers'. *)
Definition heap_ok (s : MState) (arcs : list nat) : Prop :=
  (∀ a, match m_heap s !! a with
        | Some (n, _) => n = cnt a arcs ∧ n ≠ 0%nat
        | None => cnt a arcs = 0%nat
        end)
  ∧ (∀ a, (m_next_loc s ≤ a)%nat → m_heap s !! a = None).

Definition opens_ok (r : SessionRegistry) (pend : list string) : Prop :=
  opening_total r = len pend
  ∧ ∀ p, opening_by_principal r !! p =
      (if decide (cnt p pend = 0%nat) then None else Some (Z.of_nat (cnt p pend))).

Definition active (s : MState) (arcs : list nat) (p : string) : nat :=
  length (filter (λ a, principal_at s a = Some p) arcs).

Definition quota_ok (s : MState) (arcs : list nat) (pend : list string) : Prop :=
  len arcs + len pend ≤ max_sessions (mg_limits mg)
  ∧ ∀ p, Z.of_nat (active s arcs p) + Z.of_nat (cnt p pend)
         ≤ max_sessions_per_principal (mg_limits mg).

Definition session_ok (x : Session) : Prop :=
  s_limits x = mg_limits mg ∧ quota_inv x.

Definition sessions_ok (s : MState) : Prop :=
  ∀ a n x, m_heap s !! a = Some (n, x) → session_ok x.

Definition manager_inv (G : GState) : Prop :=
  let s := gs G in
  heap_ok s (registered s ++ held G)
  ∧ opens_ok (registry s) (pending G)
  ∧ quota_ok s (registered s) (pending G)
  ∧ sessions_ok s
  ∧ (detached G = true → m_closing s = true ∧ sessions (registry s) = ∅).

#[local] Instance heap_ok_Permutation s : Proper ((≡ₚ) ==> iff) (heap_ok s).
Proof.
  intros l k Hlk. split; intros [Hh Hn]; (split; [|exact Hn]); intros a; specialize (Hh a);
    destruct (m_heap s !! a) as [[]|]; first [by rewrite <-Hlk | by rewrite Hlk].
Qed.

Lemma heap_ok_elem s arcs a : heap_ok s arcs → a ∈ arcs → is_Some (m_heap s !! a).
Proof.
  intros [Hh _] Ha. specialize (Hh a). destruct (m_heap s !! a) as [[n x]|]; [by eexists|].
  by apply cnt_zero in Hh.
Qed.

Lemma active_perm s arcs arcs' p : arcs ≡ₚ arcs' → active s arcs p = active s arcs' p.
Proof. apply length_filter_perm. Qed.

Lemma active_agree s s' arcs p :
  (∀ a, a ∈ arcs → principal_at s' a = principal_at s a) → active s' arcs p = active s arcs p.
Proof. intros Heq. apply length_filter_agree. intros a Ha. by rewrite Heq. Qed.

Lemma active_app s arcs arcs' p :
  active s (arcs ++ arcs') p = (active s arcs p + active s arcs' p)%nat.
Proof. unfold active. by rewrite filter_app, length_app. Qed.

(** ** Dropping references *)

(** [s'] is [s] after some references not in [arcs] were dropped. *)
Definition dropped (s s' : MState) (arcs : list nat) : Prop :=
  m_registry s' = m_registry s ∧ m_closing s' = m_closing s
  ∧ (∀ a, a ∈ arcs → principal_at s' a = principal_at s a)
  ∧ (sessions_ok s → sessions_ok s').

Lemma drop_arc_ok s a arcs :
  heap_ok s (a :: arcs) → heap_ok (drop_arc a s) arcs ∧ dropped s (drop_arc a s) arcs.
Proof.
  intros [Hh Hn]. pose proof (Hh a) as Ha. rewrite cnt_cons, decide_True in Ha by done.
  unfold drop_arc. destruct (m_heap s !! a) as [[[|[|n]] x]|] eqn:Hx; try lia.
  - destruct Ha as [Ha _]. assert (cnt a arcs = 0%nat) as Hz by lia. split.
    + split; simpl.
      * intros b. destruct (decide (b = a)) as [->|Hne]; [by rewrite lookup_delete_eq|].
        rewrite lookup_delete_ne by done. specialize (Hh b).
        by rewrite cnt_cons, decide_False in Hh.
      * intros b Hb. destruct (decide (b = a)) as [->|]; [by rewrite lookup_delete_eq|].
        rewrite lookup_delete_ne by done. by apply Hn.
    + split; [done|]. split; [done|]. split.
      * intros b Hb. unfold principal_at, session_at; simpl. apply cnt_zero in Hz.
        rewrite lookup_delete_ne; [done|set_solver].
      * intros Hs b m y. simpl. rewrite lookup_delete_Some. intros [_ Hy]. by eapply Hs.
  - destruct Ha as [Ha _]. split.
    + split; simpl.
      * intros b. destruct (decide (b = a)) as [->|Hne]; [rewrite lookup_insert_eq; lia|].
        rewrite lookup_insert_ne by done. specialize (Hh b).
        by rewrite cnt_cons, decide_False in Hh.
      * intros b Hb. specialize (Hn b Hb). rewrite lookup_insert_ne; [done|congruence].
    + split; [done|]. split; [done|]. split.
      * intros b Hb. unfold principal_at, session_at; simpl.
        destruct (decide (b = a)) as [->|Hne]; [by rewrite lookup_insert_eq, Hx|].
        by rewrite lookup_insert_ne.
      * intros Hs b m y. simpl. rewrite lookup_insert_Some.
        intros [[-> [= <- <-]]|[_ Hy]]; by eapply Hs.
Qed.

Lemma drop_arcs_ok s ls arcs :
  heap_ok s (ls ++ arcs) → heap_ok (drop_arcs ls s) arcs ∧ dropped s (drop_arcs ls s) arcs.
Proof.
  revert s; induction ls as [|a ls IH]; intros s Hs; [done|]. simpl in Hs.
  destruct (drop_arc_ok _ _ _ Hs) as [Hh1 (Hr1 & Hc1 & Hp1 & Hs1)].
  destruct (IH _ Hh1) as [Hh2 (Hr2 & Hc2 & Hp2 & Hs2)]. split; [done|]. simpl.
  split; [congruence|]. split; [congruence|]. split; [|auto].
  intros b Hb. rewrite Hp2 by done. apply Hp1. set_solver.
Qed.

(** ** Removing sessions from the registry *)

Lemma remove_ids_perm (m : gmap string nat) (l : list (string * nat)) :
  NoDup l.*1 → (∀ k v, (k, v) ∈ l → m !! k = Some v) →
  map_to_list m ≡ₚ l ++ map_to_list (remove_ids l.*1 m).
Proof.
  induction l as [|[k v] l IH]; csimpl; intros Hnd Hl; [done|].
  apply NoDup_cons in Hnd as [Hk Hnd]. rewrite (IH Hnd) at 1 by (intros; apply Hl; set_solver).
  assert (remove_ids l.*1 m !! k = Some v) as Hkv.
  { rewrite <-(Hl k v) by set_solver. clear -Hk. induction l.*1 as [|k' ks IH]; [done|]. simpl.
    rewrite lookup_delete_ne by set_solver. apply IH. set_solver. }
  rewrite <-(insert_delete_id _ _ _ Hkv) at 1. rewrite map_to_list_insert by apply lookup_delete_eq.
  by rewrite <-Permutation_middle.
Qed.

(** Sessions of [l] leave the registry and their references are dropped. *)
Lemma remove_inv s pend hd d (l : list (string * nat)) (m : gmap string nat) :
  map_to_list (sessions (registry s)) ≡ₚ l ++ map_to_list m →
  manager_inv (mkGState s pend hd d) →
  manager_inv (mkGState (drop_arcs l.*2 (set_sessions m s)) pend hd d)
  ∧ dropped (set_sessions m s) (drop_arcs l.*2 (set_sessions m s)) ((map_to_list m).*2 ++ hd).
Proof.
  intros Hperm (Hheap & Hopens & [Hq1 Hq2] & Hsess & Hdet). simpl in *.
  assert (registered s ≡ₚ l.*2 ++ (map_to_list m).*2) as Hreg.
  { unfold registered. by rewrite Hperm, fmap_app. }
  assert (heap_ok (set_sessions m s) (l.*2 ++ ((map_to_list m).*2 ++ hd))) as Hh.
  { rewrite (assoc_L (++)), <-Hreg. exact Hheap. }
  destruct (drop_arcs_ok _ _ _ Hh) as [Hh' Hdrop]. split; [|done].
  destruct Hdrop as (Hr & Hc & Hp & Hs).
  assert (registered (drop_arcs l.*2 (set_sessions m s)) = (map_to_list m).*2) as Hreg'.
  { unfold registered, registry. by rewrite Hr. }
  split; [simpl; by rewrite Hreg'|]. split; [unfold registry in *; simpl; by rewrite Hr|].
  split; [split|split].
  - simpl. rewrite Hreg'. rewrite Hreg, len_app in Hq1. pose proof (len_nonneg l.*2). lia.
  - intros p. specialize (Hq2 p). simpl. rewrite Hreg'.
    rewrite (active_perm _ _ _ _ Hreg), active_app in Hq2.
    rewrite (active_agree (set_sessions m s)) by (intros a Ha; apply Hp; set_solver).
    change (active (set_sessions m s)) with (active s). lia.
  - by apply Hs.
  - intros Hd. destruct (Hdet Hd) as [Hcl He]. simpl. rewrite Hc. split; [done|].
    unfold registry. rewrite Hr. simpl. rewrite He, map_to_list_empty in Hperm.
    symmetry in Hperm. apply Permutation_nil_r, app_eq_nil in Hperm as [_ Hm].
    by apply map_to_list_empty_iff.
Qed.

Lemma expired_sublist s l e : expired_sessions mg s l = Ok e → e `sublist_of` l.
Proof.
  revert e; induction l as [|[id a] l IH]; intros e; simpl; [by intros [= <-]|].
  destruct (1 <? strong_count s a)%nat; [intros; by apply sublist_cons, IH|].
  destruct (session_at s a) as [x|]; [|intros; by apply sublist_cons, IH].
  intros He. inv_ok. destruct x0; [apply sublist_skip|apply sublist_cons]; by apply IH.
Qed.

Lemma sublist_keys (l k : list (string * nat)) : l `sublist_of` k → l.*1 `sublist_of` k.*1.
Proof. induction 1; csimpl; by constructor. Qed.

Lemma reap_inv s pend hd d :
  manager_inv (mkGState s pend hd d) → manager_inv (mkGState (reap_expired mg s).2 pend hd d).
Proof.
  intros Hinv. unfold reap_expired, lock_registry, mbind, M_bind, lock, mprim.
  destruct (mx_poisoned _); [done|].
  destruct (expired_sessions mg s _) as [e|] eqn:He; [|done]. simpl.
  apply remove_inv; [|done]. apply expired_sublist in He. apply remove_ids_perm.
  - apply (sublist_NoDup _ _ (NoDup_fst_map_to_list _) (sublist_keys _ _ He)).
  - intros k v Hkv. apply elem_of_map_to_list. by eapply elem_of_sublist.
Qed.

Lemma remove_one_inv s pend hd d id a :
  sessions (registry s) !! id = Some a → manager_inv (mkGState s pend hd d) →
  manager_inv (mkGState (drop_arc a (set_sessions (delete id (sessions (registry s))) s)) pend hd d).
Proof.
  intros Hid Hinv. change (drop_arc a ?s) with (drop_arcs [(id, a)].*2 s).
  apply remove_inv; [|done]. simpl. rewrite <-(insert_delete_id _ _ _ Hid) at 1.
  by rewrite map_to_list_insert by apply lookup_delete_eq.
Qed.

Lemma find_session_Ok r id p s a x :
  find_session r id p s = Ok (a, x) ↔
    sessions r !! id = Some a ∧ session_at s a = Some x ∧ s_principal x = p.
Proof.
  unfold find_session. destruct (sessions r !! id) as [b|]; simpl; [|naive_solver].
  destruct (session_at s b) as [y|] eqn:Hy; simpl; [|naive_solver].
  case_bool_decide; naive_solver.
Qed.

Lemma close_inv id p s pend hd d :
  manager_inv (mkGState s pend hd d) → manager_inv (mkGState (close id p s).2 pend hd d).
Proof.
  intros Hinv. unfold close, lock_registry, mbind, M_bind, lock, mprim.
  destruct (mx_poisoned _); [done|]. fold (registry s).
  destruct (find_session _ _ _ _) as [[a x]|] eqn:Hf; [|done]. simpl.
  apply find_session_Ok in Hf as (Hid & _ & _). by apply remove_one_inv.
Qed.

Lemma detach_inv n s s' pend hd d :
  m_closing s = true → detach_all s = (Ok n, s') →
  manager_inv (mkGState s pend hd d) → manager_inv (mkGState s' pend hd true).
Proof.
  intros Hcl. unfold detach_all, lock_registry, mbind, M_bind, lock, mprim.
  destruct (mx_poisoned _); [done|]. fold (registry s). intros [= <- <-] Hinv.
  destruct (remove_inv s pend hd d (map_to_list (sessions (registry s))) ∅)
    as [(? & ? & ? & ? & _) (Hr & Hc & _)]; [by rewrite map_to_list_empty, app_nil_r|done|].
  do 4 (split; [done|]). intros _. cbn [gs]. unfold registry at 2. by rewrite Hc, Hr.
Qed.

(** ** Admission and the end of an open *)

Lemma opens_total r pend p : opens_ok r pend → opening_for r p = Z.of_nat (cnt p pend).
Proof.
  intros [_ Hp]. unfold opening_for. rewrite Hp. destruct (decide (cnt p pend = 0%nat)) as [->|]; done.
Qed.

Lemma opens_cons r pend p :
  opens_ok r pend →
  opens_ok (mkSessionRegistry (sessions r) (opening_total r + 1)
              (<[p := opening_for r p + 1]> (opening_by_principal r))) (p :: pend).
Proof.
  intros Ho. pose proof (opens_total r pend p Ho) as Hf. destruct Ho as [Ht Hp]. split; simpl.
  - rewrite len_cons. lia.
  - intros q. rewrite cnt_cons. destruct (decide (p = q)) as [<-|Hne].
    + rewrite lookup_insert_eq, decide_False by lia. f_equal. lia.
    + by rewrite lookup_insert_ne, Hp.
Qed.

Lemma opens_release r pend pend' p :
  pend ≡ₚ p :: pend' → opens_ok r pend → opens_ok (release_open_reservation_locked r p) pend'.
Proof.
  intros Hpend [Ht Hp]. rewrite Hpend, len_cons in Ht. pose proof (len_nonneg pend').
  assert (∀ q, cnt q pend = ((if decide (p = q) then 1 else 0) + cnt q pend')%nat) as Hcnt.
  { intros q. by rewrite Hpend, cnt_cons. }
  pose proof (Hp p) as Hpp. rewrite Hcnt, (decide_True (P := p = p)) in Hpp by done.
  rewrite decide_False in Hpp by lia. unfold release_open_reservation_locked. rewrite Hpp.
  unfold usize_saturating_sub. split; cbn [opening_total opening_by_principal]; [rewrite Ht; lia|]. intros q.
  pose proof (Hp q) as Hq. rewrite Hcnt in Hq.
  destruct (decide (p = q)) as [<-|Hne].
  - destruct (Z.eqb_spec (Z.max 0 (Z.of_nat (1 + cnt p pend') - 1)) 0) as [Hz|Hz].
    + rewrite lookup_delete_eq, decide_True by lia. done.
    + rewrite lookup_insert_eq, decide_False by lia. f_equal. lia.
  - destruct (_ =? 0); rewrite ?lookup_delete_ne, ?lookup_insert_ne by done; exact Hq.
Qed.

Lemma release_sessions r p : sessions (release_open_reservation_locked r p) = sessions r.
Proof. unfold release_open_reservation_locked. by destruct (opening_by_principal r !! p). Qed.

Lemma quota_pending s arcs pend pend' p :
  pend ≡ₚ p :: pend' → quota_ok s arcs pend → quota_ok s arcs pend'.
Proof.
  intros Hpend [Hq1 Hq2]. split.
  - rewrite Hpend, len_cons in Hq1. lia.
  - intros q. specialize (Hq2 q). rewrite Hpend, cnt_cons in Hq2. lia.
Qed.

Lemma admit_inv p s s' pend hd d :
  reserve_locked mg p s = (Ok tt, s') →
  manager_inv (mkGState s pend hd d) → manager_inv (mkGState s' (p :: pend) hd d).
Proof.
  unfold reserve_locked, lock_registry, mbind, M_bind, lock, mprim. destruct (mx_poisoned _); [done|].
  fold (registry s). destruct (m_closing s) eqn:Hcl; [done|].
  destruct (Z.leb_spec (max_sessions (mg_limits mg))
    (Z.of_nat (size (sessions (registry s))) + opening_total (registry s))) as [|Hg]; [done|].
  destruct (Z.leb_spec (max_sessions_per_principal (mg_limits mg))
    (active_for s (registry s) p + opening_for (registry s) p)) as [|Hpp]; [done|].
  intros [= <-] (Hheap & Hopens & [Hq1 Hq2] & Hsess & Hdet).
  split; [exact Hheap|]. split; [by apply opens_cons|]. split; [|split; [exact Hsess|]].
  - split; simpl in *.
    + rewrite len_cons. destruct Hopens as [Ht _]. rewrite Ht in Hg.
      change (registered (set_registry _ s)) with (registered s). unfold registered, len in *.
      rewrite length_fmap, length_map_to_list in *. lia.
    + intros q. specialize (Hq2 q). rewrite cnt_cons.
      destruct (decide (p = q)) as [<-|]; [|exact Hq2].
      rewrite (opens_total _ _ _ Hopens) in Hpp.
      change (active_for s (registry s) p) with (Z.of_nat (active s (registered s) p)) in Hpp.
      change (active (set_registry _ s) _ p) with (active s (registered s) p). lia.
  - intros Hd. destruct (Hdet Hd) as [Hc _]. simpl in Hc. congruence.
Qed.

Lemma release_inv p s pend pend' hd d :
  healthy s → pend ≡ₚ p :: pend' → manager_inv (mkGState s pend hd d) →
  manager_inv (mkGState (release_open_reservation p s).2 pend' hd d).
Proof.
  intros Hh Hpend (Hheap & Hopens & Hq & Hsess & Hdet).
  unfold release_open_reservation, lock_registry, mbind, M_bind, lock, mmodify.
  rewrite Hh. fold (registry s). cbn [snd].
  set (r := release_open_reservation_locked (registry s) p).
  assert (registered (set_registry r s) = registered s) as Hreg.
  { unfold registered, registry; simpl. unfold r. by rewrite release_sessions. }
  split; [cbn [gs held]; rewrite Hreg; exact Hheap|]. split; [by eapply opens_release|].
  split; [cbn [gs pending]; rewrite Hreg; by eapply (quota_pending s)|]. split; [exact Hsess|].
  intros Hd. destruct (Hdet Hd) as [Hc He]. split; [exact Hc|].
  change (sessions r = ∅). unfold r. by rewrite release_sessions.
Qed.

Lemma new_session_ok p t target c now :
  0 ≤ max_statements_per_session (mg_limits mg) → 0 ≤ max_results_per_session (mg_limits mg) →
  session_ok (new_session mg p t target c now).
Proof. intros Hs Hr. split; [done|]. split; [|constructor]. by split. Qed.

(** A new cell for a new session. *)
Lemma alloc_ok s arcs x :
  heap_ok s arcs →
  heap_ok (mkMState (m_global s) (m_registry s) (<[m_next_loc s := (1%nat, x)]> (m_heap s))
             (S (m_next_loc s)) (m_closing s)) (m_next_loc s :: arcs)
  ∧ m_next_loc s ∉ arcs.
Proof.
  intros Hheap. assert (m_next_loc s ∉ arcs) as Hfresh.
  { intros [c Hc]%(heap_ok_elem _ _ _ Hheap). destruct Hheap as [_ Hn].
    specialize (Hn (m_next_loc s) ltac:(lia)). congruence. }
  split; [|done]. destruct Hheap as [Hh Hn]. split; simpl.
  - intros a. rewrite cnt_cons. destruct (decide (m_next_loc s = a)) as [<-|Hne].
    + rewrite lookup_insert_eq. apply cnt_zero in Hfresh. lia.
    + rewrite lookup_insert_ne by done. exact (Hh a).
  - intros a Ha. rewrite lookup_insert_ne by lia. apply Hn. lia.
Qed.

Lemma sessions_ok_insert s a n x r gl cl nx :
  sessions_ok s → session_ok x → sessions_ok (mkMState gl r (<[a := (n, x)]> (m_heap s)) nx cl).
Proof.
  intros Hs Hx b m y. simpl. rewrite lookup_insert_Some. intros [[-> [= <- <-]]|[_ Hy]]; [done|].
  by eapply Hs.
Qed.

(** Inserting under [id]: the replaced reference, if any, and the others. *)
Lemma insert_perm (m : gmap string nat) id l :
  (map_to_list m).*2 ≡ₚ option_list (m !! id) ++ (map_to_list (delete id m)).*2
  ∧ (map_to_list (<[id := l]> m)).*2 ≡ₚ l :: (map_to_list (delete id m)).*2.
Proof.
  split.
  - destruct (m !! id) as [a|] eqn:Ha; simpl; [|by rewrite delete_id].
    rewrite <-(insert_delete_id _ _ _ Ha) at 1.
    by rewrite map_to_list_insert by apply lookup_delete_eq.
  - rewrite <-insert_delete_eq. by rewrite map_to_list_insert by apply lookup_delete_eq.
Qed.

Lemma active_cons s s' l rest p q :
  principal_at s' l = Some p → (∀ a, a ∈ rest → principal_at s' a = principal_at s a) →
  active s' (l :: rest) q = ((if decide (p = q) then 1 else 0) + active s rest q)%nat.
Proof.
  intros Hl Hrest%(active_agree _ _ _ q). rewrite <-Hrest. unfold active. rewrite filter_cons.
  destruct (decide (principal_at s' l = Some q)), (decide (p = q)); simpl; congruence.
Qed.

(** [s] with the new session [x] registered under [id]. *)
Definition add_session (id : string) (x : Session) (s : MState) : MState :=
  set_sessions (<[id := m_next_loc s]> (sessions (registry s)))
    (mkMState (m_global s) (m_registry s) (<[m_next_loc s := (1%nat, x)]> (m_heap s))
       (S (m_next_loc s)) (m_closing s)).

Lemma add_session_inv p id x s pend hd d :
  session_ok x → s_principal x = p → m_closing s = false →
  quota_ok s (registered s) (p :: pend) → manager_inv (mkGState s pend hd d) →
  manager_inv (mkGState (drop_arcs (option_list (sessions (registry s) !! id)) (add_session id x s))
                 pend hd d).
Proof.
  intros Hx Hxp Hcl [Hq1 Hq2] (Hheap & Hopens & _ & Hsess & Hdet). cbn [gs held] in *.
  set (m := sessions (registry s)) in *. set (l := m_next_loc s).
  destruct (insert_perm m id l) as [Hm Hm']. set (rest := (map_to_list (delete id m)).*2) in *.
  destruct (alloc_ok s (registered s ++ hd) x Hheap) as [Halloc Hfresh].
  assert (heap_ok (add_session id x s) (option_list (m !! id) ++ (l :: rest ++ hd))) as Hh.
  { rewrite <-Permutation_middle, (assoc_L (++)), <-Hm. exact Halloc. }
  destruct (drop_arcs_ok _ _ _ Hh) as [Hh3 (Hr3 & Hc3 & Hp3 & Hs3)].
  set (s3 := drop_arcs _ _) in *.
  assert (registered s3 ≡ₚ l :: rest) as Hreg by (unfold registered, registry; by rewrite Hr3).
  split; [cbn [gs held]; by rewrite Hreg|].
  split; [cbn [gs pending]; unfold registry; rewrite Hr3; exact Hopens|]. split; [split|split].
  - cbn [gs pending]. rewrite Hreg, len_cons. unfold registered in Hq1. fold m in Hq1.
    rewrite Hm, len_app, len_cons in Hq1. pose proof (len_nonneg (option_list (m !! id))). lia.
  - intros q. specialize (Hq2 q). rewrite cnt_cons, (active_perm _ _ _ _ Hm), active_app in Hq2.
    cbn [gs pending]. rewrite (active_perm _ _ _ _ Hreg).
    rewrite (active_agree (add_session id x s)) by (intros a Ha; apply Hp3; set_solver).
    rewrite (active_cons s _ l rest p q); [lia| |].
    + unfold principal_at, session_at; simpl. rewrite lookup_insert_eq; simpl. by rewrite Hxp.
    + intros a Ha. unfold principal_at, session_at; simpl. rewrite lookup_insert_ne; [done|].
      intros Heq. apply Hfresh. unfold registered. fold m. rewrite Hm, Heq. set_solver.
  - apply Hs3, sessions_ok_insert; [exact Hsess|exact Hx].
  - intros Hd. destruct (Hdet Hd) as [Hc _]. cbn [gs] in Hc. congruence.
Qed.

Lemma register_inv p id x s pend pend' hd d :
  session_ok x → s_principal x = p →
  healthy s → pend ≡ₚ p :: pend' → manager_inv (mkGState s pend hd d) →
  manager_inv (mkGState (register p id x s).2 pend' hd d).
Proof.
  intros Hx Hxp Hh Hpend Hinv.
  pose proof (release_inv p s pend pend' hd d Hh Hpend Hinv) as Hrel.
  destruct Hinv as (_ & _ & Hq & _ & _). cbn [gs pending] in Hq.
  revert Hrel. unfold release_open_reservation, register, lock_registry, mbind, M_bind, lock,
    mmodify, mprim. rewrite Hh. fold (registry s). cbn [snd].
  set (r := release_open_reservation_locked (registry s) p). intros Hrel.
  change (m_closing (set_registry r s)) with (m_closing s).
  destruct (m_closing s) eqn:Hcl; [exact Hrel|].
  assert (quota_ok (set_registry r s) (registered (set_registry r s)) (p :: pend')) as Hq'.
  { assert (registered (set_registry r s) = registered s) as ->.
    { unfold registered, registry; simpl. unfold r. by rewrite release_sessions. }
    destruct Hq as [Hq1 Hq2]. split; [by rewrite Hpend in Hq1|].
    intros q. specialize (Hq2 q). by rewrite Hpend in Hq2. }
  pose proof (add_session_inv p id x (set_registry r s) pend' hd d Hx Hxp Hcl Hq' Hrel) as Hadd.
  unfold add_session in Hadd. change (m_closing (set_registry r s)) with (m_closing s) in Hadd.
  rewrite Hcl in Hadd. exact Hadd.
Qed.

(** ** Handlers *)

Lemma touch_clone_inv a id now s pend hd d :
  sessions (registry s) !! id = Some a → manager_inv (mkGState s pend hd d) →
  manager_inv (mkGState (clone_arc a (touch a now s)) pend (a :: hd) d).
Proof.
  intros Hid (Hheap & Hopens & [Hq1 Hq2] & Hsess & Hdet). cbn [gs held pending] in *.
  assert (a ∈ registered s ++ hd) as Ha.
  { apply elem_of_app. left. apply list_elem_of_fmap. exists (id, a). split; [done|].
    by apply elem_of_map_to_list. }
  destruct (heap_ok_elem _ _ _ Hheap Ha) as [[n x] Hx].
  unfold touch. rewrite Hx. unfold clone_arc. simpl. rewrite lookup_insert_eq. simpl.
  rewrite insert_insert_eq. set (x' := set_last_used _ x).
  split; [|split; [exact Hopens|split; [split; [exact Hq1|]|split; [|exact Hdet]]]].
  - cbn [gs held]. change (registered (set_heap _ _)) with (registered s).
    rewrite <-Permutation_middle. destruct Hheap as [Hh Hn]. split; simpl.
    + intros b. rewrite cnt_cons. destruct (decide (a = b)) as [<-|Hne].
      * rewrite lookup_insert_eq. specialize (Hh a). rewrite Hx in Hh. lia.
      * rewrite lookup_insert_ne by done. exact (Hh b).
    + intros b Hb. specialize (Hn b Hb). rewrite lookup_insert_ne; [done|congruence].
  - intros p. specialize (Hq2 p). cbn [gs pending].
    change (registered (set_heap _ _)) with (registered s).
    rewrite (active_agree s); [exact Hq2|]. intros b _. unfold principal_at, session_at; simpl.
    destruct (decide (a = b)) as [<-|]; [by rewrite lookup_insert_eq, Hx|by rewrite lookup_insert_ne].
  - apply sessions_ok_insert; [exact Hsess|]. exact (Hsess _ _ _ Hx).
Qed.

Lemma get_inv id p s pend hd d :
  manager_inv (mkGState s pend hd d) →
  match get mg id p s with
  | (Ok a, s') => manager_inv (mkGState s' pend (a :: hd) d)
  | (Err _, s') => manager_inv (mkGState s' pend hd d)
  end.
Proof.
  intros Hinv. unfold get, lock_registry, mbind, M_bind, lock, mprim.
  destruct (mx_poisoned _); [done|]. fold (registry s).
  destruct (find_session _ _ _ _) as [[a x]|] eqn:Hf; [|done].
  apply find_session_Ok in Hf as (Hid & _ & _).
  destruct (lease_expired mg s x) as [expired|]; [|done].
  destruct (expired && _); [by apply remove_one_inv|by eapply touch_clone_inv].
Qed.

Lemma done_inv a s pend hd hd' d :
  hd ≡ₚ a :: hd' → manager_inv (mkGState s pend hd d) →
  manager_inv (mkGState (drop_arc a s) pend hd' d).
Proof.
  intros Hhd (Hheap & Hopens & [Hq1 Hq2] & Hsess & Hdet). cbn [gs held pending] in *.
  rewrite Hhd, <-Permutation_middle in Hheap.
  destruct (drop_arc_ok _ _ _ Hheap) as [Hh (Hr & Hc & Hp & Hs)].
  assert (registered (drop_arc a s) = registered s) as Hreg.
  { unfold registered, registry. by rewrite Hr. }
  split; [cbn [gs held]; by rewrite Hreg|]. split; [unfold registry; cbn [gs]; by rewrite Hr|].
  split; [split|split]; cbn [gs pending].
  - by rewrite Hreg.
  - intros p. rewrite Hreg, (active_agree s); [by apply Hq2|]. intros b Hb. apply Hp. set_solver.
  - by apply Hs.
  - unfold registry. by rewrite Hr, Hc.
Qed.

Lemma session_step_principal st st' :
  session_step uuid st st' → s_principal (st_session st') = s_principal (st_session st).
Proof. by intros [? _]%session_step_identity. Qed.

Lemma handler_inv a n x st s pend hd d :
  m_heap s !! a = Some (n, x) → session_step uuid (mkSState (m_global s) x) st →
  manager_inv (mkGState s pend hd d) →
  manager_inv (mkGState (set_heap (<[a := (n, st_session st)]> (m_heap s))
                           (set_global (st_global st) s)) pend hd d).
Proof.
  intros Hx Hstep (Hheap & Hopens & [Hq1 Hq2] & Hsess & Hdet).
  split; [|split; [exact Hopens|split; [split; [exact Hq1|]|split; [|exact Hdet]]]].
  - cbn [gs held] in *. destruct Hheap as [Hh Hn]. split; simpl.
    + intros b. specialize (Hh b). destruct (decide (a = b)) as [<-|Hne].
      * rewrite lookup_insert_eq. by rewrite Hx in Hh.
      * by rewrite lookup_insert_ne.
    + intros b Hb. specialize (Hn b Hb). rewrite lookup_insert_ne; [done|congruence].
  - intros p. rewrite (active_agree s); [exact (Hq2 p)|]. intros b _.
    unfold principal_at, session_at; simpl. destruct (decide (a = b)) as [<-|].
    + rewrite lookup_insert_eq, Hx. simpl. by rewrite (session_step_principal _ _ Hstep).
    + by rewrite lookup_insert_ne.
  - apply sessions_ok_insert; [exact Hsess|]. destruct (Hsess _ _ _ Hx) as [Hl Hi]. split.
    + by rewrite (session_step_limits _ _ _ Hstep).
    + exact (session_step_inv uuid _ _ Hstep Hi).
Qed.

(** ** Every step *)

(** The limits are [usize] values. *)
Definition limits_usize (l : SessionLimits) : Prop :=
  0 ≤ max_sessions l ∧ 0 ≤ max_sessions_per_principal l
  ∧ 0 ≤ max_statements_per_session l ∧ 0 ≤ max_results_per_session l.

Lemma mstep_inv G G' :
  limits_usize (mg_limits mg) → mstep G G' → manager_inv G → manager_inv G'.
Proof.
  intros (_ & _ & Hst & Hres). destruct 1; intros Hinv;
    try (match goal with Hg : get mg ?id ?p _ = _ |- _ =>
           pose proof (get_inv id p _ _ _ _ Hinv) as Hget; rewrite Hg in Hget; exact Hget end).
  - by eapply admit_inv.
  - by eapply release_inv.
  - eapply register_inv; [by apply new_session_ok|done..].
  - by apply reap_inv.
  - by eapply done_inv.
  - by apply close_inv.
  - destruct Hinv as (? & ? & ? & ? & Hdet). do 4 (split; [done|]).
    intros Hd. split; [done|]. by apply Hdet.
  - by eapply detach_inv.
  - by eapply handler_inv.
  - exact Hinv.
Qed.

(** A manager that has just been built. *)
Definition initial (g : Global) : GState :=
  mkGState (mkMState g (Mutex_new SessionRegistry_default) ∅ 0 false) [] [] false.

Lemma initial_inv g : limits_usize (mg_limits mg) → manager_inv (initial g).
Proof.
  intros (Hm & Hp & _). split; [|split; [|split; [|split; [|done]]]].
  - split; [|done]. intros a. done.
  - split; [done|]. intros p. simpl. by rewrite lookup_empty.
  - split; [done|]. intros p. done.
  - intros a n x. simpl. by rewrite lookup_empty.
Qed.

Lemma reachable_inv g G :
  limits_usize (mg_limits mg) → rtc mstep (initial g) G → manager_inv G.
Proof.
  intros Hl Hr. pose proof (initial_inv g Hl) as Hi. revert Hi.
  induction Hr; eauto using mstep_inv.
Qed.
(** ** Opening a session is a sequence of steps *)

Lemma drop_arc_registry a s :
  m_registry (drop_arc a s) = m_registry s ∧ m_closing (drop_arc a s) = m_closing s.
Proof. unfold drop_arc. destruct (m_heap s !! a) as [[[|[|n]] x]|]; done. Qed.

Lemma drop_arcs_registry ls s :
  m_registry (drop_arcs ls s) = m_registry s ∧ m_closing (drop_arcs ls s) = m_closing s.
Proof.
  revert s; induction ls as [|a ls IH]; intros s; [done|]. simpl.
  destruct (IH (drop_arc a s)) as [-> ->]. apply drop_arc_registry.
Qed.

Lemma reap_healthy s : healthy s → healthy (reap_expired mg s).2.
Proof.
  intros Hs. unfold reap_expired, lock_registry, mbind, M_bind, lock, mprim. rewrite Hs.
  destruct (expired_sessions _ _ _); [|done]. unfold healthy. simpl.
  by rewrite (proj1 (drop_arcs_registry _ _)).
Qed.

(** A refused admission changes nothing. *)
Lemma admit_refused p s e s' : reserve_locked mg p s = (Err e, s') → s' = s.
Proof.
  unfold reserve_locked, lock_registry, mbind, M_bind, lock, mprim.
  destruct (mx_poisoned _); [naive_solver|]. destruct (m_closing s); [naive_solver|].
  destruct (_ <=? _); [naive_solver|]. destruct (_ <=? _); naive_solver.
Qed.

Lemma admit_healthy p s s' : reserve_locked mg p s = (Ok tt, s') → healthy s → healthy s'.
Proof.
  unfold reserve_locked, lock_registry, mbind, M_bind, lock, mprim, healthy.
  destruct (mx_poisoned _) eqn:Hp; [done|]. destruct (m_closing s); [done|].
  destruct (_ <=? _); [done|]. destruct (_ <=? _); [done|]. by intros [= <-].
Qed.

Lemma release_total p s :
  healthy s → (release_open_reservation p s).1 = Ok tt.
Proof.
  intros Hs. unfold release_open_reservation, lock_registry, mbind, M_bind, lock, mmodify.
  by rewrite Hs.
Qed.

Lemma release_then {A} p (k : unit → M MState AdbcError A) s :
  healthy s → (release_open_reservation p ≫= k) s = k tt (release_open_reservation p s).2.
Proof.
  intros Hs. unfold mbind, M_bind. pose proof (release_total p s Hs) as Hr.
  destruct (release_open_reservation p s) as [r s']. simpl in Hr. by subst r.
Qed.

Lemma env_step (s s' : MState) pend hd d :
  (∃ g, s' = set_global g s) → rtc mstep (mkGState s pend hd d) (mkGState s' pend hd d).
Proof. intros [g ->]. apply rtc_once, ms_environment. Qed.

Lemma spawn_throw {A} (e : AdbcError) s :
  ∃ g, ((act_spawn;; mthrow e) : M MState AdbcError A) s = (Err e, set_global g s).
Proof.
  unfold act_spawn, mbind, M_bind, mthrow. destruct (spawn_now _) as [r g]. by exists g.
Qed.

Lemma finish_open_steps p t target opened s pend hd d :
  healthy s →
  rtc mstep (mkGState s (p :: pend) hd d)
    (mkGState (finish_open uuid mg p t target opened s).2 pend hd d).
Proof.
  intros Hs. destruct opened as [c|e]; simpl.
  - unfold start_session, act_uuid, act_spawn, spawn_now. unfold mbind at 1, M_bind at 1.
    unfold mbind at 1, M_bind at 1. simpl.
    destruct (g_spawns (m_global s)) as [|[[]|e] rs]; simpl.
    + eapply rtc_l; [by apply ms_environment|]. eapply rtc_once, ms_register; [exact Hs|done].
    + do 2 (eapply rtc_l; [by apply ms_environment|]).
      eapply rtc_once, ms_register; [exact Hs|done].
    + rewrite release_then by exact Hs. do 2 (eapply rtc_l; [by apply ms_environment|]).
      eapply rtc_l; [eapply ms_release; [exact Hs|done]|].
      match goal with |- rtc _ (mkGState ?s1 _ _ _) _ =>
        destruct (spawn_throw (A := string) (internal ("start session worker: " +:+ e)) s1)
          as [g' Hg'] end.
      apply env_step. exists g'. exact (f_equal snd Hg').
  - rewrite release_then by exact Hs. unfold mthrow; simpl.
    eapply rtc_once, ms_release; done.
Qed.

Lemma open_thread_global target db co s :
  ∃ r g, open_thread mg target db co s = (Ok r, set_global g s).
Proof.
  unfold open_thread. destruct (spawn_now _) as [[[]|e] g]; [|by eauto].
  destruct (next_outcome g) as [o g']. destruct (backend_open _ _ _ _) as [r w].
  destruct o; eauto.
Qed.

Lemma open_steps p t db co s pend hd d :
  healthy s →
  rtc mstep (mkGState s pend hd d) (mkGState (open uuid mg p t db co s).2 pend hd d).
Proof.
  intros Hs. unfold open. destruct (negb (allows _ _ _)); [done|].
  unfold mbind at 1, M_bind at 1, mlift at 1, ok_or. destruct (mg_targets mg !! t) as [target|]; [|done].
  unfold mbind at 1, M_bind at 1, reserve_open. destruct (m_closing s) eqn:Hcl; [done|].
  pose proof (reap_healthy s Hs) as Hs1. pose proof (ms_reap s pend hd d) as Hreap.
  unfold mbind at 1, M_bind at 1. destruct (reap_expired mg s) as [[n|e] s1]; simpl in *;
    [|by apply rtc_once].
  eapply rtc_l; [exact Hreap|]. destruct (reserve_locked mg p s1) as [[[]|e] s2] eqn:Hadm.
  - pose proof (admit_healthy _ _ _ Hadm Hs1) as Hs2.
    eapply rtc_l; [by eapply ms_admit|].
    destruct (open_thread_global target db co s2) as (r & g & Hot).
    unfold mbind at 1, M_bind at 1. rewrite Hot. eapply rtc_l; [apply ms_environment|].
    by apply finish_open_steps.
  - by rewrite (admit_refused _ _ _ _ Hadm).
Qed.
End ManagerSteps.

(** ** Facts about reaping, shutdown and telemetry *)

Section Facts.
Context `{AdbcCore} `{RustFmt} `{ArrowCrate} `{!IpcCrate} `{FileSystem} `{AdbcOptions} `{!Backend}.
Context (uuid : nat → string) (mg : Manager).

(** Only sessions nobody else holds are collected. *)
Lemma expired_idle s l e id a :
  expired_sessions mg s l = Ok e → (id, a) ∈ e → ¬ (1 < strong_count s a)%nat.
Proof.
  revert e; induction l as [|[i b] l IH]; intros e; simpl; [intros [= <-]; set_solver|].
  destruct (Nat.ltb_spec 1 (strong_count s b)); [apply IH|].
  destruct (session_at s b) as [x|]; [|apply IH]. intros He Hin. inv_ok.
  destruct x0; [apply elem_of_cons in Hin as [[= -> ->]|Hin]; [lia|]|]; by eapply IH.
Qed.

(** [get] on a registered session of the caller. *)
Lemma get_found id p s a n x t :
  healthy s → sessions (registry s) !! id = Some a → m_heap s !! a = Some (n, x) →
  s_principal x = p → s_last_used x = Mutex_new t → n ≠ 0%nat →
  get mg id p s =
    if (mg_ttl mg <? elapsed (g_clock (m_global s)) t) && (n =? 1)%nat
    then (Err (not_found "expired session"),
          drop_arc a (set_sessions (delete id (sessions (registry s))) s))
    else (Ok a, clone_arc a (touch a (g_clock (m_global s)) s)).
Proof.
  intros Hs Hid Hx Hp Ht Hn. unfold get, lock_registry, mbind, M_bind, lock, mprim.
  unfold healthy in Hs. rewrite Hs. fold (registry s).
  rewrite (proj2 (find_session_Ok uuid (registry s) id p s a x))
    by (unfold session_at; rewrite Hx; done).
  unfold lease_expired, lock. rewrite Ht. cbn [mx_poisoned Mutex_new mbind result_bind mx_data].
  unfold strong_count. rewrite Hx. cbn [fmap option_fmap option_map fst default].
  destruct n as [|[|n]]; try done.
Qed.

Lemma detached_steps G G' : rtc (mstep uuid mg) G G' → detached G = true → detached G' = true.
Proof. induction 1 as [|G1 G2 G3 Hs _ IH]; [done|]. intros Hd. apply IH. by destruct Hs. Qed.

Lemma length_omap_le {A B} (f : A → option B) l : (length (omap f l) ≤ length l)%nat.
Proof. induction l as [|a l IH]; csimpl; [done|]. destruct (f a); simpl; lia. Qed.

Lemma sum_counts_bound c xs c' :
  Forall (session_ok mg) xs → sum_counts c xs = Ok c' →
  rc_sessions c' = rc_sessions c ∧ rc_opening_sessions c' = rc_opening_sessions c
  ∧ rc_statements c' ≤ rc_statements c + len xs * max_statements_per_session (mg_limits mg)
  ∧ rc_results c' ≤ rc_results c + len xs * max_results_per_session (mg_limits mg).
Proof.
  intros Hall. revert c. induction Hall as [|x xs [Hl Hi] _ IH]; intros c; simpl.
  { intros [= <-]. unfold len; simpl. lia. }
  intros Hc. apply result_bind_Ok in Hc as (c1 & Hadd & Hc).
  destruct (IH c1 Hc) as (-> & -> & Hst & Hres). unfold add_counts in Hadd. inv_ok.
  apply lock_Ok in Hx as [_ <-]. apply lock_Ok in Hx0 as [_ <-]. simpl in *.
  destruct Hi as [[Hi1 Hi2] _]. rewrite Hl in Hi1, Hi2. rewrite len_cons. split; [done|].
  split; [done|]. lia.
Qed.
End Facts.

(** ** Main theorems *)

Section Main.
Context `{AdbcCore} `{RustFmt} `{ArrowCrate} `{!IpcCrate} `{FileSystem} `{AdbcOptions} `{!Backend}.
Context (uuid : nat → string) (mg : Manager).

Definition reachable (G : GState) : Prop := ∃ g, rtc (mstep uuid mg) (initial g) G.

Lemma reachable_manager_inv G :
  limits_usize (mg_limits mg) → reachable G → manager_inv mg G.
Proof. intros Hl [g Hr]. by eapply reachable_inv. Qed.

(** C16: in every state the manager can reach, however opens, lookups, closes,
    reaping and shutdown interleave: the opening counters count exactly the
    opens in progress, in total and per principal, and registered sessions plus
    opens in progress stay within the global and the per-principal quota. *)
Theorem manager_quotas_hold G :
  limits_usize (mg_limits mg) → reachable G →
  let r := registry (gs G) in
  opening_total r = len (pending G)
  ∧ (∀ p, opening_for r p = Z.of_nat (cnt p (pending G)))
  ∧ Z.of_nat (size (sessions r)) + opening_total r ≤ max_sessions (mg_limits mg)
  ∧ ∀ p, active_for (gs G) r p + opening_for r p ≤ max_sessions_per_principal (mg_limits mg).
Proof.
  intros Hl Hr. destruct (reachable_manager_inv G Hl Hr) as (_ & Hopens & [Hq1 Hq2] & _ & _).
  pose proof (proj1 Hopens) as Ht. simpl. split; [done|].
  split; [intros p; by apply opens_total|]. split.
  - rewrite Ht. unfold registered, len in *. by rewrite length_fmap, length_map_to_list in Hq1.
  - intros p. rewrite (opens_total _ _ _ Hopens). apply Hq2.
Qed.

(** [open], with everything that can go wrong in it (policy, quota, spawn
    failure, driver error, deadline, shutdown), is a sequence of the manager's
    atomic steps that ends with as many opens in progress as it began: no path
    leaks a reservation. *)
Theorem open_is_steps p t db co s pend hd d :
  healthy s →
  rtc (mstep uuid mg) (mkGState s pend hd d) (mkGState (open uuid mg p t db co s).2 pend hd d).
Proof. apply open_steps. Qed.

(** C25: reaping never takes a session from a handler: one that some handler
    still holds stays registered, however long ago it was last used. *)
Theorem reaping_spares_sessions_in_flight G id a :
  limits_usize (mg_limits mg) → reachable G →
  sessions (registry (gs G)) !! id = Some a → a ∈ held G →
  sessions (registry (reap_expired mg (gs G)).2) !! id = Some a.
Proof.
  intros Hl Hr Hid Ha. destruct (reachable_manager_inv G Hl Hr) as ([Hh _] & _).
  assert (1 < strong_count (gs G) a)%nat as Hstrong.
  { specialize (Hh a). unfold strong_count.
    assert (a ∈ registered (gs G)) as Hreg.
    { apply list_elem_of_fmap. exists (id, a). by rewrite elem_of_map_to_list. }
    assert (2 ≤ cnt a (registered (gs G) ++ held G))%nat as Hcnt.
    { unfold cnt. rewrite filter_app, length_app.
      assert (∀ l : list nat, a ∈ l → 1 ≤ length (filter (λ b, b = a) l))%nat as Hone.
      { intros l Hin. destruct (filter (λ b, b = a) l) eqn:Hf; simpl; [|lia].
        assert (a ∈ filter (λ b, b = a) l) as Hin' by (by apply list_elem_of_filter).
        rewrite Hf in Hin'. set_solver. }
      pose proof (Hone _ Hreg). pose proof (Hone _ Ha). lia. }
    destruct (m_heap (gs G) !! a) as [[n x]|]; simpl in *; lia. }
  unfold reap_expired, lock_registry, mbind, M_bind, lock, mprim.
  destruct (mx_poisoned _); [done|]. fold (registry (gs G)).
  destruct (expired_sessions mg (gs G) _) as [e|] eqn:He; [|done]. simpl.
  unfold registry at 1. rewrite (proj1 (drop_arcs_registry _ _)). simpl.
  assert (id ∉ e.*1) as Hnot.
  { intros ([id' b] & -> & Hin)%list_elem_of_fmap. simpl in Hid.
    assert (sessions (registry (gs G)) !! id' = Some b) as Hb.
    { apply elem_of_map_to_list. eapply elem_of_sublist; [exact Hin|]. by eapply expired_sublist. }
    assert (b = a) as -> by congruence. by eapply (expired_idle mg). }
  clear -Hid Hnot. induction e.*1 as [|k ks IH]; [done|]. simpl.
  rewrite lookup_delete_ne by set_solver. apply IH. set_solver.
Qed.

(** Sessions are isolated by principal: looking up or closing a session of
    another principal is refused with Unauthorized and changes nothing, not even
    the lease. *)
Theorem sessions_are_isolated id p s a x :
  healthy s → sessions (registry s) !! id = Some a → session_at s a = Some x →
  s_principal x ≠ p →
  get mg id p s = (Err wrong_principal, s) ∧ close id p s = (Err wrong_principal, s)
  ∧ status wrong_principal = Unauthorized.
Proof.
  intros Hs Hid Hx Hp. unfold get, close, lock_registry, mbind, M_bind, lock, mprim. rewrite Hs.
  fold (registry s). unfold find_session. rewrite Hid. simpl. rewrite Hx. simpl.
  rewrite bool_decide_eq_true_2 by done. split; [done|]. split; [done|].
  apply with_message_and_status_status.
Qed.

(** What [get] does with a session of the caller, by the age of its lease:
    a session that expired and is idle is removed and reported as not found; any
    other is handed out with its lease renewed and one more reference. *)
Theorem get_decides_lease id p s a n x t :
  healthy s → sessions (registry s) !! id = Some a → m_heap s !! a = Some (n, x) →
  s_principal x = p → s_last_used x = Mutex_new t → n ≠ 0%nat →
  let now := g_clock (m_global s) in
  if (mg_ttl mg <? elapsed now t) && (n =? 1)%nat
  then (get mg id p s).1 = Err (not_found "expired session")
       ∧ sessions (registry (get mg id p s).2) !! id = None
       ∧ m_heap (get mg id p s).2 !! a = None
  else (get mg id p s).1 = Ok a
       ∧ m_heap (get mg id p s).2 !! a = Some (S n, set_last_used (Mutex_new now) x)
       ∧ sessions (registry (get mg id p s).2) = sessions (registry s).
Proof.
  intros Hs Hid Hx Hp Ht Hn now. rewrite (get_found uuid mg id p s a n x t Hs Hid Hx Hp Ht Hn). fold now.
  destruct ((mg_ttl mg <? elapsed now t) && (n =? 1)%nat) eqn:Hexp; cbn [fst snd].
  - apply andb_true_iff in Hexp as [_ ->%Nat.eqb_eq]. unfold drop_arc. cbn [m_heap set_sessions set_registry].
    rewrite Hx. split; [done|]. split; [apply lookup_delete_eq|]. apply lookup_delete_eq.
  - split; [done|]. unfold touch. rewrite Hx. unfold clone_arc. cbn [m_heap set_heap].
    rewrite lookup_insert_eq. cbn [m_heap set_heap]. rewrite insert_insert_eq, lookup_insert_eq, Ht.
    done.
Qed.

(** C26: shutdown is final: once [close_all] has detached the sessions, no
    session is ever registered again, whatever was in progress, and a new open
    that passes the target policy is refused before the driver is called. *)
Theorem shutdown_is_final G G' p :
  limits_usize (mg_limits mg) → reachable G → detached G = true → rtc (mstep uuid mg) G G' →
  sessions (registry (gs G')) = ∅
  ∧ reserve_open mg p (gs G') = (Err (busy "proxy is shutting down"), gs G').
Proof.
  intros Hl [g Hr] Hd Hsteps.
  assert (detached G' = true) as Hd' by (by eapply detached_steps).
  assert (reachable G') as Hr' by (exists g; by etrans).
  destruct (reachable_manager_inv G' Hl Hr') as (_ & _ & _ & _ & Hdet).
  destruct (Hdet Hd') as [Hc He]. split; [done|]. unfold reserve_open. by rewrite Hc.
Qed.

(** The resources of the whole process are bounded by the configuration:
    in every reachable state the telemetry counts at most [max_sessions]
    sessions and at most the per-session quota of statements and of results for
    each of them. *)
Theorem resource_counts_bounded G c s' :
  limits_usize (mg_limits mg) → reachable G → resource_counts (gs G) = (Ok c, s') →
  rc_sessions c + rc_opening_sessions c ≤ max_sessions (mg_limits mg)
  ∧ rc_statements c ≤ rc_sessions c * max_statements_per_session (mg_limits mg)
  ∧ rc_results c ≤ rc_sessions c * max_results_per_session (mg_limits mg).
Proof.
  intros Hl Hr. destruct (reachable_manager_inv G Hl Hr) as (_ & Hopens & [Hq1 _] & Hsess & _).
  unfold resource_counts, lock_registry, mbind, M_bind, lock, mprim.
  destruct (mx_poisoned _); [done|]. fold (registry (gs G)). intros [= Hc <-].
  assert (Forall (session_ok mg) (omap (session_at (gs G)) (registered (gs G)))) as Hall.
  { apply Forall_forall. intros x (a & _ & Hx)%list_elem_of_omap.
    unfold session_at in Hx. destruct (m_heap (gs G) !! a) as [[n y]|] eqn:Hy; [|done].
    injection Hx as <-. by eapply Hsess. }
  destruct (sum_counts_bound mg _ _ _ Hall Hc) as (Hs & Ho & Hst & Hres). simpl in *.
  pose proof (length_omap_le (session_at (gs G)) (registered (gs G))) as Hlen.
  unfold registered in Hlen at 2. rewrite length_fmap, length_map_to_list in Hlen.
  destruct Hl as (_ & _ & Hm1 & Hm2). rewrite Hs, Ho.
  assert (len (omap (session_at (gs G)) (registered (gs G))) ≤ Z.of_nat (size (sessions (registry (gs G)))))
    as Hle by (unfold len; lia).
  pose proof (Z.mul_le_mono_nonneg_r _ _ _ Hm1 Hle). pose proof (Z.mul_le_mono_nonneg_r _ _ _ Hm2 Hle).
  unfold registered in *. split; [|lia].
  rewrite (proj1 Hopens). unfold registered, len in *. by rewrite length_fmap, length_map_to_list in Hq1.
Qed.
End Main.

(** ** Examples *)

Section Example.
#[local] Existing Instance simple_core.
#[local] Existing Instance simple_fmt.
#[local] Existing Instance ref_arrow.
#[local] Existing Instance ref_ipc.
#[local] Existing Instance ref_files.
#[local] Existing Instance ref_options.
#[local] Existing Instance ref_backend.

Definition example_manager : Manager :=
  mkManager {["orders" := mkTargetConfig "sqlite" None [] [] false false [] []]} 60 true
    (mkSessionLimits 4 2 2 2) TargetAuthorizer_default 1000
    (mkPartitionSigner (repeat Byte.x11 32) 60000000000).

Definition example_global : Global := mkGlobal (ref_items []) 0 0 [] [].

(** A manager with one session of [alice], and with a handler that holds it. *)
Definition opened_state : MState :=
  (open example_uuid example_manager "alice" "orders" [] [] (gs (initial example_global))).2.
Definition held_state : MState := (get example_manager "id-0" "alice" opened_state).2.

Lemma example_limits : limits_usize (mg_limits example_manager).
Proof. repeat split; vm_compute; discriminate. Qed.

Lemma opened_reachable : reachable example_uuid example_manager (mkGState opened_state [] [] false).
Proof. exists example_global. by apply (open_steps example_uuid example_manager). Qed.

Lemma held_reachable : reachable example_uuid example_manager (mkGState held_state [] [0%nat] false).
Proof.
  destruct opened_reachable as [g Hr]. exists g. eapply rtc_r; [exact Hr|].
  eapply (ms_get example_uuid example_manager "id-0" "alice" 0%nat). apply pair_fst.
  vm_compute. reflexivity.
Qed.

Lemma manager_quotas_hold_witness :
  Z.of_nat (size (sessions (registry opened_state))) = 1
  ∧ Z.of_nat (size (sessions (registry opened_state))) + opening_total (registry opened_state) ≤ 4.
Proof.
  split; [vm_compute; reflexivity|].
  exact (proj1 (proj2 (proj2 (manager_quotas_hold example_uuid example_manager
    (mkGState opened_state [] [] false) example_limits opened_reachable)))).
Defined.

Lemma open_is_steps_witness :
  rtc (mstep example_uuid example_manager) (initial example_global) (mkGState opened_state [] [] false).
Proof.
  exact (open_is_steps example_uuid example_manager "alice" "orders" [] []
    (gs (initial example_global)) [] [] false eq_refl).
Defined.

Lemma reaping_spares_sessions_in_flight_witness :
  sessions (registry (reap_expired example_manager held_state).2) !! "id-0" = Some 0%nat.
Proof.
  refine (reaping_spares_sessions_in_flight example_uuid example_manager
    (mkGState held_state [] [0%nat] false) "id-0" 0%nat example_limits held_reachable _ _).
  - vm_compute. reflexivity.
  - left.
Defined.

Definition example_open_session : Session :=
  new_session example_manager "alice" "orders"
    (mkTargetConfig "sqlite" None [] [] false false [] []) ref_conn 0.

Lemma sessions_are_isolated_witness :
  get example_manager "id-0" "bob" opened_state = (Err wrong_principal, opened_state).
Proof.
  refine (proj1 (sessions_are_isolated example_manager "id-0" "bob" opened_state 0%nat
    example_open_session _ _ _ _)); [reflexivity|vm_compute; reflexivity|reflexivity|discriminate].
Defined.

Lemma get_decides_lease_witness :
  (get example_manager "id-0" "alice" opened_state).1 = Ok 0%nat.
Proof.
  pose proof (get_decides_lease example_uuid example_manager "id-0" "alice" opened_state 0%nat 1%nat
    example_open_session 0) as Hget.
  refine (proj1 (Hget _ _ _ _ _ _)); [reflexivity|vm_compute; reflexivity|reflexivity|reflexivity|
    reflexivity|discriminate].
Defined.

Definition closed_state : MState := (detach_all (set_closing opened_state)).2.

Lemma closed_reachable : reachable example_uuid example_manager (mkGState closed_state [] [] true).
Proof.
  destruct opened_reachable as [g Hr]. exists g.
  eapply rtc_r; [eapply rtc_r; [exact Hr|apply ms_closing]|].
  eapply (ms_detach example_uuid example_manager 1); [reflexivity|]. apply pair_fst.
  vm_compute. reflexivity.
Qed.

Lemma shutdown_is_final_witness : sessions (registry closed_state) = ∅.
Proof.
  exact (proj1 (shutdown_is_final example_uuid example_manager (mkGState closed_state [] [] true)
    (mkGState closed_state [] [] true) "alice" example_limits closed_reachable eq_refl
    (rtc_refl _ _))).
Defined.

Lemma resource_counts_bounded_witness : 1 + 0 ≤ max_sessions (mg_limits example_manager).
Proof.
  refine (proj1 (resource_counts_bounded example_uuid example_manager
    (mkGState opened_state [] [] false) (mkResourceCounts 1 0 0 0 0)
    (resource_counts opened_state).2 example_limits opened_reachable _)).
  apply pair_fst. vm_compute. reflexivity.
Defined.
End Example.
