(* ===== verification/ManagerRefinement.v ===== *)
(** * The session manager implements the lease table (grainlift-server/src/session.rs)

    [lstep] labels the atomic sections of the manager with the call they perform
    on the table of LeaseTable and with what they answer; [table_of] reads the
    table off the registry and the heap.  Every step performs its call, so every
    execution answers as the table does, and [open] is [open_lease]. *)

From stdpp Require Import gmultiset.
From S2P Require Import Prelude Adbc WireError Options Arrow Framing Envelope Partitions.
From S2P Require Import Config Backend ResultCursor BindUpload Session SessionSteps Manager ManagerSteps.
From S2P Require Import Reference ReferenceIpc ReferenceBackend LeaseTable.

(** ** Finite maps through [omap] *)

Lemma size_omap_total `{Countable K} {A B} (f : A → option B) (m : gmap K A) :
  map_Forall (λ _ a, is_Some (f a)) m → size (omap f m) = size m.
Proof.
  intros Hf. rewrite <-!size_dom. f_equal. apply set_eq. intros k.
  rewrite !elem_of_dom, lookup_omap. split; intros [b Hb].
  - destruct (m !! k); [done|]. done.
  - rewrite Hb. simpl. by eapply Hf.
Qed.

Lemma length_filter_values `{Countable K} {A B} (f : A → option B)
    (P : B → Prop) `{!∀ b, Decision (P b)} (Q : A → Prop) `{!∀ a, Decision (Q a)} (m : gmap K A) :
  map_Forall (λ _ a, is_Some (f a) ∧ (Q a ↔ ∃ b, f a = Some b ∧ P b)) m →
  length (filter Q (map_to_list m).*2) = size (filter (λ '(_, b), P b) (omap f m)).
Proof.
  induction m as [|k a m Hk IH] using map_ind; intros Hf.
  { by rewrite map_to_list_empty, omap_empty, map_filter_empty, map_size_empty. }
  apply map_Forall_insert in Hf as [[[b Hb] HQ] Hf]; [|done]. specialize (IH Hf).
  assert ((map_to_list (<[k := a]> m)).*2 ≡ₚ a :: (map_to_list m).*2) as Hperm.
  { by rewrite map_to_list_insert by done. }
  rewrite (length_filter_perm Q _ _ Hperm), filter_cons, (omap_insert_Some _ _ _ _ b) by done.
  assert (omap f m !! k = None) as Hk' by (by rewrite lookup_omap, Hk).
  destruct (decide (Q a)) as [Ha|Ha].
  - rewrite map_filter_insert_True by naive_solver.
    rewrite map_size_insert_None by (by rewrite map_lookup_filter, Hk'). simpl. by rewrite IH.
  - rewrite map_filter_insert_False by naive_solver. rewrite (delete_id (omap f m)) by done. exact IH.
Qed.

Lemma multiplicity_list (p : string) l :
  multiplicity p (list_to_set_disj l : gmultiset string) = cnt p l.
Proof.
  induction l as [|q l IH]; [done|].
  rewrite list_to_set_disj_cons, multiplicity_disj_union, IH, multiplicity_singleton, cnt_cons.
  by repeat case_decide; simplify_eq.
Qed.

Lemma size_multiset_list (l : list string) : size (list_to_set_disj l : gmultiset string) = length l.
Proof.
  induction l as [|q l IH]; [done|].
  by rewrite list_to_set_disj_cons, gmultiset_size_disj_union, IH, gmultiset_size_singleton.
Qed.

Section Refinement.
Context `{AdbcCore} `{RustFmt} `{ArrowCrate} `{!IpcCrate} `{FileSystem} `{AdbcOptions} `{!Backend}.
Context (uuid : nat → string) (mg : Manager).

(** ** The abstraction *)

Definition lease_of (s : MState) (a : nat) : option Lease :=
  (λ '(n, x), mkLease (s_principal x) (mx_data (s_last_used x)) (pred n)) <$> m_heap s !! a.

Definition table_of (G : GState) : LeaseTable :=
  let s := gs G in
  mkLeaseTable (omap (lease_of s) (sessions (registry s))) (list_to_set_disj (pending G))
    (m_closing s).

(** ** Labelled steps *)

Definition now_of (s : MState) : Z := g_clock (m_global s).

Definition outcome {A} (r : result AdbcError A) : result AdbcError unit := (λ _, tt) <$> r.

(** [id] is the name under which [a] is registered, if it is. *)
Definition named (s : MState) (a : nat) (id : option string) : Prop :=
  match id with
  | Some i => sessions (registry s) !! i = Some a
  | None => a ∉ registered s
  end.

Inductive lstep : GState → table_call → result AdbcError unit → GState → Prop :=
| ls_reserve p r s s' pend hd d :
    reserve_locked mg p s = (r, s') →
    lstep (mkGState s pend hd d) (Reserve p) r
      (mkGState s' (match r with Ok _ => p :: pend | Err _ => pend end) hd d)
| ls_release p r s s' pend pend' hd d :
    pend ≡ₚ p :: pend' → release_open_reservation p s = (r, s') →
    lstep (mkGState s pend hd d) (Release p) r (mkGState s' pend' hd d)
| ls_register p id t target c now r s s' pend pend' hd d :
    pend ≡ₚ p :: pend' → register p id (new_session mg p t target c now) s = (r, s') →
    lstep (mkGState s pend hd d) (Register p id now) (outcome r) (mkGState s' pend' hd d)
| ls_reap r s s' pend hd d :
    reap_expired mg s = (r, s') →
    lstep (mkGState s pend hd d) (Reap (now_of s)) (outcome r) (mkGState s' pend hd d)
| ls_get id p r s s' pend hd d :
    get mg id p s = (r, s') →
    lstep (mkGState s pend hd d) (Lookup id p (now_of s)) (outcome r)
      (mkGState s' pend (match r with Ok a => a :: hd | Err _ => hd end) d)
| ls_done a id s pend hd hd' d :
    hd ≡ₚ a :: hd' → named s a id →
    lstep (mkGState s pend hd d) (Done id) (Ok tt) (mkGState (drop_arc a s) pend hd' d)
| ls_close id p r s s' pend hd d :
    close id p s = (r, s') →
    lstep (mkGState s pend hd d) (CloseSession id p) r (mkGState s' pend hd d)
| ls_closing s pend hd d :
    lstep (mkGState s pend hd d) BeginShutdown (Ok tt) (mkGState (set_closing s) pend hd d)
| ls_detach r s s' pend hd d :
    m_closing s = true → detach_all s = (r, s') →
    lstep (mkGState s pend hd d) Detach (outcome r) (mkGState s' pend hd true)
| ls_session a n x st s pend hd d :
    a ∈ hd → m_heap s !! a = Some (n, x) →
    session_step uuid (mkSState (m_global s) x) st →
    lstep (mkGState s pend hd d) Elsewhere (Ok tt)
      (mkGState (set_heap (<[a := (n, st_session st)]> (m_heap s)) (set_global (st_global st) s))
         pend hd d)
| ls_environment g s pend hd d :
    lstep (mkGState s pend hd d) Elsewhere (Ok tt) (mkGState (set_global g s) pend hd d).

(** An execution with the calls it performs and what they answer. *)
Inductive lsteps : GState → list (table_call * result AdbcError unit) → GState → Prop :=
| lsteps_nil G : lsteps G [] G
| lsteps_cons G c r G1 tr G2 : lstep G c r G1 → lsteps G1 tr G2 → lsteps G ((c, r) :: tr) G2.

(** ** The invariant *)

Definition leases_ok (s : MState) : Prop :=
  ∀ a n x, m_heap s !! a = Some (n, x) → mx_poisoned (s_last_used x) = false.

(** No lock of the manager is ever poisoned, no cell is registered twice. *)
Definition locks_ok (s : MState) : Prop :=
  healthy s ∧ leases_ok s ∧ NoDup (registered s).

Definition rinv (G : GState) : Prop := manager_inv mg G ∧ locks_ok (gs G).

Lemma initial_rinv g : limits_usize (mg_limits mg) → rinv (initial g).
Proof.
  intros Hl. split; [by apply initial_inv|]. split; [done|]. split.
  - intros a n x. simpl. by rewrite lookup_empty.
  - unfold registered, registry. simpl. rewrite map_to_list_empty. constructor.
Qed.

(** ** Dropping references *)

Lemma drop_arc_heap a s b :
  b ≠ a → m_heap (drop_arc a s) !! b = m_heap s !! b.
Proof.
  intros Hne. unfold drop_arc. destruct (m_heap s !! a) as [[[|[|n]] x]|]; simpl;
    by rewrite ?lookup_delete_ne, ?lookup_insert_ne.
Qed.

Lemma drop_arcs_heap ls s b : b ∉ ls → m_heap (drop_arcs ls s) !! b = m_heap s !! b.
Proof.
  revert s; induction ls as [|a ls IH]; intros s Hb; [done|]. apply not_elem_of_cons in Hb as [Hne Hb].
  simpl. rewrite IH by done. by apply drop_arc_heap.
Qed.

Lemma drop_arc_leases a s : leases_ok s → leases_ok (drop_arc a s).
Proof.
  intros Hs b m y. unfold drop_arc. destruct (m_heap s !! a) as [[[|[|n]] x]|] eqn:Hx; simpl;
    rewrite ?lookup_delete_Some, ?lookup_insert_Some; [naive_solver..|].
  by apply Hs.
Qed.

Lemma drop_arcs_leases ls s : leases_ok s → leases_ok (drop_arcs ls s).
Proof.
  revert s; induction ls as [|a ls IH]; intros s Hs; [done|]. simpl. by apply IH, drop_arc_leases.
Qed.
(** ** Reading the table *)

Lemma registered_lookup s id a : sessions (registry s) !! id = Some a → a ∈ registered s.
Proof. intros Hid. apply list_elem_of_fmap. exists (id, a). by rewrite elem_of_map_to_list. Qed.

Lemma registered_cell G id a :
  rinv G → sessions (registry (gs G)) !! id = Some a →
  ∃ n x, m_heap (gs G) !! a = Some (S n, x) ∧ mx_poisoned (s_last_used x) = false.
Proof.
  intros [(Hheap & _) (_ & Hl & _)] Hid%registered_lookup.
  destruct (heap_ok_elem _ _ a Hheap) as [[[|n] x] Hx]; [set_solver| |].
  - destruct Hheap as [Hh _]. specialize (Hh a). rewrite Hx in Hh. lia.
  - exists n, x. split; [done|]. by eapply Hl.
Qed.

Lemma lease_cell s a n x :
  m_heap s !! a = Some (S n, x) → lease_of s a = Some (mkLease (s_principal x) (mx_data (s_last_used x)) n).
Proof. intros Hx. unfold lease_of. by rewrite Hx. Qed.

Lemma registered_leases G :
  rinv G → map_Forall (λ _ a, is_Some (lease_of (gs G) a)) (sessions (registry (gs G))).
Proof.
  intros HG id a Hid. destruct (registered_cell G id a HG Hid) as (n & x & Hx & _).
  rewrite (lease_cell _ _ _ _ Hx). by eexists.
Qed.

Lemma table_size G : rinv G → size (leases (table_of G)) = size (sessions (registry (gs G))).
Proof. intros HG. by apply size_omap_total, registered_leases. Qed.

Lemma table_owned G p :
  rinv G → Z.of_nat (size (owned p (table_of G))) = active_for (gs G) (registry (gs G)) p.
Proof.
  intros HG. unfold active_for, len, owned. f_equal. symmetry.
  apply (length_filter_values (lease_of (gs G)) (λ l, owner l = p)). intros id a Hid.
  destruct (registered_cell G id a HG Hid) as (n & x & Hx & _).
  rewrite (lease_cell _ _ _ _ Hx). unfold principal_at, session_at. rewrite Hx. simpl.
  split; [by eexists|]. naive_solver.
Qed.

Lemma table_opening G p :
  rinv G →
  Z.of_nat (size (opening (table_of G))) = opening_total (registry (gs G))
  ∧ Z.of_nat (multiplicity p (opening (table_of G))) = opening_for (registry (gs G)) p.
Proof.
  intros [(_ & Hopens & _) _]. rewrite (opens_total _ _ p Hopens), (proj1 Hopens). simpl.
  by rewrite size_multiset_list, multiplicity_list.
Qed.

(** ** Removing sessions *)

Lemma removed_leases s (l : list (string * nat)) (m : gmap string nat) :
  locks_ok s → map_to_list (sessions (registry s)) ≡ₚ l ++ map_to_list m →
  let s' := drop_arcs l.*2 (set_sessions m s) in
  locks_ok s' ∧ sessions (registry s') = m ∧ m_closing s' = m_closing s
  ∧ omap (lease_of s') m = omap (lease_of s) m.
Proof.
  intros (Hh & Hl & Hnd) Hperm s'.
  destruct (drop_arcs_registry l.*2 (set_sessions m s)) as [Hr Hc].
  assert (sessions (registry s') = m) as Hm by (unfold registry, s'; by rewrite Hr).
  unfold registered in Hnd. rewrite Hperm, fmap_app in Hnd. apply NoDup_app in Hnd as (_ & Hdisj & Hnd).
  split; [split; [|split]|].
  - unfold healthy, s'. by rewrite Hr.
  - by apply drop_arcs_leases.
  - unfold registered. by rewrite Hm.
  - split; [exact Hm|]. split; [exact Hc|]. apply map_eq. intros id. rewrite !lookup_omap.
    destruct (m !! id) as [a|] eqn:Hid; [|done]. simpl. unfold lease_of, s'.
    rewrite drop_arcs_heap; [done|]. intros Ha. apply (Hdisj _ Ha). apply list_elem_of_fmap.
    exists (id, a). by rewrite elem_of_map_to_list.
Qed.

Lemma removed_lease s id a :
  locks_ok s → sessions (registry s) !! id = Some a →
  let s' := drop_arc a (set_sessions (delete id (sessions (registry s))) s) in
  locks_ok s' ∧ sessions (registry s') = delete id (sessions (registry s))
  ∧ m_closing s' = m_closing s
  ∧ omap (lease_of s') (sessions (registry s')) = delete id (omap (lease_of s) (sessions (registry s))).
Proof.
  intros Hs Hid s'.
  destruct (removed_leases s [(id, a)] (delete id (sessions (registry s))) Hs) as (Hl & Hm & Hc & Ho).
  { simpl. rewrite <-(insert_delete_id _ _ _ Hid) at 1. by rewrite map_to_list_insert by apply lookup_delete_eq. }
  split; [exact Hl|]. split; [exact Hm|]. split; [exact Hc|].
  etrans; [|etrans; [exact Ho|apply omap_delete]]. by apply (f_equal (omap _)).
Qed.

(** ** Reaping *)

Definition stale_at (s : MState) (a : nat) : bool :=
  match lease_of s a with Some l => stale (mg_ttl mg) (now_of s) l | None => false end.

Lemma lease_expired_healthy s x :
  mx_poisoned (s_last_used x) = false →
  lease_expired mg s x = Ok (mg_ttl mg <? elapsed (now_of s) (mx_data (s_last_used x))).
Proof. intros Hx. unfold lease_expired, lock. by rewrite Hx. Qed.

Lemma expired_sessions_stale s (l : list (string * nat)) :
  (∀ id a, (id, a) ∈ l → ∃ n x, m_heap s !! a = Some (S n, x) ∧ mx_poisoned (s_last_used x) = false) →
  expired_sessions mg s l = Ok (filter (λ '(_, a), stale_at s a = true) l).
Proof.
  induction l as [|[id a] l IH]; intros Hl; [done|].
  destruct (Hl id a) as (n & x & Hx & Hp); [left|]. rewrite filter_cons. simpl.
  rewrite IH by (intros i b Hb; apply (Hl i b); by right).
  assert (stale_at s a = stale (mg_ttl mg) (now_of s)
            (mkLease (s_principal x) (mx_data (s_last_used x)) n)) as Hst.
  { unfold stale_at. by rewrite (lease_cell _ _ _ _ Hx). }
  unfold stale in Hst. simpl in Hst. unfold strong_count, session_at.
  rewrite Hx. simpl. rewrite lease_expired_healthy by done. simpl.
  case_decide as Hd; rewrite Hst in Hd; destruct n; simpl in *; try done; [by rewrite Hd|].
  by destruct (_ <? _).
Qed.

Lemma remove_ids_lookup ids (m : gmap string nat) id :
  remove_ids ids m !! id = if decide (id ∈ ids) then None else m !! id.
Proof.
  induction ids as [|k ids IH]; [done|]. simpl. rewrite lookup_delete, IH.
  repeat case_decide; set_solver.
Qed.

Lemma remove_stale s (m : gmap string nat) :
  omap (lease_of s) (remove_ids (filter (λ '(_, a), stale_at s a = true) (map_to_list m)).*1 m)
  = filter (λ '(_, l), stale (mg_ttl mg) (now_of s) l = false) (omap (lease_of s) m).
Proof.
  apply map_eq. intros id. rewrite map_lookup_filter, !lookup_omap, remove_ids_lookup.
  assert (id ∈ (filter (λ '(_, a), stale_at s a = true) (map_to_list m)).*1
          ↔ ∃ a, m !! id = Some a ∧ stale_at s a = true) as Hin.
  { rewrite list_elem_of_fmap. setoid_rewrite list_elem_of_filter. split.
    - intros ([i a] & -> & Ha & Hi%elem_of_map_to_list). eauto.
    - intros (a & Hid & Ha). exists (id, a). by rewrite elem_of_map_to_list. }
  case_decide as Hd.
  - apply Hin in Hd as (a & -> & Ha). simpl. unfold stale_at in Ha.
    destruct (lease_of s a); [|done]. simpl. by rewrite Ha.
  - destruct (m !! id) as [a|] eqn:Hid; [|done]. simpl. unfold stale_at in Hin.
    destruct (lease_of s a) as [l|] eqn:Hl; [|done]. simpl. destruct (stale _ _ l) eqn:Hst; [|done].
    destruct Hd. apply Hin. exists a. by rewrite Hl.
Qed.

Lemma reap_simulates G :
  rinv G →
  let s' := (reap_expired mg (gs G)).2 in
  (∃ n, (reap_expired mg (gs G)).1 = Ok n) ∧ locks_ok s'
  ∧ table_of (mkGState s' (pending G) (held G) (detached G))
    = reap (mg_ttl mg) (now_of (gs G)) (table_of G).
Proof.
  intros HG. pose proof HG as [_ Hs]. destruct Hs as [Hh Hs]. pose proof (conj Hh Hs) as Hlocks.
  unfold reap_expired, lock_registry, mbind, M_bind, lock, mprim. unfold healthy in Hh. rewrite Hh.
  fold (registry (gs G)). rewrite expired_sessions_stale.
  2: { intros id a Hin%elem_of_map_to_list. by apply (registered_cell G id a). }
  cbn [fst snd]. set (e := filter _ (map_to_list _)).
  destruct (removed_leases (gs G) e (remove_ids e.*1 (sessions (registry (gs G)))) Hlocks)
    as (Hl & Hm & Hc & Ho).
  { apply (remove_ids_perm uuid).
    - apply (sublist_NoDup _ _ (NoDup_fst_map_to_list (sessions (registry (gs G))))).
      apply sublist_keys, sublist_filter.
    - intros k v [_ Hkv]%list_elem_of_filter. by apply elem_of_map_to_list. }
  split; [by eexists|]. split; [exact Hl|]. unfold table_of, reap, with_leases. cbn [gs pending leases opening shut].
  rewrite Hm, Ho, Hc. f_equal. apply remove_stale.
Qed.
(** ** Admission and the end of an open *)

Lemma reserve_simulates G p r s' :
  rinv G → reserve_locked mg p (gs G) = (r, s') →
  reserve (mg_limits mg) p (table_of G)
  = (r, table_of (mkGState s' (match r with Ok _ => p :: pending G | Err _ => pending G end)
           (held G) (detached G)))
  ∧ locks_ok s'.
Proof.
  intros HG. pose proof HG as [_ Hs]. pose proof (proj1 Hs) as Hh.
  destruct (table_opening G p HG) as [Ht Hp].
  unfold reserve. rewrite !Nat2Z.inj_add, (table_size G HG), (table_owned G p HG), Ht, Hp.
  unfold reserve_locked, lock_registry, mbind, M_bind, lock, mprim. unfold healthy in Hh. rewrite Hh.
  fold (registry (gs G)). change (shut (table_of G)) with (m_closing (gs G)).
  destruct (m_closing (gs G)); [intros [= <- <-]; by destruct G|].
  destruct (_ <=? _); [intros [= <- <-]; by destruct G|].
  destruct (_ <=? _); [intros [= <- <-]; by destruct G|]. intros [= <- <-]. split; [done|exact Hs].
Qed.

Lemma opening_release p pend pend' :
  pend ≡ₚ p :: pend' →
  (list_to_set_disj pend : gmultiset string) ∖ {[+ p +]} = list_to_set_disj pend'.
Proof. intros Hp. rewrite (list_to_set_disj_perm _ _ Hp), list_to_set_disj_cons. multiset_solver. Qed.

Lemma release_table r p s pend pend' hd d :
  pend ≡ₚ p :: pend' →
  sessions r = sessions (registry s) →
  table_of (mkGState (set_registry r s) pend' hd d) = release p (table_of (mkGState s pend hd d)).
Proof.
  intros Hpend Hr. unfold table_of, release, with_opening. cbn [gs pending leases opening shut].
  rewrite (opening_release p pend pend' Hpend). f_equal. by rewrite <-Hr.
Qed.

Lemma set_registry_locks r s :
  sessions r = sessions (registry s) → locks_ok s → locks_ok (set_registry r s).
Proof.
  intros Hr (Hh & Hl & Hnd). split; [exact Hh|]. split; [exact Hl|]. unfold registered in *.
  change (registry (set_registry r s)) with r. by rewrite Hr.
Qed.

Lemma release_simulates p s pend pend' hd d :
  locks_ok s → pend ≡ₚ p :: pend' →
  let s' := (release_open_reservation p s).2 in
  (release_open_reservation p s).1 = Ok tt ∧ locks_ok s'
  ∧ table_of (mkGState s' pend' hd d) = release p (table_of (mkGState s pend hd d)).
Proof.
  intros Hs Hpend. pose proof (proj1 Hs) as Hh.
  unfold release_open_reservation, lock_registry, mbind, M_bind, lock, mmodify.
  unfold healthy in Hh. rewrite Hh. fold (registry s). split; [done|]. split.
  - apply set_registry_locks; [|exact Hs]. apply release_sessions.
  - apply release_table; [exact Hpend|]. apply release_sessions.
Qed.

(** The new session, with the one it replaces dropped. *)
Lemma add_session_table id x s arcs pend hd d :
  heap_ok s arcs → registered s ⊆ arcs → locks_ok s → mx_poisoned (s_last_used x) = false →
  let s' := drop_arcs (option_list (sessions (registry s) !! id)) (add_session id x s) in
  locks_ok s'
  ∧ table_of (mkGState s' pend hd d)
    = with_leases (<[id := mkLease (s_principal x) (mx_data (s_last_used x)) 0]>
        (leases (table_of (mkGState s pend hd d)))) (table_of (mkGState s pend hd d)).
Proof.
  intros Hheap Hsub (Hh & Hl & Hnd) Hx s'. set (m := sessions (registry s)) in *.
  destruct (alloc_ok s arcs x Hheap) as [_ Hfresh].
  assert (m_next_loc s ∉ registered s) as Hfresh' by set_solver.
  destruct (insert_perm m id (m_next_loc s)) as [Hm Hm'].
  destruct (drop_arcs_registry (option_list (m !! id)) (add_session id x s)) as [Hr Hc].
  assert (sessions (registry s') = <[id := m_next_loc s]> m) as Hs'.
  { unfold registry at 1, s'. by rewrite Hr. }
  unfold registered in Hnd, Hfresh'. fold m in Hnd, Hfresh'. rewrite Hm in Hnd, Hfresh'.
  apply NoDup_app in Hnd as (_ & Hdisj & Hnd).
  assert (∀ i a, m !! i = Some a → i ≠ id →
            m_heap s' !! a = m_heap s !! a) as Hkeep.
  { intros i a Hi Hne. assert (a ∈ (map_to_list (delete id m)).*2) as Ha.
    { apply list_elem_of_fmap. exists (i, a). by rewrite elem_of_map_to_list, lookup_delete_ne. }
    unfold s'. rewrite drop_arcs_heap by (intros Hin; by apply (Hdisj _ Hin)). simpl.
    rewrite lookup_insert_ne; [done|]. intros <-. set_solver. }
  split; [split; [|split]|].
  - unfold healthy, s'. by rewrite Hr.
  - apply drop_arcs_leases. intros a n y. simpl. rewrite lookup_insert_Some.
    intros [[_ [= <- <-]]|[_ Hy]]; [done|by eapply Hl].
  - unfold registered. rewrite Hs', Hm'. apply NoDup_cons. split; [set_solver|done].
  - unfold table_of, with_leases. cbn [gs pending leases opening shut]. rewrite Hs'.
    unfold s' at 2. rewrite Hc. f_equal. apply map_eq. intros i. rewrite lookup_omap.
    destruct (decide (i = id)) as [->|Hne].
    + rewrite !lookup_insert_eq. simpl. unfold lease_of, s'.
      rewrite drop_arcs_heap; [simpl; by rewrite lookup_insert_eq|].
      intros Hin. apply Hfresh'. set_solver.
    + rewrite !lookup_insert_ne, lookup_omap by done. fold m.
      destruct (m !! i) as [a|] eqn:Hi; [|done]. simpl. unfold lease_of. by rewrite (Hkeep i a Hi Hne).
Qed.

Lemma register_simulates G p id t target c now pend' :
  rinv G → pending G ≡ₚ p :: pend' →
  let run := register p id (new_session mg p t target c now) (gs G) in
  locks_ok run.2
  ∧ register_lease p id now (table_of G)
    = (outcome run.1, table_of (mkGState run.2 pend' (held G) (detached G))).
Proof.
  intros [(Hheap & _) Hs] Hpend run. pose proof (proj1 Hs) as Hh. unfold healthy in Hh.
  assert (∀ r, sessions r = sessions (registry (gs G)) →
    table_of (mkGState (set_registry r (gs G)) pend' (held G) (detached G)) = release p (table_of G)) as Hrel.
  { intros r Hr. destruct G. by apply release_table. }
  unfold register_lease. unfold run, register, lock_registry, mbind, M_bind, lock, mprim.
  rewrite Hh. fold (registry (gs G)). set (r := release_open_reservation_locked _ p).
  assert (sessions r = sessions (registry (gs G))) as Hr by apply release_sessions.
  specialize (Hrel r Hr). pose proof (set_registry_locks r (gs G) Hr Hs) as Hlocks.
  rewrite <-Hrel. change (m_closing (set_registry r (gs G))) with (m_closing (gs G)).
  change (shut (table_of _)) with (m_closing (gs G)). destruct (m_closing (gs G)) eqn:Hc.
  - split; [exact Hlocks|done].
  - destruct (add_session_table id (new_session mg p t target c now) (set_registry r (gs G))
      (registered (gs G) ++ held G) pend' (held G) (detached G)) as [Hl Ht]; [exact Hheap| |exact Hlocks|done|].
    + unfold registered at 1. change (registry (set_registry r (gs G))) with r. rewrite Hr. set_solver.
    + unfold add_session in Hl, Ht. change (m_closing (set_registry r (gs G))) with (m_closing (gs G)) in Hl, Ht.
      rewrite Hc in Hl, Ht. split; [exact Hl|].
      apply (f_equal (pair (Ok tt))). symmetry. exact Ht.
Qed.
(** ** Lookup, use and close *)

Lemma registered_inj s i j a :
  locks_ok s → sessions (registry s) !! i = Some a → sessions (registry s) !! j = Some a → i = j.
Proof.
  intros (_ & _ & Hnd) Hi Hj. destruct (decide (i = j)) as [|Hne]; [done|exfalso].
  destruct (insert_perm (sessions (registry s)) i a) as [Hm _].
  unfold registered in Hnd. rewrite Hm, Hi in Hnd. simpl in Hnd. apply NoDup_cons in Hnd as [Ha _].
  apply Ha, list_elem_of_fmap. exists (j, a). by rewrite elem_of_map_to_list, lookup_delete_ne.
Qed.

(** A registered cell is replaced. *)
Lemma set_cell_leases s id a n x :
  locks_ok s → sessions (registry s) !! id = Some a → mx_poisoned (s_last_used x) = false →
  let s' := set_heap (<[a := (S n, x)]> (m_heap s)) s in
  locks_ok s'
  ∧ omap (lease_of s') (sessions (registry s))
    = <[id := mkLease (s_principal x) (mx_data (s_last_used x)) n]>
        (omap (lease_of s) (sessions (registry s))).
Proof.
  intros Hs Hid Hx s'. pose proof Hs as (Hh & Hl & Hnd). split; [split; [exact Hh|split; [|exact Hnd]]|].
  - intros b m y. simpl. rewrite lookup_insert_Some. intros [[_ [= _ <-]]|[_ Hy]]; [done|by eapply Hl].
  - apply map_eq. intros i. rewrite lookup_omap. destruct (decide (i = id)) as [->|Hne].
    + rewrite Hid, lookup_insert_eq. simpl. apply lease_cell. apply lookup_insert_eq.
    + rewrite lookup_insert_ne, lookup_omap by done.
      destruct (sessions (registry s) !! i) as [b|] eqn:Hi; [|done]. simpl. unfold lease_of. simpl.
      rewrite lookup_insert_ne; [done|]. intros <-. apply Hne. by eapply registered_inj.
Qed.

(** A registered session, as the registry and as the table see it. *)
Inductive seen (G : GState) (id : string) : Prop :=
| seen_none : sessions (registry (gs G)) !! id = None → leases (table_of G) !! id = None → seen G id
| seen_some a n x :
    sessions (registry (gs G)) !! id = Some a → m_heap (gs G) !! a = Some (S n, x) →
    mx_poisoned (s_last_used x) = false →
    leases (table_of G) !! id = Some (mkLease (s_principal x) (mx_data (s_last_used x)) n) → seen G id.

Lemma rinv_seen G id : rinv G → seen G id.
Proof.
  intros HG. destruct (sessions (registry (gs G)) !! id) as [a|] eqn:Hid.
  - destruct (registered_cell G id a HG Hid) as (n & x & Hx & Hp). apply (seen_some G id a n x); try done.
    simpl. rewrite lookup_omap, Hid. by apply lease_cell.
  - apply seen_none; [done|]. simpl. by rewrite lookup_omap, Hid.
Qed.

Lemma removed_table G id a :
  rinv G → sessions (registry (gs G)) !! id = Some a →
  let s' := drop_arc a (set_sessions (delete id (sessions (registry (gs G)))) (gs G)) in
  locks_ok s'
  ∧ table_of (mkGState s' (pending G) (held G) (detached G))
    = with_leases (delete id (leases (table_of G))) (table_of G).
Proof.
  intros [_ Hs] Hid s'. destruct (removed_lease (gs G) id a Hs Hid) as (Hl & _ & Hc & Ho).
  split; [exact Hl|]. unfold table_of, with_leases. cbn [gs pending leases opening shut].
  unfold s'. by rewrite Ho, Hc.
Qed.

Lemma close_simulates G id p :
  rinv G →
  let run := close id p (gs G) in
  locks_ok run.2
  ∧ close_lease id p (table_of G)
    = (run.1, table_of (mkGState run.2 (pending G) (held G) (detached G))).
Proof.
  intros HG run. pose proof HG as [_ Hs]. pose proof (proj1 Hs) as Hh. unfold healthy in Hh.
  unfold close_lease, run, close, lock_registry, mbind, M_bind, lock, mprim.
  rewrite Hh. fold (registry (gs G)). unfold find_session.
  destruct (rinv_seen G id HG) as [Hid ->|a n x Hid Hx Hp ->]; rewrite Hid; cbn [ok_or mbind result_bind];
    [split; [done|by destruct G]|].
  unfold session_at. rewrite Hx. cbn [fmap option_fmap option_map snd ok_or mbind result_bind owner].
  case_bool_decide; [split; [done|by destruct G]|].
  destruct (removed_table G id a HG Hid) as [Hl Ht]. split; [exact Hl|].
  apply (f_equal (pair (Ok tt))). symmetry. exact Ht.
Qed.

Lemma lookup_simulates G id p :
  rinv G →
  let run := get mg id p (gs G) in
  locks_ok run.2
  ∧ ∀ hd, lookup_lease (mg_ttl mg) id p (now_of (gs G)) (table_of G)
    = (outcome run.1, table_of (mkGState run.2 (pending G) hd (detached G))).
Proof.
  intros HG run. pose proof HG as [_ Hs]. pose proof (proj1 Hs) as Hh. unfold healthy in Hh.
  unfold lookup_lease, run, get, lock_registry, mbind, M_bind, lock, mprim.
  rewrite Hh. fold (registry (gs G)). unfold find_session.
  destruct (rinv_seen G id HG) as [Hid ->|a n x Hid Hx Hp ->]; rewrite Hid; cbn [ok_or mbind result_bind];
    [split; [done|by destruct G]|].
  unfold session_at. rewrite Hx. cbn [fmap option_fmap option_map snd ok_or mbind result_bind owner].
  case_bool_decide; [split; [done|by destruct G]|]. rewrite lease_expired_healthy by done.
  unfold strong_count. rewrite Hx. unfold stale. cbn [fmap option_fmap option_map fst default users used_at].
  rewrite (andb_comm (n =? 0)%nat).
  assert (negb (1 <? Datatypes.id (S n))%nat = (n =? 0)%nat) as -> by (by destruct n).
  destruct (_ && _).
  - destruct (removed_table G id a HG Hid) as [Hl Ht]. split; [exact Hl|]. intros hd.
    apply (f_equal (pair (Err _))). symmetry. exact Ht.
  - unfold touch. rewrite Hx. unfold clone_arc. cbn [m_heap set_heap]. rewrite lookup_insert_eq, insert_insert_eq.
    set (x' := set_last_used _ x).
    destruct (set_cell_leases (gs G) id a (S n) x' Hs Hid Hp) as [Hl Ht]. split; [exact Hl|]. intros hd.
    apply (f_equal (pair (Ok tt))). unfold table_of, with_leases. cbn [gs pending leases opening shut].
    f_equal. assert (s_principal x = p) as <- by (by destruct (decide (s_principal x = p))).
    symmetry. exact Ht.
Qed.

Lemma done_simulates G a id hd' :
  rinv G → held G ≡ₚ a :: hd' → named (gs G) a id →
  locks_ok (drop_arc a (gs G))
  ∧ (perform (mg_ttl mg) (mg_limits mg) (Done id) (table_of G)).2
    = table_of (mkGState (drop_arc a (gs G)) (pending G) hd' (detached G)).
Proof.
  intros HG Hhd Hid. pose proof HG as [(Hheap & _) Hs]. pose proof Hs as (Hh & Hl & Hnd).
  destruct (drop_arc_registry a (gs G)) as [Hr Hc].
  destruct id as [id|]; cbn [perform snd].
  - destruct (rinv_seen G id HG) as [Hn _|b n x Hb Hx Hp Hlease]; [simpl in Hid; congruence|].
    simpl in Hid. replace b with a in * by congruence.
    assert (∃ m, n = S m) as [m ->].
    { destruct Hheap as [Hcell _]. specialize (Hcell a). rewrite Hx, Hhd in Hcell.
      destruct Hcell as [Hcnt _]. apply registered_lookup in Hid.
      destruct n; [|by eexists]. exfalso. revert Hcnt.
      rewrite <-Permutation_middle, cnt_cons, decide_True by done.
      assert (cnt a (registered (gs G) ++ hd') ≠ 0%nat) by (rewrite cnt_zero; set_solver). lia. }
    unfold drop_arc. rewrite Hx. unfold leave_lease. rewrite Hlease. cbn [owner used_at users pred].
    destruct (set_cell_leases (gs G) id a m x Hs Hid Hp) as [Hl' Ht]. split; [exact Hl'|].
    unfold table_of, with_leases. cbn [gs pending leases opening shut]. f_equal. symmetry. exact Ht.
  - split; [split; [|split]|].
    + unfold healthy. by rewrite Hr.
    + by apply drop_arc_leases.
    + unfold registered, registry. by rewrite Hr.
    + unfold table_of. cbn [gs pending]. unfold registry. rewrite Hr, Hc. f_equal.
      apply map_eq. intros i. rewrite !lookup_omap. fold (registry (gs G)).
      destruct (sessions (registry (gs G)) !! i) as [b|] eqn:Hi; [|done]. simpl. unfold lease_of.
      rewrite drop_arc_heap; [done|]. intros ->. apply Hid. by eapply registered_lookup.
Qed.

(** ** Shutdown and the steps of a session *)

Lemma detach_simulates G :
  rinv G →
  let run := detach_all (gs G) in
  locks_ok run.2 ∧ outcome run.1 = Ok tt
  ∧ table_of (mkGState run.2 (pending G) (held G) true) = with_leases ∅ (table_of G).
Proof.
  intros [_ Hs] run. pose proof (proj1 Hs) as Hh. unfold healthy in Hh.
  unfold run, detach_all, lock_registry, mbind, M_bind, lock, mprim. rewrite Hh. fold (registry (gs G)).
  destruct (removed_leases (gs G) (map_to_list (sessions (registry (gs G)))) ∅ Hs)
    as (Hl & Hm & Hc & Ho); [by rewrite map_to_list_empty, app_nil_r|].
  split; [exact Hl|]. split; [done|]. unfold table_of, with_leases.
  cbn [gs pending leases opening shut fst snd]. by rewrite Hm, Hc, omap_empty.
Qed.

Lemma session_step_lease st st' :
  session_step uuid st st' → s_last_used (st_session st') = s_last_used (st_session st).
Proof. by intros (_ & _ & ? & _)%session_step_identity. Qed.

Lemma handler_simulates G a n x st :
  rinv G → m_heap (gs G) !! a = Some (n, x) →
  session_step uuid (mkSState (m_global (gs G)) x) st →
  let s' := set_heap (<[a := (n, st_session st)]> (m_heap (gs G))) (set_global (st_global st) (gs G)) in
  locks_ok s' ∧ table_of (mkGState s' (pending G) (held G) (detached G)) = table_of G.
Proof.
  intros [_ (Hh & Hl & Hnd)] Hx Hstep s'.
  assert (s_last_used (st_session st) = s_last_used x) as Hlast by exact (session_step_lease _ _ Hstep).
  split; [split; [exact Hh|split; [|exact Hnd]]|].
  - intros b m y. simpl. rewrite lookup_insert_Some. intros [[_ [= _ <-]]|[_ Hy]]; [|by eapply Hl].
    rewrite Hlast. by eapply Hl.
  - unfold table_of. cbn [gs pending]. f_equal. apply map_eq. intros i. rewrite !lookup_omap.
    change (registry s') with (registry (gs G)).
    destruct (sessions (registry (gs G)) !! i) as [b|]; [|done]. simpl. unfold lease_of. simpl.
    destruct (decide (a = b)) as [<-|Hne]; [|by rewrite lookup_insert_ne].
    rewrite lookup_insert_eq, Hx. simpl. rewrite Hlast.
    by rewrite (session_step_principal uuid _ _ Hstep).
Qed.
(** ** Every step performs its call *)

Lemma lstep_simulates G c r G' :
  lstep G c r G' → rinv G →
  perform (mg_ttl mg) (mg_limits mg) c (table_of G) = (r, table_of G') ∧ locks_ok (gs G').
Proof.
  destruct 1 as [p r s s' pend hd d Hr|p r s s' pend pend' hd d Hp Hr
    |p id t target c now r s s' pend pend' hd d Hp Hr|r s s' pend hd d Hr|id p r s s' pend hd d Hr
    |a id s pend hd hd' d Hhd Hid|id p r s s' pend hd d Hr|s pend hd d|r s s' pend hd d Hcl Hr
    |a n x st s pend hd d Ha Hx Hst|g s pend hd d]; intros HG; cbn [gs perform].
  - by apply (reserve_simulates (mkGState s pend hd d)).
  - destruct (release_simulates p s pend pend' hd d (proj2 HG) Hp) as (Hok & Hl & Ht).
    rewrite Hr in Hok, Hl, Ht. simpl in Hok. subst r. split; [by rewrite <-Ht|exact Hl].
  - destruct (register_simulates (mkGState s pend hd d) p id t target c now pend' HG Hp) as [Hl Ht].
    cbn [gs] in Hl, Ht. rewrite Hr in Hl, Ht. by split.
  - destruct (reap_simulates (mkGState s pend hd d) HG) as ([n Hn] & Hl & Ht).
    cbn [gs] in Hn, Hl, Ht. rewrite Hr in Hn, Hl, Ht. simpl in Hn. subst r. split; [by rewrite <-Ht|exact Hl].
  - destruct (lookup_simulates (mkGState s pend hd d) id p HG) as [Hl Ht].
    cbn [gs] in Hl, Ht. rewrite Hr in Hl, Ht. by split.
  - destruct (done_simulates (mkGState s pend hd d) a id hd' HG Hhd Hid) as [Hl Ht].
    split; [|exact Hl].
    etrans; [|exact (f_equal (pair (Ok tt)) Ht)]. by destruct id.
  - destruct (close_simulates (mkGState s pend hd d) id p HG) as [Hl Ht].
    cbn [gs] in Hl, Ht. rewrite Hr in Hl, Ht. by split.
  - split; [done|exact (proj2 HG)].
  - destruct (detach_simulates (mkGState s pend hd d) HG) as (Hl & Ho & Ht).
    cbn [gs] in Hl, Ho, Ht. rewrite Hr in Hl, Ho, Ht. simpl in Ho. rewrite Ho.
    split; [by rewrite <-Ht|exact Hl].
  - destruct (handler_simulates (mkGState s pend hd d) a n x st HG Hx Hst) as [Hl Ht].
    split; [by rewrite <-Ht|exact Hl].
  - split; [done|exact (proj2 HG)].
Qed.

Lemma lstep_mstep G c r G' :
  lstep G c r G' → rinv G → G' = G ∨ mstep uuid mg G G'.
Proof.
  destruct 1 as [p r s s' pend hd d Hr|p r s s' pend pend' hd d Hp Hr
    |p id t target c now r s s' pend pend' hd d Hp Hr|r s s' pend hd d Hr|id p r s s' pend hd d Hr
    |a id s pend hd hd' d Hhd Hid|id p r s s' pend hd d Hr|s pend hd d|r s s' pend hd d Hcl Hr
    |a n x st s pend hd d Ha Hx Hst|g s pend hd d]; intros [_ [Hh _]]; cbn [gs] in Hh.
  - destruct r as [[]|e]; [right; by apply ms_admit|left]. by rewrite (admit_refused mg _ _ _ _ Hr).
  - right. replace s' with (release_open_reservation p s).2 by (by rewrite Hr). by apply ms_release.
  - right. replace s' with (register p id (new_session mg p t target c now) s).2 by (by rewrite Hr).
    by apply ms_register.
  - right. replace s' with (reap_expired mg s).2 by (by rewrite Hr). apply ms_reap.
  - right. destruct r as [a|e]; [by eapply ms_get|by eapply ms_get_refused].
  - right. by apply ms_done.
  - right. replace s' with (close id p s).2 by (by rewrite Hr). apply ms_close.
  - right. apply ms_closing.
  - right. destruct r as [n|e]; [by eapply ms_detach|]. revert Hr.
    unfold detach_all, lock_registry, mbind, M_bind, lock, mprim. unfold healthy in Hh. by rewrite Hh.
  - right. by eapply ms_session.
  - right. apply ms_environment.
Qed.

Lemma lstep_rinv G c r G' :
  limits_usize (mg_limits mg) → lstep G c r G' → rinv G → rinv G'.
Proof.
  intros Hl Hstep HG. split; [|by eapply lstep_simulates].
  destruct (lstep_mstep _ _ _ _ Hstep HG) as [->|Hm]; [apply HG|].
  by eapply mstep_inv; [..|apply HG].
Qed.

Lemma mstep_lstep G G' : mstep uuid mg G G' → ∃ c r, lstep G c r G'.
Proof.
  destruct 1.
  - eexists _, _. by eapply (ls_reserve _ (Ok tt)).
  - eexists _, _. eapply ls_release; [done|apply surjective_pairing].
  - eexists _, _. eapply ls_register; [done|apply surjective_pairing].
  - eexists _, _. eapply ls_reap. apply surjective_pairing.
  - eexists _, _. by eapply (ls_get _ _ (Ok a)).
  - eexists _, _. by eapply (ls_get _ _ (Err e)).
  - destruct (decide (a ∈ registered s)) as [Ha|Ha].
    + apply list_elem_of_fmap in Ha as ([id b] & -> & Hid%elem_of_map_to_list).
      eexists (Done (Some id)), _. by apply ls_done.
    + eexists (Done None), _. by apply ls_done.
  - eexists _, _. eapply ls_close. apply surjective_pairing.
  - eexists _, _. apply ls_closing.
  - eexists _, _. by eapply (ls_detach (Ok n)).
  - eexists _, _. by eapply ls_session.
  - eexists _, _. apply ls_environment.
Qed.

Lemma lsteps_snoc G tr G1 c r G2 : lsteps G tr G1 → lstep G1 c r G2 → lsteps G (tr ++ [(c, r)]) G2.
Proof.
  induction 1 as [G|G c' r' G' tr G1 Hs _ IH]; intros Hl; simpl.
  - eapply lsteps_cons; [exact Hl|constructor].
  - eapply lsteps_cons; [exact Hs|by apply IH].
Qed.

Lemma msteps_lsteps G G' : rtc (mstep uuid mg) G G' → ∃ tr, lsteps G tr G'.
Proof.
  induction 1 as [G|G G1 G2 Hs _ [tr IH]]; [exists []; constructor|].
  destruct (mstep_lstep _ _ Hs) as (c & r & Hl). exists ((c, r) :: tr). by eapply lsteps_cons.
Qed.

Lemma lstep_call_ok G c r G' : lstep G c r G' → call_ok c (table_of G).
Proof.
  destruct 1 as [| p r s s' pend pend' hd d Hp _|p id t target c now r s s' pend pend' hd d Hp _
    | | |a [id|]| | | | |]; try done; simpl; apply elem_of_list_to_set_disj; rewrite Hp; left.
Qed.

Lemma lsteps_simulate G tr G' :
  limits_usize (mg_limits mg) → lsteps G tr G' → rinv G → table_ok (mg_limits mg) (table_of G) →
  rtc (mstep uuid mg) G G'
  ∧ perform_all (mg_ttl mg) (mg_limits mg) tr.*1 (table_of G) = (tr.*2, table_of G')
  ∧ table_ok (mg_limits mg) (table_of G').
Proof.
  intros Hl. induction 1 as [G|G c r G1 tr G2 Hs _ IH]; intros HG HT; [done|].
  destruct (lstep_simulates _ _ _ _ Hs HG) as [Hp _].
  pose proof (perform_ok (mg_ttl mg) (mg_limits mg) c _ (lstep_call_ok _ _ _ _ Hs) HT) as HT1.
  rewrite Hp in HT1. destruct (IH (lstep_rinv _ _ _ _ Hl Hs HG) HT1) as (Hm & Ha & Hok).
  split; [|split; [|exact Hok]].
  - destruct (lstep_mstep _ _ _ _ Hs HG) as [->|Hone]; [exact Hm|by eapply rtc_l].
  - csimpl. by rewrite Hp, Ha.
Qed.
(** ** Opening a session *)

(** The checks before a reservation is taken. *)
Definition permitted (p t : string) : result AdbcError TargetConfig :=
  if negb (allows (mg_authorizer mg) p t)
  then Err (with_message_and_status "principal is not authorized for the requested target" Unauthorized)
  else ok_or (mg_targets mg !! t) (with_message_and_status "target is not configured" NotFound).

(** What the driver and the two threads make of an open, from [s] on: the name
    of the new session or the error the caller gets. *)
Definition native_answer (db co : list (string * OptionValue)) (s : MState) (target : TargetConfig)
  : result AdbcError string :=
  match open_thread mg target db co s with
  | (Ok (Ok _), s) =>
      match spawn_now (m_global s) with
      | (Ok _, _) => Ok (uuid (g_uuids (m_global s)))
      | (Err error, _) => Err (internal ("start session worker: " +:+ error))
      end
  | (Ok (Err e), _) | (Err e, _) => Err e
  end.

Lemma rinv_global G g : rinv G → rinv (mkGState (set_global g (gs G)) (pending G) (held G) (detached G)).
Proof. done. Qed.

Lemma spawn_now_clock g : g_clock (spawn_now g).2 = g_clock g.
Proof. unfold spawn_now. by destruct (g_spawns g). Qed.

Lemma spawn_now_uuids g u :
  (spawn_now (mkGlobal (g_world g) (g_clock g) u (g_outcomes g) (g_spawns g))).1 = (spawn_now g).1.
Proof. unfold spawn_now. simpl. by destruct (g_spawns g). Qed.

Lemma drop_arc_clock a s : now_of (drop_arc a s) = now_of s.
Proof.
  assert (∀ x g, g_clock (run_drop x g) = g_clock g) as Hrun.
  { intros x g. unfold run_drop. pose proof (spawn_now_clock g). by destruct (spawn_now g). }
  unfold drop_arc. destruct (m_heap s !! a) as [[[|[|n]] x]|]; try done; apply Hrun.
Qed.

Lemma reap_clock s : now_of (reap_expired mg s).2 = now_of s.
Proof.
  unfold reap_expired, lock_registry, mbind, M_bind, lock, mprim. destruct (mx_poisoned _); [done|].
  destruct (expired_sessions _ _ _) as [e|]; [|done]. cbn [snd].
  assert (∀ ls s, now_of (drop_arcs ls s) = now_of s) as Hdrops; [|etrans; [apply Hdrops|done]].
  induction ls as [|a ls IH]; intros s'; [done|]. simpl. by rewrite IH, drop_arc_clock.
Qed.

Lemma reserve_clock p s : now_of (reserve_locked mg p s).2 = now_of s.
Proof.
  unfold reserve_locked, lock_registry, mbind, M_bind, lock, mprim. destruct (mx_poisoned _); [done|].
  destruct (m_closing s); [done|]. destruct (_ <=? _); [done|]. by destruct (_ <=? _).
Qed.

Lemma register_answer p id x s :
  (λ _, id) <$> outcome (register p id x s).1 = (register p id x s).1.
Proof.
  unfold register, lock_registry, mbind, M_bind, lock, mprim. destruct (mx_poisoned _); [done|].
  by destruct (m_closing _).
Qed.

Lemma open_thread_keeps target db co s :
  ∃ r g, open_thread mg target db co s = (Ok r, set_global g s) ∧ g_clock g = now_of s.
Proof.
  unfold open_thread. pose proof (spawn_now_clock (m_global s)) as Hc.
  destruct (spawn_now _) as [[[]|e] g]; [|by eauto]. simpl in Hc.
  assert (g_clock (next_outcome g).2 = g_clock g) as Hn.
  { unfold next_outcome. by destruct (g_outcomes g). }
  destruct (next_outcome g) as [o g']. simpl in Hn. destruct (backend_open _ _ _ _) as [r w].
  destruct o; eexists _, _; (split; [done|]); simpl; unfold now_of; congruence.
Qed.

(** After the reservation: the reservation is given back or becomes a lease. *)
Lemma finish_open_table p t target db co s r s' pend hd d :
  rinv (mkGState s (p :: pend) hd d) →
  (opened ← open_thread mg target db co; finish_open uuid mg p t target opened) s = (r, s') →
  match native_answer db co s target with
  | Err e => (Err e, release p (table_of (mkGState s (p :: pend) hd d)))
  | Ok id => let '(r, T) := register_lease p id (now_of s) (table_of (mkGState s (p :: pend) hd d)) in
             ((λ _, id) <$> r, T)
  end = (r, table_of (mkGState s' pend hd d)).
Proof.
  intros HG. unfold native_answer. unfold mbind at 1, M_bind at 1.
  destruct (open_thread_keeps target db co s) as (opened & g & Hot & Hclock). rewrite Hot.
  destruct opened as [c|e]; unfold finish_open.
  - unfold start_session, act_uuid, act_spawn. unfold mbind at 1, M_bind at 1.
    unfold mbind at 1, M_bind at 1. cbn [m_global set_global m_registry m_heap m_next_loc m_closing].
    pose proof (spawn_now_uuids g (S (g_uuids g))) as Hsp.
    pose proof (spawn_now_clock (mkGlobal (g_world g) (g_clock g) (S (g_uuids g)) (g_outcomes g) (g_spawns g)))
      as Hcl. cbn [g_clock] in Hcl.
    destruct (spawn_now (mkGlobal _ _ _ _ _)) as [w g1]. destruct (spawn_now g) as [w' g2].
    cbn [fst snd] in Hsp, Hcl. subst w'. destruct w as [[]|e].
    + intros Hrun. change (register p (uuid (g_uuids g)) (new_session mg p t target c (g_clock g1))
        (set_global g1 s) = (r, s')) in Hrun.
      pose proof (register_simulates (mkGState (set_global g1 s) (p :: pend) hd d) p (uuid (g_uuids g))
        t target c (g_clock g1) pend HG ltac:(done)) as [_ Hreg]. cbn [gs held detached] in Hreg.
      rewrite Hcl, Hclock in *.
      change (table_of (mkGState (set_global g1 s) (p :: pend) hd d))
        with (table_of (mkGState s (p :: pend) hd d)) in Hreg.
      rewrite Hreg, register_answer. by rewrite Hrun.
    + rewrite release_then by exact (proj1 (proj2 HG)). intros Hrun.
      match type of Hrun with context [release_open_reservation p ?s1] =>
        destruct (release_simulates p s1 (p :: pend) pend hd d (proj2 HG) ltac:(done)) as (_ & _ & Ht);
        destruct (spawn_throw (A := string) (internal ("start session worker: " +:+ e))
          (release_open_reservation p s1).2) as [g3 Hg3] end.
      unfold act_spawn in Hg3. rewrite Hg3 in Hrun. injection Hrun as <- <-.
      apply (f_equal (pair (Err _))). symmetry. exact Ht.
  - rewrite release_then by exact (proj1 (proj2 HG)). unfold mthrow. intros [= <- <-].
    destruct (release_simulates p (set_global g s) (p :: pend) pend hd d (proj2 HG) ltac:(done)) as (_ & _ & Ht).
    apply (f_equal (pair (Err _))). symmetry. exact Ht.
Qed.

Lemma open_table p t db co s r s' pend hd d :
  limits_usize (mg_limits mg) → rinv (mkGState s pend hd d) →
  open uuid mg p t db co s = (r, s') →
  open_lease (mg_ttl mg) (mg_limits mg) (permitted p t) p (now_of s)
    (native_answer db co (reserve_open mg p s).2) (table_of (mkGState s pend hd d))
  = (r, table_of (mkGState s' pend hd d)).
Proof.
  intros Hl HG. unfold open_lease, permitted, open.
  destruct (negb (allows _ _ _)); [by intros [= <- <-]|]. unfold mbind at 1, M_bind at 1, mlift at 1, ok_or.
  destruct (mg_targets mg !! t) as [target|]; [|by intros [= <- <-]]. unfold mbind at 1, M_bind at 1.
  change (shut (table_of _)) with (m_closing s). unfold reserve_open.
  destruct (m_closing s) eqn:Hcl; [by intros [= <- <-]|].
  destruct (reap_simulates (mkGState s pend hd d) HG) as ([n Hn] & Hlocks & Ht). cbn [gs pending held detached] in *.
  assert (rinv (mkGState (reap_expired mg s).2 pend hd d)) as HG1.
  { split; [|exact Hlocks]. eapply (mstep_inv uuid mg); [exact Hl|apply ms_reap|apply HG]. }
  pose proof (reap_clock s) as Hc1. pose proof (reserve_clock p (reap_expired mg s).2) as Hc2.
  rewrite <-Ht. unfold mbind at 1, M_bind at 1. unfold mbind at 2, M_bind at 2.
  destruct (reap_expired mg s) as [r1 s1]. cbn [fst snd] in *. subst r1.
  destruct (reserve_locked mg p s1) as [r2 s2] eqn:Hres. cbn [snd] in Hc2.
  destruct (reserve_simulates (mkGState s1 pend hd d) p r2 s2 HG1 Hres) as [Hr Hl2].
  cbn [pending held detached] in Hr. rewrite Hr. destruct r2 as [[]|e].
  - assert (rinv (mkGState s2 (p :: pend) hd d)) as HG2.
    { split; [|exact Hl2]. eapply (mstep_inv uuid mg); [exact Hl|by apply ms_admit|apply HG1]. }
    rewrite <-Hc1, <-Hc2. cbn [snd]. by apply finish_open_table.
  - intros [= <- <-]. by rewrite (admit_refused mg _ _ _ _ Hres).
Qed.
End Refinement.

(** ** Main theorems *)

Section Main.
Context `{AdbcCore} `{RustFmt} `{ArrowCrate} `{!IpcCrate} `{FileSystem} `{AdbcOptions} `{!Backend}.
Context (uuid : nat → string) (mg : Manager).

Lemma initial_table g : table_of (initial g) = empty_table.
Proof. unfold table_of, empty_table. simpl. by rewrite omap_empty. Qed.

Lemma initial_table_ok g :
  limits_usize (mg_limits mg) → table_ok (mg_limits mg) (table_of (initial g)).
Proof. intros (Hs & Hp & _). rewrite initial_table. by split. Qed.

Lemma lsteps_rinv G tr G' :
  limits_usize (mg_limits mg) → lsteps uuid mg G tr G' → rinv mg G → rinv mg G'.
Proof.
  intros Hl. induction 1 as [|G c r G1 tr G2 Hs _ IH]; [done|]. intros HG. apply IH.
  by eapply (lstep_rinv uuid mg).
Qed.

Lemma reachable_rinv G : limits_usize (mg_limits mg) → reachable uuid mg G → rinv mg G.
Proof.
  intros Hl [g Hr]. destruct (msteps_lsteps uuid mg _ _ Hr) as [tr Htr].
  eapply lsteps_rinv; [exact Hl|exact Htr|]. by apply initial_rinv.
Qed.

(** C8: the session manager implements the abstract lease table.  Every
    execution, labelled with the calls its atomic sections perform and with what
    they answer, is an execution of the manager; the table answers each of these
    calls as the manager did and ends as the table read off the registry and the
    heap, within the quotas; and every execution of the manager is labelled so. *)
Theorem manager_implements_lease_table g :
  limits_usize (mg_limits mg) →
  (∀ tr G, lsteps uuid mg (initial g) tr G →
     rtc (mstep uuid mg) (initial g) G
     ∧ perform_all (mg_ttl mg) (mg_limits mg) tr.*1 empty_table = (tr.*2, table_of G)
     ∧ table_ok (mg_limits mg) (table_of G))
  ∧ ∀ G, rtc (mstep uuid mg) (initial g) G → ∃ tr, lsteps uuid mg (initial g) tr G.
Proof.
  intros Hl. split; [|intros G; apply msteps_lsteps]. intros tr G Htr.
  rewrite <-(initial_table g).
  apply lsteps_simulate; [exact Hl|exact Htr|by apply initial_rinv|by apply initial_table_ok].
Qed.

(** In every reachable state [open], run without interleaving, is the abstract
    [open_lease]: the policy and the target first, then shutdown, then reaping and
    the quotas on what is left; only then the driver, whose answer decides whether
    the reservation becomes a lease used at this time or is given back. *)
Theorem open_implements_open_lease G p t db co :
  limits_usize (mg_limits mg) → reachable uuid mg G →
  let run := open uuid mg p t db co (gs G) in
  open_lease (mg_ttl mg) (mg_limits mg) (permitted mg p t) p (now_of (gs G))
    (native_answer uuid mg db co (reserve_open mg p (gs G)).2) (table_of G)
  = (run.1, table_of (mkGState run.2 (pending G) (held G) (detached G))).
Proof.
  intros Hl Hr run. pose proof (reachable_rinv G Hl Hr) as HG. destruct G as [s pend hd d].
  apply open_table; [exact Hl|exact HG|apply surjective_pairing].
Qed.
End Main.

(** ** Examples *)

Section Example.
#[local] Existing Instance simple_core.
#[local] Existing Instance simple_fmt.
#[local] Existing Instance ref_arrow.
#[local] Existing Instance ref_ipc.
#[local] Existing Instance ref_files.
#[local] Existing Instance ref_options.
#[local] Existing Instance ref_backend.

Definition opened_table : LeaseTable := mkLeaseTable {["id-0" := mkLease "alice" 0 0]} ∅ false.

Lemma opened_state_table : table_of (mkGState opened_state [] [] false) = opened_table.
Proof.
  unfold table_of, opened_table. cbn [gs pending list_to_set_disj]. f_equal.
Qed.

Lemma manager_implements_lease_table_witness :
  ∃ tr, perform_all 60 (mg_limits example_manager) tr.*1 empty_table = (tr.*2, opened_table).
Proof.
  destruct opened_reachable as [g Hr].
  destruct (proj2 (manager_implements_lease_table example_uuid example_manager g example_limits) _ Hr)
    as [tr Htr].
  exists tr. rewrite <-opened_state_table.
  exact (proj1 (proj2 (proj1 (manager_implements_lease_table example_uuid example_manager g example_limits)
    tr _ Htr))).
Defined.

(** A second open by the same principal is the second of the two it may have. *)
Lemma open_implements_open_lease_witness :
  (open example_uuid example_manager "alice" "orders" [] [] opened_state).1 = Ok "iid-0".
Proof.
  pose proof (f_equal fst (open_implements_open_lease example_uuid example_manager
    (mkGState opened_state [] [] false) "alice" "orders" [] [] example_limits opened_reachable)) as Hopen.
  rewrite opened_state_table in Hopen. etrans; [exact (eq_sym Hopen)|]. vm_compute. reflexivity.
Defined.
End Example.
