(* ===== verification/Rpc.v ===== *)
(** * RPC plumbing of the service (grainlift-server/src/service.rs)

    What every handler of the service shares: the checks on a request before it
    reaches a session, the conversion of errors, and the bounded responses.
    The RPC framework ([vgi_rpc]) and the JSON serializer belong to other
    crates: the classes [VgiRpc] and [Json] say what the service uses of them. *)

From S2P Require Import Prelude Adbc WireError Options Arrow Framing Envelope Partitions.
From S2P Require Import Config Backend ResultCursor BindUpload Session Manager.

(** ** The framework *)

(** The public fields of [vgi_rpc::AuthContext] the server reads. *)
Record AuthContext : Type := mkAuthContext {
  auth_domain : string; authenticated : bool; auth_principal : string
}.

Record CallContext : Type := mkCallContext {
  auth : AuthContext; response_limit_bytes : option Z
}.

Record Request : Type := mkRequest { batch : RecordBatch; metadata : gmap string string }.

(** [RpcError], with its constructors and the fields a client sees, and the
    collector of a stream turn.  Documented: a constructor sets the fields, an
    unauthenticated context is refused, an emitted batch is the next output. *)
Class VgiRpc : Type := {
  RpcError : Type;
  error_type : RpcError → string;
  error_message : RpcError → string;
  rpc_to_string : RpcError → string;
  rpc_new : string → string → RpcError;
  with_error_kind : string → RpcError → RpcError;
  value_error : string → RpcError;
  version_error : string → RpcError;
  rpc_protocol_error : string → RpcError;
  runtime_error : string → RpcError;
  require_authenticated : AuthContext → result RpcError unit;
  OutputCollector : Type;
  emit : OutputCollector → RecordBatch → result RpcError OutputCollector;
  out_finish : OutputCollector → OutputCollector;
  emitted : OutputCollector → list RecordBatch;
  out_finished : OutputCollector → bool;
  rpc_new_type : ∀ t m, error_type (rpc_new t m) = t;
  rpc_new_message : ∀ t m, error_message (rpc_new t m) = m;
  with_error_kind_type : ∀ k e, error_type (with_error_kind k e) = error_type e;
  with_error_kind_message : ∀ k e, error_message (with_error_kind k e) = error_message e;
  require_authenticated_Ok : ∀ a, require_authenticated a = Ok tt ↔ authenticated a = true;
  emit_emitted : ∀ out b out', emit out b = Ok out' →
    emitted out' = emitted out ++ [b] ∧ out_finished out' = out_finished out;
  out_finish_emitted : ∀ out,
    emitted (out_finish out) = emitted out ∧ out_finished (out_finish out) = true
}.

(** [serde_json] on a type that derives [Serialize] and [Deserialize]: a struct
    is written as an object and read back as it was. *)
Class Json (T : Type) : Type := {
  to_json : T → result string string;
  from_json : string → result string T;
  from_to_json : ∀ v t, to_json v = Ok t → from_json t = Ok v;
  to_json_object : ∀ v t, to_json v = Ok t → starts_with "{" t = true
}.

(** The [VgiArrow] derives of the wire records. *)
Class WireRecords `{StructCrate} : Type := {
  wr_open_connection :: VgiArrow OpenConnectionRequest;
  wr_set_connection_option :: VgiArrow SetConnectionOptionRequest;
  wr_set_statement_option :: VgiArrow SetStatementOptionRequest;
  wr_get_info :: VgiArrow GetInfoRequest;
  wr_get_objects :: VgiArrow GetObjectsRequest;
  wr_get_table_schema :: VgiArrow GetTableSchemaRequest;
  wr_get_statistics :: VgiArrow GetStatisticsRequest;
  wr_ok :: VgiArrow OkResponse;
  wr_session :: VgiArrow SessionResponse;
  wr_statement :: VgiArrow StatementResponse;
  wr_execute :: VgiArrow ExecuteResponse;
  wr_schema :: VgiArrow SchemaResponse;
  wr_update :: VgiArrow UpdateResponse;
  wr_partitions :: VgiArrow PartitionsResponse;
  wr_value :: VgiArrow ValueResponse;
  wr_claims :: VgiArrow PartitionClaims
}.

(** ** Errors *)

Section Errors.
Context `{AdbcCore} `{RustFmt} `{Base64} `{VgiRpc} `{!Json WireAdbcError}.

Definition adbc_rpc_error (error : AdbcError) : RpcError :=
  let encoded :=
    match to_json (wire_from_adbc error) with Ok text => text | Err _ => message error end in
  with_error_kind ("adbc." +:+ status_name (status error)) (rpc_new "AdbcError" encoded).

Definition protocol_rpc_error (error : ProtocolError) : RpcError :=
  value_error (protocol_error_to_string error).

Definition arrow_rpc_error (error : ArrowError) : RpcError :=
  rpc_new "ArrowError" (display_arrow error).

(** ** Requests *)

(** Byte strings all of whose bytes are ASCII digits. *)
Definition all_digits (s : string) : bool := forallb is_ascii_digit (as_bytes s).

Definition compatible_version (version : string) : bool :=
  match strip_prefix "0.4." version with
  | Some patch => negb (bool_decide (patch = "")) && all_digits patch
  | None => false
  end.

Definition validate_protocol_version (request : Request) : result RpcError unit :=
  if match metadata request !! "vgi_rpc.protocol_version" with
     | Some version => compatible_version version
     | None => false
     end
  then Ok tt
  else Err (version_error "Grainlift requires an explicit 0.4.x protocol version").

Definition is_handle_name (name : string) : bool :=
  bool_decide (name = "session_id") || bool_decide (name = "statement_id")
  || bool_decide (name = "result_id") || bool_decide (name = "key").

Definition request_string (request : Request) (name : string) : result RpcError string :=
  value ← map_err protocol_rpc_error (batch_string_value (batch request) name);
  map_err protocol_rpc_error
    (if is_handle_name name then validate_handle value else validate_text value);;
  Ok value.

Definition request_binary (request : Request) (name : string) : result RpcError bytes :=
  map_err protocol_rpc_error (batch_binary_value (batch request) name).

Definition response_limit (ctx : CallContext) : Z :=
  Z.min (default MAX_CONTROL_BYTES (response_limit_bytes ctx)) MAX_CONTROL_BYTES.
End Errors.

(** ** Responses *)

Section Responses.
Context `{AdbcCore} `{RustFmt} `{VgiRpc} `{IpcCrate} `{!StructCrate} `{!WireRecords}.

Definition typed_request {T} `{!VgiArrow T} `{!RequestRecord T} (request : Request)
  : result RpcError T :=
  validate_protocol_version request;;
  map_err protocol_rpc_error (decode_request (batch request) MAX_CONTROL_BYTES).

Definition typed_response {T} `{!VgiArrow T} `{!ResponseRecord T} (value : T)
  : result RpcError RecordBatch :=
  map_err protocol_rpc_error (encode_response value MAX_CONTROL_BYTES).

Definition ok_batch : result RpcError RecordBatch := typed_response (mkOkResponse true).

Definition bind_ack : result RpcError RecordBatch :=
  map_err arrow_rpc_error (try_new empty_response_schema [BooleanArray [Some true]]).

(** The nested record and the outer envelope both fit. *)
Definition bounded_response {T} `{!VgiArrow T} `{!ResponseRecord T} (value : T) (limit : Z)
  : result ProtocolError RecordBatch :=
  response ← encode_response value limit;
  encode_batch_ipc response limit;;
  Ok response.

Definition schema_response (schema : Schema) : result RpcError RecordBatch :=
  b ← map_err protocol_rpc_error (encode_schema schema);
  typed_response (mkSchemaResponse b).

Definition value_response (value : OptionValue) : result RpcError RecordBatch :=
  let value := wire_option_from value in
  map_err protocol_rpc_error (option_value_into_adbc value);;
  typed_response (mkValueResponse value).
End Responses.

(** ** Principals and partition tokens of the manager *)

Section Manager.
Context `{AdbcCore} `{RustFmt} `{ArrowCrate} `{!IpcCrate} `{FileSystem} `{AdbcOptions} `{!Backend}.
Context `{VgiRpc} `{Hmac} `{!StructCrate} `{!VgiArrow PartitionClaims}.

(** [format!("{}\0{}", domain, principal)], and the anonymous principal. *)
Definition principal (mg : Manager) (a : AuthContext) : result RpcError string :=
  (if mg_require_authentication mg then require_authenticated a else Ok tt);;
  Ok (if authenticated a then auth_domain a +:+ String nul (auth_principal a)
      else String nul "anonymous").

Definition seal_partition (mg : Manager) (session : Session) (now : Z) (descriptor : bytes)
    (limit : Z) : result AdbcError bytes :=
  seal (mg_partition_signer mg) now (s_target session) (s_principal session) descriptor limit.

Definition open_partition (mg : Manager) (session : Session) (now : Z) (token : bytes) (limit : Z)
  : result AdbcError bytes :=
  Partitions.open (mg_partition_signer mg) now (s_target session) (s_principal session) token limit.
End Manager.
