(* ===== verification/Service.v ===== *)
(** * The RPC service (grainlift-server/src/service.rs)

    One definition per registered method, in the error monad over the state of
    the session manager.  A handler obtains a reference to the caller's session
    from the manager, works through it and releases it when it returns, on
    every path ([releasing]).  Streams keep their position in a cursor that
    travels to the client and back ([encode_state] and the decoders).
    [server_methods] is the table [build_server] registers. *)

From S2P Require Import Prelude Adbc WireError Options Arrow Framing Envelope Partitions.
From S2P Require Import Config Backend ResultCursor BindUpload Session Manager Rpc.

(** ** Stream cursors *)

Record BindCursor : Type := mkBindCursor {
  bc_session_id : string; bc_upload_id : string; bc_max_bytes : Z
}.

Record ResultCursor : Type := mkResultCursor {
  rc_session_id : string; rc_result_id : string; rc_sequence : Z
}.

Section Service.
Context `{AdbcCore} `{RustFmt} `{ArrowCrate} `{!IpcCrate} `{FileSystem} `{AdbcOptions} `{!Backend}.
Context `{Base64} `{Hmac} `{VgiRpc} `{!StructCrate} `{!WireRecords}.
Context `{!Json WireAdbcError} `{!Json BindCursor} `{!Json ResultCursor}.
(** [Uuid::new_v4], and the n-th reading of the system clock a handler makes
    when it runs in a given state of the process. *)
Context (uuid : nat → string) (system_now : Global → nat → Z).
Context (mg : Manager).

Abbreviation Rpc := (M MState RpcError).

Inductive StreamResult : Type :=
| ProducerStream (schema : Schema) (cursor : ResultCursor)
| ExchangeStream (output input : list Field) (cursor : BindCursor).

(** ** Combinators *)

Definition adbc {A} (m : M MState AdbcError A) : Rpc A := mmap_err adbc_rpc_error m.

(** An operation of the session behind a reference. *)
Definition via {A} (a : nat) (op : M SState AdbcError A) : Rpc A := adbc (on_session a op).

(** The reference goes out of scope when the handler returns. *)
Definition releasing {A} (a : nat) (m : Rpc A) : Rpc A := λ s,
  let '(r, s) := m s in (r, drop_arc a s).

Definition reply (r : result RpcError RecordBatch) : Rpc (option RecordBatch) :=
  b ← mlift r; mret (Some b).

Definition session_by_id (session_id : string) (ctx : CallContext) : Rpc nat :=
  p ← mlift (principal mg (auth ctx));
  adbc (get mg session_id p).

Definition get_session (request : Request) (ctx : CallContext) : Rpc (nat * string) :=
  mlift (validate_protocol_version request);;
  p ← mlift (principal mg (auth ctx));
  session_id ← mlift (request_string request "session_id");
  a ← adbc (get mg session_id p);
  mret (a, session_id).

(** A handler of a session named by the [session_id] column, and one of a
    session named in a typed request. *)
Definition with_session {A} (request : Request) (ctx : CallContext)
    (body : nat → string → Rpc A) : Rpc A :=
  '(a, session_id) ← get_session request ctx;
  releasing a (body a session_id).

Definition with_typed {T A} `{!VgiArrow T} `{!RequestRecord T} (session_id : T → string)
    (request : Request) (ctx : CallContext) (body : nat → T → Rpc A) : Rpc A :=
  args ← mlift (typed_request request);
  a ← session_by_id (session_id args) ctx;
  releasing a (body a args).

(** The response of a new handle; when it cannot be sent the handle is given back. *)
Definition handle_response {T} `{!VgiArrow T} `{!ResponseRecord T} (value : T) (limit : Z)
    (cleanup : M MState AdbcError unit) : Rpc RecordBatch := λ s,
  match bounded_response value limit with
  | Ok response => (Ok response, s)
  | Err error => (Err (protocol_rpc_error error), (cleanup s).2)
  end.

Definition execute_record (result_id : string) (schema : Schema) (limit : Z)
  : result ProtocolError RecordBatch :=
  schema_ipc ← encode_schema schema;
  bounded_response (mkExecuteResponse result_id None schema_ipc) limit.

Definition result_response (a : nat) (result_id : string) (schema : Schema) (limit : Z)
  : Rpc RecordBatch := λ s,
  match execute_record result_id schema limit with
  | Ok response => (Ok response, s)
  | Err error => (Err (protocol_rpc_error error), (on_session a (close_result result_id) s).2)
  end.

Definition insert_reader_response (a : nat) (reader : NativeReader) (ctx : CallContext)
  : Rpc (option RecordBatch) :=
  '(result_id, schema) ← via a (insert_result uuid reader);
  b ← result_response a result_id schema (response_limit ctx);
  mret (Some b).

(** ** Connections *)

Definition open_connection (request : Request) (ctx : CallContext) : Rpc (option RecordBatch) :=
  args ← mlift (typed_request (T := OpenConnectionRequest) request);
  p ← mlift (principal mg (auth ctx));
  database_options ←
    mlift (map_err protocol_rpc_error (named_options_into_adbc (oc_database_options args)));
  connection_options ←
    mlift (map_err protocol_rpc_error (named_options_into_adbc (oc_connection_options args)));
  session_id ←
    adbc (open uuid mg p (oc_target args) database_options connection_options);
  b ← handle_response (mkSessionResponse session_id) (response_limit ctx) (close session_id p);
  mret (Some b).

Definition session_operation (operation : M SState AdbcError unit) (request : Request)
    (ctx : CallContext) : Rpc (option RecordBatch) :=
  with_session request ctx (λ a _, via a operation;; reply ok_batch).

Definition commit_method := session_operation commit.
Definition rollback_method := session_operation rollback.
Definition cancel_connection_method := session_operation cancel_connection.

Definition close_connection (request : Request) (ctx : CallContext) : Rpc (option RecordBatch) :=
  mlift (validate_protocol_version request);;
  p ← mlift (principal mg (auth ctx));
  session_id ← mlift (request_string request "session_id");
  adbc (close session_id p);;
  reply ok_batch.

Definition new_statement_method (request : Request) (ctx : CallContext)
  : Rpc (option RecordBatch) :=
  with_session request ctx (λ a session_id,
    statement_id ← via a (new_statement uuid);
    b ← handle_response (mkStatementResponse session_id statement_id) (response_limit ctx)
          (on_session a (close_statement statement_id));
    mret (Some b)).

Definition set_connection_option_method (request : Request) (ctx : CallContext)
  : Rpc (option RecordBatch) :=
  with_typed sco_session_id request ctx (λ a args,
    value ← mlift (map_err protocol_rpc_error (option_value_into_adbc (sco_value args)));
    via a (set_connection_option (sco_key args) value);;
    reply ok_batch).

(** The getter the [value_type] of a request selects. *)
Definition typed_getter {W} (value_type : string) (get_string : M W AdbcError string)
    (get_bytes : M W AdbcError bytes) (get_int get_double : M W AdbcError Z)
  : M W AdbcError OptionValue :=
  if bool_decide (value_type = "string") then v ← get_string; mret (OptString v)
  else if bool_decide (value_type = "bytes") then v ← get_bytes; mret (OptBytes v)
  else if bool_decide (value_type = "int") then v ← get_int; mret (OptInt v)
  else if bool_decide (value_type = "double") then v ← get_double; mret (OptDouble v)
  else mthrow (with_message_and_status "unknown option value type" InvalidArguments).

Definition get_connection_option (request : Request) (ctx : CallContext)
  : Rpc (option RecordBatch) :=
  with_session request ctx (λ a _,
    key ← mlift (request_string request "key");
    value_type ← mlift (request_string request "value_type");
    value ← via a (with_connection (λ c,
      typed_getter value_type (conn_get_option_string c key) (conn_get_option_bytes c key)
        (conn_get_option_int c key) (conn_get_option_double c key)));
    reply (value_response value)).

Definition get_info (request : Request) (ctx : CallContext) : Rpc (option RecordBatch) :=
  with_typed gi_session_id request ctx (λ a args,
    let codes : option (gset InfoCode) :=
      (λ values, list_to_set ((λ code, info_code_from (wrap_unsigned 32 code)) <$> values))
        <$> gi_codes args in
    reader ← via a (with_connection (λ c, conn_get_info c codes));
    insert_reader_response a reader ctx).

Definition get_objects (request : Request) (ctx : CallContext) : Rpc (option RecordBatch) :=
  with_typed go_session_id request ctx (λ a args,
    depth ← mlift (map_err adbc_rpc_error (object_depth_try_from (wrap_signed 32 (go_depth args))));
    reader ← via a (with_connection (λ c,
      conn_get_objects c depth (go_catalog args) (go_db_schema args) (go_table_name args)
        (go_table_types args) (go_column_name args)));
    insert_reader_response a reader ctx).

Definition get_table_schema (request : Request) (ctx : CallContext) : Rpc (option RecordBatch) :=
  with_typed gts_session_id request ctx (λ a args,
    schema ← via a (with_connection (λ c,
      conn_get_table_schema c (gts_catalog args) (gts_db_schema args) (gts_table_name args)));
    reply (schema_response schema)).

Definition get_table_types (request : Request) (ctx : CallContext) : Rpc (option RecordBatch) :=
  with_session request ctx (λ a _,
    reader ← via a (with_connection conn_get_table_types);
    insert_reader_response a reader ctx).

Definition get_statistic_names (request : Request) (ctx : CallContext)
  : Rpc (option RecordBatch) :=
  with_session request ctx (λ a _,
    reader ← via a (with_connection conn_get_statistic_names);
    insert_reader_response a reader ctx).

Definition get_statistics (request : Request) (ctx : CallContext) : Rpc (option RecordBatch) :=
  with_typed gs_session_id request ctx (λ a args,
    reader ← via a (with_connection (λ c,
      conn_get_statistics c (gs_catalog args) (gs_db_schema args) (gs_table_name args)
        (gs_approximate args)));
    insert_reader_response a reader ctx).

(** The session a handler holds; its target and principal never change. *)
Definition held_session (a : nat) : Rpc Session := λ s,
  match session_at s a with
  | Some x => (Ok x, s)
  | None => (Err (adbc_rpc_error (not_found "session")), s)
  end.

Definition read_clock (n : nat) : Rpc Z := mgets (λ s, system_now (m_global s) n).

Definition read_partition (request : Request) (ctx : CallContext) : Rpc (option RecordBatch) :=
  with_session request ctx (λ a _,
    payload ← mlift (request_binary request "payload");
    x ← held_session a;
    now ← read_clock 0;
    partition ← mlift (map_err adbc_rpc_error (open_partition mg x now payload MAX_CONTROL_BYTES));
    reader ← via a (with_connection (λ c, conn_read_partition c partition));
    insert_reader_response a reader ctx).

(** ** Statements *)

Definition set_statement_option (request : Request) (ctx : CallContext)
  : Rpc (option RecordBatch) :=
  with_typed sso_session_id request ctx (λ a args,
    value ← mlift (map_err protocol_rpc_error (option_value_into_adbc (sso_value args)));
    via a (with_statement (sso_statement_id args) (λ st, stmt_set_option st (sso_key args) value));;
    reply ok_batch).

Definition get_statement_option (request : Request) (ctx : CallContext)
  : Rpc (option RecordBatch) :=
  with_session request ctx (λ a _,
    statement_id ← mlift (request_string request "statement_id");
    key ← mlift (request_string request "key");
    value_type ← mlift (request_string request "value_type");
    value ← via a (with_statement statement_id (λ st,
      typed_getter value_type (stmt_get_option_string st key) (stmt_get_option_bytes st key)
        (stmt_get_option_int st key) (stmt_get_option_double st key)));
    reply (value_response value)).

Definition set_sql_query (request : Request) (ctx : CallContext) : Rpc (option RecordBatch) :=
  with_session request ctx (λ a _,
    statement_id ← mlift (request_string request "statement_id");
    sql ← mlift (request_string request "sql");
    via a (with_statement statement_id (λ st, stmt_set_sql_query st sql));;
    reply ok_batch).

Definition set_substrait_plan (request : Request) (ctx : CallContext) : Rpc (option RecordBatch) :=
  with_session request ctx (λ a _,
    statement_id ← mlift (request_string request "statement_id");
    plan ← mlift (request_binary request "payload");
    via a (with_statement statement_id (λ st, stmt_set_substrait_plan st plan));;
    reply ok_batch).

Definition prepare (request : Request) (ctx : CallContext) : Rpc (option RecordBatch) :=
  with_session request ctx (λ a _,
    statement_id ← mlift (request_string request "statement_id");
    via a (with_statement statement_id stmt_prepare);;
    reply ok_batch).

Definition cancel_statement_method (request : Request) (ctx : CallContext)
  : Rpc (option RecordBatch) :=
  with_session request ctx (λ a _,
    statement_id ← mlift (request_string request "statement_id");
    via a (cancel_statement statement_id);;
    reply ok_batch).

Definition execute (request : Request) (ctx : CallContext) : Rpc (option RecordBatch) :=
  with_session request ctx (λ a _,
    statement_id ← mlift (request_string request "statement_id");
    via a (invalidate_statement_results statement_id);;
    reader ← via a (with_statement statement_id stmt_execute);
    '(result_id, schema) ← via a (insert_statement_result uuid statement_id reader);
    b ← result_response a result_id schema (response_limit ctx);
    mret (Some b)).

Definition execute_update (request : Request) (ctx : CallContext) : Rpc (option RecordBatch) :=
  with_session request ctx (λ a _,
    statement_id ← mlift (request_string request "statement_id");
    via a (invalidate_statement_results statement_id);;
    affected ← via a (with_statement statement_id stmt_execute_update);
    reply (typed_response (mkUpdateResponse affected))).

Definition execute_schema (request : Request) (ctx : CallContext) : Rpc (option RecordBatch) :=
  with_session request ctx (λ a _,
    statement_id ← mlift (request_string request "statement_id");
    via a (invalidate_statement_results statement_id);;
    schema ← via a (with_statement statement_id stmt_execute_schema);
    reply (schema_response schema)).

Definition get_parameter_schema (request : Request) (ctx : CallContext)
  : Rpc (option RecordBatch) :=
  with_session request ctx (λ a _,
    statement_id ← mlift (request_string request "statement_id");
    schema ← via a (with_statement statement_id stmt_get_parameter_schema);
    reply (schema_response schema)).

(** [size_of::<Bytes>()]: a vector is three words. *)
Definition size_of_bytes : Z := 24.

Definition exceeds_limit : RpcError := value_error "partition response exceeds limit".

(** The loop of [execute_partitions]: tokens are charged against what is left
    of the response. *)
Fixpoint seal_partitions (x : Session) (clock : nat → Z) (n : nat) (remaining : Z)
    (descriptors : list bytes) : result RpcError (list bytes) :=
  match descriptors with
  | [] => Ok []
  | descriptor :: descriptors =>
      token ← map_err adbc_rpc_error (seal_partition mg x (clock n) descriptor remaining);
      remaining ← ok_or (usize_checked_sub remaining (len token + size_of_bytes)) exceeds_limit;
      rest ← seal_partitions x clock (S n) remaining descriptors;
      Ok (token :: rest)
  end.

Definition execute_partitions (request : Request) (ctx : CallContext)
  : Rpc (option RecordBatch) :=
  with_session request ctx (λ a _,
    statement_id ← mlift (request_string request "statement_id");
    via a (invalidate_statement_results statement_id);;
    executed ← via a (with_statement statement_id stmt_execute_partitions);
    schema ← mlift (map_err protocol_rpc_error (encode_schema (pr_schema executed)));
    let limit := response_limit ctx in
    remaining ← mlift (ok_or (usize_checked_sub limit (len schema)) exceeds_limit);
    x ← held_session a;
    clock ← mgets (λ s, system_now (m_global s));
    partitions ← mlift (seal_partitions x clock 0 remaining (Backend.pr_partitions executed));
    reply (map_err protocol_rpc_error
      (bounded_response
         (mkPartitionsResponse (Backend.pr_rows_affected executed) schema partitions) limit))).

Definition close_statement_method (request : Request) (ctx : CallContext)
  : Rpc (option RecordBatch) :=
  with_session request ctx (λ a _,
    statement_id ← mlift (request_string request "statement_id");
    via a (close_statement statement_id);;
    reply ok_batch).

(** ** Results *)

Definition close_result_method (request : Request) (ctx : CallContext)
  : Rpc (option RecordBatch) :=
  with_session request ctx (λ a _,
    result_id ← mlift (request_string request "result_id");
    via a (close_result result_id);;
    reply ok_batch).

Definition read_result (request : Request) (ctx : CallContext) : Rpc StreamResult :=
  with_session request ctx (λ a session_id,
    result_id ← mlift (request_string request "result_id");
    sequence ← mlift (map_err protocol_rpc_error (batch_int64_value (batch request) "sequence"));
    schema ← via a (result_schema result_id);
    mret (ProducerStream schema (mkResultCursor session_id result_id sequence))).

(** [ResultProducer]: one turn of the stream, on the cursor it was left with. *)
Definition produce (cursor : ResultCursor) (out : OutputCollector) (ctx : CallContext)
  : Rpc (ResultCursor * OutputCollector) :=
  a ← session_by_id (rc_session_id cursor) ctx;
  releasing a (
    next ← via a (next_result (rc_result_id cursor) (rc_sequence cursor));
    match next with
    | Some b =>
        out ← mlift (emit out b);
        mret (mkResultCursor (rc_session_id cursor) (rc_result_id cursor)
                (wrap_signed 64 (rc_sequence cursor + 1)), out)
    | None => mret (cursor, out_finish out)
    end).

(** Errors of the callbacks that release a stream are dropped. *)
Definition quietly {A} (m : Rpc A) : Rpc unit := λ s, (Ok tt, (m s).2).

Definition producer_on_cancel (cursor : ResultCursor) (ctx : CallContext) : Rpc unit :=
  quietly (
    a ← session_by_id (rc_session_id cursor) ctx;
    releasing a (via a (close_result (rc_result_id cursor)))).

Definition producer_encode_state (cursor : ResultCursor) : result RpcError bytes :=
  as_bytes <$> map_err (λ error, runtime_error ("encode result cursor: " +:+ error)) (to_json cursor).

Definition producer_decode_state (b : bytes) : result RpcError ResultCursor :=
  map_err (λ error, rpc_protocol_error ("decode result cursor: " +:+ error)) (from_json (from_bytes b)).

(** ** Binding *)

Definition bind_exchange (mode : BindMode) (max_bind_bytes : Z) (request : Request)
    (ctx : CallContext) : Rpc StreamResult :=
  with_session request ctx (λ a session_id,
    statement_id ← mlift (request_string request "statement_id");
    schema_ipc ← mlift (request_binary request "schema_ipc");
    schema ← mlift (map_err protocol_rpc_error (decode_schema schema_ipc));
    upload_id ← via a (start_bind_upload uuid statement_id mode schema max_bind_bytes);
    mret (ExchangeStream empty_response_schema bind_turn_schema
            (mkBindCursor session_id upload_id max_bind_bytes))).

(** The upload is cancelled when the turn fails. *)
Definition cancelling {A} (a : nat) (upload_id : string) (m : Rpc A) : Rpc A := λ s,
  match m s with
  | (Ok v, s) => (Ok v, s)
  | (Err e, s) => (Err e, (on_session a (mmodify (cancel_bind_upload upload_id)) s).2)
  end.

Definition exchange (cursor : BindCursor) (input : RecordBatch) (out : OutputCollector)
    (ctx : CallContext) : Rpc OutputCollector :=
  a ← session_by_id (bc_session_id cursor) ctx;
  releasing a (
    turn ← cancelling a (bc_upload_id cursor)
      (mlift (map_err protocol_rpc_error
        (decode_bind_turn input (Z.min (bc_max_bytes cursor) MAX_CONTROL_BYTES))));
    match turn with
    | Some b =>
        cancelling a (bc_upload_id cursor) (via a (push_bind_upload (bc_upload_id cursor) b));;
        ack ← mlift bind_ack;
        mlift (emit out ack)
    | None =>
        via a (finish_bind_upload (bc_upload_id cursor));;
        ack ← mlift bind_ack;
        out ← mlift (emit out ack);
        mret (out_finish out)
    end).

Definition exchange_on_cancel (cursor : BindCursor) (ctx : CallContext) : Rpc unit :=
  quietly (
    a ← session_by_id (bc_session_id cursor) ctx;
    releasing a (via a (mmodify (cancel_bind_upload (bc_upload_id cursor))))).

Definition exchange_encode_state (cursor : BindCursor) : result RpcError bytes :=
  as_bytes <$> map_err (λ error, runtime_error ("encode bind cursor: " +:+ error)) (to_json cursor).

Definition exchange_decode_state (b : bytes) : result RpcError BindCursor :=
  map_err (λ error, rpc_protocol_error ("decode bind cursor: " +:+ error)) (from_json (from_bytes b)).

(** ** Registration *)

Inductive MethodInfo : Type :=
| Unary (params : list Field) (handler : Request → CallContext → Rpc (option RecordBatch))
| Streaming (params : list Field) (handler : Request → CallContext → Rpc StreamResult).

Definition register_open_connection : list (string * MethodInfo) :=
  [(method.OPEN_CONNECTION, Unary (envelope_schema "request") open_connection)].

Definition register_session_operations : list (string * MethodInfo) :=
  [(method.COMMIT, Unary session_schema commit_method);
   (method.ROLLBACK, Unary session_schema rollback_method);
   (method.CANCEL_CONNECTION, Unary session_schema cancel_connection_method);
   (method.CLOSE_CONNECTION, Unary session_schema close_connection);
   (method.NEW_STATEMENT, Unary session_schema new_statement_method)].

Definition register_connection_surface : list (string * MethodInfo) :=
  [(method.SET_CONNECTION_OPTION, Unary (envelope_schema "request") set_connection_option_method);
   (method.GET_CONNECTION_OPTION, Unary connection_option_key_schema get_connection_option);
   (method.GET_INFO, Unary (envelope_schema "request") get_info);
   (method.GET_OBJECTS, Unary (envelope_schema "request") get_objects);
   (method.GET_TABLE_SCHEMA, Unary (envelope_schema "request") get_table_schema);
   (method.GET_TABLE_TYPES, Unary session_schema get_table_types);
   (method.GET_STATISTIC_NAMES, Unary session_schema get_statistic_names);
   (method.GET_STATISTICS, Unary (envelope_schema "request") get_statistics);
   (method.READ_PARTITION, Unary connection_binary_schema read_partition)].

Definition register_statement_operations (max_bind_bytes : Z) : list (string * MethodInfo) :=
  [(method.SET_STATEMENT_OPTION, Unary (envelope_schema "request") set_statement_option);
   (method.GET_STATEMENT_OPTION, Unary statement_option_key_schema get_statement_option);
   (method.SET_SQL_QUERY, Unary set_sql_schema set_sql_query);
   (method.SET_SUBSTRAIT_PLAN, Unary statement_binary_schema set_substrait_plan);
   (method.PREPARE, Unary statement_schema prepare);
   (method.BIND, Streaming bind_init_schema (bind_exchange Batch max_bind_bytes));
   (method.BIND_STREAM, Streaming bind_init_schema (bind_exchange Stream max_bind_bytes));
   (method.CANCEL_STATEMENT, Unary statement_schema cancel_statement_method);
   (method.EXECUTE, Unary statement_schema execute);
   (method.EXECUTE_UPDATE, Unary statement_schema execute_update);
   (method.EXECUTE_SCHEMA, Unary statement_schema execute_schema);
   (method.GET_PARAMETER_SCHEMA, Unary statement_schema get_parameter_schema);
   (method.EXECUTE_PARTITIONS, Unary statement_schema execute_partitions);
   (method.CLOSE_STATEMENT, Unary statement_schema close_statement_method)].

Definition register_result_operations : list (string * MethodInfo) :=
  [(method.CLOSE_RESULT, Unary Arrow.result_schema close_result_method);
   (method.READ_RESULT, Streaming read_result_schema read_result)].

Definition server_methods (max_bind_bytes : Z) : list (string * MethodInfo) :=
  register_open_connection ++ register_session_operations ++ register_connection_surface
  ++ register_statement_operations max_bind_bytes ++ register_result_operations.

Definition build_server : list (string * MethodInfo) := server_methods MAX_BIND_STREAM_BYTES.
End Service.
