(* ===== verification/ServiceSteps.v ===== *)
(** * Handlers as steps of the manager (grainlift-server/src/service.rs)

    Every handler of the service, on every path, is a sequence of the atomic
    steps of [mstep] that gives back the reference it took, so that all the
    manager and its sessions guarantee holds while any number of requests run. *)

From S2P Require Import Prelude Adbc WireError Options Arrow Framing Envelope Partitions.
From S2P Require Import Config Backend ResultCursor BindUpload Session SessionSteps Manager.
From S2P Require Import ManagerSteps Rpc Service.

Section ServiceSteps.
Context `{AdbcCore} `{RustFmt} `{ArrowCrate} `{!IpcCrate} `{FileSystem} `{AdbcOptions} `{!Backend}.
Context `{Base64} `{Hmac} `{VgiRpc} `{!StructCrate} `{!WireRecords}.
Context `{!Json WireAdbcError} `{!Json BindCursor} `{!Json ResultCursor}.
Context (uuid : nat → string) (system_now : Global → nat → Z) (mg : Manager).

Abbreviation Rpc := (M MState RpcError).
Abbreviation step := (mstep uuid mg).

(** ** The registry's lock stays usable *)

Lemma release_healthy p s : healthy s → healthy (release_open_reservation p s).2.
Proof.
  intros Hs. unfold release_open_reservation, lock_registry, mbind, M_bind, lock, mmodify, healthy.
  by destruct (mx_poisoned (m_registry s)) eqn:E.
Qed.

Lemma register_healthy p id x s : healthy s → healthy (register p id x s).2.
Proof.
  intros Hs. unfold register, lock_registry, mbind, M_bind, lock, mprim.
  destruct (mx_poisoned (m_registry s)) eqn:E; [done|]. simpl.
  destruct (m_closing s); [done|]. unfold healthy. simpl.
  by rewrite (proj1 (drop_arcs_registry _ _)).
Qed.

Lemma get_healthy id p s : healthy s → healthy (get mg id p s).2.
Proof.
  intros Hs. unfold get, lock_registry, mbind, M_bind, lock, mprim.
  destruct (mx_poisoned (m_registry s)) eqn:E; [done|].
  destruct (find_session _ _ _ _) as [[b x]|]; [|done].
  destruct (lease_expired _ _ _) as [ex|]; [|done]. unfold healthy.
  destruct (ex && _); simpl; [by rewrite (proj1 (drop_arc_registry _ _))|].
  unfold clone_arc, touch. by destruct (m_heap s !! b) as [[n y]|]; simpl; destruct (_ !! b) as [[]|].
Qed.

Lemma close_healthy id p s : healthy s → healthy (close id p s).2.
Proof.
  intros Hs. unfold close, lock_registry, mbind, M_bind, lock, mprim.
  destruct (mx_poisoned (m_registry s)) eqn:E; [done|].
  destruct (find_session _ _ _ _) as [[b x]|]; [|done]. unfold healthy. simpl.
  by rewrite (proj1 (drop_arc_registry _ _)).
Qed.

Lemma detach_healthy s : healthy s → healthy (detach_all s).2.
Proof.
  intros Hs. unfold detach_all, lock_registry, mbind, M_bind, lock, mprim.
  destruct (mx_poisoned (m_registry s)) eqn:E; [done|]. unfold healthy. simpl.
  by rewrite (proj1 (drop_arcs_registry _ _)).
Qed.

Lemma mstep_healthy G G' : step G G' → healthy (gs G) → healthy (gs G').
Proof.
  intros Hstep Hs. destruct Hstep as
    [p s s' ? ? ? Hr|p s|p id t target c now s|s|id p a s s' ? ? ? Hg|id p e s s' ? ? ? Hg|a s
    |id p s|s|n s s' ? ? ? ? Hd|a n x st s|g s]; simpl in *; try done.
  - by eapply (admit_healthy mg).
  - by apply release_healthy.
  - by apply register_healthy.
  - by apply (reap_healthy mg).
  - pose proof (get_healthy id p s Hs) as Hh. by rewrite Hg in Hh.
  - pose proof (get_healthy id p s Hs) as Hh. by rewrite Hg in Hh.
  - unfold healthy. by rewrite (proj1 (drop_arc_registry _ _)).
  - by apply close_healthy.
  - pose proof (detach_healthy s Hs) as Hh. by rewrite Hd in Hh.
Qed.

Lemma steps_healthy G G' : rtc step G G' → healthy (gs G) → healthy (gs G').
Proof. induction 1; [done|]. intros Hs. eauto using mstep_healthy. Qed.

(** ** Computations through one reference *)

(** One session operation through the reference [a]. *)
Definition via_step (a : nat) (s s' : MState) : Prop :=
  ∃ A (op : M SState AdbcError A), steps_of uuid op ∧ s' = (on_session a op s).2.

(** What a handler does between taking and releasing its reference. *)
Definition held_steps {A} (a : nat) (m : Rpc A) : Prop := ∀ s, rtc (via_step a) s (m s).2.

Lemma held_bind {A B} a (m : Rpc A) (k : A → Rpc B) :
  held_steps a m → (∀ x, held_steps a (k x)) → held_steps a (m ≫= k).
Proof.
  intros Hm Hk s. specialize (Hm s). unfold mbind, M_bind.
  destruct (m s) as [[x|e] s1]; [|done]. etrans; [exact Hm|]. apply Hk.
Qed.

Lemma held_same {A} a (m : Rpc A) : (∀ s, (m s).2 = s) → held_steps a m.
Proof. intros Hm s. by rewrite Hm. Qed.

Lemma held_lift {A} a (r : result RpcError A) : held_steps a (mlift r).
Proof. by apply held_same. Qed.

Lemma held_ret {A} a (x : A) : held_steps a (mret x).
Proof. by apply held_same. Qed.

Lemma held_reply a r : held_steps a (reply r).
Proof. apply held_same. intros s. by destruct r. Qed.

Lemma on_session_via {A} a (op : M SState AdbcError A) s :
  steps_of uuid op → rtc (via_step a) s (on_session a op s).2.
Proof. intros Hop. apply rtc_once. by exists A, op. Qed.

Lemma held_via {A} a (op : M SState AdbcError A) : steps_of uuid op → held_steps a (via a op).
Proof.
  intros Hop s. pose proof (on_session_via a op s Hop) as Hst.
  unfold via, adbc, mmap_err. by destruct (on_session a op s).
Qed.

Lemma steps_cancel_upload id : steps_of uuid (mmodify (cancel_bind_upload id)).
Proof. eapply implements_steps, cancel_upload_implements. Qed.

Lemma held_cancelling {A} a id (m : Rpc A) : held_steps a m → held_steps a (cancelling a id m).
Proof.
  intros Hm s. specialize (Hm s). unfold cancelling.
  destruct (m s) as [[v|e] s1]; [done|]. etrans; [exact Hm|].
  apply on_session_via, steps_cancel_upload.
Qed.

Lemma held_handle_response {T} `{!VgiArrow T} `{!ResponseRecord T} a (value : T) limit
    (op : M SState AdbcError unit) :
  steps_of uuid op → held_steps a (handle_response value limit (on_session a op)).
Proof.
  intros Hop s. unfold handle_response. destruct (bounded_response _ _); [done|].
  by apply on_session_via.
Qed.

Lemma held_result_response a id schema limit : held_steps a (result_response a id schema limit).
Proof.
  intros s. unfold result_response. destruct (execute_record _ _ _); [done|].
  eapply on_session_via, implements_steps, close_result_implements.
Qed.

(** ** Handlers of one session

    A request is refused before it reaches the manager, refused by the lookup of
    the session, or it works through the reference the lookup returned and
    releases it. *)
Definition session_handler {A} (ctx : CallContext) (m : Rpc A) : Prop := ∀ s,
  (∃ e, m s = (Err e, s))
  ∨ ∃ p id, principal mg (auth ctx) = Ok p ∧
      match get mg id p s with
      | (Ok a, s1) => ∃ s2, rtc (via_step a) s1 s2 ∧ (m s).2 = drop_arc a s2
      | (Err e, s1) => m s = (Err (adbc_rpc_error e), s1)
      end.

Lemma handler_lift {A B} ctx (r : result RpcError A) (k : A → Rpc B) :
  (∀ a, session_handler ctx (k a)) → session_handler ctx (mlift r ≫= k).
Proof.
  intros Hk s. destruct r as [a|e]; [apply Hk|]. left. by exists e.
Qed.

Lemma by_id_handler {A} id ctx (body : nat → Rpc A) :
  (∀ a, held_steps a (body a)) →
  session_handler ctx (a ← session_by_id mg id ctx; releasing a (body a)).
Proof.
  intros Hb s. unfold session_by_id. destruct (principal mg (auth ctx)) as [p|e] eqn:Hp; [|left; by exists e].
  right. exists p, id. split; [done|]. unfold mbind, M_bind, mlift, adbc, mmap_err.
  destruct (get mg id p s) as [[a|e] s1]; [|done]. simpl. unfold releasing.
  specialize (Hb a s1). destruct (body a s1) as [r s2]. by exists s2.
Qed.

Lemma with_session_handler {A} request ctx (body : nat → string → Rpc A) :
  (∀ a id, held_steps a (body a id)) → session_handler ctx (with_session mg request ctx body).
Proof.
  intros Hb s. unfold with_session, get_session.
  destruct (validate_protocol_version request) as [[]|e]; [|left; by exists e].
  destruct (principal mg (auth ctx)) as [p|e] eqn:Hp; [|left; by exists e].
  destruct (request_string request "session_id") as [id|e]; [|left; by exists e].
  right. exists p, id. split; [done|]. unfold mbind, M_bind, mlift, adbc, mmap_err, mret, M_ret.
  destruct (get mg id p s) as [[a|e] s1]; [|done]. simpl. unfold releasing.
  specialize (Hb a id s1). destruct (body a id s1) as [r s2]. by exists s2.
Qed.

Lemma with_typed_handler {T A} `{!VgiArrow T} `{!RequestRecord T} (f : T → string) request ctx
    (body : nat → T → Rpc A) :
  (∀ a args, held_steps a (body a args)) → session_handler ctx (with_typed mg f request ctx body).
Proof. intros Hb. apply handler_lift. intros args. by apply by_id_handler. Qed.

(** ** Handlers as steps of the manager *)

(** A computation that ends with the references it began with. *)
Definition rpc_steps {A} (m : Rpc A) : Prop := ∀ s pend hd d,
  healthy s → rtc step (mkGState s pend hd d) (mkGState (m s).2 pend hd d).

(** Steps of the session are steps of the manager. *)
Lemma session_steps_lift a n x st s pend hd d :
  a ∈ hd → m_heap s !! a = Some (n, x) →
  rtc (session_step uuid) (mkSState (m_global s) x) st →
  rtc step (mkGState s pend hd d)
    (mkGState (set_heap (<[a := (n, st_session st)]> (m_heap s)) (set_global (st_global st) s))
       pend hd d).
Proof.
  intros Ha Hx Hr. remember (mkSState (m_global s) x) as st0 eqn:Hst0.
  revert s x Hx Hst0. induction Hr as [st0|st0 st1 st2 Hs Hr IH]; intros s x Hx ->.
  - simpl. rewrite insert_id by done. by destruct s.
  - eapply rtc_l; [by eapply ms_session|].
    specialize (IH (set_heap (<[a := (n, st_session st1)]> (m_heap s)) (set_global (st_global st1) s))
      (st_session st1)).
    simpl in IH. rewrite insert_insert_eq in IH. apply IH; [apply lookup_insert_eq|by destruct st1].
Qed.

Lemma via_steps_lift a s s' pend hd d :
  a ∈ hd → rtc (via_step a) s s' →
  rtc step (mkGState s pend hd d) (mkGState s' pend hd d).
Proof.
  intros Ha. induction 1 as [|s s1 s2 (A & op & Hop & ->) _ IH]; [done|]. etrans; [|exact IH].
  unfold on_session. destruct (m_heap s !! a) as [[n x]|] eqn:Hx; [|done].
  specialize (Hop (mkSState (m_global s) x)).
  destruct (op (mkSState (m_global s) x)) as [r st]. by eapply session_steps_lift.
Qed.

Lemma session_handler_steps {A} ctx (m : Rpc A) : session_handler ctx m → rpc_steps m.
Proof.
  intros Hm s pend hd d Hs. destruct (Hm s) as [[e ->]|(p & id & _ & Hg)]; [done|].
  destruct (get mg id p s) as [[a|e] s1] eqn:Hget.
  - destruct Hg as (s2 & Hr & ->). eapply rtc_l; [by eapply ms_get|].
    eapply rtc_r; [eapply (via_steps_lift a s1 s2 pend (a :: hd) d); [left|done]|].
    by eapply ms_done.
  - rewrite Hg. by eapply rtc_once, ms_get_refused.
Qed.

Lemma rpc_lift {A B} (r : result RpcError A) (k : A → Rpc B) :
  (∀ a, rpc_steps (k a)) → rpc_steps (mlift r ≫= k).
Proof.
  intros Hk s pend hd d Hs. unfold mbind, M_bind, mlift. destruct r as [a|]; [by apply Hk|done].
Qed.

Lemma rpc_bind {A B} (m : Rpc A) (k : A → Rpc B) :
  rpc_steps m → (∀ a, rpc_steps (k a)) → rpc_steps (m ≫= k).
Proof.
  intros Hm Hk s pend hd d Hs. specialize (Hm s pend hd d Hs). unfold mbind, M_bind.
  destruct (m s) as [[a|e] s1]; [|done]. etrans; [exact Hm|]. apply Hk.
  exact (steps_healthy _ _ Hm Hs).
Qed.

Lemma rpc_adbc {A} (m : M MState AdbcError A) :
  (∀ s pend hd d, healthy s → rtc step (mkGState s pend hd d) (mkGState (m s).2 pend hd d)) →
  rpc_steps (adbc m).
Proof.
  intros Hm s pend hd d Hs. specialize (Hm s pend hd d Hs). unfold adbc, mmap_err.
  by destruct (m s).
Qed.

Lemma rpc_same {A} (m : Rpc A) : (∀ s, (m s).2 = s) → rpc_steps m.
Proof. intros Hm s pend hd d _. by rewrite Hm. Qed.

Lemma rpc_quietly {A} (m : Rpc A) : rpc_steps m → rpc_steps (quietly m).
Proof. intros Hm s pend hd d Hs. by apply Hm. Qed.

(** ** The handlers *)

Lemma steps_with_connection {A} (op : Conn → M World AdbcError A) : steps_of uuid (with_connection op).
Proof. eapply implements_steps, with_connection_implements. Qed.
Lemma steps_with_statement {A} id (op : Stmt → M World AdbcError A) : steps_of uuid (with_statement id op).
Proof. eapply implements_steps, with_statement_implements. Qed.
Lemma steps_result_schema id : steps_of uuid (result_schema id).
Proof. eapply implements_steps, result_schema_implements. Qed.
Lemma steps_next_result id n : steps_of uuid (next_result id n).
Proof. eapply implements_steps, next_result_implements. Qed.
Lemma steps_close_result id : steps_of uuid (close_result id).
Proof. eapply implements_steps, close_result_implements. Qed.
Lemma steps_insert_result r : steps_of uuid (insert_result uuid r).
Proof. eapply implements_steps, insert_implements. Qed.
Lemma steps_insert_statement_result id r : steps_of uuid (insert_statement_result uuid id r).
Proof. eapply implements_steps, execute_implements. Qed.
Lemma steps_set_connection_option key v : steps_of uuid (set_connection_option key v).
Proof. eapply implements_steps, set_option_implements. Qed.
Lemma steps_cancel_connection : steps_of uuid cancel_connection.
Proof. eapply implements_steps, cancel_connection_implements. Qed.
Lemma steps_new_statement : steps_of uuid (new_statement uuid).
Proof. eapply implements_steps, new_statement_implements. Qed.
Lemma steps_cancel_statement id : steps_of uuid (cancel_statement id).
Proof. eapply implements_steps, cancel_statement_implements. Qed.
Lemma steps_close_statement id : steps_of uuid (close_statement id).
Proof. eapply implements_steps, close_statement_implements. Qed.
Lemma steps_invalidate id : steps_of uuid (invalidate_statement_results id).
Proof. eapply implements_steps, invalidate_implements. Qed.
Lemma steps_start_bind_upload id mode schema n : steps_of uuid (start_bind_upload uuid id mode schema n).
Proof. eapply implements_steps, start_upload_implements. Qed.
Lemma steps_push_bind_upload id batch : steps_of uuid (push_bind_upload id batch).
Proof. eapply implements_steps, push_implements. Qed.
Lemma steps_finish_bind_upload id : steps_of uuid (finish_bind_upload id).
Proof. eapply implements_steps, finish_upload_implements. Qed.
Lemma steps_commit : steps_of uuid commit.
Proof. apply steps_with_connection. Qed.
Lemma steps_rollback : steps_of uuid rollback.
Proof. apply steps_with_connection. Qed.

Hint Resolve steps_commit steps_rollback steps_insert_result steps_result_schema steps_next_result
  steps_close_result steps_with_connection steps_with_statement steps_set_connection_option
  steps_cancel_connection steps_new_statement steps_cancel_statement steps_close_statement
  steps_invalidate steps_start_bind_upload steps_push_bind_upload steps_finish_bind_upload
  steps_insert_statement_result steps_cancel_upload : grainlift.

Lemma held_session_steps a b : held_steps a (held_session b).
Proof. apply held_same. intros s. unfold held_session. by destruct (session_at s b). Qed.

Lemma held_read {A} a (f : MState → A) : held_steps a (mgets f).
Proof. by apply held_same. Qed.

(** Walk through the body of a handler. *)
Ltac held :=
  repeat first
    [ apply held_lift | apply held_ret | apply held_reply | apply held_result_response
    | apply held_session_steps | apply held_read | apply held_cancelling
    | apply held_via; auto with grainlift
    | apply held_bind; [|intros ?; cbv beta]
    | match goal with |- held_steps _ (let '(_, _) := ?x in _) => destruct x end
    | match goal with |- held_steps _ (match ?x with _ => _ end) => destruct x end ].

Lemma held_insert_reader a r ctx : held_steps a (insert_reader_response uuid a r ctx).
Proof. unfold insert_reader_response. held. Qed.

Ltac handler :=
  first [apply with_session_handler | apply with_typed_handler]; intros ? ?; cbv beta zeta;
  repeat (held; try apply held_insert_reader).

Lemma session_operation_handler op request ctx :
  steps_of uuid op → session_handler ctx (session_operation mg op request ctx).
Proof. intros Hop. unfold session_operation. handler. Qed.

Lemma new_statement_handler request ctx :
  session_handler ctx (new_statement_method uuid mg request ctx).
Proof.
  unfold new_statement_method. apply with_session_handler. intros a id.
  apply held_bind; [apply held_via; auto with grainlift|]. intros sid.
  apply held_bind; [|intros b; apply held_ret]. apply held_handle_response. auto with grainlift.
Qed.

(** The methods that work on a session the caller names. *)
Definition method_on_session (info : MethodInfo) : Prop :=
  match info with
  | Unary _ handler => ∀ request ctx, session_handler ctx (handler request ctx)
  | Streaming _ handler => ∀ request ctx, session_handler ctx (handler request ctx)
  end.

Definition session_methods (max : Z) : list (string * MethodInfo) :=
  filter (λ m, m.1 ∉ [method.OPEN_CONNECTION; method.CLOSE_CONNECTION])
    (server_methods uuid system_now mg max).

(** One goal per entry of a table. *)
Ltac entries := repeat apply Forall_cons_2; [..|by apply Forall_nil_2]; cbn [fst snd method_on_session].

Lemma connection_surface_handlers :
  Forall (λ m, method_on_session m.2) (register_connection_surface uuid system_now mg).
Proof.
  entries; intros request ctx.
  - unfold set_connection_option_method. handler.
  - unfold get_connection_option. handler.
  - unfold get_info. handler.
  - unfold get_objects. handler.
  - unfold get_table_schema. handler.
  - unfold get_table_types. handler.
  - unfold get_statistic_names. handler.
  - unfold get_statistics. handler.
  - unfold read_partition. handler.
Qed.

Lemma statement_operations_handlers max :
  Forall (λ m, method_on_session m.2) (register_statement_operations uuid system_now mg max).
Proof.
  entries; intros request ctx.
  - unfold set_statement_option. handler.
  - unfold get_statement_option. handler.
  - unfold set_sql_query. handler.
  - unfold set_substrait_plan. handler.
  - unfold prepare. handler.
  - unfold bind_exchange. handler.
  - unfold bind_exchange. handler.
  - unfold cancel_statement_method. handler.
  - unfold execute. handler.
  - unfold execute_update. handler.
  - unfold execute_schema. handler.
  - unfold get_parameter_schema. handler.
  - unfold execute_partitions. handler.
  - unfold close_statement_method. handler.
Qed.

Lemma result_operations_handlers :
  Forall (λ m, method_on_session m.2) (register_result_operations mg).
Proof.
  entries; intros request ctx.
  - unfold close_result_method. handler.
  - unfold read_result. handler.
Qed.

Lemma session_operations_handlers :
  Forall (λ m, m.1 = method.CLOSE_CONNECTION ∨ method_on_session m.2)
    (register_session_operations uuid mg).
Proof.
  entries; (by left) || (right; intros request ctx).
  - apply session_operation_handler; auto with grainlift.
  - apply session_operation_handler; auto with grainlift.
  - apply session_operation_handler; auto with grainlift.
  - apply new_statement_handler.
Qed.

Lemma session_methods_handlers max :
  Forall (λ m, method_on_session m.2) (session_methods max).
Proof.
  apply Forall_forall. intros m [Hn Hm]%list_elem_of_filter. unfold server_methods in Hm.
  rewrite !elem_of_app in Hm. destruct Hm as [Hm|[Hm|[Hm|[Hm|Hm]]]].
  - apply list_elem_of_singleton in Hm as ->. simpl in Hn. set_solver.
  - pose proof (proj1 (Forall_forall _ _) session_operations_handlers m Hm) as [Hc|]; [|done].
    rewrite Hc in Hn. set_solver.
  - exact (proj1 (Forall_forall _ _) connection_surface_handlers m Hm).
  - exact (proj1 (Forall_forall _ _) (statement_operations_handlers max) m Hm).
  - exact (proj1 (Forall_forall _ _) result_operations_handlers m Hm).
Qed.

Lemma produce_handler cursor out ctx : session_handler ctx (produce mg cursor out ctx).
Proof. apply by_id_handler. intros a. held. Qed.

Lemma producer_cancel_handler cursor ctx :
  session_handler ctx (a ← session_by_id mg (rc_session_id cursor) ctx;
                       releasing a (via a (close_result (rc_result_id cursor)))).
Proof. apply by_id_handler. intros a. held. Qed.

Lemma exchange_handler cursor input out ctx : session_handler ctx (exchange mg cursor input out ctx).
Proof. apply by_id_handler. intros a. held. Qed.

Lemma exchange_cancel_handler cursor ctx :
  session_handler ctx (a ← session_by_id mg (bc_session_id cursor) ctx;
                       releasing a (via a (mmodify (cancel_bind_upload (bc_upload_id cursor))))).
Proof. apply by_id_handler. intros a. held. Qed.

Lemma open_connection_steps request ctx : rpc_steps (open_connection uuid mg request ctx).
Proof.
  unfold open_connection. do 4 (apply rpc_lift; intros ?).
  apply rpc_bind; [apply rpc_adbc; intros; by apply (open_steps uuid mg)|]. intros id.
  apply rpc_bind; [|by intros b; apply rpc_same].
  intros s pend hd d Hs. unfold handle_response. destruct (bounded_response _ _); [done|].
  apply rtc_once, ms_close.
Qed.

Lemma close_connection_steps request ctx : rpc_steps (close_connection mg request ctx).
Proof.
  unfold close_connection. do 3 (apply rpc_lift; intros ?).
  apply rpc_bind; [apply rpc_adbc; intros; apply rtc_once, ms_close|].
  intros _. apply rpc_same. intros s. by destruct ok_batch.
Qed.

Definition method_steps (info : MethodInfo) : Prop :=
  match info with
  | Unary _ handler => ∀ request ctx, rpc_steps (handler request ctx)
  | Streaming _ handler => ∀ request ctx, rpc_steps (handler request ctx)
  end.

Lemma method_steps_of_handler info : method_on_session info → method_steps info.
Proof. destruct info; simpl; eauto using session_handler_steps. Qed.

(** A registered method is one of these three kinds. *)
Lemma server_methods_cases max name info :
  (name, info) ∈ server_methods uuid system_now mg max →
  (name, info) = (method.OPEN_CONNECTION, Unary (envelope_schema "request") (open_connection uuid mg))
  ∨ (name, info) = (method.CLOSE_CONNECTION, Unary session_schema (close_connection mg))
  ∨ name ≠ method.OPEN_CONNECTION ∧ method_on_session info.
Proof.
  intros Hm. destruct (decide (name = method.OPEN_CONNECTION)) as [->|Ho].
  { left. repeat (apply elem_of_cons in Hm as [Hm|Hm]; [done || discriminate Hm|]). by apply elem_of_nil in Hm. }
  destruct (decide (name = method.CLOSE_CONNECTION)) as [->|Hc].
  { right; left. repeat (apply elem_of_cons in Hm as [Hm|Hm]; [done || discriminate Hm|]). by apply elem_of_nil in Hm. }
  right; right. split; [done|].
  apply (proj1 (Forall_forall _ _) (session_methods_handlers max) (name, info)).
  apply list_elem_of_filter. split; [set_solver|done].
Qed.
End ServiceSteps.
