(* ===== verification/ReferenceRpc.v ===== *)
(** * Reference instances of the RPC interfaces

    Concrete instances of [VgiRpc], [Json] and [WireRecords] for the examples:
    an error is the triple of its fields, a collector the list it collected, and
    a record is written as one number that encodes it. *)

From S2P Require Import Prelude Adbc WireError Options Arrow Framing Envelope Partitions.
From Stdlib Require Import Ascii.
From S2P Require Import Reference ReferenceIpc Rpc Service.

(** ** The framework *)

Record ref_error : Type := mkRefError { re_type : string; re_message : string; re_kind : string }.

Definition ref_emit (out : list RecordBatch * bool) (b : RecordBatch)
  : result ref_error (list RecordBatch * bool) := Ok (out.1 ++ [b], out.2).

Definition ref_require (a : AuthContext) : result ref_error unit :=
  if authenticated a then Ok tt else Err (mkRefError "PermissionError" "authentication required" "").

Lemma ref_require_Ok a : ref_require a = Ok tt ↔ authenticated a = true.
Proof. unfold ref_require. destruct (authenticated a); naive_solver. Qed.

Lemma ref_emit_emitted out b out' :
  ref_emit out b = Ok out' → out'.1 = out.1 ++ [b] ∧ out'.2 = out.2.
Proof. by intros [= <-]. Qed.

Definition ref_rpc : VgiRpc := {|
  RpcError := ref_error;
  error_type := re_type;
  error_message := re_message;
  rpc_to_string e := re_type e +:+ ": " +:+ re_message e;
  rpc_new t m := mkRefError t m "";
  with_error_kind k e := mkRefError (re_type e) (re_message e) k;
  value_error m := mkRefError "ValueError" m "";
  version_error m := mkRefError "VersionError" m "";
  rpc_protocol_error m := mkRefError "ProtocolError" m "";
  runtime_error m := mkRefError "RuntimeError" m "";
  require_authenticated := ref_require;
  OutputCollector := list RecordBatch * bool;
  emit := ref_emit;
  out_finish out := (out.1, true);
  emitted out := out.1;
  out_finished out := out.2;
  rpc_new_type t m := eq_refl;
  rpc_new_message t m := eq_refl;
  with_error_kind_type k e := eq_refl;
  with_error_kind_message k e := eq_refl;
  require_authenticated_Ok := ref_require_Ok;
  emit_emitted := ref_emit_emitted;
  out_finish_emitted out := conj eq_refl eq_refl
|}.

(** ** Countable records *)

Ltac countable_record f g := refine (inj_countable' f g _); by intros [].

#[global] Instance byte_countable : Countable byte.
Proof. refine (inj_countable Byte.to_N Byte.of_N _). intros b. apply Byte.of_to_N. Defined.

#[global] Instance WireOptionValue_eq : EqDecision WireOptionValue.
Proof. solve_decision. Defined.
#[global] Instance WireOptionValue_countable : Countable WireOptionValue.
Proof.
  countable_record (λ w, (kind w, string_value w, bytes_value w, int_value w, double_value w))
    (λ '(k, s, b, i, d), mkWireOptionValue k s b i d).
Defined.

#[global] Instance NamedOption_eq : EqDecision NamedOption.
Proof. solve_decision. Defined.
#[global] Instance NamedOption_countable : Countable NamedOption.
Proof. countable_record (λ o, (no_key o, no_value o)) (λ '(k, v), mkNamedOption k v). Defined.

(** ** Records as one number *)

Section Number.
Context {T : Type} `{Countable T}.

Definition number_columns (v : T) : list Column := [Int64Array [Some (Zpos (encode v))]].
Definition number_read (c : list Column) : option T :=
  match c with [Int64Array [Some (Zpos p)]] => decode p | _ => None end.

Lemma number_read_columns v : number_read (number_columns v) = Some v.
Proof. simpl. apply decode_encode. Qed.

Definition ref_number (name : string) : @VgiArrow ref_struct T :=
  ref_record [Field_new name Int64 false] number_columns number_read number_read_columns.

(** The number in binary, between braces. *)
Fixpoint pos_text (p : positive) : string :=
  match p with xH => String "}"%char EmptyString | xO p => String "0"%char (pos_text p) | xI p => String "1"%char (pos_text p) end.
Fixpoint text_pos (t : string) : option positive :=
  match t with
  | String "0"%char t => xO <$> text_pos t
  | String "1"%char t => xI <$> text_pos t
  | String "}"%char _ => Some xH
  | _ => None
  end.

Lemma text_pos_text p : text_pos (pos_text p) = Some p.
Proof. induction p as [p IH|p IH|]; simpl; [by rewrite IH..|done]. Qed.

Definition json_write (v : T) : result string string := Ok (String "{"%char (pos_text (encode v))).
Definition json_read (t : string) : result string T :=
  match t with
  | String _ t => ok_or (text_pos t ≫= decode) "not a record"
  | EmptyString => Err "empty"
  end.

Lemma json_read_write v t : json_write v = Ok t → json_read t = Ok v.
Proof. intros [= <-]. simpl. rewrite text_pos_text. simpl. by rewrite decode_encode. Qed.

Lemma json_write_object v t : json_write v = Ok t → starts_with "{" t = true.
Proof. intros [= <-]. apply starts_with_true. by eexists. Qed.

Definition ref_json : Json T :=
  Build_Json T json_write json_read json_read_write json_write_object.
End Number.

(** ** The wire records *)

Section Instances.
#[local] Instance OpenConnectionRequest_eq : EqDecision OpenConnectionRequest.
Proof. solve_decision. Defined.
#[local] Instance OpenConnectionRequest_countable : Countable OpenConnectionRequest.
Proof.
  countable_record (λ r, (oc_target r, oc_database_options r, oc_connection_options r))
    (λ '(t, d, c), mkOpenConnectionRequest t d c).
Defined.
#[local] Instance SetConnectionOptionRequest_eq : EqDecision SetConnectionOptionRequest.
Proof. solve_decision. Defined.
#[local] Instance SetConnectionOptionRequest_countable : Countable SetConnectionOptionRequest.
Proof.
  countable_record (λ r, (sco_session_id r, sco_key r, sco_value r))
    (λ '(s, k, v), mkSetConnectionOptionRequest s k v).
Defined.
#[local] Instance SetStatementOptionRequest_eq : EqDecision SetStatementOptionRequest.
Proof. solve_decision. Defined.
#[local] Instance SetStatementOptionRequest_countable : Countable SetStatementOptionRequest.
Proof.
  countable_record (λ r, (sso_session_id r, sso_statement_id r, sso_key r, sso_value r))
    (λ '(s, t, k, v), mkSetStatementOptionRequest s t k v).
Defined.
#[local] Instance GetInfoRequest_eq : EqDecision GetInfoRequest.
Proof. solve_decision. Defined.
#[local] Instance GetInfoRequest_countable : Countable GetInfoRequest.
Proof. countable_record (λ r, (gi_session_id r, gi_codes r)) (λ '(s, c), mkGetInfoRequest s c). Defined.
#[local] Instance GetObjectsRequest_eq : EqDecision GetObjectsRequest.
Proof. solve_decision. Defined.
#[local] Instance GetObjectsRequest_countable : Countable GetObjectsRequest.
Proof.
  countable_record
    (λ r, (go_session_id r, go_depth r, go_catalog r, go_db_schema r, go_table_name r,
           go_table_types r, go_column_name r))
    (λ '(s, d, c, b, n, t, k), mkGetObjectsRequest s d c b n t k).
Defined.
#[local] Instance GetStatisticsRequest_eq : EqDecision GetStatisticsRequest.
Proof. solve_decision. Defined.
#[local] Instance GetStatisticsRequest_countable : Countable GetStatisticsRequest.
Proof.
  countable_record
    (λ r, (gs_session_id r, gs_catalog r, gs_db_schema r, gs_table_name r, gs_approximate r))
    (λ '(s, c, d, t, a), mkGetStatisticsRequest s c d t a).
Defined.
#[local] Instance OkResponse_eq : EqDecision OkResponse.
Proof. solve_decision. Defined.
#[local] Instance OkResponse_countable : Countable OkResponse.
Proof. countable_record ok mkOkResponse. Defined.
#[local] Instance StatementResponse_eq : EqDecision StatementResponse.
Proof. solve_decision. Defined.
#[local] Instance StatementResponse_countable : Countable StatementResponse.
Proof.
  countable_record (λ r, (str_session_id r, str_statement_id r)) (λ '(s, t), mkStatementResponse s t).
Defined.
#[local] Instance ExecuteResponse_eq : EqDecision ExecuteResponse.
Proof. solve_decision. Defined.
#[local] Instance ExecuteResponse_countable : Countable ExecuteResponse.
Proof.
  countable_record (λ r, (er_result_id r, er_rows_affected r, er_schema_ipc r))
    (λ '(i, n, s), mkExecuteResponse i n s).
Defined.
#[local] Instance SchemaResponse_eq : EqDecision SchemaResponse.
Proof. solve_decision. Defined.
#[local] Instance SchemaResponse_countable : Countable SchemaResponse.
Proof. countable_record sch_schema_ipc mkSchemaResponse. Defined.
#[local] Instance UpdateResponse_eq : EqDecision UpdateResponse.
Proof. solve_decision. Defined.
#[local] Instance UpdateResponse_countable : Countable UpdateResponse.
Proof. countable_record ur_rows_affected mkUpdateResponse. Defined.
#[local] Instance PartitionsResponse_eq : EqDecision PartitionsResponse.
Proof. solve_decision. Defined.
#[local] Instance PartitionsResponse_countable : Countable PartitionsResponse.
Proof.
  countable_record (λ r, (Options.pr_rows_affected r, pr_schema_ipc r, Options.pr_partitions r))
    (λ '(n, s, p), mkPartitionsResponse n s p).
Defined.
#[local] Instance ValueResponse_eq : EqDecision ValueResponse.
Proof. solve_decision. Defined.
#[local] Instance ValueResponse_countable : Countable ValueResponse.
Proof. countable_record vr_value mkValueResponse. Defined.
#[local] Instance WireAdbcError_eq : EqDecision WireAdbcError.
Proof. solve_decision. Defined.
#[local] Instance WireAdbcError_countable : Countable WireAdbcError.
Proof.
  countable_record (λ w, (w_status w, w_message w, w_vendor_code w, w_sqlstate w, w_details w))
    (λ '(s, m, v, q, d), mkWireAdbcError s m v q d).
Defined.
#[local] Instance BindCursor_eq : EqDecision BindCursor.
Proof. solve_decision. Defined.
#[local] Instance BindCursor_countable : Countable BindCursor.
Proof.
  countable_record (λ c, (bc_session_id c, bc_upload_id c, bc_max_bytes c))
    (λ '(s, u, m), mkBindCursor s u m).
Defined.
#[local] Instance ResultCursor_eq : EqDecision ResultCursor.
Proof. solve_decision. Defined.
#[local] Instance ResultCursor_countable : Countable ResultCursor.
Proof.
  countable_record (λ c, (rc_session_id c, rc_result_id c, rc_sequence c))
    (λ '(s, r, n), mkResultCursor s r n).
Defined.

Definition ref_records : @WireRecords ref_struct :=
  Build_WireRecords ref_struct
    (ref_number "open_connection") (ref_number "set_connection_option")
    (ref_number "set_statement_option") (ref_number "get_info") (ref_number "get_objects")
    ref_table_schema (ref_number "get_statistics") (ref_number "ok") ref_session_response
    (ref_number "statement") (ref_number "execute") (ref_number "schema") (ref_number "update")
    (ref_number "partitions") (ref_number "value") ref_partition_claims.

Definition ref_json_error : Json WireAdbcError := ref_json.
Definition ref_json_bind : Json BindCursor := ref_json.
Definition ref_json_result : Json ResultCursor := ref_json.
End Instances.
