(* ===== verification/ReferenceService.v ===== *)
(** * A reference service

    Concrete callers, requests and a server state with one session that has a
    result and a bind upload, for the examples of the service theorems. *)

From S2P Require Import Prelude Adbc WireError Options Arrow Framing Envelope Partitions.
From S2P Require Import Config Backend ResultCursor BindUpload Session SessionSteps Manager.
From S2P Require Import ManagerSteps Rpc Service.
From S2P Require Import Reference ReferenceIpc ReferenceBackend ReferenceRpc.

Section ReferenceService.
#[local] Existing Instance simple_core.
#[local] Existing Instance simple_fmt.
#[local] Existing Instance ref_arrow.
#[local] Existing Instance ref_ipc.
#[local] Existing Instance ref_files.
#[local] Existing Instance ref_options.
#[local] Existing Instance ref_backend.
#[local] Existing Instance ref_base64.
#[local] Existing Instance ref_hmac.
#[local] Existing Instance ref_rpc.
#[local] Existing Instance ref_struct.
#[local] Existing Instance ref_records.
#[local] Existing Instance ref_json_error.
#[local] Existing Instance ref_json_bind.
#[local] Existing Instance ref_json_result.

Definition alice : CallContext := mkCallContext (mkAuthContext "bearer" true "alice") None.
Definition alice_principal : string := "bearer" +:+ String nul "alice".

Definition result_session : Session :=
  mkSession alice_principal "orders" (Mutex_new 0)
    (mkSessionResources (Mutex_new ref_conn) (Mutex_new ∅)
       (Mutex_new {["r1" := Mutex_new (ResultEntry_new None ref_reader)]}))
    1000 [] ref_cancel (ClientOptionPolicy_new false [] []) (Mutex_new ∅) (mkSessionLimits 4 2 2 2).

Definition result_items : World := ref_items [Ok (example_rows 7); Ok (example_rows 8)].

Definition result_state : MState :=
  mkMState (mkGlobal result_items 30 0 [] [])
    (Mutex_new (mkSessionRegistry {["id-0" := 0%nat]} 0 ∅)) {[0%nat := (1%nat, result_session)]} 1 false.

(** Requests of the current protocol version. *)
Definition example_request (fields : list Field) (columns : list Column) : Request :=
  mkRequest (mkRecordBatch fields columns 1) {["vgi_rpc.protocol_version" := "0.4.0"]}.

Definition session_request : Request :=
  example_request session_schema [StringArray [Some "id-0"]].

Definition open_args : OpenConnectionRequest := mkOpenConnectionRequest "orders" [] [].

Definition open_request : Request :=
  mkRequest (default (batch session_request) (result_ok (encode_request open_args MAX_CONTROL_BYTES)))
    {["vgi_rpc.protocol_version" := "0.4.0"]}.

Definition example_clock (g : Global) (n : nat) : Z := 5000000.
End ReferenceService.
