(* ===== verification/Streaming.v ===== *)
(** * Reading a result over the wire (service.rs [ResultProducer], session.rs, [ResultEntry])

    The stack below one result stream put together: the cursor that travels to
    the client and back, the lookup of the session, the worker, the registered
    result and its native reader.  A client that keeps asking receives the
    batches of the reader, each once and in order, and then the end. *)

From S2P Require Import Prelude Adbc WireError Options Arrow Framing Envelope Partitions.
From S2P Require Import Config Backend ResultCursor BindUpload Session SessionSteps Manager.
From S2P Require Import ManagerSteps Rpc Service ServiceSteps.
From S2P Require Import Reference ReferenceIpc ReferenceBackend ReferenceRpc ReferenceService.

Section Streaming.
Context `{AdbcCore} `{RustFmt} `{ArrowCrate} `{!IpcCrate} `{FileSystem} `{AdbcOptions} `{!Backend}.
Context `{Base64} `{Hmac} `{VgiRpc} `{!StructCrate} `{!WireRecords}.
Context `{!Json WireAdbcError} `{!Json BindCursor} `{!Json ResultCursor}.
Context (uuid : nat → string) (mg : Manager).

Abbreviation Rpc := (M MState RpcError).

(** ** The client's loop *)

(** One turn: the framework decodes the cursor the client sent back. *)
Definition resume (cursor : ResultCursor) : result RpcError ResultCursor :=
  b ← producer_encode_state cursor; producer_decode_state b.

(** At most [turns] turns, each with a fresh collector; between two turns the
    process does [pause].  Returns the batches and whether the stream ended. *)
Fixpoint read_stream (new_out : OutputCollector) (pause : nat → MState → MState) (turns : nat)
    (cursor : ResultCursor) (ctx : CallContext) : Rpc (list RecordBatch * bool) :=
  match turns with
  | O => mret ([], false)
  | S turns =>
      mmodify (pause turns);;
      cursor ← mlift (resume cursor);
      '(cursor, out) ← produce mg cursor new_out ctx;
      if out_finished out then mret (emitted out, true)
      else
        '(rest, ended) ← read_stream new_out pause turns cursor ctx;
        mret (emitted out ++ rest, ended)
  end.

Lemma resume_cursor cursor t : to_json cursor = Ok t → resume cursor = Ok cursor.
Proof.
  intros Hj. unfold resume, producer_encode_state, producer_decode_state. rewrite Hj. simpl.
  unfold from_bytes, as_bytes. rewrite String.string_of_list_byte_of_string.
  by rewrite (from_to_json _ _ Hj).
Qed.

(** ** Sessions that answer *)

(** A session of [p] that is registered as [id], within its lease, with nothing
    left over for its worker, which answers; [P] holds of the process outside
    the session and of its limits, resources and bind uploads. *)
Definition SessionView : Type :=
  Global → SessionLimits → SessionResources → Mutex (gmap string BindUploadEntry) → Prop.

Record serving (id p : string) (P : SessionView) (s : MState) : Prop :=
  mkServing {
  serving_healthy : healthy s;
  serving_replies : g_outcomes (m_global s) = [];
  serving_session : ∃ a n x t,
    sessions (registry s) !! id = Some a ∧ m_heap s !! a = Some (S n, x) ∧ s_principal x = p
    ∧ s_last_used x = Mutex_new t
    ∧ (mg_ttl mg <? elapsed (g_clock (m_global s)) t) && (S n =? 1)%nat = false
    ∧ s_backlog x = [] ∧ P (m_global s) (s_limits x) (s_resources x) (s_bind_uploads x)
}.

(** The same, of a session on its own. *)
Definition ready (P : SessionView) (st : SState) : Prop :=
  g_outcomes (st_global st) = [] ∧ s_backlog (st_session st) = []
  ∧ P (st_global st) (s_limits (st_session st)) (s_resources (st_session st)) (s_bind_uploads (st_session st)).

Definition same_session (st st' : SState) : Prop :=
  g_clock (st_global st') = g_clock (st_global st)
  ∧ s_principal (st_session st') = s_principal (st_session st)
  ∧ s_last_used (st_session st') = s_last_used (st_session st)
  ∧ s_target (st_session st') = s_target (st_session st).

(** The cell [a] holds a session of [p] for the target [t]. *)
Definition session_for (s : MState) (a : nat) (t p : string) : Prop :=
  ∃ x, session_at s a = Some x ∧ s_target x = t ∧ s_principal x = p.

(** The session registered as [id] is one for the target [t]. *)
Definition located (id t : string) (s : MState) : Prop :=
  ∃ a x, sessions (registry s) !! id = Some a ∧ session_at s a = Some x ∧ s_target x = t.

(** A request of the owner: the session is found, the operation runs on it, and
    when the reference is released the session still answers. *)
Lemma serving_on {A} id p P Q s (op : M SState AdbcError A) r :
  0 ≤ mg_ttl mg → serving id p P s →
  (∀ st, ready P st → ∃ st', op st = (r, st') ∧ ready Q st' ∧ same_session st st') →
  ∃ a s1 s2, get mg id p s = (Ok a, s1) ∧ on_session a op s1 = (r, s2)
    ∧ serving id p Q (drop_arc a s2)
    ∧ m_global s1 = m_global s
    ∧ ∀ t, located id t s → session_for s1 a t p ∧ session_for s2 a t p.
Proof.
  intros Httl [Hs Ho (a & k & x & t & Hid & Hx & Hxp & Ht & Hexp & Hb & HP)] Hop.
  set (s1 := clone_arc a (touch a (g_clock (m_global s)) s)).
  set (x1 := set_last_used (Mutex_new (g_clock (m_global s))) x).
  assert (m_heap s1 !! a = Some (S (S k), x1) ∧ m_global s1 = m_global s ∧ m_registry s1 = m_registry s)
    as (Hh1 & Hg1 & Hreg1).
  { unfold s1, touch. rewrite Hx. unfold clone_arc. simpl. rewrite lookup_insert_eq. simpl.
    rewrite insert_insert_eq, lookup_insert_eq, Ht. done. }
  destruct (Hop (mkSState (m_global s1) x1)) as (st & Hst & (Ho' & Hbk & HQ) & (Hc & Hpr & Hlu & Hta));
    [rewrite Hg1; done|].
  set (s2 := set_heap (<[a := (S (S k), st_session st)]> (m_heap s1)) (set_global (st_global st) s1)).
  exists a, s1, s2. split; [|split; [|split; [|split; [exact Hg1|]]]].
  - rewrite (get_found uuid mg id p s a (S k) x t Hs Hid Hx Hxp Ht) by done. by rewrite Hexp.
  - unfold on_session. by rewrite Hh1, Hst.
  - assert (drop_arc a s2 = set_heap (<[a := (S k, st_session st)]> (m_heap s1)) s2) as ->.
    { unfold drop_arc, s2. simpl. rewrite lookup_insert_eq. simpl. by rewrite insert_insert_eq. }
    split; simpl; [unfold healthy; simpl; rewrite Hreg1; exact Hs|done|].
    exists a, k, (st_session st), (g_clock (m_global s)). simpl. rewrite lookup_insert_eq.
    split; [unfold registry; simpl; rewrite Hreg1; exact Hid|]. split; [done|].
    split; [by rewrite Hpr|]. split; [by rewrite Hlu|]. split; [|done].
    rewrite Hc. simpl. rewrite Hg1.
    by rewrite (proj2 (Z.ltb_ge (mg_ttl mg) (elapsed _ _))) by (unfold elapsed; lia).
  - intros t' (b & y & Hb' & Hy & Hyt). replace b with a in * by congruence.
    unfold session_at in Hy. rewrite Hx in Hy. injection Hy as <-.
    split; [exists x1|exists (st_session st)]; unfold session_at.
    + by rewrite Hh1.
    + unfold s2. simpl. rewrite lookup_insert_eq. split; [done|]. by rewrite Hta, Hpr.
Qed.

Lemma serving_via {A} id p P Q s (op : M SState AdbcError A) r :
  0 ≤ mg_ttl mg → serving id p P s →
  (∀ st, ready P st → ∃ st', op st = (r, st') ∧ ready Q st' ∧ same_session st st') →
  ∃ a s1 s2, get mg id p s = (Ok a, s1) ∧ on_session a op s1 = (r, s2)
    ∧ serving id p Q (drop_arc a s2).
Proof.
  intros Httl Hs Hop. destruct (serving_on id p P Q s op r Httl Hs Hop) as (a & s1 & s2 & Hg & Ho & Hs' & _).
  by exists a, s1, s2.
Qed.

(** ** One turn *)

(** The result [rid] is registered at [entry]; [w] is the native world. *)
Definition has_result (rid : string) (entry : ResultEntry) (w : World) : SessionView := λ g l r u,
  g_world g = w ∧ mx_poisoned (results r) = false ∧ mx_data (results r) !! rid = Some (Mutex_new entry).

Lemma next_result_ready st rid n entry w r entry' w' :
  ready (has_result rid entry w) st → result_next n (entry, w) = (r, (entry', w')) →
  ∃ st', next_result rid n st = (r, st') ∧ ready (has_result rid entry' w') st' ∧ same_session st st'.
Proof.
  intros (Ho & Hb & <- & Hp & Hr) Hn. unfold next_result, call, next_outcome, run_backlog.
  rewrite Ho. simpl. rewrite Hb.
  simpl. unfold next_result_job, mbind, M_bind, lock_results, lock, mlift. simpl.
  rewrite Hp, Hr. cbn -[result_next advance_result]. unfold advance_result, job_state.
  cbn -[result_next]. rewrite Hn. eexists. split; [done|]. unfold ready, has_result, same_session. simpl.
  rewrite lookup_insert_eq. done.
Qed.

Lemma result_schema_ready st rid entry w :
  ready (has_result rid entry w) st →
  ∃ st', result_schema rid st = (Ok (re_schema entry), st')
    ∧ ready (has_result rid entry w) st' ∧ same_session st st'.
Proof.
  intros (Ho & Hb & <- & Hp & Hr). unfold result_schema, call, next_outcome, run_backlog.
  rewrite Ho. simpl. rewrite Hb. simpl.
  unfold result_schema_job, mbind, M_bind, lock_results, lock, mlift. simpl. rewrite Hp, Hr. simpl.
  eexists. split; [done|]. unfold ready, has_result, same_session. simpl. done.
Qed.

Lemma serving_turn id p rid n entry w s ctx r entry' w' :
  principal mg (auth ctx) = Ok p → 0 ≤ mg_ttl mg →
  serving id p (has_result rid entry w) s → result_next n (entry, w) = (r, (entry', w')) →
  ∃ s', serving id p (has_result rid entry' w') s' ∧ ∀ out,
    produce mg (mkResultCursor id rid n) out ctx s =
      match r with
      | Ok (Some b) =>
          match emit out b with
          | Ok out => (Ok (mkResultCursor id rid (wrap_signed 64 (n + 1)), out), s')
          | Err e => (Err e, s')
          end
      | Ok None => (Ok (mkResultCursor id rid n, out_finish out), s')
      | Err e => (Err (adbc_rpc_error e), s')
      end.
Proof.
  intros Hp Httl Hs Hn.
  destruct (serving_via id p _ (has_result rid entry' w') s (next_result rid n) r Httl Hs)
    as (a & s1 & s2 & Hget & Hon & Hs'); [intros st Hst; by eapply next_result_ready|].
  exists (drop_arc a s2). split; [done|].
  intros out. unfold produce, session_by_id. rewrite Hp.
  unfold mbind, M_bind, mlift, adbc, mmap_err. cbn [rc_session_id rc_result_id rc_sequence].
  rewrite Hget. cbn [map_err]. unfold releasing, via, adbc, mmap_err. rewrite Hon.
  destruct r as [[b|]|e]; simpl; [destruct (emit out b)|..]; done.
Qed.

(** ** The whole stream *)

Lemma serving_stream id p rid new_out pause turns batches ending n entry w s ctx :
  principal mg (auth ctx) = Ok p → 0 ≤ mg_ttl mg →
  emitted new_out = [] → out_finished new_out = false →
  (∀ b, is_ok (emit new_out b) = true) → (∀ cursor, is_ok (to_json (T := ResultCursor) cursor) = true) →
  (∀ k entry w s, serving id p (has_result rid entry w) s → serving id p (has_result rid entry w) (pause k s)) →
  serving id p (has_result rid entry w) s → fresh_at entry n → yields (reader entry) w batches ending →
  (length batches < turns)%nat → 0 ≤ n → n + len batches ≤ i64_max →
  (read_stream new_out pause turns (mkResultCursor id rid n) ctx s).1 =
    match ending with
    | EndOfStream => Ok (batches, true)
    | Failure error => Err (adbc_rpc_error (error_from_arrow error))
    end.
Proof.
  intros Hp Httl Hnew Hopen Hemit Hjson Hpause.
  revert turns n entry w s. induction batches as [|b batches IH];
    intros turns n entry w s Hs Hfresh Hy Hlen Hpos Hmax; (destruct turns as [|turns]; [simpl in *; lia|]);
    cbn [read_stream]; unfold mbind at 1, M_bind at 1, mmodify;
    specialize (Hpause turns entry w s Hs) as Hs'; specialize (Hjson (mkResultCursor id rid n)) as Hj;
    (destruct (to_json (mkResultCursor id rid n)) as [t|] eqn:Ht; [|done]);
    rewrite (resume_cursor _ _ Ht); unfold mbind at 1, M_bind at 1, mlift at 1.
  - inversion Hy as [w1 w' Hr|w1 w' error Hr|]; subst.
    + edestruct (serving_turn id p rid n entry w (pause turns s) ctx) as (s2 & Hs2 & Hprod);
        [done|done|done|rewrite (fresh_fetch _ _ _ Hfresh); unfold fetch; by rewrite Hr|].
      unfold mbind at 1, M_bind at 1. rewrite Hprod. simpl.
      destruct (out_finish_emitted new_out) as [He ->]. simpl. by rewrite He, Hnew.
    + edestruct (serving_turn id p rid n entry w (pause turns s) ctx) as (s2 & Hs2 & Hprod);
        [done|done|done|rewrite (fresh_fetch _ _ _ Hfresh); unfold fetch; by rewrite Hr|].
      unfold mbind at 1, M_bind at 1. by rewrite Hprod.
  - inversion Hy as [| |w1 w' b0 bs e Hr Hy']; subst. rewrite len_cons in Hmax.
    pose proof (len_nonneg batches).
    destruct (fresh_batch entry w w' n b) as (entry' & Hfirst & _ & Hfresh' & Hreader); [done|lia|done|].
    edestruct (serving_turn id p rid n entry w (pause turns s) ctx) as (s2 & Hs2 & Hprod); [done|done|done|exact Hfirst|].
    unfold mbind at 1, M_bind at 1. rewrite Hprod. specialize (Hemit b) as Hem.
    destruct (emit new_out b) as [out|] eqn:Hout; [|done]. apply emit_emitted in Hout as [Hb Hfin].
    rewrite Hfin, Hopen, Hb, Hnew, wrap_signed_succ by lia. unfold mbind at 1, M_bind at 1.
    specialize (IH turns (n + 1) entry' w' s2 Hs2 Hfresh').
    rewrite Hreader in IH. specialize (IH Hy' ltac:(simpl in Hlen; lia) ltac:(lia) ltac:(lia)).
    destruct (read_stream new_out pause turns (mkResultCursor id rid (n + 1)) ctx s2) as [r s3].
    simpl in IH. subst r. by destruct ending.
Qed.
End Streaming.

(** ** Main theorem *)

Section Main.
Context `{AdbcCore} `{RustFmt} `{ArrowCrate} `{!IpcCrate} `{FileSystem} `{AdbcOptions} `{!Backend}.
Context `{Base64} `{Hmac} `{VgiRpc} `{!StructCrate} `{!WireRecords}.
Context `{!Json WireAdbcError} `{!Json BindCursor} `{!Json ResultCursor}.
Context (uuid : nat → string) (mg : Manager).

(** A client that follows the stream of a result from its start, sending
    the cursor back after each turn, receives exactly the batches of the native
    reader in order and then the end of the stream, or the reader's error; it
    needs one turn more than there are batches.  Between two turns the process
    may do anything that keeps the session within its lease and the result where
    it is. *)
Theorem result_stream_is_complete id p rid owner r w new_out pause turns batches ending s ctx :
  principal mg (auth ctx) = Ok p → 0 ≤ mg_ttl mg →
  emitted new_out = [] → out_finished new_out = false →
  (∀ b, is_ok (emit new_out b) = true) → (∀ cursor, is_ok (to_json (T := ResultCursor) cursor) = true) →
  (∀ k entry w s, serving mg id p (has_result rid entry w) s →
     serving mg id p (has_result rid entry w) (pause k s)) →
  serving mg id p (has_result rid (ResultEntry_new owner r) w) s → yields r w batches ending →
  (length batches < turns)%nat → len batches ≤ i64_max →
  (read_stream mg new_out pause turns (mkResultCursor id rid 0) ctx s).1 =
    match ending with
    | EndOfStream => Ok (batches, true)
    | Failure error => Err (adbc_rpc_error (error_from_arrow error))
    end.
Proof.
  intros Hp Httl Hnew Hopen Hemit Hjson Hpause Hs Hy Hturns Hlen.
  by eapply (serving_stream uuid mg).
Qed.
End Main.

(** ** Example *)

Section Example.
#[local] Existing Instance simple_core.
#[local] Existing Instance simple_fmt.
#[local] Existing Instance ref_arrow.
#[local] Existing Instance ref_ipc.
#[local] Existing Instance ref_files.
#[local] Existing Instance ref_options.
#[local] Existing Instance ref_backend.
#[local] Existing Instance ref_base64.
#[local] Existing Instance ref_hmac.
#[local] Existing Instance ref_rpc.
#[local] Existing Instance ref_struct.
#[local] Existing Instance ref_records.
#[local] Existing Instance ref_json_error.
#[local] Existing Instance ref_json_bind.
#[local] Existing Instance ref_json_result.

Lemma result_state_serving :
  serving example_manager "id-0" alice_principal
    (has_result "r1" (ResultEntry_new None ref_reader) result_items) result_state.
Proof. split; [reflexivity..|]. by exists 0%nat, 0%nat, result_session, 0. Qed.

Lemma result_stream_is_complete_witness :
  (read_stream example_manager (([], false) : @OutputCollector ref_rpc) (λ _ s, s) 3
     (mkResultCursor "id-0" "r1" 0) alice result_state).1
  = Ok ([example_rows 7; example_rows 8], true).
Proof.
  refine (result_stream_is_complete example_uuid example_manager "id-0" alice_principal "r1" None
    ref_reader result_items (([], false) : @OutputCollector ref_rpc) (λ _ s, s) 3
    [example_rows 7; example_rows 8] EndOfStream result_state alice _ _ _ _ _ _ _
    result_state_serving _ _ _).
  - reflexivity.
  - vm_compute. discriminate.
  - reflexivity.
  - reflexivity.
  - reflexivity.
  - reflexivity.
  - intros k entry w s Hs. exact Hs.
  - eapply yields_batch; [reflexivity|]. eapply yields_batch; [reflexivity|].
    eapply yields_end. reflexivity.
  - apply Nat.ltb_lt. reflexivity.
  - vm_compute. discriminate.
Defined.
End Example.
