(* ===== verification/ServiceTheorems.v ===== *)
(** * What the service guarantees (grainlift-server/src/service.rs)

    Requests keep the invariants of the manager, never touch a session of
    another principal, are refused without effect when they are not
    authenticated or of another protocol version, and give back every handle
    they could not tell the client about. *)

From S2P Require Import Prelude Adbc WireError Options Arrow Framing Envelope Partitions.
From S2P Require Import Config Backend ResultCursor BindUpload Session SessionSteps Manager.
From S2P Require Import ManagerSteps Rpc Service ServiceSteps.
From S2P Require Import Reference ReferenceIpc ReferenceBackend ReferenceRpc ReferenceService.

Section Frame.
Context `{AdbcCore} `{RustFmt} `{ArrowCrate} `{!IpcCrate} `{FileSystem} `{AdbcOptions} `{!Backend}.
Context `{Base64} `{Hmac} `{VgiRpc} `{!StructCrate} `{!WireRecords}.
Context `{!Json WireAdbcError} `{!Json BindCursor} `{!Json ResultCursor}.
Context (uuid : nat → string) (system_now : Global → nat → Z) (mg : Manager).

Abbreviation Rpc := (M MState RpcError).

(** ** Sessions of other principals *)

(** Every session of a principal other than [p] is as it was: its resources,
    its lease, its references and its registration. *)
Definition untouched (p : string) (s s' : MState) : Prop := ∀ a n x,
  m_heap s !! a = Some (n, x) → s_principal x ≠ p →
  m_heap s' !! a = Some (n, x)
  ∧ ∀ id, sessions (registry s) !! id = Some a → sessions (registry s') !! id = Some a.

#[local] Instance untouched_preorder p : PreOrder (untouched p).
Proof.
  split.
  - by intros s a n x Hx _.
  - intros s1 s2 s3 H12 H23 a n x Hx Hp. destruct (H12 a n x Hx Hp) as [Hx2 Hr2].
    destruct (H23 a n x Hx2 Hp) as [Hx3 Hr3]. auto.
Qed.

(** A change of one cell that belongs to [p]. *)
Lemma untouched_cell p a s s' :
  principal_at s a = Some p → m_registry s' = m_registry s →
  (∀ b, b ≠ a → m_heap s' !! b = m_heap s !! b) → untouched p s s'.
Proof.
  intros Ha Hr Hb b n x Hx Hp. split; [|unfold registry; by rewrite Hr].
  rewrite Hb; [done|]. intros ->. unfold principal_at, session_at in Ha. rewrite Hx in Ha. naive_solver.
Qed.

Lemma drop_arc_other a b s : b ≠ a → m_heap (drop_arc a s) !! b = m_heap s !! b.
Proof.
  intros Hb. unfold drop_arc. destruct (m_heap s !! a) as [[[|[|n]] x]|]; simpl;
    rewrite ?lookup_delete_ne, ?lookup_insert_ne by done; done.
Qed.

Lemma untouched_drop p a s : principal_at s a = Some p → untouched p s (drop_arc a s).
Proof.
  intros Ha. eapply untouched_cell; [done|apply drop_arc_registry|]. intros b. apply drop_arc_other.
Qed.

(** Removing a registration of [p], with the reference it held. *)
Lemma untouched_remove p id a s :
  sessions (registry s) !! id = Some a → principal_at s a = Some p →
  untouched p s (drop_arc a (set_sessions (delete id (sessions (registry s))) s)).
Proof.
  intros Hid Ha b n x Hx Hp.
  assert (b ≠ a) as Hba.
  { intros ->. unfold principal_at, session_at in Ha. rewrite Hx in Ha. naive_solver. }
  split; [by rewrite drop_arc_other|]. intros id' Hid'. unfold registry.
  rewrite (proj1 (drop_arc_registry _ _)). simpl. rewrite lookup_delete_ne; [done|].
  intros ->. congruence.
Qed.

Lemma session_steps_principal st st' :
  rtc (session_step uuid) st st' → s_principal (st_session st') = s_principal (st_session st).
Proof. induction 1 as [|x y z Hs _ IH]; [done|]. by rewrite IH, (session_step_principal uuid _ _ Hs). Qed.

Lemma untouched_via p a s s' :
  via_step uuid a s s' → principal_at s a = Some p →
  untouched p s s' ∧ principal_at s' a = Some p.
Proof.
  intros (A & op & Hop & ->) Ha. unfold on_session.
  destruct (m_heap s !! a) as [[n x]|] eqn:Hx; [|done].
  specialize (Hop (mkSState (m_global s) x)). destruct (op (mkSState (m_global s) x)) as [r st].
  apply session_steps_principal in Hop. simpl in *. split.
  - apply (untouched_cell p a); [done|done|]. intros b Hb. simpl. by rewrite lookup_insert_ne.
  - unfold principal_at, session_at in *. simpl. rewrite lookup_insert_eq. simpl. rewrite Hx in Ha.
    simpl in Ha. congruence.
Qed.

Lemma untouched_vias p a s s' :
  rtc (via_step uuid a) s s' → principal_at s a = Some p →
  untouched p s s' ∧ principal_at s' a = Some p.
Proof.
  induction 1 as [|s1 s2 s3 Hs _ IH]; intros Ha; [done|].
  destruct (untouched_via p a s1 s2 Hs Ha) as [H12 Ha2]. destruct (IH Ha2) as [H23 Ha3].
  split; [by etrans|done].
Qed.

Lemma untouched_get p id s :
  untouched p s (get mg id p s).2
  ∧ ∀ a, (get mg id p s).1 = Ok a → principal_at (get mg id p s).2 a = Some p.
Proof.
  unfold get, lock_registry, mbind, M_bind, lock, mprim.
  destruct (mx_poisoned (m_registry s)); [done|]. fold (registry s).
  destruct (find_session (registry s) id p s) as [[a x]|e] eqn:Hf; [|done].
  apply (find_session_Ok uuid) in Hf as (Hid & Hx & Hp).
  assert (principal_at s a = Some p) as Ha by (unfold principal_at; by rewrite Hx, <-Hp).
  destruct (lease_expired mg s x) as [ex|]; [|done]. destruct (ex && _); simpl.
  { split; [by apply untouched_remove|done]. }
  unfold session_at in Hx. destruct (m_heap s !! a) as [[n y]|] eqn:Hy; [|done].
  injection Hx as ->. unfold touch. rewrite Hy. unfold clone_arc. simpl. rewrite lookup_insert_eq.
  simpl. split.
  - apply (untouched_cell p a); [done|done|]. intros b Hb. simpl. by rewrite !lookup_insert_ne.
  - intros ? [= <-]. unfold principal_at, session_at. simpl. by rewrite lookup_insert_eq, <-Hp.
Qed.

Lemma untouched_handler {A} p ctx (m : Rpc A) s :
  session_handler uuid mg ctx m → principal mg (auth ctx) = Ok p → untouched p s (m s).2.
Proof.
  intros Hm Hp. destruct (Hm s) as [[e ->]|(p' & id & Hp' & Hg)]; [done|].
  rewrite Hp in Hp'. injection Hp' as <-. destruct (untouched_get p id s) as [Hu Ha].
  destruct (get mg id p s) as [[a|e] s1]; simpl in *.
  - destruct Hg as (s2 & Hr & ->). destruct (untouched_vias p a _ _ Hr (Ha a eq_refl)) as [H12 Ha2].
    etrans; [exact Hu|]. etrans; [exact H12|]. by apply untouched_drop.
  - by rewrite Hg.
Qed.

Lemma untouched_close_session p id s : untouched p s (close id p s).2.
Proof.
  unfold close, lock_registry, mbind, M_bind, lock, mprim.
  destruct (mx_poisoned (m_registry s)); [done|]. fold (registry s).
  destruct (find_session (registry s) id p s) as [[b x]|e] eqn:Hf; [|done].
  apply (find_session_Ok uuid) in Hf as (Hid & Hx & Hp'). simpl.
  apply untouched_remove; [done|]. unfold principal_at. by rewrite Hx, <-Hp'.
Qed.

Lemma untouched_close p request ctx s :
  principal mg (auth ctx) = Ok p → untouched p s (close_connection mg request ctx s).2.
Proof.
  intros Hp. unfold close_connection. destruct (validate_protocol_version request); [|done].
  rewrite Hp. destruct (request_string request "session_id") as [id|]; [|done].
  pose proof (untouched_close_session p id s) as Hc. unfold mbind, M_bind, mlift, adbc, mmap_err. destruct (close id p s) as [[[]|e] s1]; simpl in *; [|done].
  by destruct ok_batch.
Qed.

(** ** Opening a session *)

(** Sessions of other principals are as they were, but for those nobody holds
    whose lease has expired. *)
Definition spared (p : string) (s s' : MState) : Prop := ∀ a n x,
  m_heap s !! a = Some (n, x) → s_principal x ≠ p →
  (m_heap s' !! a = Some (n, x)
   ∧ ∀ id, sessions (registry s) !! id = Some a → sessions (registry s') !! id = Some a)
  ∨ ((n ≤ 1)%nat ∧ lease_expired mg s x = Ok true).

Lemma untouched_spared p s s1 s2 : spared p s s1 → untouched p s1 s2 → spared p s s2.
Proof.
  intros H01 H12 a n x Hx Hp. destruct (H01 a n x Hx Hp) as [[Hx1 Hr1]|He]; [left|by right].
  destruct (H12 a n x Hx1 Hp) as [Hx2 Hr2]. auto.
Qed.

Lemma untouched_same p s s' :
  m_heap s' = m_heap s → sessions (registry s') = sessions (registry s) → untouched p s s'.
Proof. intros Hh Hr a n x Hx _. by rewrite Hh, Hr. Qed.

Lemma expired_sessions_elem s l e id a :
  expired_sessions mg s l = Ok e → (id, a) ∈ e →
  (id, a) ∈ l ∧ (strong_count s a ≤ 1)%nat ∧ ∃ x, session_at s a = Some x ∧ lease_expired mg s x = Ok true.
Proof.
  revert e. induction l as [|[id' b] l IH]; intros e; simpl; [intros [= <-] []%elem_of_nil|].
  assert (∀ e', expired_sessions mg s l = Ok e' → (id, a) ∈ e' →
    (id, a) ∈ (id', b) :: l ∧ (strong_count s a ≤ 1)%nat
    ∧ ∃ x, session_at s a = Some x ∧ lease_expired mg s x = Ok true) as Hrest.
  { intros e' He' Hin. destruct (IH e' He' Hin) as (Hl & Hn). split; [by right|done]. }
  destruct (Nat.ltb_spec 1 (strong_count s b)) as [|Hle]; [apply Hrest|].
  destruct (session_at s b) as [x|] eqn:Hx; [|apply Hrest].
  intros (ex & Hex & (rest & He & [= <-])%result_bind_Ok)%result_bind_Ok. destruct ex; [|by apply Hrest].
  intros [[= -> ->]|Hin]%elem_of_cons; [|by eapply Hrest]. split; [by left|]. split; [done|]. by exists x.
Qed.

Lemma remove_ids_others ids (m : gmap string nat) id : id ∉ ids → remove_ids ids m !! id = m !! id.
Proof.
  induction ids as [|i ids IH]; [done|]. intros [Hne Hni]%not_elem_of_cons. simpl.
  rewrite lookup_delete_ne by done. by apply IH.
Qed.

(** What dropping references leaves alone. *)
Lemma drop_arcs_frame ls s :
  (∀ b, b ∉ ls → m_heap (drop_arcs ls s) !! b = m_heap s !! b)
  ∧ (∀ b, m_heap s !! b = None → m_heap (drop_arcs ls s) !! b = None)
  ∧ m_next_loc (drop_arcs ls s) = m_next_loc s
  ∧ g_uuids (m_global (drop_arcs ls s)) = g_uuids (m_global s).
Proof.
  revert s. induction ls as [|l ls IH]; intros s; [done|]. cbn [drop_arcs foldl].
  destruct (IH (drop_arc l s)) as (Hh & Hn & Hl & Hu).
  assert (m_next_loc (drop_arc l s) = m_next_loc s ∧ g_uuids (m_global (drop_arc l s)) = g_uuids (m_global s)) as [Hl' Hu'].
  { unfold drop_arc, run_drop, spawn_now. by destruct (m_heap s !! l) as [[[|[]] x]|], (g_spawns (m_global s)). }
  unfold drop_arcs in *. rewrite Hl, Hu, Hl', Hu'. split_and!; [| |done..].
  - intros b [Hne Hni]%not_elem_of_cons. by rewrite Hh, drop_arc_other.
  - intros b Hb. apply Hn. destruct (decide (b = l)) as [->|Hne]; [|by rewrite drop_arc_other].
    unfold drop_arc. by rewrite Hb.
Qed.

Lemma reap_spares p s :
  spared p s (reap_expired mg s).2
  ∧ m_next_loc (reap_expired mg s).2 = m_next_loc s
  ∧ g_uuids (m_global (reap_expired mg s).2) = g_uuids (m_global s)
  ∧ (∀ b, m_heap s !! b = None → m_heap (reap_expired mg s).2 !! b = None)
  ∧ (∀ id, sessions (registry s) !! id = None → sessions (registry (reap_expired mg s).2) !! id = None).
Proof.
  unfold reap_expired, lock_registry, mbind, M_bind, lock, mprim.
  assert (spared p s s) as Hsame by (intros a n x Hx _; by left).
  destruct (mx_poisoned (m_registry s)); [done|]. fold (registry s).
  destruct (expired_sessions mg s (map_to_list (sessions (registry s)))) as [e|] eqn:He; [simpl|done].
  set (s1 := set_sessions _ s). destruct (drop_arcs_frame e.*2 s1) as (Hh & Hn & Hl & Hu).
  assert (sessions (registry (drop_arcs e.*2 s1)) = remove_ids e.*1 (sessions (registry s))) as Hreg
    by (unfold registry; by rewrite (proj1 (drop_arcs_registry _ _))).
  split_and!; [|done|done|done|].
  - intros a n x Hx _. destruct (decide (a ∈ e.*2)) as [Hin|Hout].
    + right. apply list_elem_of_fmap in Hin as ([id b] & -> & Hin). simpl in *.
      destruct (expired_sessions_elem _ _ _ _ _ He Hin) as (_ & Hc & x' & Hx' & Hex).
      unfold strong_count, session_at in *. rewrite Hx in *. simpl in *. by injection Hx' as <-.
    + left. rewrite Hh by done. split; [done|]. intros id Hid.
      rewrite Hreg, remove_ids_others; [done|]. intros ([id' b] & -> & Hin)%list_elem_of_fmap.
      destruct (expired_sessions_elem _ _ _ _ _ He Hin) as (Hin'%elem_of_map_to_list & _).
      apply Hout, list_elem_of_fmap. exists (id', b). split; [|done]. simpl in *. congruence.
  - intros id Hid. rewrite Hreg. clear -Hid. induction (e.*1) as [|i l IH]; [done|]. simpl.
    apply lookup_delete_None. by right.
Qed.

(** A state from which a session can be registered without replacing one. *)
Definition roomy_at (s : MState) : Prop :=
  m_heap s !! m_next_loc s = None ∧ sessions (registry s) !! uuid (g_uuids (m_global s)) = None.

Lemma untouched_release p q s : untouched p s (release_open_reservation q s).2.
Proof.
  unfold release_open_reservation, lock_registry, mbind, M_bind, lock, mmodify.
  destruct (mx_poisoned (m_registry s)); [done|]. apply untouched_same; [done|]. unfold registry. simpl.
  unfold release_open_reservation_locked. by destruct (_ !! q).
Qed.

Lemma untouched_register p q id x s :
  m_heap s !! m_next_loc s = None → sessions (registry s) !! id = None →
  untouched p s (register q id x s).2.
Proof.
  intros Hl Hid. unfold register, lock_registry, mbind, M_bind, lock, mprim.
  destruct (mx_poisoned (m_registry s)); [done|]. fold (registry s).
  assert (sessions (release_open_reservation_locked (registry s) q) = sessions (registry s)) as Hrel
    by (unfold release_open_reservation_locked; by destruct (_ !! q)).
  simpl. destruct (m_closing s); [by apply untouched_same|]. rewrite Hrel, Hid. simpl.
  intros a n y Hy _. simpl. rewrite lookup_insert_ne by congruence. split; [done|].
  intros id' Hid'. unfold registry. simpl. rewrite lookup_insert_ne; [done|]. congruence.
Qed.

Lemma untouched_start p q t target c s : roomy_at s → untouched p s (start_session uuid mg q t target c s).2.
Proof.
  intros [Hl Hid]. unfold start_session, act_uuid, act_spawn, spawn_now. unfold mbind at 1, M_bind at 1.
  unfold mbind at 1, M_bind at 1. cbn [m_global set_global g_spawns].
  assert (∀ g, untouched p s (register q (uuid (g_uuids (m_global s)))
    (new_session mg q t target c (g_clock g)) (set_global g s)).2) as Hreg.
  { intros g. etrans; [|by apply untouched_register]. by apply untouched_same. }
  assert (∀ g e, untouched p s ((release_open_reservation q;; act_spawn;; mthrow e : M MState AdbcError string) (set_global g s)).2) as Hrel.
  { intros g e. etrans; [apply (untouched_same p s (set_global g s)); done|].
    etrans; [apply (untouched_release p q)|]. unfold mbind, M_bind.
    destruct (release_open_reservation q (set_global g s)) as [[[]|e'] s1]; [|done].
    unfold act_spawn, spawn_now. destruct (g_spawns (m_global s1)); by apply untouched_same. }
  destruct (g_spawns (m_global s)) as [|[[]|e] rs].
  - apply (Hreg (mkGlobal _ _ _ _ _)).
  - apply (Hreg (mkGlobal _ _ _ _ _)).
  - apply Hrel.
Qed.

Lemma spared_open p t db co s :
  roomy_at s → spared p s (open uuid mg p t db co s).2.
Proof.
  intros [Hl Hid]. assert (spared p s s) as Hsame by (intros a n x Hx _; by left).
  unfold open. destruct (negb (allows _ _ _)); [done|].
  unfold mbind at 1, M_bind at 1, mlift at 1, ok_or. destruct (mg_targets mg !! t) as [target|]; [|done].
  unfold mbind at 1, M_bind at 1, reserve_open. destruct (m_closing s); [done|].
  destruct (reap_spares p s) as (Hreap & Hl1 & Hu1 & Hh1 & Hs1).
  unfold mbind at 1, M_bind at 1. destruct (reap_expired mg s) as [[n|e] s1]; [|done]. simpl in *.
  assert (∀ s2 r, reserve_locked mg p s1 = (r, s2) → m_heap s2 = m_heap s1 ∧ m_next_loc s2 = m_next_loc s1
    ∧ m_global s2 = m_global s1 ∧ sessions (registry s2) = sessions (registry s1)) as Hadm.
  { intros s2 r. unfold reserve_locked, lock_registry, mbind, M_bind, lock, mprim.
    destruct (mx_poisoned _); [by intros [= _ <-]|]. repeat case_match; by intros [= _ <-]. }
  destruct (reserve_locked mg p s1) as [r s2]. destruct (Hadm s2 r eq_refl) as (Hh2 & Hl2 & Hg2 & Hs2).
  assert (spared p s s2) as Hsp by (eapply untouched_spared; [exact Hreap|by apply untouched_same]).
  destruct r as [[]|e]; [|exact Hsp].
  assert (∃ r g, open_thread mg target db co s2 = (Ok r, set_global g s2) ∧ g_uuids g = g_uuids (m_global s2)) as (r & g & Hot & Hu).
  { unfold open_thread, spawn_now, next_outcome. destruct (g_spawns (m_global s2)) as [|[[]|e] rs]; simpl;
      destruct (g_outcomes (m_global s2)) as [|[] os]; simpl;
      try match goal with |- context [let '(_, _) := ?m in _] => destruct m as [r w] end;
      eexists _, _; split; reflexivity. }
  unfold mbind at 1, M_bind at 1. rewrite Hot. eapply untouched_spared; [exact Hsp|].
  etrans; [by apply (untouched_same p s2 (set_global g s2))|]. destruct r as [c|e]; simpl.
  - apply untouched_start. split; simpl; [rewrite Hh2, Hl2, Hl1; by apply Hh1|].
    unfold registry. simpl. fold (registry s2). rewrite Hu, Hg2, Hu1, Hs2. by apply Hs1.
  - unfold mbind, M_bind. pose proof (untouched_release p p (set_global g s2)) as Hrel.
    by destruct (release_open_reservation p (set_global g s2)) as [[[]|] ?].
Qed.

Lemma spared_open_connection p request ctx s :
  principal mg (auth ctx) = Ok p → roomy_at s → spared p s (open_connection uuid mg request ctx s).2.
Proof.
  intros Hp Hroom. assert (spared p s s) as Hsame by (intros a n x Hx _; by left).
  unfold open_connection, mlift. unfold mbind at 1, M_bind at 1.
  destruct (typed_request request) as [args|e]; [|done]. unfold mbind at 1, M_bind at 1. rewrite Hp.
  unfold mbind at 1, M_bind at 1. destruct (map_err _ _) as [db|e]; [|done].
  unfold mbind at 1, M_bind at 1. destruct (map_err _ _) as [co|e]; [|done].
  pose proof (spared_open p (oc_target args) db co s Hroom) as Hopen.
  unfold mbind at 1, M_bind at 1, adbc, mmap_err.
  destruct (open uuid mg p (oc_target args) db co s) as [[id|e] s1]; [|done]. simpl in *.
  unfold mbind, M_bind, handle_response. destruct (bounded_response _ _); [done|].
  eapply untouched_spared; [exact Hopen|]. apply untouched_close_session.
Qed.

(** ** Requests that do not reach a session *)

Definition refused {A} (m : Rpc A) : Prop := ∀ s, ∃ e, m s = (Err e, s).

(** A request of another version, or of a caller without a principal. *)
Definition inadmissible (request : Request) (ctx : CallContext) : Prop :=
  is_ok (validate_protocol_version request) = false ∨ is_ok (principal mg (auth ctx)) = false.

Lemma with_session_refused {A} request ctx (body : nat → string → Rpc A) :
  inadmissible request ctx → refused (with_session mg request ctx body).
Proof.
  intros Hin s. unfold with_session, get_session. destruct (validate_protocol_version request) eqn:Hv.
  - destruct (principal mg (auth ctx)) as [p|e] eqn:Hp; [|by exists e].
    destruct Hin as [Hin|Hin]; [by rewrite Hv in Hin|by rewrite Hp in Hin].
  - by eexists.
Qed.

Lemma with_typed_refused {T A} `{!VgiArrow T} `{!RequestRecord T} (f : T → string) request ctx
    (body : nat → T → Rpc A) :
  inadmissible request ctx → refused (with_typed mg f request ctx body).
Proof.
  intros Hin s. unfold with_typed, typed_request, session_by_id.
  destruct (validate_protocol_version request) eqn:Hv; simpl; [|by eexists].
  destruct (decode_request _ _) as [args|e]; simpl; [|by eexists].
  unfold mbind at 1, M_bind at 1, mlift at 1. destruct (principal mg (auth ctx)) as [p|e] eqn:Hp; [|by exists e].
  destruct Hin as [Hin|Hin]; [by rewrite Hv in Hin|by rewrite Hp in Hin].
Qed.

Definition method_refused (request : Request) (ctx : CallContext) (info : MethodInfo) : Prop :=
  match info with
  | Unary _ handler => refused (handler request ctx)
  | Streaming _ handler => refused (handler request ctx)
  end.

Lemma open_refused request ctx : inadmissible request ctx → refused (open_connection uuid mg request ctx).
Proof.
  intros Hin s. unfold open_connection, typed_request.
  destruct (validate_protocol_version request) eqn:Hv; simpl; [|by eexists].
  destruct (decode_request _ _) as [args|e]; simpl; [|by eexists].
  unfold mbind at 1, M_bind at 1, mlift at 1. destruct (principal mg (auth ctx)) as [p|e] eqn:Hp; [|by exists e].
  destruct Hin as [Hin|Hin]; [by rewrite Hv in Hin|by rewrite Hp in Hin].
Qed.

Lemma close_refused request ctx : inadmissible request ctx → refused (close_connection mg request ctx).
Proof.
  intros Hin s. unfold close_connection. destruct (validate_protocol_version request) eqn:Hv; [|by eexists].
  destruct (principal mg (auth ctx)) as [p|e] eqn:Hp; [|by exists e].
  destruct Hin as [Hin|Hin]; [by rewrite Hv in Hin|by rewrite Hp in Hin].
Qed.

Lemma server_methods_refused max request ctx :
  inadmissible request ctx →
  Forall (λ m, method_refused request ctx m.2) (server_methods uuid system_now mg max).
Proof.
  intros Hin. unfold server_methods, register_open_connection, register_session_operations,
    register_connection_surface, register_statement_operations, register_result_operations.
  repeat apply Forall_cons_2; [..|by apply Forall_nil_2]; cbn [snd method_refused];
    by first [apply open_refused | apply close_refused | apply with_session_refused
             | apply with_typed_refused].
Qed.
End Frame.

(** ** Responses and partitions *)

Section Pieces.
Context `{AdbcCore} `{RustFmt} `{ArrowCrate} `{!IpcCrate} `{FileSystem} `{AdbcOptions} `{!Backend}.
Context `{Base64} `{Hmac} `{VgiRpc} `{!StructCrate} `{!WireRecords}.
Context `{!Json WireAdbcError} `{!Json BindCursor} `{!Json ResultCursor}.
Context (uuid : nat → string) (system_now : Global → nat → Z) (mg : Manager).

(** Tokens sealed one after another, each against what the earlier ones left. *)
Inductive sealed_from (x : Session) (clock : nat → Z) : nat → Z → list bytes → list bytes → Prop :=
| sealed_nil n remaining : sealed_from x clock n remaining [] []
| sealed_cons n remaining d ds token tokens :
    seal_partition mg x (clock n) d remaining = Ok token →
    len token + size_of_bytes ≤ remaining →
    sealed_from x clock (S n) (remaining - (len token + size_of_bytes)) ds tokens →
    sealed_from x clock n remaining (d :: ds) (token :: tokens).

Lemma seal_partitions_Ok x clock n remaining ds tokens :
  remaining ≤ usize_max →
  seal_partitions mg x clock n remaining ds = Ok tokens → sealed_from x clock n remaining ds tokens.
Proof.
  revert n remaining tokens. induction ds as [|d ds IH]; intros n remaining tokens Hr; simpl.
  - intros [= <-]. constructor.
  - intros Hs. apply result_bind_Ok in Hs as (token & Hseal%map_err_Ok & Hs).
    apply result_bind_Ok in Hs as (left & Hleft%ok_or_Ok & Hs).
    apply result_bind_Ok in Hs as (rest & Hrest & [= <-]).
    apply usize_try_from_Some in Hleft as [-> [Hlo Hhi]].
    econstructor; [exact Hseal|lia|]. apply IH; [|done]. unfold size_of_bytes in *. len_lia.
Qed.

Definition tokens_size (tokens : list bytes) : Z :=
  foldr (λ token total, len token + size_of_bytes + total) 0 tokens.

Lemma sealed_size x clock n remaining ds tokens :
  0 ≤ remaining → sealed_from x clock n remaining ds tokens →
  tokens_size tokens ≤ remaining ∧ length tokens = length ds.
Proof.
  intros Hr Hs. induction Hs as [n r|n r d ds token tokens Hseal Hle Hs IH]; simpl; [done|].
  destruct IH as [IH1 IH2]; [lia|]. split; [lia|congruence].
Qed.

Lemma sealed_lookup x clock n remaining ds tokens i d token :
  sealed_from x clock n remaining ds tokens → ds !! i = Some d → tokens !! i = Some token →
  ∃ left, left ≤ remaining ∧ len token ≤ left
    ∧ seal_partition mg x (clock (n + i)%nat) d left = Ok token.
Proof.
  intros Hs. revert i. induction Hs as [n r|n r d0 ds token0 tokens Hseal Hle Hs IH]; intros i; [done|].
  unfold size_of_bytes in *. pose proof (len_nonneg token0). destruct i as [|i]; simpl.
  - intros [= <-] [= <-]. rewrite Nat.add_0_r. exists r. split; [done|]. split; [lia|done].
  - intros Hd Ht. destruct (IH i Hd Ht) as (l & ? & ? & ?). exists l. rewrite Nat.add_succ_r.
    split; [lia|done].
Qed.

(** ** Giving handles back *)

Lemma close_removes id p s :
  healthy s → (close id p s).1 = Ok tt → sessions (registry (close id p s).2) !! id = None.
Proof.
  intros Hs. unfold close, lock_registry, mbind, M_bind, lock, mprim.
  destruct (mx_poisoned (m_registry s)); [done|]. fold (registry s).
  destruct (find_session _ _ _ _) as [[a x]|]; [|done]. intros _. simpl. unfold registry.
  rewrite (proj1 (drop_arc_registry _ _)). simpl. apply lookup_delete_eq.
Qed.

(** A location about to be used is not registered. *)
Lemma fresh_unregistered s pend hd d id :
  manager_inv mg (mkGState s pend hd d) → sessions (registry s) !! id ≠ Some (m_next_loc s).
Proof.
  intros ([Hh Hn] & _) Hid. specialize (Hh (m_next_loc s)). simpl in *. rewrite Hn in Hh by lia.
  apply cnt_zero in Hh. apply Hh, elem_of_app. left. apply list_elem_of_fmap.
  exists (id, m_next_loc s). by rewrite elem_of_map_to_list.
Qed.

Lemma register_Ok p id x s pend hd d id' s' :
  manager_inv mg (mkGState s pend hd d) → register p id x s = (Ok id', s') →
  id' = id ∧ sessions (registry s') !! id = Some (m_next_loc s)
  ∧ session_at s' (m_next_loc s) = Some x.
Proof.
  intros Hinv. pose proof (fresh_unregistered _ _ _ _ id Hinv) as Hfresh.
  unfold register, lock_registry, mbind, M_bind, lock, mprim.
  destruct (mx_poisoned (m_registry s)); [done|]. fold (registry s). rewrite release_sessions. simpl.
  destruct (m_closing s); [done|]. intros [= <- <-]. split; [done|]. unfold registry at 1.
  rewrite (proj1 (drop_arcs_registry _ _)). simpl. rewrite lookup_insert_eq. split; [done|].
  unfold session_at. destruct (sessions (registry s) !! id) as [b|]; simpl.
  - rewrite drop_arc_other by congruence. simpl. by rewrite lookup_insert_eq.
  - by rewrite lookup_insert_eq.
Qed.

Lemma open_registers p t db co s pend hd d id s' :
  limits_usize (mg_limits mg) → manager_inv mg (mkGState s pend hd d) → healthy s →
  open uuid mg p t db co s = (Ok id, s') →
  ∃ a, sessions (registry s') !! id = Some a ∧ principal_at s' a = Some p.
Proof.
  intros Hl Hinv Hs. unfold open. destruct (negb (allows _ _ _)); [done|].
  unfold mbind at 1, M_bind at 1, mlift at 1, ok_or. destruct (mg_targets mg !! t) as [target|]; [|done].
  unfold mbind at 1, M_bind at 1, reserve_open. destruct (m_closing s) eqn:Hcl; [done|].
  pose proof (mstep_inv uuid mg _ _ Hl (ms_reap uuid mg s pend hd d) Hinv) as Hinv1.
  unfold mbind at 1, M_bind at 1. destruct (reap_expired mg s) as [[n|e] s1]; [|done]. simpl in Hinv1.
  destruct (reserve_locked mg p s1) as [[[]|e] s2] eqn:Hadm; [|done].
  pose proof (mstep_inv uuid mg _ _ Hl (ms_admit uuid mg p s1 s2 pend hd d Hadm) Hinv1) as Hinv2.
  destruct (open_thread_global mg target db co s2) as (r & g & Hot).
  unfold mbind at 1, M_bind at 1. rewrite Hot. destruct r as [c|e]; simpl.
  - unfold start_session, act_uuid, act_spawn, spawn_now. unfold mbind at 1, M_bind at 1.
    unfold mbind at 1, M_bind at 1. simpl.
    pose proof (λ g', mstep_inv uuid mg _ _ Hl (ms_environment uuid mg g' s2 (p :: pend) hd d) Hinv2) as Henv.
    destruct (g_spawns g) as [|[[]|e] rs]; simpl.
    + intros (-> & Hid & Hx)%(register_Ok _ _ _ _ _ _ _ _ _ (Henv _)). eexists. split; [exact Hid|].
      unfold principal_at. by rewrite Hx.
    + intros (-> & Hid & Hx)%(register_Ok _ _ _ _ _ _ _ _ _ (Henv _)). eexists. split; [exact Hid|].
      unfold principal_at. by rewrite Hx.
    + intros ([] & s3 & _ & Ht)%bind_Ok.
      by apply bind_Ok in Ht as (? & ? & _ & Ht).
  - by intros ([] & s3 & _ & Ht)%bind_Ok.
Qed.

Lemma close_own id p a s :
  healthy s → sessions (registry s) !! id = Some a → principal_at s a = Some p →
  (close id p s).1 = Ok tt.
Proof.
  intros Hs Hid Ha. unfold close, lock_registry, mbind, M_bind, lock, mprim.
  unfold healthy in Hs. rewrite Hs. fold (registry s).
  unfold principal_at in Ha. destruct (session_at s a) as [x|] eqn:Hx; [|done]. injection Ha as Ha.
  rewrite (proj2 (find_session_Ok uuid (registry s) id p s a x)); [done|]. done.
Qed.

Lemma close_result_removes id s s' :
  close_result id s = (Ok tt, s') → mx_data (session_results s') !! id = None.
Proof.
  intros (g & j & Hj & ->)%call_Ok. apply bind_Ok in Hj as (m & j1 & Hl & Hj).
  destruct (m !! id); [|done]. injection Hj as <-. simpl. apply lookup_delete_eq.
Qed.

(** A handler that holds one of at least two references. *)
Lemma held_drop a n x s :
  m_heap s !! a = Some (S (S n), x) → session_at (drop_arc a s) a = Some x.
Proof.
  intros Hx. unfold drop_arc. rewrite Hx. unfold session_at. simpl. by rewrite lookup_insert_eq.
Qed.

Lemma on_session_cell {A} a n x (op : M SState AdbcError A) s :
  m_heap s !! a = Some (n, x) →
  m_heap (on_session a op s).2 !! a = Some (n, st_session (op (mkSState (m_global s) x)).2)
  ∧ (on_session a op s).1 = (op (mkSState (m_global s) x)).1.
Proof.
  intros Hx. unfold on_session. rewrite Hx. destruct (op _) as [r st]. simpl.
  by rewrite lookup_insert_eq.
Qed.

Lemma push_uploads_lock id b st :
  mx_poisoned (s_bind_uploads (st_session (push_bind_upload id b st).2))
  = mx_poisoned (s_bind_uploads (st_session st)).
Proof.
  unfold push_bind_upload, lock_uploads, mbind, M_bind, lock, mlift, ok_or.
  destruct (mx_poisoned (s_bind_uploads (st_session st))) eqn:E; [by rewrite <-E|].
  destruct (_ !! id) as [entry|]; [|by rewrite <-E]. unfold push_entry. by destruct (push _ _).
Qed.

Lemma cancel_upload_removes id s :
  mx_poisoned (s_bind_uploads (st_session s)) = false →
  mx_data (s_bind_uploads (st_session (cancel_bind_upload id s))) !! id = None.
Proof. intros Hp. unfold cancel_bind_upload, lock. rewrite Hp. simpl. apply lookup_delete_eq. Qed.
End Pieces.

(** The identity [principal] makes of a caller it lets in. *)
Lemma principal_Ok `{VgiRpc} (mg : Manager) a p :
  principal mg a = Ok p →
  p = if authenticated a then auth_domain a +:+ String nul (auth_principal a) else String nul "anonymous".
Proof. unfold principal. intros (u & _ & [= <-])%result_bind_Ok. done. Qed.

(** ** Main theorems *)

Section Main.
Context `{AdbcCore} `{RustFmt} `{ArrowCrate} `{!IpcCrate} `{FileSystem} `{AdbcOptions} `{!Backend}.
Context `{Base64} `{Hmac} `{VgiRpc} `{!StructCrate} `{!WireRecords}.
Context `{!Json WireAdbcError} `{!Json BindCursor} `{!Json ResultCursor}.
Context (uuid : nat → string) (system_now : Global → nat → Z) (mg : Manager).

(** C17: every request of every registered method, every turn of a result or
    bind stream and every cancellation of one is, on every path, a sequence of
    the manager's atomic steps that ends holding the references and opens it
    began with: no error path of a handler leaks a session reference or an open
    reservation, and all invariants of the manager hold while requests run. *)
Theorem requests_are_steps max :
  (∀ name info, (name, info) ∈ server_methods uuid system_now mg max → method_steps uuid mg info)
  ∧ (∀ cursor out ctx, rpc_steps uuid mg (produce mg cursor out ctx))
  ∧ (∀ cursor ctx, rpc_steps uuid mg (producer_on_cancel mg cursor ctx))
  ∧ (∀ cursor input out ctx, rpc_steps uuid mg (exchange mg cursor input out ctx))
  ∧ (∀ cursor ctx, rpc_steps uuid mg (exchange_on_cancel mg cursor ctx)).
Proof.
  split; [|split; [|split; [|split]]].
  - intros name info [[= -> ->]|[[= -> ->]|[_ Hm]]]%server_methods_cases.
    + intros request ctx. apply open_connection_steps.
    + intros request ctx. apply close_connection_steps.
    + by apply method_steps_of_handler.
  - intros. eapply session_handler_steps, produce_handler.
  - intros. eapply rpc_quietly, session_handler_steps, producer_cancel_handler.
  - intros. eapply session_handler_steps, exchange_handler.
  - intros. eapply rpc_quietly, session_handler_steps, exchange_cancel_handler.
Qed.

(** C18: requests of one principal leave the sessions of every other one alone.
    Whatever a request of any method but open_connection says, every session of
    another principal keeps its resources, its lease, its reference count and its
    registration, and so does every turn and cancellation of a stream, whatever
    cursor it presents.  Opening a connection does the same to every session that is
    held or whose lease has not expired; it may reap the others. *)
Theorem requests_do_not_interfere max name info request ctx p s :
  (name, info) ∈ server_methods uuid system_now mg max → principal mg (auth ctx) = Ok p →
  match info with
  | Unary _ handler | Streaming _ handler =>
      let s' := (handler request ctx s).2 in
      if bool_decide (name = method.OPEN_CONNECTION)
      then ∀ G, limits_usize (mg_limits mg) → reachable uuid mg G → gs G = s →
           sessions (registry s) !! uuid (g_uuids (m_global s)) = None → spared mg p s s'
      else untouched p s s'
  end
  ∧ (∀ cursor out, untouched p s (produce mg cursor out ctx s).2)
  ∧ (∀ cursor, untouched p s (producer_on_cancel mg cursor ctx s).2)
  ∧ (∀ cursor input out, untouched p s (exchange mg cursor input out ctx s).2)
  ∧ ∀ cursor, untouched p s (exchange_on_cancel mg cursor ctx s).2.
Proof.
  intros Hm Hp. split; [|split; [|split; [|split]]].
  - apply server_methods_cases in Hm as [[= -> ->]|[[= -> ->]|[Hn Hm]]].
    + cbv zeta. case_bool_decide; [|done]. intros G Hl Hr <- Hid. apply (spared_open_connection uuid mg p request ctx (gs G) Hp). split; [|done].
      destruct (reachable_manager_inv uuid mg G Hl Hr) as ([_ Hfresh] & _). by apply Hfresh.
    + cbv zeta. case_bool_decide; [done|]. by apply (untouched_close uuid mg).
    + destruct info; cbv zeta; case_bool_decide; try done; by eapply (untouched_handler uuid mg).
  - intros. eapply (untouched_handler uuid mg); [apply produce_handler|done].
  - intros. eapply (untouched_handler uuid mg p ctx _ s (producer_cancel_handler uuid mg cursor ctx) Hp).
  - intros. eapply (untouched_handler uuid mg); [apply exchange_handler|done].
  - intros. eapply (untouched_handler uuid mg p ctx _ s (exchange_cancel_handler uuid mg cursor ctx) Hp).
Qed.

(** C20: a server that requires authentication does nothing for an
    unauthenticated caller, and no server does anything for a request that does
    not name protocol version 0.4.x: every registered method answers an error
    and leaves the state as it was. *)
Theorem inadmissible_requests_are_inert max name info request ctx s :
  (name, info) ∈ server_methods uuid system_now mg max →
  (mg_require_authentication mg = true ∧ authenticated (auth ctx) = false)
  ∨ (∀ patch, metadata request !! "vgi_rpc.protocol_version" = Some ("0.4." +:+ patch) →
       patch = "" ∨ all_digits patch = false) →
  match info with
  | Unary _ handler => ∃ e, handler request ctx s = (Err e, s)
  | Streaming _ handler => ∃ e, handler request ctx s = (Err e, s)
  end.
Proof.
  intros Hm Hin. assert (inadmissible mg request ctx) as Hi.
  { destruct Hin as [[Hr Ha]|Hv]; [right|left].
    - unfold principal. rewrite Hr. destruct (require_authenticated (auth ctx)) as [[]|] eqn:He; [|done].
      apply require_authenticated_Ok in He. congruence.
    - unfold validate_protocol_version. destruct (metadata request !! _) as [v|]; [|done].
      unfold compatible_version. destruct (strip_prefix "0.4." v) as [patch|] eqn:Hp; [|done].
      apply strip_prefix_Some in Hp as ->. destruct (Hv patch eq_refl) as [->| ->]; [done|].
      by rewrite andb_false_r. }
  pose proof (proj1 (Forall_forall _ _) (server_methods_refused uuid system_now mg max request ctx Hi)
    (name, info) Hm) as Hr.
  destruct info; apply Hr.
Qed.

(** A session whose identifier cannot be sent is closed again: when the
    response of open_connection does not fit, the caller receives the error and
    the session it never heard of is not registered any more. *)
Theorem unsent_session_is_closed G (request : Request) ctx p args db co id s1 error :
  limits_usize (mg_limits mg) → reachable uuid mg G → healthy (gs G) →
  typed_request request = Ok args → principal mg (auth ctx) = Ok p →
  named_options_into_adbc (oc_database_options args) = Ok db →
  named_options_into_adbc (oc_connection_options args) = Ok co →
  open uuid mg p (oc_target args) db co (gs G) = (Ok id, s1) →
  bounded_response (mkSessionResponse id) (response_limit ctx) = Err error →
  (open_connection uuid mg request ctx (gs G)).1 = Err (protocol_rpc_error error)
  ∧ sessions (registry (open_connection uuid mg request ctx (gs G)).2) !! id = None.
Proof.
  intros Hl Hr Hs Hreq Hp Hdb Hco Hopen Hresp. destruct G as [s pend hd d]. simpl in *.
  pose proof (reachable_manager_inv uuid mg _ Hl Hr) as Hinv.
  destruct (open_registers uuid mg _ _ _ _ _ _ _ _ _ _ Hl Hinv Hs Hopen) as (a & Hid & Ha).
  assert (healthy s1) as Hs1.
  { pose proof (steps_healthy uuid mg _ _
      (open_steps uuid mg p (oc_target args) db co s pend hd d Hs) Hs) as Hh. by rewrite Hopen in Hh. }
  assert (open_connection uuid mg request ctx s = (Err (protocol_rpc_error error), (close id p s1).2)) as ->.
  { unfold open_connection. rewrite Hreq, Hp. unfold mbind, M_bind, mlift, adbc, mmap_err.
    rewrite Hdb, Hco. simpl. rewrite Hopen. simpl. unfold handle_response. by rewrite Hresp. }
  split; [done|]. apply (close_removes id p s1); [done|]. by eapply (close_own uuid).
Qed.

(** The partition list of execute_partitions: the i-th token is the i-th
    descriptor sealed for the session's target and principal, and the tokens
    with their bookkeeping fit what the schema left of the response limit. *)
Theorem partition_tokens_fit x clock remaining ds tokens :
  0 ≤ remaining ≤ usize_max →
  seal_partitions mg x clock 0 remaining ds = Ok tokens →
  length tokens = length ds ∧ tokens_size tokens ≤ remaining
  ∧ ∀ i d token, ds !! i = Some d → tokens !! i = Some token →
      ∃ left, left ≤ usize_max ∧ len token ≤ left
        ∧ seal (mg_partition_signer mg) (clock i) (s_target x) (s_principal x) d left = Ok token.
Proof.
  intros [Hlo Hhi] Hs. apply seal_partitions_Ok in Hs; [|done].
  destruct (sealed_size mg _ _ _ _ _ _ Hlo Hs) as [Hsize Hlen]. split; [done|]. split; [done|].
  intros i d token Hd Ht.
  destruct (sealed_lookup mg _ _ _ _ _ _ _ _ _ Hs Hd Ht) as (l & ? & ? & ?). exists l.
  split; [lia|done].
Qed.

(** The identity sessions are keyed by tells callers apart: two callers the
    server lets in are the same principal exactly when both are anonymous or both
    are authenticated with the same domain and the same name, provided no
    authentication domain is empty or contains NUL. *)
Theorem principal_separates_callers a b p q :
  (∀ x, x = a ∨ x = b → authenticated x = true → auth_domain x ≠ "" ∧ contains_nul (auth_domain x) = false) →
  principal mg a = Ok p → principal mg b = Ok q →
  p = q ↔ authenticated a = authenticated b
          ∧ (authenticated a = true → auth_domain a = auth_domain b ∧ auth_principal a = auth_principal b).
Proof.
  intros Hdom Ha Hb. pose proof (Hdom a (or_introl eq_refl)) as Da. pose proof (Hdom b (or_intror eq_refl)) as Db.
  apply principal_Ok in Ha as ->. apply principal_Ok in Hb as ->.
  destruct (authenticated a) eqn:Ea, (authenticated b) eqn:Eb; simpl;
    repeat match goal with Hx : true = true → _ |- _ => destruct (Hx eq_refl) as [? ?]; clear Hx end.
  - split; [|by intros (_ & [-> ->]%(λ f, f eq_refl))]. intros Heq. split; [done|]. intros _.
    apply (f_equal split_once_nul) in Heq. rewrite !split_once_nul_app in Heq by done. by injection Heq.
  - split; [|by intros [? _]]. intros Heq. apply (f_equal split_once_nul) in Heq.
    rewrite split_once_nul_app in Heq by done. by injection Heq.
  - split; [|by intros [? _]]. intros Heq. apply (f_equal split_once_nul) in Heq.
    rewrite split_once_nul_app in Heq by done. by injection Heq.
  - done.
Qed.

(** A result whose handle cannot be sent is closed again: when the response
    of execute does not fit and the worker answers the close, the session that
    produced it no longer has the result. *)
Theorem unsent_result_is_closed a rid schema limit s n x error :
  m_heap s !! a = Some (n, x) → execute_record rid schema limit = Err error →
  (close_result rid (mkSState (m_global s) x)).1 = Ok tt →
  (result_response a rid schema limit s).1 = Err (protocol_rpc_error error)
  ∧ ∃ x', session_at (result_response a rid schema limit s).2 a = Some x'
      ∧ mx_data (results (s_resources x')) !! rid = None.
Proof.
  intros Hx He Hc. unfold result_response. rewrite He. split; [done|]. simpl.
  destruct (on_session_cell a n x (close_result rid) s Hx) as [Hcell _].
  destruct (close_result rid (mkSState (m_global s) x)) as [r st] eqn:Hclose. simpl in *. subst r.
  exists (st_session st). unfold session_at. rewrite Hcell. split; [done|].
  exact (close_result_removes _ _ _ Hclose).
Qed.

(** A bind stream whose turn cannot be decoded or staged is over: the turn
    answers the error and the upload is no longer registered, so that its
    spooled data is released without waiting for the session to end. *)
Theorem failed_bind_turn_cancels cursor input out ctx p a s s1 n x :
  principal mg (auth ctx) = Ok p → get mg (bc_session_id cursor) p s = (Ok a, s1) →
  m_heap s1 !! a = Some (S (S n), x) → mx_poisoned (s_bind_uploads x) = false →
  let limit := Z.min (bc_max_bytes cursor) MAX_CONTROL_BYTES in
  let push b := push_bind_upload (bc_upload_id cursor) b (mkSState (m_global s1) x) in
  match decode_bind_turn input limit with
  | Err _ => True
  | Ok (Some b) => is_ok (push b).1 = false
  | Ok None => False
  end →
  is_ok (exchange mg cursor input out ctx s).1 = false
  ∧ ∃ x', session_at (exchange mg cursor input out ctx s).2 a = Some x'
      ∧ mx_data (s_bind_uploads x') !! bc_upload_id cursor = None.
Proof.
  intros Hp Hget Hx Hlock limit push Hfail. unfold exchange, session_by_id. rewrite Hp.
  unfold mbind, M_bind, mlift, adbc, mmap_err. rewrite Hget. cbn [map_err]. unfold releasing, cancelling.
  fold limit. destruct (decode_bind_turn input limit) as [[b|]|e]; [| done |]; cbn [map_err].
  - unfold via, adbc, mmap_err.
    destruct (on_session_cell a _ x (push_bind_upload (bc_upload_id cursor) b) s1 Hx) as [Hcell Hres].
    pose proof (push_uploads_lock (bc_upload_id cursor) b (mkSState (m_global s1) x)) as Hl.
    unfold push in Hfail. rewrite <-Hres in Hfail.
    destruct (on_session a (push_bind_upload (bc_upload_id cursor) b) s1) as [[[]|e] s2]; [done|].
    cbn [map_err fst snd] in *. split; [done|].
    edestruct (on_session_cell a _ _ (mmodify (cancel_bind_upload (bc_upload_id cursor))) s2 Hcell)
      as [Hcell2 _].
    eexists. split; [eapply held_drop, Hcell2|]. apply cancel_upload_removes. simpl.
    rewrite Hl. exact Hlock.
  - split; [done|]. cbn [snd].
    edestruct (on_session_cell a _ _ (mmodify (cancel_bind_upload (bc_upload_id cursor))) s1 Hx)
      as [Hcell2 _].
    eexists. split; [eapply held_drop, Hcell2|]. by apply cancel_upload_removes.
Qed.
End Main.

(** ** Examples *)

Section Example.
#[local] Existing Instance simple_core.
#[local] Existing Instance simple_fmt.
#[local] Existing Instance ref_arrow.
#[local] Existing Instance ref_ipc.
#[local] Existing Instance ref_files.
#[local] Existing Instance ref_options.
#[local] Existing Instance ref_backend.
#[local] Existing Instance ref_base64.
#[local] Existing Instance ref_hmac.
#[local] Existing Instance ref_rpc.
#[local] Existing Instance ref_struct.
#[local] Existing Instance ref_records.
#[local] Existing Instance ref_json_error.
#[local] Existing Instance ref_json_bind.
#[local] Existing Instance ref_json_result.

Lemma requests_are_steps_witness :
  rtc (mstep example_uuid example_manager) (initial example_global)
    (mkGState (open_connection example_uuid example_manager open_request alice
       (gs (initial example_global))).2 [] [] false).
Proof.
  destruct (requests_are_steps example_uuid example_clock example_manager 1000) as [Hall _].
  exact (Hall method.OPEN_CONNECTION
    (Unary (envelope_schema "request") (open_connection example_uuid example_manager))
    ltac:(left) open_request alice (gs (initial example_global)) [] [] false eq_refl).
Defined.

Definition bob : CallContext := mkCallContext (mkAuthContext "bearer" true "bob") None.

(** Bob's request leaves the session of Alice alone, and so does his opening a
    connection. *)
Lemma requests_do_not_interfere_witness :
  session_at (commit_method example_manager session_request bob result_state).2 0%nat = Some result_session
  ∧ spared example_manager ("bearer" +:+ String nul "bob") (gs (initial example_global))
      (open_connection example_uuid example_manager open_request bob (gs (initial example_global))).2.
Proof.
  split.
  - destruct (requests_do_not_interfere example_uuid example_clock example_manager 1000 method.COMMIT
      (Unary session_schema (commit_method example_manager)) session_request bob
      ("bearer" +:+ String nul "bob") result_state) as [Hu _].
    + right. left.
    + reflexivity.
    + destruct (Hu 0%nat 1%nat result_session) as [Hx _]; [reflexivity|discriminate|].
      unfold session_at. rewrite Hx. reflexivity.
  - destruct (requests_do_not_interfere example_uuid example_clock example_manager 1000 method.OPEN_CONNECTION
      (Unary (envelope_schema "request") (open_connection example_uuid example_manager)) open_request bob
      ("bearer" +:+ String nul "bob") (gs (initial example_global))) as [Hs _].
    + left.
    + reflexivity.
    + refine (Hs (initial example_global) example_limits _ _ _); [exists example_global; apply rtc_refl
        |reflexivity|reflexivity].
Defined.

Definition anonymous : CallContext := mkCallContext (mkAuthContext "" false "") None.

Lemma inadmissible_requests_are_inert_witness :
  ∃ e, commit_method example_manager session_request anonymous result_state = (Err e, result_state).
Proof.
  refine (inadmissible_requests_are_inert example_uuid example_clock example_manager 1000 method.COMMIT
    (Unary session_schema (commit_method example_manager)) session_request anonymous result_state _ _).
  - right. left.
  - left. split; reflexivity.
Defined.

(** A caller that accepts responses of at most ten bytes. *)
Definition tiny : CallContext := mkCallContext (mkAuthContext "bearer" true "alice") (Some 10).

Definition too_large : ProtocolError :=
  ArrowFailure (ArrowOther "Arrow IPC payload exceeds configured limit").

Lemma unsent_session_is_closed_witness :
  sessions (registry (open_connection example_uuid example_manager open_request tiny
    (gs (initial example_global))).2) !! "id-0" = None.
Proof.
  refine (proj2 (unsent_session_is_closed example_uuid example_manager (initial example_global)
    open_request tiny alice_principal open_args [] [] "id-0"
    (open example_uuid example_manager alice_principal "orders" [] [] (gs (initial example_global))).2
    too_large example_limits _ _ _ _ _ _ _ _)).
  - exists example_global. apply rtc_refl.
  - reflexivity.
  - vm_compute. reflexivity.
  - reflexivity.
  - reflexivity.
  - reflexivity.
  - apply pair_fst. vm_compute. reflexivity.
  - vm_compute. reflexivity.
Defined.

Lemma partition_tokens_fit_witness :
  ∃ tokens, seal_partitions example_manager result_session (λ _, 5000000) 0 65536 [[Byte.x01]; [Byte.x02]]
            = Ok tokens ∧ length tokens = 2%nat.
Proof.
  destruct (seal_partitions example_manager result_session (λ _, 5000000) 0 65536
    [[Byte.x01]; [Byte.x02]]) as [tokens|e] eqn:Hs.
  - exists tokens. split; [reflexivity|].
    refine (proj1 (partition_tokens_fit example_manager result_session (λ _, 5000000) 65536
      [[Byte.x01]; [Byte.x02]] tokens _ Hs)).
    split; vm_compute; discriminate.
  - vm_compute in Hs. discriminate.
Defined.

Lemma unsent_result_is_closed_witness :
  is_ok (result_response 0 "r1" ([] : @Schema ref_arrow) 10 result_state).1 = false.
Proof.
  refine (eq_trans (f_equal is_ok (proj1 (unsent_result_is_closed 0 "r1" ([] : @Schema ref_arrow) 10
    result_state 1 result_session too_large _ _ _))) eq_refl).
  - reflexivity.
  - vm_compute. reflexivity.
  - vm_compute. reflexivity.
Defined.

Lemma failed_bind_turn_cancels_witness :
  is_ok (exchange example_manager (mkBindCursor "id-0" "u1" 1000) (batch session_request)
           (([], false) : @OutputCollector ref_rpc) alice result_state).1 = false.
Proof.
  refine (proj1 (failed_bind_turn_cancels example_manager (mkBindCursor "id-0" "u1" 1000)
    (batch session_request) (([], false) : @OutputCollector ref_rpc) alice alice_principal 0
    result_state (get example_manager "id-0" alice_principal result_state).2 0
    (set_last_used (Mutex_new 30) result_session) _ _ _ _ _)).
  - reflexivity.
  - apply pair_fst. vm_compute. reflexivity.
  - reflexivity.
  - reflexivity.
  - vm_compute. exact I.
Defined.

Lemma principal_separates_callers_witness :
  alice_principal ≠ "bearer" +:+ String nul "bob".
Proof.
  intros Heq.
  assert (auth_principal (auth alice) = "bob") as Ha; [|discriminate Ha].
  refine (proj2 (proj2 (proj1 (principal_separates_callers example_manager (auth alice)
    (mkAuthContext "bearer" true "bob") alice_principal ("bearer" +:+ String nul "bob") _ _ _) Heq) eq_refl)).
  - intros x [-> | ->] _; (split; [discriminate|reflexivity]).
  - reflexivity.
  - reflexivity.
Defined.
End Example.
