(* ===== verification/ClientOptions.v ===== *)
(** * Options and endpoints of the client driver (adbc-driver-grainlift/src/lib.rs)

    [GrainliftDatabase]: the options a client sets, which of them the driver
    consumes and which it forwards to the downstream driver, their bounds, the
    endpoint aliases and the choice of a transport.  URL parsing is another
    crate's: the class [UrlCrate] shows what the driver reads of a URL. *)

From S2P Require Import Prelude Adbc WireError Options Arrow Reference.

(** ** Option names *)

Definition OPTION_GRAINLIFT_URI : string := "grainlift.uri".
Definition OPTION_TARGET : string := "grainlift.target".
Definition OPTION_BEARER_TOKEN : string := "grainlift.auth.bearer_token".
Definition OPTION_REQUEST_TIMEOUT_MS : string := "grainlift.request_timeout_ms".
Definition OPTION_MAX_RESPONSE_BYTES : string := "grainlift.max_response_bytes".
Definition OPTION_MAX_BIND_BYTES : string := "grainlift.max_bind_bytes".
Definition OPTION_TLS_CA : string := "grainlift.tls.ca".
Definition OPTION_TLS_CERT : string := "grainlift.tls.cert".
Definition OPTION_TLS_KEY : string := "grainlift.tls.key".
Definition OPTION_TLS_SERVER_NAME : string := "grainlift.tls.server_name".
Definition OPTION_IROH_SECRET_KEY : string := "grainlift.iroh.secret_key".
Definition OPTION_IROH_DIRECT_ADDRESS : string := "grainlift.iroh.direct_address".
Definition DEFAULT_REQUEST_TIMEOUT_MS : Z := 30000.
Definition DEFAULT_MAX_RESPONSE_BYTES : Z := 256 * 1024 * 1024.
Definition DEFAULT_MAX_BIND_BYTES : Z := MAX_BIND_STREAM_BYTES.
(** [OptionDatabase::Uri.as_ref()]. *)
Definition OPTION_URI : string := "uri".

Definition grainlift_database_options : list string :=
  [OPTION_GRAINLIFT_URI; OPTION_TARGET; OPTION_BEARER_TOKEN; OPTION_REQUEST_TIMEOUT_MS;
   OPTION_MAX_RESPONSE_BYTES; OPTION_MAX_BIND_BYTES; OPTION_TLS_CA; OPTION_TLS_CERT;
   OPTION_TLS_KEY; OPTION_TLS_SERVER_NAME; OPTION_IROH_SECRET_KEY; OPTION_IROH_DIRECT_ADDRESS].

Definition is_grainlift_database_option (key : string) : bool :=
  bool_decide (key ∈ grainlift_database_options).

(** ** URLs *)

Record Url : Type := mkUrl {
  url_scheme : string; url_username : string; url_password : option string; url_path : string;
  url_query : option string; url_fragment : option string; url_host : option string;
  url_port : option Z
}.

Class UrlCrate : Type := url_parse : string → option Url.

Section ClientOptions.
Context `{AdbcCore} `{RustFmt}.

Definition client_invalid (m : string) : AdbcError := with_message_and_status m InvalidArguments.
Definition client_internal (m : string) : AdbcError := with_message_and_status m Internal.
Definition client_not_found (m : string) : AdbcError := with_message_and_status m NotFound.
Definition not_implemented (feature : string) : AdbcError :=
  with_message_and_status (feature +:+ " is not implemented by adbc_driver_grainlift yet") NotImplemented.

(** ** The database *)

Record GrainliftDatabase : Type := mkGrainliftDatabase { options : gmap string OptionValue }.

Definition GrainliftDatabase_default : GrainliftDatabase := mkGrainliftDatabase ∅.

Definition set_option (db : GrainliftDatabase) (key : string) (value : OptionValue)
  : GrainliftDatabase := mkGrainliftDatabase (<[key := value]> (options db)).

Definition option_prefix (key : string) : string := "option " +:+ debug_str key.

Definition get_string (opts : gmap string OptionValue) (key : string) : result AdbcError string :=
  match opts !! key with
  | Some (OptString value) => Ok value
  | Some _ => Err (client_invalid (option_prefix key +:+ " is not a string"))
  | None => Err (client_not_found (option_prefix key))
  end.

Definition get_bytes (opts : gmap string OptionValue) (key : string) : result AdbcError bytes :=
  match opts !! key with
  | Some (OptBytes value) => Ok value
  | Some _ => Err (client_invalid (option_prefix key +:+ " is not bytes"))
  | None => Err (client_not_found (option_prefix key))
  end.

Definition get_int (opts : gmap string OptionValue) (key : string) : result AdbcError Z :=
  match opts !! key with
  | Some (OptInt value) => Ok value
  | Some _ => Err (client_invalid (option_prefix key +:+ " is not an integer"))
  | None => Err (client_not_found (option_prefix key))
  end.

Definition get_double (opts : gmap string OptionValue) (key : string) : result AdbcError Z :=
  match opts !! key with
  | Some (OptDouble value) => Ok value
  | Some _ => Err (client_invalid (option_prefix key +:+ " is not a double"))
  | None => Err (client_not_found (option_prefix key))
  end.

(** [Optionable for GrainliftDatabase]. *)
Definition database_get_option_string (db : GrainliftDatabase) (key : string) : result AdbcError string :=
  get_string (options db) key.
Definition database_get_option_bytes (db : GrainliftDatabase) (key : string) : result AdbcError bytes :=
  get_bytes (options db) key.
Definition database_get_option_int (db : GrainliftDatabase) (key : string) : result AdbcError Z :=
  get_int (options db) key.
Definition database_get_option_double (db : GrainliftDatabase) (key : string) : result AdbcError Z :=
  get_double (options db) key.

Definition string_option (db : GrainliftDatabase) (key : string) : result AdbcError string :=
  match options db !! key with
  | Some (OptString value) => Ok value
  | Some _ => Err (client_invalid (option_prefix key +:+ " must be a string"))
  | None => Err (client_invalid ("required " +:+ option_prefix key +:+ " is missing"))
  end.

(** The loop of [string_option_any]; [first] is [keys[0]]. *)
Fixpoint string_option_from (db : GrainliftDatabase) (first : string) (keys : list string)
  : result AdbcError string :=
  match keys with
  | [] => Err (client_invalid ("required " +:+ option_prefix first +:+ " is missing"))
  | key :: keys =>
      if bool_decide (is_Some (options db !! key)) then string_option db key
      else string_option_from db first keys
  end.

(** [keys] is never empty; its first key is in the error message. *)
Definition string_option_any (db : GrainliftDatabase) (first : string) (rest : list string)
  : result AdbcError string := string_option_from db first (first :: rest).

Definition endpoint_option (db : GrainliftDatabase) : result AdbcError string :=
  string_option_any db OPTION_GRAINLIFT_URI [OPTION_URI].

Definition validate (db : GrainliftDatabase) : result AdbcError unit :=
  endpoint_option db;;
  string_option db OPTION_TARGET;;
  Ok tt.

Definition optional_string (db : GrainliftDatabase) (key : string)
  : result AdbcError (option string) :=
  match options db !! key with
  | None => Ok None
  | Some (OptString value) => Ok (Some value)
  | Some _ => Err (client_invalid (option_prefix key +:+ " must be a string"))
  end.

Definition positive_int_option (db : GrainliftDatabase) (key : string) (default : Z)
  : result AdbcError Z :=
  value ← match options db !! key with
          | None => Ok default
          | Some (OptInt value) => Ok value
          | Some _ => Err (client_invalid (option_prefix key +:+ " must be an integer"))
          end;
  value ← ok_or (match usize_try_from value with
                 | Some value => if 0 <? value then Some value else None
                 | None => None
                 end) (client_invalid (option_prefix key +:+ " must be positive"));
  if bool_decide (key = OPTION_MAX_RESPONSE_BYTES) && (value <? 65536)
  then Err (client_invalid (option_prefix key +:+ " must be at least 65536"))
  else if bool_decide (key = OPTION_MAX_BIND_BYTES) && (MAX_CONFIGURABLE_BIND_BYTES <? value)
  then Err (client_invalid (option_prefix key +:+ " must not exceed "
                            +:+ show_int MAX_CONFIGURABLE_BIND_BYTES))
  else Ok value.

Definition forwarded (db : GrainliftDatabase) (key : string) : bool :=
  negb (is_grainlift_database_option key)
  && negb (bool_decide (options db !! OPTION_GRAINLIFT_URI = None) && bool_decide (key = OPTION_URI)).

Definition remote_options (db : GrainliftDatabase) : list NamedOption :=
  (λ '(key, value), mkNamedOption key (wire_option_from value)) <$>
    filter (λ '(key, _), forwarded db key = true) (map_to_list (options db)).

(** [GrainliftDriver::new_database_with_opts]. *)
Definition new_database_with_opts (opts : list (string * OptionValue))
  : result AdbcError GrainliftDatabase :=
  let db := foldl (λ db '(key, value), set_option db key value) GrainliftDatabase_default opts in
  validate db;;
  Ok db.

(** ** Connection parameters *)

Record TransportOptions : Type := mkTransportOptions {
  tls_ca : option string; tls_cert : option string; tls_key : option string;
  tls_server_name : option string; iroh_secret_key : option string;
  iroh_direct_address : option string
}.

Record RemoteConnectionOptions : Type := mkRemoteConnectionOptions {
  rco_endpoint : string;
  rco_bearer_token : option string;
  rco_target : string;
  rco_database_options : list NamedOption;
  rco_connection_options : list NamedOption;
  rco_request_timeout_ms : Z;
  rco_max_response_bytes : Z;
  rco_max_bind_bytes : Z;
  rco_transport_options : TransportOptions
}.

(** [new_connection_with_opts], up to [RemoteConnection::open]. *)
Definition connection_parameters (db : GrainliftDatabase) (opts : list (string * OptionValue))
  : result AdbcError RemoteConnectionOptions :=
  validate db;;
  endpoint ← endpoint_option db;
  target ← string_option db OPTION_TARGET;
  bearer_token ←
    match options db !! OPTION_BEARER_TOKEN with
    | None => Ok None
    | Some _ => Some <$> string_option db OPTION_BEARER_TOKEN
    end;
  request_timeout_ms ← positive_int_option db OPTION_REQUEST_TIMEOUT_MS DEFAULT_REQUEST_TIMEOUT_MS;
  max_response_bytes ← positive_int_option db OPTION_MAX_RESPONSE_BYTES DEFAULT_MAX_RESPONSE_BYTES;
  max_bind_bytes ← positive_int_option db OPTION_MAX_BIND_BYTES DEFAULT_MAX_BIND_BYTES;
  tls_ca ← optional_string db OPTION_TLS_CA;
  tls_cert ← optional_string db OPTION_TLS_CERT;
  tls_key ← optional_string db OPTION_TLS_KEY;
  tls_server_name ← optional_string db OPTION_TLS_SERVER_NAME;
  iroh_secret_key ← optional_string db OPTION_IROH_SECRET_KEY;
  iroh_direct_address ← optional_string db OPTION_IROH_DIRECT_ADDRESS;
  Ok (mkRemoteConnectionOptions endpoint bearer_token target (remote_options db)
        ((λ '(key, value), mkNamedOption key (wire_option_from value)) <$> opts)
        request_timeout_ms max_response_bytes max_bind_bytes
        (mkTransportOptions tls_ca tls_cert tls_key tls_server_name iroh_secret_key
           iroh_direct_address)).

(** ** Endpoints *)

Definition ALIASES : list (string * string) :=
  [("grainlift://", "https://"); ("grainlift+http://", "http://");
   ("grainlift+https://", "https://"); ("grainlift+tcp://", "tcp://");
   ("grainlift+tls+tcp://", "tls+tcp://"); ("grainlift+iroh://", "iroh://")].

Fixpoint normalize_with (aliases : list (string * string)) (endpoint : string) : string :=
  match aliases with
  | [] => endpoint
  | (alias, transport) :: aliases =>
      match strip_prefix alias endpoint with
      | Some address => transport +:+ address
      | None => normalize_with aliases endpoint
      end
  end.

Definition normalize_endpoint (endpoint : string) : string := normalize_with ALIASES endpoint.

(** What [RemoteTransport::connect] decides from the endpoint, before any I/O. *)
Inductive TransportChoice : Type :=
| ChooseHttp (endpoint : string) (bearer_token : option string)
| ChooseTcp (endpoint : string)
| ChooseTlsTcp (endpoint : string)
| ChooseIroh (endpoint : string).

Definition bearer_rejected : AdbcError :=
  client_invalid "bearer-token authentication is available only for HTTP; use mTLS identity for tls+tcp:// or endpoint identity for iroh://".
Definition scheme_rejected : AdbcError :=
  not_implemented "Grainlift URI scheme; supported schemes are grainlift, grainlift+http, grainlift+https, grainlift+tcp, grainlift+tls+tcp, grainlift+iroh, http, https, tcp, tls+tcp, and iroh".

Definition choose_transport (endpoint : string) (bearer_token : option string)
  : result AdbcError TransportChoice :=
  let endpoint := normalize_endpoint endpoint in
  if starts_with "http://" endpoint || starts_with "https://" endpoint
  then Ok (ChooseHttp endpoint bearer_token)
  else if is_some bearer_token then Err bearer_rejected
  else if negb (starts_with "tcp://" endpoint) && negb (starts_with "tls+tcp://" endpoint)
          && negb (starts_with "iroh://" endpoint)
  then Err scheme_rejected
  else if starts_with "tcp://" endpoint then Ok (ChooseTcp endpoint)
  else if starts_with "tls+tcp://" endpoint then Ok (ChooseTlsTcp endpoint)
  else Ok (ChooseIroh endpoint).

Definition host_and_port `{UrlCrate} (endpoint expected_scheme : string)
  : result AdbcError (string * Z) :=
  parsed ← ok_or (url_parse endpoint) (client_invalid "invalid Grainlift URI");
  if negb (bool_decide (url_scheme parsed = expected_scheme))
     || negb (bool_decide (url_username parsed = ""))
     || is_some (url_password parsed)
     || negb (bool_decide (url_path parsed = "") || bool_decide (url_path parsed = "/"))
     || is_some (url_query parsed)
     || is_some (url_fragment parsed)
  then Err (client_invalid (expected_scheme +:+
              " Grainlift URI must contain only a host and explicit port"))
  else
    host ← ok_or (url_host parsed) (client_invalid "Grainlift URI host is required");
    port ← ok_or (url_port parsed) (client_invalid "Grainlift URI port is required");
    Ok (host, port).

(** The files [tls_tcp_client] needs, and the name it verifies. *)
Definition tls_parameters (opts : TransportOptions) (host : string)
  : result AdbcError (string * string * string * string) :=
  ca ← ok_or (tls_ca opts) (client_invalid (OPTION_TLS_CA +:+ " is required for tls+tcp://"));
  cert ← ok_or (tls_cert opts) (client_invalid (OPTION_TLS_CERT +:+ " is required for tls+tcp://"));
  key ← ok_or (tls_key opts) (client_invalid (OPTION_TLS_KEY +:+ " is required for tls+tcp://"));
  Ok (ca, cert, key, default host (tls_server_name opts)).

(** ** Lemmas *)

Lemma forwarded_true db key :
  forwarded db key = true ↔
    (key ∉ grainlift_database_options)
    ∧ (key = OPTION_URI → is_Some (options db !! OPTION_GRAINLIFT_URI)).
Proof.
  unfold forwarded, is_grainlift_database_option.
  rewrite andb_true_iff, !negb_true_iff, bool_decide_eq_false, andb_false_iff, !bool_decide_eq_false.
  rewrite <-not_eq_None_Some. destruct (decide (key = OPTION_URI)); tauto.
Qed.

Lemma remote_options_elem db key value :
  mkNamedOption key value ∈ remote_options db ↔
    ∃ v, options db !! key = Some v ∧ value = wire_option_from v ∧ forwarded db key = true.
Proof.
  unfold remote_options. rewrite list_elem_of_fmap. split.
  - intros ([k v] & [= -> ->] & [Hf Hkv]%list_elem_of_filter). apply elem_of_map_to_list in Hkv. eauto.
  - intros (v & Hv & -> & Hf). exists (key, v). split; [done|]. apply list_elem_of_filter.
    split; [done|]. by apply elem_of_map_to_list.
Qed.

Lemma remote_options_keys db : NoDup (no_key <$> remote_options db).
Proof.
  unfold remote_options. rewrite <-list_fmap_compose.
  assert (∀ l : list (string * OptionValue), NoDup l.*1 →
    NoDup (no_key ∘ (λ '(key, value), mkNamedOption key (wire_option_from value)) <$>
             filter (λ '(key, _), forwarded db key = true) l)) as Hl.
  { induction l as [|[k v] l IH]; intros Hnd; [constructor|]. apply NoDup_cons in Hnd as [Hk Hnd].
    rewrite filter_cons. case_decide; [|by apply IH]. simpl. constructor; [|by apply IH].
    intros ([k' v'] & -> & [_ Hin]%list_elem_of_filter)%list_elem_of_fmap. apply Hk.
    apply list_elem_of_fmap. by exists (k', v'). }
  apply Hl, NoDup_fst_map_to_list.
Qed.

Lemma positive_int_option_Ok db key d n :
  positive_int_option db key d = Ok n →
  0 < n ≤ usize_max
  ∧ (key = OPTION_MAX_RESPONSE_BYTES → 65536 ≤ n)
  ∧ (key = OPTION_MAX_BIND_BYTES → n ≤ MAX_CONFIGURABLE_BIND_BYTES)
  ∧ (options db !! key = Some (OptInt n) ∨ options db !! key = None ∧ n = d).
Proof.
  unfold positive_int_option. intros Hn. apply result_bind_Ok in Hn as (v & Hv & Hn).
  apply result_bind_Ok in Hn as (v' & Hv'%ok_or_Ok & Hn).
  destruct (usize_try_from v) as [u|] eqn:Hu; [|done]. apply usize_try_from_Some in Hu as [-> [_ Hmax]].
  destruct (Z.ltb_spec 0 v); [|done]. injection Hv' as <-.
  destruct (bool_decide (key = OPTION_MAX_RESPONSE_BYTES) && (v <? 65536)) eqn:Hresp; [done|].
  destruct (bool_decide (key = OPTION_MAX_BIND_BYTES) && (MAX_CONFIGURABLE_BIND_BYTES <? v)) eqn:Hbind; [done|].
  injection Hn as <-. split; [done|]. split; [|split].
  - intros ->. rewrite bool_decide_eq_true_2 in Hresp by done. simpl in Hresp. apply Z.ltb_ge in Hresp. lia.
  - intros ->. rewrite bool_decide_eq_true_2 in Hbind by done. simpl in Hbind. apply Z.ltb_ge in Hbind. lia.
  - destruct (options db !! key) as [[]|]; naive_solver.
Qed.

Lemma normalize_known_scheme endpoint :
  endpoint = normalize_endpoint endpoint
  ∨ ∃ transport address, transport ∈ ALIASES.*2 ∧ normalize_endpoint endpoint = transport +:+ address.
Proof.
  unfold normalize_endpoint. generalize ALIASES as aliases. induction aliases as [|[a t] aliases IH]; [by left|].
  simpl. destruct (strip_prefix a endpoint) as [address|].
  - right. exists t, address. split; [set_solver|done].
  - destruct IH as [IH|(t' & address & Ht & IH)]; [by left|]. right. exists t', address. split; [set_solver|exact IH].
Qed.

Lemma normalize_idempotent endpoint :
  normalize_endpoint (normalize_endpoint endpoint) = normalize_endpoint endpoint.
Proof.
  destruct (normalize_known_scheme endpoint) as [Heq|(t & address & Ht & ->)]; [by rewrite <-Heq|].
  unfold ALIASES in Ht. simpl in Ht.
  repeat (apply elem_of_cons in Ht as [->|Ht]; [done|]). by apply elem_of_nil in Ht.
Qed.
End ClientOptions.

(** ** Main theorems *)

Section Main.
Context `{AdbcCore} `{RustFmt}.

(** The driver keeps its own settings to itself: the options it sends to
    the server are exactly those the client set that are not Grainlift options
    (endpoint, target, bearer token, limits, TLS and Iroh material), each once;
    the standard uri is one of them only when grainlift.uri names the service. *)
Theorem forwarded_options_exact db :
  NoDup (no_key <$> remote_options db)
  ∧ ∀ key value, mkNamedOption key value ∈ remote_options db ↔
      ∃ v, options db !! key = Some v ∧ value = wire_option_from v
        ∧ (key ∉ grainlift_database_options)
        ∧ (key = OPTION_URI → is_Some (options db !! OPTION_GRAINLIFT_URI)).
Proof.
  split; [apply remote_options_keys|]. intros key value. rewrite remote_options_elem.
  by setoid_rewrite forwarded_true.
Qed.

(** A connection is only attempted with parameters in range: a positive
    timeout, room for responses of at least 64 KiB, a bind limit the protocol
    can carry, and an endpoint and a target the client gave as strings. *)
Theorem connection_parameters_bounded db opts r :
  connection_parameters db opts = Ok r →
  0 < rco_request_timeout_ms r ≤ usize_max
  ∧ 65536 ≤ rco_max_response_bytes r ≤ usize_max
  ∧ 0 < rco_max_bind_bytes r ≤ MAX_CONFIGURABLE_BIND_BYTES
  ∧ options db !! OPTION_TARGET = Some (OptString (rco_target r))
  ∧ (options db !! OPTION_GRAINLIFT_URI = Some (OptString (rco_endpoint r))
     ∨ options db !! OPTION_GRAINLIFT_URI = None
       ∧ options db !! OPTION_URI = Some (OptString (rco_endpoint r)))
  ∧ rco_database_options r = remote_options db.
Proof.
  unfold connection_parameters. intros Hr. apply result_bind_unit_Ok in Hr as [_ Hr].
  apply result_bind_Ok in Hr as (endpoint & Hend & Hr). apply result_bind_Ok in Hr as (target & Ht & Hr).
  apply result_bind_Ok in Hr as (token & _ & Hr).
  apply result_bind_Ok in Hr as (timeout & Htime%positive_int_option_Ok & Hr).
  apply result_bind_Ok in Hr as (resp & Hresp%positive_int_option_Ok & Hr).
  apply result_bind_Ok in Hr as (bind & Hbind%positive_int_option_Ok & Hr).
  do 6 (apply result_bind_Ok in Hr as (? & _ & Hr)). injection Hr as <-.
  cbn [rco_request_timeout_ms rco_max_response_bytes rco_max_bind_bytes rco_target rco_endpoint rco_database_options].
  destruct Htime as (? & _), Hresp as (? & Hresp & _), Hbind as (? & _ & Hbind & _).
  specialize (Hresp eq_refl). specialize (Hbind eq_refl). split; [done|]. split; [lia|]. split; [lia|].
  split; [unfold string_option in Ht; destruct (options db !! OPTION_TARGET) as [[]|]; naive_solver|].
  split; [|done]. unfold endpoint_option, string_option_any, string_option_from, string_option in Hend.
  destruct (options db !! OPTION_GRAINLIFT_URI) as [[]|] eqn:Hu; simpl in Hend; try naive_solver.
  right. split; [done|]. case_bool_decide; [|done].
  destruct (options db !! OPTION_URI) as [[]|]; naive_solver.
Qed.

(** How an endpoint selects the transport: aliases are resolved first, a
    bearer token leaves the process only over HTTP or HTTPS, and an endpoint of
    none of the five schemes is refused before any connection is made. *)
Theorem transport_choice_decides endpoint token :
  let e := normalize_endpoint endpoint in
  match choose_transport endpoint token with
  | Ok (ChooseHttp e' token') =>
      e' = e ∧ token' = token ∧ (starts_with "http://" e = true ∨ starts_with "https://" e = true)
  | Ok (ChooseTcp e') => e' = e ∧ token = None ∧ starts_with "tcp://" e = true
  | Ok (ChooseTlsTcp e') => e' = e ∧ token = None ∧ starts_with "tls+tcp://" e = true
  | Ok (ChooseIroh e') => e' = e ∧ token = None ∧ starts_with "iroh://" e = true
  | Err error =>
      (error = bearer_rejected ∧ token ≠ None
       ∧ starts_with "http://" e = false ∧ starts_with "https://" e = false)
      ∨ (error = scheme_rejected ∧ token = None
         ∧ Forall (λ scheme, starts_with scheme e = false)
             ["http://"; "https://"; "tcp://"; "tls+tcp://"; "iroh://"])
  end
  ∧ choose_transport e token = choose_transport endpoint token.
Proof.
  cbv zeta. split; [|unfold choose_transport; by rewrite normalize_idempotent].
  unfold choose_transport. set (e := normalize_endpoint endpoint).
  destruct (starts_with "http://" e) eqn:H1', (starts_with "https://" e) eqn:H2'; simpl; try by auto.
  destruct token as [t|]; simpl; [by left|].
  destruct (starts_with "tcp://" e) eqn:H3', (starts_with "tls+tcp://" e) eqn:H4',
    (starts_with "iroh://" e) eqn:H5'; simpl; auto. right. repeat constructor; done.
Qed.
End Main.

(** ** Example *)

Section Example.
#[local] Existing Instance simple_core.
#[local] Existing Instance simple_fmt.

Definition example_database : GrainliftDatabase :=
  mkGrainliftDatabase {[OPTION_GRAINLIFT_URI := OptString "grainlift://proxy.example";
                        OPTION_TARGET := OptString "orders"; "username" := OptString "app"]}.

Lemma connection_parameters_bounded_witness :
  ∃ r, connection_parameters example_database [] = Ok r ∧ rco_database_options r = remote_options example_database.
Proof.
  destruct (connection_parameters example_database []) as [r|e] eqn:Hr.
  - exists r. split; [reflexivity|].
    exact (proj2 (proj2 (proj2 (proj2 (proj2 (connection_parameters_bounded example_database [] r Hr)))))).
  - vm_compute in Hr. discriminate.
Defined.
End Example.
