(* ===== verification/Client.v ===== *)
(** * The client driver (adbc-driver-grainlift/src/lib.rs)

    [RemoteConnection], [GrainliftConnection], [GrainliftStatement] and
    [RemoteReader]: the requests the driver builds, what it accepts as an answer,
    the bind exchange with its limits, and the two readers of a result.  The RPC
    client crate is the class [RpcTransport]; [Net] is everything on the other
    side of it, the server included. *)

From S2P Require Import Prelude Adbc WireError Options Arrow Framing Envelope Partitions.
From S2P Require Import Config Backend Rpc ClientOptions.

(** [HttpClient] and [RpcClient]: unary calls, exchanges and producer streams.
    A stream's own state is part of [Net]; [is_finished] reads it. *)
Class RpcTransport `{AdbcCore} `{VgiRpc} : Type := {
  Net : Type;
  build_client : M Net RpcError unit;
  call_unary : string → RecordBatch → M Net RpcError RecordBatch;
  ExchangeHandle : Type;
  open_exchange : string → RecordBatch → M Net RpcError ExchangeHandle;
  exchange_turn : ExchangeHandle → RecordBatch → M Net RpcError (option RecordBatch);
  exchange_cancel : ExchangeHandle → Net → Net;
  ProducerHandle : Type;
  open_producer : string → RecordBatch → M Net RpcError ProducerHandle;
  resume_stream : string → string → Net → ProducerHandle * Net;
  next_with_token : ProducerHandle → M Net RpcError (option (RecordBatch * option string));
  is_finished : ProducerHandle → Net → bool;
  tick : ProducerHandle → M Net RpcError (option RecordBatch);
  producer_cancel : ProducerHandle → Net → Net;
  connector_connect : M Net AdbcError unit;
  spawn_thread : M Net string unit
}.

Section Client.
Context `{AdbcCore} `{RustFmt} `{ArrowCrate} `{!IpcCrate} `{AdbcOptions} `{Base64} `{VgiRpc}.
Context `{!StructCrate} `{!WireRecords} `{!Json WireAdbcError} `{!RpcTransport}.
Context (c_char_signed : bool).

Abbreviation Cl := (M Net AdbcError).

(** ** Errors *)

Definition adbc_prefix : string := "AdbcError: ".

Definition rpc_error (error : RpcError) : AdbcError :=
  let other := with_message_and_status (rpc_to_string error) IO in
  if bool_decide (error_type error = "AdbcError") then
    match from_json (default (error_message error) (strip_prefix adbc_prefix (error_message error))) with
    | Ok wire => into_adbc c_char_signed wire
    | Err _ => other
    end
  else other.

(** ** Requests *)

Definition arrow_result (r : result ArrowError RecordBatch) : result AdbcError RecordBatch :=
  map_err error_from_arrow r.

Definition string_column (value : string) : Column := StringArray [Some value].
Definition binary_column (value : bytes) : Column := BinaryArray [Some value].

Definition session_request (session_id : string) : result AdbcError RecordBatch :=
  arrow_result (try_new session_schema [string_column session_id]).

Definition statement_request (session_id statement_id : string) : result AdbcError RecordBatch :=
  arrow_result (try_new statement_schema [string_column session_id; string_column statement_id]).

Definition client_typed_request {T} `{!VgiArrow T} `{!RequestRecord T} (value : T)
  : result AdbcError RecordBatch :=
  map_err (λ e, client_invalid (protocol_error_to_string e)) (encode_request value MAX_CONTROL_BYTES).

Definition connection_binary_request (session_id : string) (payload : bytes)
  : result AdbcError RecordBatch :=
  arrow_result (try_new connection_binary_schema [string_column session_id; binary_column payload]).

Definition connection_option_request (session_id key : string) (value : OptionValue)
  : result AdbcError RecordBatch :=
  client_typed_request (mkSetConnectionOptionRequest session_id key (wire_option_from value)).

Definition connection_option_key_request (session_id key value_type : string)
  : result AdbcError RecordBatch :=
  arrow_result (try_new connection_option_key_schema
    [string_column session_id; string_column key; string_column value_type]).

Definition statement_option_request (session_id statement_id key : string) (value : OptionValue)
  : result AdbcError RecordBatch :=
  client_typed_request (mkSetStatementOptionRequest session_id statement_id key (wire_option_from value)).

Definition statement_option_key_request (session_id statement_id key value_type : string)
  : result AdbcError RecordBatch :=
  arrow_result (try_new statement_option_key_schema
    [string_column session_id; string_column statement_id; string_column key;
     string_column value_type]).

Definition statement_binary_request (session_id statement_id : string) (payload : bytes)
  : result AdbcError RecordBatch :=
  arrow_result (try_new statement_binary_schema
    [string_column session_id; string_column statement_id; binary_column payload]).

Definition sql_request (session_id statement_id sql : string) : result AdbcError RecordBatch :=
  arrow_result (try_new set_sql_schema
    [string_column session_id; string_column statement_id; string_column sql]).

Definition result_request (session_id result_id : string) : result AdbcError RecordBatch :=
  arrow_result (try_new result_schema [string_column session_id; string_column result_id]).

Definition read_result_request (session_id result_id : string) : result AdbcError RecordBatch :=
  arrow_result (try_new read_result_schema
    [string_column session_id; string_column result_id; Int64Array [Some 0]]).

Definition bind_init_request (session_id statement_id : string) (schema_ipc : bytes)
  : result AdbcError RecordBatch :=
  arrow_result (try_new bind_init_schema
    [string_column session_id; string_column statement_id; binary_column schema_ipc]).

(** ** Responses *)

Definition client_decode {T} `{!VgiArrow T} `{!ResponseRecord T} (b : RecordBatch)
  : result AdbcError T :=
  map_err (λ e, client_internal (protocol_error_to_string e)) (decode_response b MAX_CONTROL_BYTES).

Definition validate_bind_ack (b : RecordBatch) : result AdbcError unit :=
  if negb (bool_decide (rb_fields b = empty_response_schema)) || negb (num_rows b =? 1)
  then Err (client_internal "invalid bind acknowledgement schema or row count")
  else
    ok ← ok_or (head (rb_columns b) ≫= as_boolean)
           (client_internal "invalid bind acknowledgement type");
    if bool_decide (row0 ok = Some true) then Ok tt
    else Err (client_internal "bind acknowledgement must be true").

Definition client_decode_schema (b : bytes) : result AdbcError Schema :=
  map_err (λ e, client_internal (protocol_error_to_string e)) (decode_schema b).

Definition decode_schema_response (b : RecordBatch) : result AdbcError Schema :=
  response ← client_decode (T := SchemaResponse) b;
  client_decode_schema (sch_schema_ipc response).

Definition decode_option_response (b : RecordBatch) : result AdbcError OptionValue :=
  response ← client_decode (T := ValueResponse) b;
  map_err (λ e, client_internal (protocol_error_to_string e)) (option_value_into_adbc (vr_value response)).

(** ** Transports *)

(** An HTTP transport builds a client per call; a byte transport has one behind a lock. *)
Inductive RemoteTransport : Type := Http | Byte (client : Mutex unit).

Record RemoteConnection : Type := mkRemoteConnection {
  transport : RemoteTransport; session_id : string; max_bind_bytes : Z
}.

Definition is_http (t : RemoteTransport) : bool := match t with Http => true | Byte _ => false end.

Definition net {A} (m : M Net RpcError A) : Cl A := mmap_err rpc_error m.

Definition http_client (t : RemoteTransport) : Cl unit :=
  match t with
  | Http => net build_client
  | Byte _ => mthrow (client_internal "HTTP stream requested for a byte-stream transport")
  end.

Definition lock_client (c : Mutex unit) : Cl unit :=
  mlift (lock c (client_internal "VGI byte-stream client is poisoned")).

(** The client a call or an exchange runs on. *)
Definition client_for (t : RemoteTransport) : Cl unit :=
  match t with Http => http_client t | Byte c => lock_client c end.

Definition transport_call (t : RemoteTransport) (name : string) (request : RecordBatch)
  : Cl RecordBatch :=
  client_for t;; net (call_unary name request).

(** The methods whose answer is an acknowledgement. *)
Definition acknowledged : list string :=
  [method.CLOSE_CONNECTION; method.COMMIT; method.ROLLBACK; method.CANCEL_CONNECTION;
   method.SET_CONNECTION_OPTION; method.CLOSE_STATEMENT; method.SET_STATEMENT_OPTION;
   method.PREPARE; method.SET_SQL_QUERY; method.SET_SUBSTRAIT_PLAN; method.CANCEL_STATEMENT;
   method.CLOSE_RESULT].

Definition check_acknowledged (name : string) (response : RecordBatch) : result AdbcError unit :=
  if bool_decide (name ∈ acknowledged) then
    ack ← client_decode (T := OkResponse) response;
    if ok ack then Ok tt else Err (client_internal "unary acknowledgement must be true")
  else Ok tt.

Definition call (c : RemoteConnection) (name : string) (request : RecordBatch) : Cl RecordBatch :=
  response ← transport_call (transport c) name request;
  mlift (check_acknowledged name response);;
  mret response.

(** [RemoteConnection::open], on a transport that is connected. *)
Definition open_remote (t : RemoteTransport) (r : RemoteConnectionOptions) : Cl RemoteConnection :=
  request ← mlift (client_typed_request
    (mkOpenConnectionRequest (rco_target r) (rco_database_options r) (rco_connection_options r)));
  response ← transport_call t method.OPEN_CONNECTION request;
  session ← mlift (client_decode (T := SessionResponse) response);
  mret (mkRemoteConnection t (sr_session_id session) (rco_max_bind_bytes r)).

(** [Drop] of connections, statements and readers: one request, its answer ignored. *)
Definition best_effort (c : RemoteConnection) (name : string) (request : result AdbcError RecordBatch)
    (n : Net) : Net :=
  match request with Ok request => (call c name request n).2 | Err _ => n end.

Definition drop_connection (c : RemoteConnection) : Net → Net :=
  best_effort c method.CLOSE_CONNECTION (session_request (session_id c)).

(** ** Binding *)

(** The first half of the loop body: the turn that carries a batch, and the
    running totals after it. *)
Definition bind_turn_of (max turn_limit logical encoded : Z) (item : result ArrowError RecordBatch)
  : result AdbcError (RecordBatch * Z * Z) :=
  batch ← map_err error_from_arrow item;
  logical ← ok_or (usize_checked_add logical (get_array_memory_size batch))
              (client_invalid "bind stream size overflow");
  if max <? logical
  then Err (client_invalid ("bind stream exceeds the " +:+ show_int max +:+
              " byte limit (at least " +:+ show_int logical +:+ " bytes)"))
  else
    turn ← map_err (λ e, client_invalid (protocol_error_to_string e))
             (encode_bind_turn (Some batch) turn_limit);
    payload ← map_err (λ e, client_invalid (protocol_error_to_string e))
                (batch_binary_value turn "batch_ipc");
    encoded ← ok_or (usize_checked_add encoded (len payload))
                (client_invalid "bind stream size overflow");
    if max <? encoded
    then Err (client_invalid "serialized bind stream exceeds configured byte limit")
    else Ok (turn, logical, encoded).

(** One exchange on the open stream, with its acknowledgement. *)
Definition send_turn (h : ExchangeHandle) (turn : RecordBatch) : Cl unit :=
  ack ← net (exchange_turn h turn);
  ack ← mlift (ok_or ack (client_internal "bind exchange ended before acknowledgement"));
  mlift (validate_bind_ack ack).

Fixpoint send_batches (h : ExchangeHandle) (max turn_limit logical encoded : Z)
    (batches : list (result ArrowError RecordBatch)) : Cl unit :=
  match batches with
  | [] =>
      finish ← mlift (map_err (λ e, client_invalid (protocol_error_to_string e))
                        (encode_bind_turn None turn_limit));
      send_turn h finish
  | item :: batches =>
      '(turn, logical, encoded) ← mlift (bind_turn_of max turn_limit logical encoded item);
      send_turn h turn;;
      send_batches h max turn_limit logical encoded batches
  end.

Definition bind_batches (c : RemoteConnection) (name statement_id : string) (schema : Schema)
    (batches : list (result ArrowError RecordBatch)) : Cl unit :=
  schema_ipc ← mlift (map_err (λ e, client_invalid (protocol_error_to_string e)) (encode_schema schema));
  init ← mlift (bind_init_request (session_id c) statement_id schema_ipc);
  client_for (transport c);;
  h ← net (open_exchange name init);
  mprim (λ n,
    let turn_limit := Z.min (max_bind_bytes c) MAX_CONTROL_BYTES in
    match send_batches h (max_bind_bytes c) turn_limit 0 0 batches n with
    | (Ok v, n) => (Ok v, n)
    | (Err e, n) => (Err e, exchange_cancel h n)
    end).

(** ** Reading a result *)

(** The thread behind a byte-stream reader: it serves commands on its own
    connection until the stream ends, fails or is cancelled. *)
Inductive ByteReader : Type := ReaderRunning (h : ProducerHandle) | ReaderStopped.

Inductive RemoteReaderMode : Type :=
| HttpMode (pending : list RecordBatch) (continuation : option string)
| ByteMode (reader : ByteReader).

Record RemoteReader : Type := mkRemoteReader {
  rr_result_id : string; rr_schema : Schema; rr_mode : RemoteReaderMode; rr_finished : bool
}.

Definition byte_reader_open (request : RecordBatch) : Cl ByteReader :=
  mmap_err (λ error, client_internal ("start result stream worker: " +:+ error)) spawn_thread;;
  connector_connect;;
  h ← net (open_producer method.READ_RESULT request);
  mret (ReaderRunning h).

Definition byte_reader_next (r : ByteReader) : Net → result AdbcError (option RecordBatch) * ByteReader * Net :=
  λ n,
  match r with
  | ReaderStopped => (Err (client_internal "result stream worker stopped"), ReaderStopped, n)
  | ReaderRunning h =>
      let '(value, n) := net (tick h) n in
      (value, match value with Ok (Some _) => ReaderRunning h | _ => ReaderStopped end, n)
  end.

Definition byte_reader_drop (r : ByteReader) (n : Net) : Net :=
  match r with ReaderRunning h => producer_cancel h n | ReaderStopped => n end.

(** [stream.next_with_token()] and [stream.is_finished()] after it. *)
Definition stream_turn (h : ProducerHandle)
  : Cl (option RecordBatch * option string * bool) :=
  value ← net (next_with_token h);
  finished ← mgets (is_finished h);
  mret (match value with
        | Some (b, continuation) => (Some b, continuation, finished)
        | None => (None, None, true)
        end).

Definition reader_open (c : RemoteConnection) (result_id : string) (schema : Schema) : Cl RemoteReader :=
  request ← mlift (read_result_request (session_id c) result_id);
  if negb (is_http (transport c)) then
    reader ← byte_reader_open request;
    mret (mkRemoteReader result_id schema (ByteMode reader) false)
  else
    http_client (transport c);;
    h ← net (open_producer method.READ_RESULT request);
    '(first, continuation, finished) ← stream_turn h;
    mret (mkRemoteReader result_id schema (HttpMode (option_list first) continuation) finished).

Definition set_mode (r : RemoteReader) (mode : RemoteReaderMode) (finished : bool) : RemoteReader :=
  mkRemoteReader (rr_result_id r) (rr_schema r) mode finished.

Definition resume (t : RemoteTransport) (token : string)
  : Cl (option RecordBatch * option string * bool) :=
  http_client t;;
  h ← mprim (λ n, let '(h, n) := resume_stream method.READ_RESULT token n in (Ok h, n));
  stream_turn h.

Definition next_remote (c : RemoteConnection) (r : RemoteReader) (n : Net)
  : result AdbcError (option RecordBatch) * RemoteReader * Net :=
  if rr_finished r then (Ok None, r, n)
  else
    match rr_mode r with
    | HttpMode (b :: pending) continuation =>
        (Ok (Some b), set_mode r (HttpMode pending continuation) (rr_finished r), n)
    | HttpMode [] None => (Ok None, set_mode r (HttpMode [] None) true, n)
    | HttpMode [] (Some token) =>
        match resume (transport c) token n with
        | (Err e, n) => (Err e, set_mode r (HttpMode [] None) (rr_finished r), n)
        | (Ok (b, continuation, finished), n) =>
            (Ok b, set_mode r (HttpMode [] continuation)
                     (finished || bool_decide (continuation = None)), n)
        end
    | ByteMode reader =>
        match byte_reader_next reader n with
        | (Err e, reader, n) => (Err e, set_mode r (ByteMode reader) (rr_finished r), n)
        | (Ok b, reader, n) => (Ok b, set_mode r (ByteMode reader) (bool_decide (b = None)), n)
        end
    end.

(** [Iterator::next]. *)
Definition reader_next_item (c : RemoteConnection) (r : RemoteReader) (n : Net)
  : option (result ArrowError RecordBatch) * RemoteReader * Net :=
  match next_remote c r n with
  | (Ok (Some b), r, n) => (Some (Ok b), r, n)
  | (Ok None, r, n) => (None, r, n)
  | (Err e, r, n) => (Some (Err (ExternalError e)), set_mode r (rr_mode r) true, n)
  end.

(** [Drop]: the reader closes its result; the fields are dropped afterwards. *)
Definition close_reader (c : RemoteConnection) (r : RemoteReader) : Net → Net :=
  best_effort c method.CLOSE_RESULT (result_request (session_id c) (rr_result_id r)).

Definition drop_mode (r : RemoteReader) (n : Net) : Net :=
  match rr_mode r with HttpMode _ _ => n | ByteMode reader => byte_reader_drop reader n end.

Definition drop_reader (c : RemoteConnection) (r : RemoteReader) (n : Net) : Net :=
  drop_mode r (close_reader c r n).

Definition reader_from_response (c : RemoteConnection) (response : RecordBatch) : Cl RemoteReader :=
  response ← mlift (client_decode (T := ExecuteResponse) response);
  schema ← mlift (client_decode_schema (er_schema_ipc response));
  reader_open c (er_result_id response) schema.

(** ** Connections *)

Definition session_call (c : RemoteConnection) (name : string) : Cl unit :=
  request ← mlift (session_request (session_id c));
  call c name request;;
  mret tt.

Definition connection_stream_call {T} `{!VgiArrow T} `{!RequestRecord T} (c : RemoteConnection)
    (name : string) (args : T) : Cl RemoteReader :=
  request ← mlift (client_typed_request args);
  response ← call c name request;
  reader_from_response c response.

Definition session_stream_call (c : RemoteConnection) (name : string) : Cl RemoteReader :=
  request ← mlift (session_request (session_id c));
  response ← call c name request;
  reader_from_response c response.

Definition connection_schema_call {T} `{!VgiArrow T} `{!RequestRecord T} (c : RemoteConnection)
    (name : string) (args : T) : Cl Schema :=
  request ← mlift (client_typed_request args);
  response ← call c name request;
  mlift (decode_schema_response response).

Definition connection_set_option (c : RemoteConnection) (key : string) (value : OptionValue) : Cl unit :=
  request ← mlift (connection_option_request (session_id c) key value);
  call c method.SET_CONNECTION_OPTION request;;
  mret tt.

Definition client_get_connection_option (c : RemoteConnection) (key value_type : string)
  : Cl OptionValue :=
  request ← mlift (connection_option_key_request (session_id c) key value_type);
  response ← call c method.GET_CONNECTION_OPTION request;
  mlift (decode_option_response response).

(** The four typed getters of an [Optionable]. *)
Definition wrong_option_type : AdbcError :=
  client_internal "Grainlift returned the wrong option value type".
Definition as_string_option (v : OptionValue) : result AdbcError string :=
  match v with OptString value => Ok value | _ => Err wrong_option_type end.
Definition as_bytes_option (v : OptionValue) : result AdbcError bytes :=
  match v with OptBytes value => Ok value | _ => Err wrong_option_type end.
Definition as_int_option (v : OptionValue) : result AdbcError Z :=
  match v with OptInt value => Ok value | _ => Err wrong_option_type end.
Definition as_double_option (v : OptionValue) : result AdbcError Z :=
  match v with OptDouble value => Ok value | _ => Err wrong_option_type end.

Definition connection_get_option {A} (c : RemoteConnection) (key value_type : string)
    (expect : OptionValue → result AdbcError A) : Cl A :=
  value ← client_get_connection_option c key value_type;
  mlift (expect value).

Definition connection_get_option_string c key := connection_get_option c key "string" as_string_option.
Definition connection_get_option_bytes c key := connection_get_option c key "bytes" as_bytes_option.
Definition connection_get_option_int c key := connection_get_option c key "int" as_int_option.
Definition connection_get_option_double c key := connection_get_option c key "double" as_double_option.

Record GrainliftStatement : Type := mkGrainliftStatement {
  st_remote : RemoteConnection; st_statement_id : string
}.

Definition connection_new_statement (c : RemoteConnection) : Cl GrainliftStatement :=
  request ← mlift (session_request (session_id c));
  response ← call c method.NEW_STATEMENT request;
  response ← mlift (client_decode (T := StatementResponse) response);
  mret (mkGrainliftStatement c (str_statement_id response)).

Definition connection_get_objects (c : RemoteConnection) (depth : Z)
    (catalog db_schema table_name : option string) (table_type : option (list string))
    (column_name : option string) : Cl RemoteReader :=
  connection_stream_call c method.GET_OBJECTS
    (mkGetObjectsRequest (session_id c) depth catalog db_schema table_name table_type column_name).

Definition connection_get_table_schema (c : RemoteConnection) (catalog db_schema : option string)
    (table_name : string) : Cl Schema :=
  connection_schema_call c method.GET_TABLE_SCHEMA
    (mkGetTableSchemaRequest (session_id c) catalog db_schema table_name).

Definition connection_get_table_types (c : RemoteConnection) : Cl RemoteReader :=
  session_stream_call c method.GET_TABLE_TYPES.
Definition connection_get_statistic_names (c : RemoteConnection) : Cl RemoteReader :=
  session_stream_call c method.GET_STATISTIC_NAMES.

Definition connection_get_statistics (c : RemoteConnection)
    (catalog db_schema table_name : option string) (approximate : bool) : Cl RemoteReader :=
  connection_stream_call c method.GET_STATISTICS
    (mkGetStatisticsRequest (session_id c) catalog db_schema table_name approximate).

Definition connection_commit (c : RemoteConnection) : Cl unit := session_call c method.COMMIT.
Definition connection_rollback (c : RemoteConnection) : Cl unit := session_call c method.ROLLBACK.

Definition connection_read_partition (c : RemoteConnection) (partition : bytes) : Cl RemoteReader :=
  request ← mlift (connection_binary_request (session_id c) partition);
  response ← call c method.READ_PARTITION request;
  reader_from_response c response.

(** A cancel handle does not keep its connection alive. *)
Definition connection_try_cancel (remote : option RemoteConnection) : Cl unit :=
  match remote with None => mret tt | Some c => session_call c method.CANCEL_CONNECTION end.

(** ** Statements *)

Definition request_of (st : GrainliftStatement) : result AdbcError RecordBatch :=
  statement_request (session_id (st_remote st)) (st_statement_id st).

Definition statement_call (st : GrainliftStatement) (name : string) : Cl RecordBatch :=
  request ← mlift (request_of st);
  call (st_remote st) name request.

Definition statement_set_option (st : GrainliftStatement) (key : string) (value : OptionValue)
  : Cl unit :=
  request ← mlift (statement_option_request (session_id (st_remote st)) (st_statement_id st) key value);
  call (st_remote st) method.SET_STATEMENT_OPTION request;;
  mret tt.

Definition statement_get_option {A} (st : GrainliftStatement) (key value_type : string)
    (expect : OptionValue → result AdbcError A) : Cl A :=
  request ← mlift (statement_option_key_request (session_id (st_remote st)) (st_statement_id st)
                     key value_type);
  response ← call (st_remote st) method.GET_STATEMENT_OPTION request;
  value ← mlift (decode_option_response response);
  mlift (expect value).

Definition statement_get_option_string st key := statement_get_option st key "string" as_string_option.
Definition statement_get_option_bytes st key := statement_get_option st key "bytes" as_bytes_option.
Definition statement_get_option_int st key := statement_get_option st key "int" as_int_option.
Definition statement_get_option_double st key := statement_get_option st key "double" as_double_option.

Definition statement_bind (st : GrainliftStatement) (batch : RecordBatch) : Cl unit :=
  bind_batches (st_remote st) method.BIND (st_statement_id st) (batch_schema batch) [Ok batch].

Definition statement_bind_stream (st : GrainliftStatement) (schema : Schema)
    (batches : list (result ArrowError RecordBatch)) : Cl unit :=
  bind_batches (st_remote st) method.BIND_STREAM (st_statement_id st) schema batches.

Definition statement_execute (st : GrainliftStatement) : Cl RemoteReader :=
  response ← statement_call st method.EXECUTE;
  reader_from_response (st_remote st) response.

Definition statement_execute_update (st : GrainliftStatement) : Cl (option Z) :=
  response ← statement_call st method.EXECUTE_UPDATE;
  response ← mlift (client_decode (T := UpdateResponse) response);
  mret (ur_rows_affected response).

Definition statement_execute_schema (st : GrainliftStatement) : Cl Schema :=
  response ← statement_call st method.EXECUTE_SCHEMA;
  mlift (decode_schema_response response).

Definition statement_execute_partitions (st : GrainliftStatement) : Cl (PartitionedResult Schema) :=
  response ← statement_call st method.EXECUTE_PARTITIONS;
  response ← mlift (client_decode (T := PartitionsResponse) response);
  schema ← mlift (client_decode_schema (pr_schema_ipc response));
  mret (mkPartitionedResult (Options.pr_partitions response) schema
          (Options.pr_rows_affected response)).

Definition statement_get_parameter_schema (st : GrainliftStatement) : Cl Schema :=
  response ← statement_call st method.GET_PARAMETER_SCHEMA;
  mlift (decode_schema_response response).

Definition statement_prepare (st : GrainliftStatement) : Cl unit :=
  statement_call st method.PREPARE;; mret tt.

Definition statement_set_sql_query (st : GrainliftStatement) (query : string) : Cl unit :=
  request ← mlift (sql_request (session_id (st_remote st)) (st_statement_id st) query);
  call (st_remote st) method.SET_SQL_QUERY request;;
  mret tt.

Definition statement_set_substrait_plan (st : GrainliftStatement) (plan : bytes) : Cl unit :=
  request ← mlift (statement_binary_request (session_id (st_remote st)) (st_statement_id st) plan);
  call (st_remote st) method.SET_SUBSTRAIT_PLAN request;;
  mret tt.

Definition statement_try_cancel (remote : option RemoteConnection) (statement_id : string) : Cl unit :=
  match remote with
  | None => mret tt
  | Some c =>
      request ← mlift (statement_request (session_id c) statement_id);
      call c method.CANCEL_STATEMENT request;;
      mret tt
  end.

Definition drop_statement (st : GrainliftStatement) : Net → Net :=
  best_effort (st_remote st) method.CLOSE_STATEMENT (request_of st).
End Client.
