(* ===== verification/ClientTheorems.v ===== *)
(** * What the client driver guarantees (adbc-driver-grainlift/src/lib.rs)

    Errors of the native driver reach the application unchanged, every request
    the driver builds is read back by the server as it was meant, a bind stream
    stays within its limits, and a reader delivers a result completely, over
    HTTP and over byte streams. *)

From S2P Require Import Prelude Adbc WireError Options Arrow Framing Envelope Partitions.
From S2P Require Import Config Backend Rpc Service.
From S2P Require Import Reference ReferenceIpc ReferenceBackend ReferenceRpc ClientOptions Client.

Section Lemmas.
Context `{AdbcCore} `{RustFmt} `{ArrowCrate} `{!IpcCrate} `{AdbcOptions} `{Base64} `{VgiRpc}.
Context `{!StructCrate} `{!WireRecords} `{!Json WireAdbcError} `{!RpcTransport}.
Context (c_char_signed : bool).

(** ** Errors *)

Lemma object_has_no_prefix t : starts_with "{" t = true → strip_prefix adbc_prefix t = None.
Proof. intros [u ->]%starts_with_true. done. Qed.

Lemma rpc_error_adbc e t err :
  adbc_error_wf c_char_signed e → to_json (wire_from_adbc e) = Ok t →
  error_type err = "AdbcError" →
  error_message err = t ∨ error_message err = adbc_prefix +:+ t →
  rpc_error c_char_signed err = into_adbc c_char_signed (wire_from_adbc e).
Proof.
  intros He Ht Hty Hm. unfold rpc_error. rewrite Hty, bool_decide_eq_true_2 by done.
  assert (default (error_message err) (strip_prefix adbc_prefix (error_message err)) = t) as ->.
  { destruct Hm as [-> | ->].
    - by rewrite (object_has_no_prefix t) by (by eapply to_json_object).
    - by rewrite (proj2 (strip_prefix_Some adbc_prefix (adbc_prefix +:+ t) t) eq_refl). }
  by rewrite (from_to_json _ _ Ht).
Qed.

(** ** Requests *)

(** A request of the driver: one row of non-null columns that fit the schema. *)
Lemma built_request fields columns b :
  fields ≠ [] → Forall2 (λ f c, column_fits 1 f c = true) fields columns →
  arrow_result (try_new fields columns) = Ok b → b = mkRecordBatch fields columns 1.
Proof. intros Hne Hf. unfold arrow_result. rewrite try_new_row by done. by intros [= <-]. Qed.

Definition driver_metadata : gmap string string :=
  {["vgi_rpc.protocol_version" := PROTOCOL_VERSION]}.

Definition as_request (b : RecordBatch) : Request := mkRequest b driver_metadata.

Lemma driver_version_accepted b : validate_protocol_version (as_request b) = Ok tt.
Proof. done. Qed.

Lemma request_string_read b name v :
  batch_string_value b name = Ok v →
  (if is_handle_name name then validate_handle v else validate_text v) = Ok tt →
  request_string (as_request b) name = Ok v.
Proof. intros Hb Hv. unfold request_string. simpl. rewrite Hb. simpl. by rewrite Hv. Qed.

(** ** Bind streams *)

(** The turns were sent in order and each was acknowledged. *)
Inductive sent (h : ExchangeHandle) : list RecordBatch → Net → Net → Prop :=
| sent_nil n : sent h [] n n
| sent_cons t ts n n1 n2 :
    send_turn c_char_signed h t n = (Ok tt, n1) → sent h ts n1 n2 → sent h (t :: ts) n n2.

Lemma sent_app h ts us n n1 n2 : sent h ts n n1 → sent h us n1 n2 → sent h (ts ++ us) n n2.
Proof. induction 1; [done|]. intros. econstructor; eauto. Qed.

Definition payload_size (turn : RecordBatch) : Z :=
  match batch_binary_value turn "batch_ipc" with Ok p => len p | Err _ => 0 end.

Definition sum_sizes {A} (f : A → Z) (l : list A) : Z := foldr (λ a total, f a + total) 0 l.

Lemma bind_turn_of_Ok max limit logical encoded item turn logical' encoded' :
  bind_turn_of max limit logical encoded item = Ok (turn, logical', encoded') →
  ∃ b, item = Ok b ∧ encode_bind_turn (Some b) limit = Ok turn
    ∧ logical' = logical + get_array_memory_size b ∧ logical' ≤ max
    ∧ encoded' = encoded + payload_size turn ∧ encoded' ≤ max.
Proof.
  unfold bind_turn_of. intros Ht. apply result_bind_Ok in Ht as (b & Hb%map_err_Ok & Ht).
  apply result_bind_Ok in Ht as (l & Hl%ok_or_Ok & Ht). apply usize_try_from_Some in Hl as [-> _].
  destruct (Z.ltb_spec max (logical + get_array_memory_size b)); [done|].
  apply result_bind_Ok in Ht as (t & Htu%map_err_Ok & Ht).
  apply result_bind_Ok in Ht as (p & Hp%map_err_Ok & Ht).
  apply result_bind_Ok in Ht as (e & He%ok_or_Ok & Ht). apply usize_try_from_Some in He as [-> _].
  destruct (Z.ltb_spec max (encoded + len p)); [done|]. injection Ht as <- <- <-.
  exists b. unfold payload_size. rewrite Hp. done.
Qed.

Lemma send_batches_Ok h max limit logical encoded items n n' :
  send_batches c_char_signed h max limit logical encoded items n = (Ok tt, n') →
  ∃ batches turns finish,
    items = Ok <$> batches
    ∧ Forall2 (λ b t, encode_bind_turn (Some b) limit = Ok t) batches turns
    ∧ encode_bind_turn None limit = Ok finish
    ∧ (batches ≠ [] → logical + sum_sizes get_array_memory_size batches ≤ max
                      ∧ encoded + sum_sizes payload_size turns ≤ max)
    ∧ sent h (turns ++ [finish]) n n'.
Proof.
  revert logical encoded n. induction items as [|item items IH]; intros logical encoded n; simpl.
  - unfold mbind at 1, M_bind at 1, mlift at 1.
    destruct (encode_bind_turn None limit) as [finish|] eqn:Hf; [|done]. simpl. intros Hs.
    exists [], [], finish. repeat split; try done. econstructor; [exact Hs|constructor].
  - unfold mbind at 1, M_bind at 1, mlift at 1.
    destruct (bind_turn_of max limit logical encoded item) as [[[turn l'] e']|] eqn:Ht; [|done].
    apply bind_turn_of_Ok in Ht as (b & -> & Hb & Hl & Hlm & He & Hem).
    unfold mbind at 1, M_bind at 1. destruct (send_turn c_char_signed h turn n) as [[[]|] n1] eqn:Hs; [|done].
    intros (batches & turns & finish & -> & Hall & Hf & Hbound & Hsent)%IH.
    exists (b :: batches), (turn :: turns), finish. split; [done|]. split; [by constructor|].
    split; [done|]. split; [|econstructor; [exact Hs|done]]. intros _. simpl.
    destruct batches as [|b' bs]; [|destruct Hbound as [? ?]; [done|]; lia].
    apply Forall2_nil_inv_l in Hall as ->. simpl. lia.
Qed.

(** ** Reading over HTTP *)

Inductive StreamEnd : Type := EndOfResult | FailedWith (error : AdbcError).

(** What the other side serves from a producer on: batches that each come with
    the token of the next turn, and then the end, a last batch without a token,
    or an error. *)
Inductive serves (t : RemoteTransport) : ProducerHandle → Net → list RecordBatch → StreamEnd → Prop :=
| serves_end h n n1 :
    next_with_token h n = (Ok None, n1) → serves t h n [] EndOfResult
| serves_error h n n1 error :
    next_with_token h n = (Err error, n1) →
    serves t h n [] (FailedWith (rpc_error c_char_signed error))
| serves_last h n n1 b :
    next_with_token h n = (Ok (Some (b, None)), n1) → is_finished h n1 = false →
    serves t h n [b] EndOfResult
| serves_batch h n n1 n2 n3 b token h' batches ending :
    next_with_token h n = (Ok (Some (b, Some token)), n1) → is_finished h n1 = false →
    http_client c_char_signed t n1 = (Ok tt, n2) →
    resume_stream method.READ_RESULT token n2 = (h', n3) →
    serves t h' n3 batches ending → serves t h n (b :: batches) ending
| serves_broken h n n1 n2 b token error :
    next_with_token h n = (Ok (Some (b, Some token)), n1) → is_finished h n1 = false →
    http_client c_char_signed t n1 = (Err error, n2) →
    serves t h n [b] (FailedWith error).

(** Call [next] until it has answered [None] or an error. *)
Fixpoint drain (c : RemoteConnection) (turns : nat) (r : RemoteReader) (n : Net)
  : list (result ArrowError RecordBatch) :=
  match turns with
  | O => []
  | S turns =>
      match reader_next_item c_char_signed c r n with
      | (None, _, _) => []
      | (Some item, r, n) => item :: drain c turns r n
      end
  end.

Definition items_of (batches : list RecordBatch) (ending : StreamEnd)
  : list (result ArrowError RecordBatch) :=
  (Ok <$> batches) ++ match ending with EndOfResult => [] | FailedWith e => [Err (ExternalError e)] end.

(** Nothing follows once the reader has finished. *)
Lemma drain_finished c turns r n : rr_finished r = true → drain c turns r n = [].
Proof.
  intros Hf. destruct turns as [|turns]; [done|]. simpl. unfold reader_next_item, next_remote.
  by rewrite Hf.
Qed.

(** A reader about to resume the stream [h] with the token it kept. *)
Lemma drain_resuming c turns id schema token n n1 h n2 batches ending :
  http_client c_char_signed (transport c) n = (Ok tt, n1) →
  resume_stream method.READ_RESULT token n1 = (h, n2) →
  serves (transport c) h n2 batches ending → (S (length batches) < turns)%nat →
  drain c turns (mkRemoteReader id schema (HttpMode [] (Some token)) false) n = items_of batches ending.
Proof.
  intros Hc Hres Hs. revert turns token n n1 Hc Hres.
  induction Hs as [h n2 n3 Hn|h n2 n3 error Hn|h n2 n3 b Hn Hf|h n2 n3 n4 n5 b token' h' batches ending Hn Hf Hc' Hres' _ IH
    |h n2 n3 n4 b token' error Hn Hf Hc']; intros turns token n n1 Hc Hres Hlen;
    (destruct turns as [|turns]; [simpl in *; lia|]); simpl; unfold reader_next_item, next_remote; simpl;
    unfold resume, mbind, M_bind, mprim; rewrite Hc, Hres; unfold stream_turn, net, mmap_err, mbind, M_bind, mgets;
    rewrite Hn; unfold items_of; simpl.
  - done.
  - f_equal. by apply drain_finished.
  - rewrite orb_true_r. f_equal. by apply drain_finished.
  - rewrite Hf. simpl. f_equal.
    eapply IH; [exact Hc'|exact Hres'|simpl in Hlen; lia].
  - rewrite Hf. simpl. f_equal. destruct turns as [|turns]; [simpl in Hlen; lia|]. simpl.
    unfold reader_next_item, next_remote; simpl. unfold resume, mbind, M_bind. rewrite Hc'. simpl. f_equal.
    by apply drain_finished.
Qed.

(** A reader that still holds the batch it was opened with. *)
Lemma drain_pending c turns id schema b continuation n :
  drain c (S turns) (mkRemoteReader id schema (HttpMode [b] continuation) false) n
  = Ok b :: drain c turns (mkRemoteReader id schema (HttpMode [] continuation) false) n.
Proof. done. Qed.

Lemma drain_no_token c turns id schema n :
  drain c turns (mkRemoteReader id schema (HttpMode [] None) false) n = [].
Proof. by destruct turns. Qed.

(** Opening a reader and draining it. *)
Lemma http_reader_complete c rid schema n n0 rq h n1 batches ending turns :
  transport c = Http → http_client c_char_signed Http n = (Ok tt, n0) →
  read_result_request (session_id c) rid = Ok rq →
  open_producer method.READ_RESULT rq n0 = (Ok h, n1) →
  serves Http h n1 batches ending → (S (length batches) < turns)%nat →
  match reader_open c_char_signed c rid schema n with
  | (Ok r, n') => drain c turns r n' = items_of batches ending
  | (Err e, _) => batches = [] ∧ ending = FailedWith e
  end.
Proof.
  intros Ht Hc Hrq Hopen Hs Hturns. unfold reader_open. rewrite Hrq, Ht. unfold mlift, mbind at 1, M_bind at 1.
  simpl. unfold net at 1, mmap_err at 1, mbind, M_bind. simpl in Hc. rewrite Hc. unfold net, mmap_err. rewrite Hopen. simpl.
  inversion Hs; subst; unfold stream_turn, net, mmap_err, mbind, M_bind, mgets;
    match goal with Hn : next_with_token _ _ = _ |- _ => rewrite Hn end; simpl.
  - by apply drain_finished.
  - done.
  - match goal with Hf : is_finished _ _ = _ |- _ => rewrite Hf end.
    destruct turns as [|turns]; [lia|]. rewrite drain_pending, drain_no_token. done.
  - match goal with Hf : is_finished _ _ = _ |- _ => rewrite Hf end.
    destruct turns as [|turns]; [lia|]. rewrite drain_pending. unfold items_of. simpl. f_equal.
    eapply drain_resuming; [by rewrite Ht|done|by rewrite Ht|simpl in *; lia].
  - match goal with Hf : is_finished _ _ = _ |- _ => rewrite Hf end.
    destruct turns as [|[|turns]]; [simpl in *; lia|simpl in *; lia|]. rewrite drain_pending. unfold items_of. simpl. f_equal.
    unfold reader_next_item, next_remote, resume, mbind, M_bind. simpl. rewrite Ht.
    match goal with Hb : http_client _ _ _ = (Err _, _) |- _ => rewrite Hb end.
    simpl. f_equal. by apply drain_finished.
Qed.
(** ** Reading over a byte stream *)

(** What the other side serves tick by tick. *)
Inductive ticks (h : ProducerHandle) : Net → list RecordBatch → StreamEnd → Prop :=
| ticks_end n n1 : tick h n = (Ok None, n1) → ticks h n [] EndOfResult
| ticks_error n n1 error :
    tick h n = (Err error, n1) → ticks h n [] (FailedWith (rpc_error c_char_signed error))
| ticks_batch n n1 b batches ending :
    tick h n = (Ok (Some b), n1) → ticks h n1 batches ending → ticks h n (b :: batches) ending.

Lemma drain_byte c turns id schema h n batches ending :
  ticks h n batches ending → (S (length batches) < turns)%nat →
  drain c turns (mkRemoteReader id schema (ByteMode (ReaderRunning h)) false) n = items_of batches ending.
Proof.
  intros Ht. revert turns. induction Ht as [n n1 Hn|n n1 error Hn|n n1 b batches ending Hn _ IH];
    intros turns Hlen; (destruct turns as [|turns]; [simpl in *; lia|]); simpl;
    unfold reader_next_item, next_remote; simpl; unfold net, mmap_err; rewrite Hn; unfold items_of; simpl.
  - done.
  - f_equal. by apply drain_finished.
  - f_equal. apply IH. simpl in Hlen. lia.
Qed.
End Lemmas.

(** ** Main theorems *)

Section Main.
Context `{AdbcCore} `{RustFmt} `{ArrowCrate} `{!IpcCrate} `{AdbcOptions} `{Base64} `{VgiRpc}.
Context `{!StructCrate} `{!WireRecords} `{!Json WireAdbcError} `{!RpcTransport}.
Context (c_char_signed : bool).

(** C31: an error of the native driver reaches the application as it was
    raised: the RPC error the server makes of it, with or without the type
    prefix some clients of the framework put before the message, is turned back
    into the same message, status, vendor code, SQLSTATE and details, whatever
    the signedness of [c_char]; an error whose SQLSTATE is not ASCII arrives as
    the fixed malformed error. *)
Theorem native_error_reaches_client e err :
  adbc_error_wf c_char_signed e → is_ok (to_json (wire_from_adbc e)) = true →
  error_type err = error_type (adbc_rpc_error e) →
  error_message err = error_message (adbc_rpc_error e)
  ∨ error_message err = adbc_prefix +:+ error_message (adbc_rpc_error e) →
  rpc_error c_char_signed err =
    if ascii_sqlstate e then normalize_details e
    else with_message_and_status "Malformed remote ADBC error" InvalidData.
Proof.
  intros He Hj Hty Hm. destruct (to_json (wire_from_adbc e)) as [t|] eqn:Ht; [|done].
  unfold adbc_rpc_error in Hty, Hm. rewrite Ht in Hty, Hm.
  rewrite with_error_kind_type, rpc_new_type in Hty.
  rewrite !with_error_kind_message, !rpc_new_message in Hm.
  rewrite (rpc_error_adbc c_char_signed e t err) by done.
  unfold into_adbc. rewrite wire_roundtrip by done. by destruct (ascii_sqlstate e).
Qed.

(** The server reads every request the driver builds as it was meant: the
    version is accepted and each handle, key, text and payload comes out of the
    column the handler looks at, for all fixed request schemas. *)
Theorem requests_are_read_back (s st k v rid : string) (payload : bytes) :
  validate_handle s = Ok tt → validate_handle st = Ok tt → validate_handle k = Ok tt →
  validate_text v = Ok tt → validate_handle rid = Ok tt →
  (∀ b, session_request s = Ok b →
     validate_protocol_version (as_request b) = Ok tt
     ∧ request_string (as_request b) "session_id" = Ok s)
  ∧ (∀ b, statement_request s st = Ok b →
       request_string (as_request b) "session_id" = Ok s
       ∧ request_string (as_request b) "statement_id" = Ok st)
  ∧ (∀ b, connection_binary_request s payload = Ok b →
       request_string (as_request b) "session_id" = Ok s
       ∧ request_binary (as_request b) "payload" = Ok payload)
  ∧ (∀ b, connection_option_key_request s k v = Ok b →
       request_string (as_request b) "session_id" = Ok s
       ∧ request_string (as_request b) "key" = Ok k
       ∧ request_string (as_request b) "value_type" = Ok v)
  ∧ (∀ b, statement_option_key_request s st k v = Ok b →
       request_string (as_request b) "session_id" = Ok s
       ∧ request_string (as_request b) "statement_id" = Ok st
       ∧ request_string (as_request b) "key" = Ok k
       ∧ request_string (as_request b) "value_type" = Ok v)
  ∧ (∀ b, statement_binary_request s st payload = Ok b →
       request_string (as_request b) "session_id" = Ok s
       ∧ request_string (as_request b) "statement_id" = Ok st
       ∧ request_binary (as_request b) "payload" = Ok payload)
  ∧ (∀ b, sql_request s st v = Ok b →
       request_string (as_request b) "session_id" = Ok s
       ∧ request_string (as_request b) "statement_id" = Ok st
       ∧ request_string (as_request b) "sql" = Ok v)
  ∧ (∀ b, result_request s rid = Ok b →
       request_string (as_request b) "session_id" = Ok s
       ∧ request_string (as_request b) "result_id" = Ok rid)
  ∧ (∀ b, read_result_request s rid = Ok b →
       request_string (as_request b) "session_id" = Ok s
       ∧ request_string (as_request b) "result_id" = Ok rid
       ∧ batch_int64_value b "sequence" = Ok 0)
  ∧ (∀ b, bind_init_request s st payload = Ok b →
       request_string (as_request b) "session_id" = Ok s
       ∧ request_string (as_request b) "statement_id" = Ok st
       ∧ request_binary (as_request b) "schema_ipc" = Ok payload).
Proof.
  intros Hs Hst Hk Hv Hrid.
  repeat match goal with |- _ ∧ _ => split | |- ∀ _, _ => intro end;
    match goal with Hb : _ = Ok ?b |- _ =>
      apply built_request in Hb; [subst b | done | repeat constructor] end;
    first [done | by apply request_string_read].
Qed.

(** C32: a bind that succeeds has sent every batch of the stream, in order, as
    one acknowledged turn each and then the finish turn, and neither the memory
    nor the encoded size of the stream exceeded the limit; a bind that fails
    after the exchange was opened cancels it. *)
Theorem bind_stream_within_limits c name sid schema items n :
  let limit := Z.min (max_bind_bytes c) MAX_CONTROL_BYTES in
  match bind_batches c_char_signed c name sid schema items n with
  | (Ok _, n') =>
      ∃ h n1 batches turns finish,
        items = Ok <$> batches
        ∧ Forall2 (λ b t, encode_bind_turn (Some b) limit = Ok t) batches turns
        ∧ encode_bind_turn None limit = Ok finish
        ∧ (batches ≠ [] → sum_sizes get_array_memory_size batches ≤ max_bind_bytes c
                          ∧ sum_sizes payload_size turns ≤ max_bind_bytes c)
        ∧ sent c_char_signed h (turns ++ [finish]) n1 n'
  | (Err e, n') =>
      (∀ h init n1 n2, bind_init_request (session_id c) sid (schema_message schema) = Ok init →
         client_for c_char_signed (transport c) n = (Ok tt, n1) →
         net c_char_signed (open_exchange name init) n1 = (Ok h, n2) →
         ∃ n3, n' = exchange_cancel h n3)
  end.
Proof.
  intros limit. unfold bind_batches, encode_schema. unfold mbind at 1, M_bind at 1, mlift at 1. simpl.
  unfold mbind at 1, M_bind at 1, mlift at 1.
  destruct (bind_init_request (session_id c) sid (schema_message schema)) as [init|e] eqn:Hinit; [|done].
  unfold mbind at 1, M_bind at 1.
  destruct (client_for c_char_signed (transport c) n) as [[[]|e] n1] eqn:Hcl; [|by intros h' init' n1' n2' _ Hn1].
  unfold mbind at 1, M_bind at 1. destruct (net c_char_signed (open_exchange name init) n1) as [[h|e] n2] eqn:Ho.
  - unfold mprim. fold limit.
    destruct (send_batches c_char_signed h (max_bind_bytes c) limit 0 0 items n2) as [[[]|e] n3] eqn:Hs.
    + apply send_batches_Ok in Hs as (batches & turns & finish & ? & ? & ? & ? & ?).
      exists h, n2, batches, turns, finish. done.
    + intros h' init' n1' n2' [= <-] [= <-] Ho'. rewrite Ho in Ho'. injection Ho' as <- <-. by exists n3.
  - intros h' init' n1' n2' [= <-] [= <-] Ho'. congruence.
Qed.

(** Over HTTP a reader delivers the result completely: opening it and
    calling next yields exactly the batches the server has, in order and once
    each, followed by the error if the stream fails, and then ends; when the
    first turn fails, opening the reader fails with that error. *)
Theorem http_reader_is_complete c rid schema n n0 rq h n1 batches ending turns :
  transport c = Http → http_client c_char_signed Http n = (Ok tt, n0) →
  read_result_request (session_id c) rid = Ok rq →
  open_producer method.READ_RESULT rq n0 = (Ok h, n1) →
  serves c_char_signed Http h n1 batches ending → (S (length batches) < turns)%nat →
  match reader_open c_char_signed c rid schema n with
  | (Ok r, n') => drain c_char_signed c turns r n' = items_of batches ending
  | (Err e, _) => batches = [] ∧ ending = FailedWith e
  end.
Proof. apply http_reader_complete. Qed.

(** Over a byte stream a reader delivers the result completely: the reader
    is opened on a connection of its own and next yields exactly the batches the
    server has, in order and once each, followed by the error if the stream
    fails, and then ends; after the end nothing is asked of the stream again. *)
Theorem byte_reader_is_complete c rid schema n n1 n2 n3 rq h batches ending turns :
  is_http (transport c) = false → spawn_thread n = (Ok tt, n1) → connector_connect n1 = (Ok tt, n2) →
  read_result_request (session_id c) rid = Ok rq →
  open_producer method.READ_RESULT rq n2 = (Ok h, n3) →
  ticks c_char_signed h n3 batches ending → (S (length batches) < turns)%nat →
  ∃ r n', reader_open c_char_signed c rid schema n = (Ok r, n')
    ∧ drain c_char_signed c turns r n' = items_of batches ending.
Proof.
  intros Ht Hsp Hco Hrq Ho Hticks Hturns. eexists _, _. split; [|by eapply drain_byte].
  unfold reader_open. rewrite Hrq, Ht. unfold mlift, mbind, M_bind. simpl.
  unfold byte_reader_open, net, mmap_err, mbind, M_bind. by rewrite Hsp, Hco, Ho.
Qed.

(** A reader opened over HTTP whose first answer holds a batch and the end
    of the stream at once drops that batch: its first [next] reports the end,
    although the same answer on a resumed stream is delivered. *)
Theorem finished_first_turn_loses_batch c rid schema n n0 rq h n1 n2 b continuation turns :
  transport c = Http → http_client c_char_signed Http n = (Ok tt, n0) →
  read_result_request (session_id c) rid = Ok rq →
  open_producer method.READ_RESULT rq n0 = (Ok h, n1) →
  next_with_token h n1 = (Ok (Some (b, continuation)), n2) → is_finished h n2 = true →
  ∃ r n', reader_open c_char_signed c rid schema n = (Ok r, n')
    ∧ rr_mode r = HttpMode [b] continuation ∧ drain c_char_signed c turns r n' = [].
Proof.
  intros Ht Hc Hrq Ho Hn Hf. eexists _, _. split_and!.
  - unfold reader_open. rewrite Hrq, Ht. unfold mlift, mbind at 1, M_bind at 1. simpl.
    unfold net at 1, mmap_err at 1, mbind, M_bind. simpl in Hc. rewrite Hc.
    unfold stream_turn, net, mmap_err, mbind, M_bind, mgets. rewrite Ho. simpl. rewrite Hn. simpl. rewrite Hf. done.
  - done.
  - by apply drain_finished.
Qed.
End Main.

(** ** Examples *)

Section Example.
#[local] Existing Instance simple_core.
#[local] Existing Instance simple_fmt.
#[local] Existing Instance ref_arrow.
#[local] Existing Instance ref_ipc.
#[local] Existing Instance ref_options.
#[local] Existing Instance ref_backend.
#[local] Existing Instance ref_base64.
#[local] Existing Instance ref_rpc.
#[local] Existing Instance ref_struct.
#[local] Existing Instance ref_records.
#[local] Existing Instance ref_json_error.

(** A transport whose network is the list of batches still to be served, and
    whose streams report that they have finished with their last batch or later. *)
Definition tape_with (early : bool) : RpcTransport := {|
  Net := list RecordBatch;
  build_client := mret tt;
  call_unary _ _ := mthrow (rpc_protocol_error "no method");
  ExchangeHandle := unit;
  open_exchange _ _ := mret tt;
  exchange_turn _ turn := mret (Some turn);
  exchange_cancel _ n := n;
  ProducerHandle := unit;
  open_producer _ _ := mret tt;
  resume_stream _ _ n := (tt, n);
  next_with_token _ := mprim (λ n, match n with
                                   | [] => (Ok None, [])
                                   | [b] => (Ok (Some (b, None)), [])
                                   | b :: n => (Ok (Some (b, Some "next")), n)
                                   end);
  is_finished _ n := early && bool_decide (length n = 0%nat);
  tick _ := mprim (λ n, match n with [] => (Ok None, []) | b :: n => (Ok (Some b), n) end);
  producer_cancel _ n := n;
  connector_connect := mret tt;
  spawn_thread := mret tt
|}.
#[local] Instance tape : RpcTransport := tape_with false.

Definition missing_table : AdbcError :=
  mkAdbcError "no" NotFound 7 [52; 50; 80; 48; 49] (Some [("k", [Byte.xff])]).

Definition prefixed (err : RpcError) : RpcError :=
  rpc_new (error_type err) (adbc_prefix +:+ error_message err).

Lemma native_error_reaches_client_witness :
  rpc_error true (prefixed (adbc_rpc_error missing_table)) = missing_table.
Proof.
  refine (native_error_reaches_client true missing_table (prefixed (adbc_rpc_error missing_table)) _ _ _ _).
  - split; [reflexivity|]. repeat constructor; simpl; lia.
  - reflexivity.
  - reflexivity.
  - right. reflexivity.
Defined.

Lemma requests_are_read_back_witness :
  request_string (as_request (mkRecordBatch set_sql_schema
     [StringArray [Some "id-0"]; StringArray [Some "s1"]; StringArray [Some "SELECT 1"]] 1)) "sql"
  = Ok "SELECT 1".
Proof.
  destruct (requests_are_read_back "id-0" "s1" "key" "SELECT 1" "r1" [])
    as (_ & _ & _ & _ & _ & _ & Hsql & _); [reflexivity..|].
  exact (proj2 (proj2 (Hsql _ eq_refl))).
Defined.

Definition tape_batch (n : Z) : RecordBatch :=
  mkRecordBatch session_schema [Int64Array [Some n]] 1.

Definition tape_remote : RemoteConnection := mkRemoteConnection Http "id-0" 1000.

Definition tape_request : RecordBatch :=
  mkRecordBatch read_result_schema
    [StringArray [Some "id-0"]; StringArray [Some "r1"]; Int64Array [Some 0]] 1.

Lemma http_reader_is_complete_witness :
  match reader_open true tape_remote "r1" session_schema [tape_batch 0; tape_batch 1] with
  | (Ok r, n') => drain true tape_remote 5 r n' = [Ok (tape_batch 0); Ok (tape_batch 1)]
  | (Err _, _) => False
  end.
Proof.
  pose proof (http_reader_is_complete true tape_remote "r1" session_schema
    [tape_batch 0; tape_batch 1] [tape_batch 0; tape_batch 1]
    tape_request tt [tape_batch 0; tape_batch 1] [tape_batch 0; tape_batch 1] EndOfResult 5) as Hr.
  lapply Hr; [clear Hr; intros Hr|reflexivity]. lapply Hr; [clear Hr; intros Hr|reflexivity].
  lapply Hr; [clear Hr; intros Hr|reflexivity]. lapply Hr; [clear Hr; intros Hr|reflexivity].
  lapply Hr; [clear Hr; intros Hr|].
  - lapply Hr; [clear Hr; intros Hr|apply Nat.ltb_lt; reflexivity].
    revert Hr. match goal with |- match ?m with _ => _ end → _ => destruct m as [[r|e] n'] end.
    + intros Hd. exact Hd.
    + intros [Hd _]. discriminate Hd.
  - eapply serves_batch; [reflexivity..|]. eapply serves_last; reflexivity.
Defined.

Definition byte_remote : RemoteConnection := mkRemoteConnection (Byte (Mutex_new tt)) "id-0" 1000.

Lemma byte_reader_is_complete_witness :
  ∃ r n', reader_open true byte_remote "r1" session_schema [tape_batch 0; tape_batch 1] = (Ok r, n')
    ∧ drain true byte_remote 5 r n' = [Ok (tape_batch 0); Ok (tape_batch 1)].
Proof.
  refine (byte_reader_is_complete true byte_remote "r1" session_schema
    [tape_batch 0; tape_batch 1] [tape_batch 0; tape_batch 1] [tape_batch 0; tape_batch 1]
    [tape_batch 0; tape_batch 1] tape_request tt [tape_batch 0; tape_batch 1] EndOfResult 5 _ _ _ _ _ _ _).
  - reflexivity.
  - reflexivity.
  - reflexivity.
  - reflexivity.
  - reflexivity.
  - eapply ticks_batch; [reflexivity|]. eapply ticks_batch; [reflexivity|]. eapply ticks_end; reflexivity.
  - apply Nat.ltb_lt. reflexivity.
Defined.

Lemma finished_first_turn_loses_batch_witness :
  ∃ r n', reader_open (H8 := tape_with true) true tape_remote "r1" session_schema [tape_batch 0]
          = (Ok r, n')
    ∧ rr_mode r = HttpMode [tape_batch 0] None
    ∧ drain (H8 := tape_with true) true tape_remote 5 r n' = [].
Proof.
  refine (finished_first_turn_loses_batch (H8 := tape_with true) true tape_remote "r1"
    session_schema [tape_batch 0] [tape_batch 0] tape_request tt [tape_batch 0] []
    (tape_batch 0) None 5 _ _ _ _ _ _); reflexivity.
Defined.
End Example.
