(* ===== verification/ReaderThread.v ===== *)
(** * The thread behind a byte-stream reader (adbc-driver-grainlift/src/lib.rs, [ByteReader])

    A byte-stream reader is a thread of its own and a channel to it.  [thread_step]
    interleaves the thread, the reader's owner and the rest of the network, one
    channel operation or stream operation at a time; a thread may also panic.  The
    owner sees the reader of [Client.v] nevertheless: [reader_step] is that reader
    with each call in one piece, and the interleavings refine it. *)

From S2P Require Import Prelude Adbc WireError Options Arrow Framing Envelope Partitions.
From S2P Require Import Config Backend Rpc ClientOptions Client ClientTheorems.
From S2P Require Import Reference ReferenceIpc ReferenceBackend ReferenceRpc.

(** ** Channels *)

(** What the owner sends: the sender of a reply channel, by its number, or a cancel. *)
Inductive ByteReaderCommand : Type := NextCommand (reply : nat) | CancelCommand.

(** A channel for one message: the receiver finds it empty, finds the message, or
    finds the sender gone. *)
Inductive Oneshot (A : Type) : Type := Pending | Delivered (a : A) | Closed.
Arguments Pending {A}.
Arguments Delivered {A} a.
Arguments Closed {A}.

Section ReaderThread.
Context `{AdbcCore} `{Base64} `{VgiRpc} `{!Json WireAdbcError} `{!RpcTransport}.
Context (c_char_signed : bool) (request : RecordBatch).

Abbreviation Answer := (result AdbcError (option RecordBatch)).

Definition worker_stopped : AdbcError := client_internal "result stream worker stopped".
Definition startup_stopped : AdbcError := client_internal "result stream worker stopped during startup".

(** Where the owner is: in [open], between calls, at the send or the receive of a
    [next], at the send of the drop, or without a reader. *)
Inductive Owner : Type :=
| Opening | OpenFailed (e : AdbcError) | Idle | Sending (reply : nat) | Receiving (reply : nat) | Dropping | Gone.

(** Where the thread is: before [connect], before [open_producer], at the send of
    its readiness or of an error, at [recv], in a command, and on its way out. *)
Inductive Worker : Type :=
| Connecting | OpeningStream | Announcing (h : ProducerHandle) | Refusing (e : AdbcError)
| Waiting (h : ProducerHandle) | Ticking (h : ProducerHandle) (reply : nat)
| Answering (h : ProducerHandle) (reply : nat) (value : Answer) | Cancelling (h : ProducerHandle)
| DroppingStream | DroppingLease | Ending | Ended.

(** [tx] and [rx] tell whether the ends of the command channel are alive, [lease]
    whether the thread holds the lease of its connection; [seen] is what the
    owner's calls of [next] have returned. *)
Record ThreadState : Type := mkThread {
  th_net : Net; th_owner : Owner; th_worker : Worker;
  th_queue : list ByteReaderCommand; th_tx : bool; th_rx : bool;
  th_ready : Oneshot (result AdbcError unit); th_replies : gmap nat (Oneshot Answer); th_next : nat;
  th_lease : bool; th_seen : list Answer
}.

(** After [spawn]. *)
Definition spawned (n : Net) : ThreadState :=
  mkThread n Opening Connecting [] true true Pending ∅ 0 false [].

Definition set_net (n : Net) (s : ThreadState) : ThreadState :=
  mkThread n (th_owner s) (th_worker s) (th_queue s) (th_tx s) (th_rx s) (th_ready s) (th_replies s) (th_next s)
    (th_lease s) (th_seen s).
Definition owner_at (o : Owner) (s : ThreadState) : ThreadState :=
  mkThread (th_net s) o (th_worker s) (th_queue s) (th_tx s) (th_rx s) (th_ready s) (th_replies s) (th_next s)
    (th_lease s) (th_seen s).
Definition worker_at (w : Worker) (s : ThreadState) : ThreadState :=
  mkThread (th_net s) (th_owner s) w (th_queue s) (th_tx s) (th_rx s) (th_ready s) (th_replies s) (th_next s)
    (th_lease s) (th_seen s).
Definition set_queue (q : list ByteReaderCommand) (s : ThreadState) : ThreadState :=
  mkThread (th_net s) (th_owner s) (th_worker s) q (th_tx s) (th_rx s) (th_ready s) (th_replies s) (th_next s)
    (th_lease s) (th_seen s).
Definition drop_tx (s : ThreadState) : ThreadState :=
  mkThread (th_net s) (th_owner s) (th_worker s) (th_queue s) false (th_rx s) (th_ready s) (th_replies s) (th_next s)
    (th_lease s) (th_seen s).
Definition set_ready (r : Oneshot (result AdbcError unit)) (s : ThreadState) : ThreadState :=
  mkThread (th_net s) (th_owner s) (th_worker s) (th_queue s) (th_tx s) (th_rx s) r (th_replies s) (th_next s)
    (th_lease s) (th_seen s).
Definition set_reply (id : nat) (r : Oneshot Answer) (s : ThreadState) : ThreadState :=
  mkThread (th_net s) (th_owner s) (th_worker s) (th_queue s) (th_tx s) (th_rx s) (th_ready s)
    (<[id := r]> (th_replies s)) (th_next s) (th_lease s) (th_seen s).
Definition set_lease (l : bool) (s : ThreadState) : ThreadState :=
  mkThread (th_net s) (th_owner s) (th_worker s) (th_queue s) (th_tx s) (th_rx s) (th_ready s) (th_replies s) (th_next s)
    l (th_seen s).

(** [mpsc::channel()] of a call of [next]. *)
Definition new_reply (s : ThreadState) : ThreadState :=
  mkThread (th_net s) (Sending (th_next s)) (th_worker s) (th_queue s) (th_tx s) (th_rx s) (th_ready s)
    (<[th_next s := Pending]> (th_replies s)) (S (th_next s)) (th_lease s) (th_seen s).

(** A call of [next] returns. *)
Definition returned (v : Answer) (s : ThreadState) : ThreadState :=
  mkThread (th_net s) Idle (th_worker s) (th_queue s) (th_tx s) (th_rx s) (th_ready s) (th_replies s) (th_next s)
    (th_lease s) (th_seen s ++ [v]).

(** The receiver of the commands is dropped, and with it what it has not received. *)
Definition close_command (replies : gmap nat (Oneshot Answer)) (c : ByteReaderCommand) : gmap nat (Oneshot Answer) :=
  match c with NextCommand id => <[id := Closed]> replies | CancelCommand => replies end.
Definition drop_rx (s : ThreadState) : ThreadState :=
  mkThread (th_net s) (th_owner s) Ended [] (th_tx s) false (th_ready s)
    (foldl close_command (th_replies s) (th_queue s)) (th_next s) (th_lease s) (th_seen s).

(** The channel of commands has room for one. *)
Definition command_room (s : ThreadState) : bool := (length (th_queue s) <? 1)%nat.

(** The thread goes on after an answer unless the stream is over. *)
Definition after_answer (h : ProducerHandle) (value : Answer) : Worker :=
  match value with Ok (Some _) => Waiting h | _ => DroppingStream end.

(** ** Steps *)

(** What can be seen from outside: what others do to the network, panics, and the
    calls of the owner and their answers. *)
Inductive Event : Type :=
| EOthers (n : Net) | EPanics | EOpened (r : result AdbcError unit)
| ECallsNext | EReturns (v : Answer) | ECallsDrop.

Inductive owner_step (s : ThreadState) : option Event → ThreadState → Prop :=
| open_returns :
    th_owner s = Opening → th_ready s = Delivered (Ok tt) → owner_step s (Some (EOpened (Ok tt))) (owner_at Idle s)
| open_refused e :
    th_owner s = Opening → th_ready s = Delivered (Err e) → owner_step s (Some (EOpened (Err e))) (drop_tx (owner_at (OpenFailed e) s))
| open_lost :
    th_owner s = Opening → th_ready s = Closed → owner_step s (Some (EOpened (Err startup_stopped))) (drop_tx (owner_at (OpenFailed startup_stopped) s))
| next_sends id :
    th_owner s = Sending id → th_rx s = true → command_room s = true →
    owner_step s None (owner_at (Receiving id) (set_queue (th_queue s ++ [NextCommand id]) s))
| next_unsent id :
    th_owner s = Sending id → th_rx s = false →
    owner_step s (Some (EReturns (Err worker_stopped))) (returned (Err worker_stopped) (set_reply id Closed s))
| next_receives id v :
    th_owner s = Receiving id → th_replies s !! id = Some (Delivered v) → owner_step s (Some (EReturns v)) (returned v s)
| next_lost id :
    th_owner s = Receiving id → th_replies s !! id = Some Closed → owner_step s (Some (EReturns (Err worker_stopped))) (returned (Err worker_stopped) s)
| drop_sends :
    th_owner s = Dropping → th_rx s = true → command_room s = true →
    owner_step s None (drop_tx (owner_at Gone (set_queue (th_queue s ++ [CancelCommand]) s)))
| drop_unsent :
    th_owner s = Dropping → th_rx s = false → owner_step s None (drop_tx (owner_at Gone s)).

Inductive worker_step (s : ThreadState) : option Event → ThreadState → Prop :=
| worker_connects n :
    th_worker s = Connecting → connector_connect (th_net s) = (Ok tt, n) →
    worker_step s None (worker_at OpeningStream (set_lease true (set_net n s)))
| worker_unconnected e n :
    th_worker s = Connecting → connector_connect (th_net s) = (Err e, n) →
    worker_step s None (worker_at (Refusing e) (set_net n s))
| worker_opens h n :
    th_worker s = OpeningStream → net c_char_signed (open_producer method.READ_RESULT request) (th_net s) = (Ok h, n) →
    worker_step s None (worker_at (Announcing h) (set_net n s))
| worker_unopened e n :
    th_worker s = OpeningStream → net c_char_signed (open_producer method.READ_RESULT request) (th_net s) = (Err e, n) →
    worker_step s None (worker_at (Refusing e) (set_net n s))
| worker_announces h :
    th_worker s = Announcing h → th_owner s = Opening →
    worker_step s None (worker_at (Waiting h) (set_ready (Delivered (Ok tt)) s))
| worker_unheard h :
    th_worker s = Announcing h → th_owner s ≠ Opening → worker_step s None (worker_at DroppingStream s)
| worker_refuses e :
    th_worker s = Refusing e → worker_step s None (worker_at DroppingLease (set_ready (Delivered (Err e)) s))
| worker_takes_next h id q :
    th_worker s = Waiting h → th_queue s = NextCommand id :: q → worker_step s None (worker_at (Ticking h id) (set_queue q s))
| worker_takes_cancel h q :
    th_worker s = Waiting h → th_queue s = CancelCommand :: q → worker_step s None (worker_at (Cancelling h) (set_queue q s))
| worker_disconnected h :
    th_worker s = Waiting h → th_queue s = [] → th_tx s = false → worker_step s None (worker_at DroppingStream s)
| worker_ticks h id v n :
    th_worker s = Ticking h id → net c_char_signed (tick h) (th_net s) = (v, n) →
    worker_step s None (worker_at (Answering h id v) (set_net n s))
| worker_answers h id v :
    th_worker s = Answering h id v → worker_step s None (worker_at (after_answer h v) (set_reply id (Delivered v) s))
| worker_cancels h :
    th_worker s = Cancelling h → worker_step s None (worker_at DroppingStream (set_net (producer_cancel h (th_net s)) s))
| worker_drops_stream :
    th_worker s = DroppingStream → worker_step s None (worker_at DroppingLease s)
| worker_drops_lease :
    th_worker s = DroppingLease → worker_step s None (worker_at Ending (set_lease false s))
| worker_ends :
    th_worker s = Ending → worker_step s None (drop_rx s)
| worker_panics_starting :
    th_worker s = Connecting ∨ th_worker s = OpeningStream → worker_step s (Some EPanics) (worker_at DroppingLease (set_ready Closed s))
| worker_panics_ticking h id :
    th_worker s = Ticking h id → worker_step s (Some EPanics) (worker_at DroppingStream (set_reply id Closed s))
| worker_panics_cancelling h :
    th_worker s = Cancelling h → worker_step s (Some EPanics) (worker_at DroppingStream s).

(** What runs by itself. *)
Definition internal_step (s s' : ThreadState) : Prop := ∃ l, owner_step s l s' ∨ worker_step s l s'.

(** The owner starts a call, and others use the network. *)
Inductive thread_step (s : ThreadState) : option Event → ThreadState → Prop :=
| step_owner l s' : owner_step s l s' → thread_step s l s'
| step_worker l s' : worker_step s l s' → thread_step s l s'
| step_calls_next : th_owner s = Idle → thread_step s (Some ECallsNext) (new_reply s)
| step_calls_drop : th_owner s = Idle → thread_step s (Some ECallsDrop) (owner_at Dropping s)
| step_others n : thread_step s (Some (EOthers n)) (set_net n s).

(** ** The reader in one piece *)

(** The reader of [Client.v] with each network operation atomic: [open] connects
    and then opens the stream; [next] is [byte_reader_next]; a drop leaves the
    cancel of a running stream to be done.  Apart from what others do, only these
    operations touch the network, and only a panic makes one of them not happen. *)
Inductive ReaderPhase : Type :=
| ToConnect | ToOpen | Opened (r : result AdbcError ByteReader) | Unopened (e : AdbcError)
| Free (r : ByteReader) | Called (r : ByteReader) | Done (r : ByteReader) (v : Answer)
| Leaving (r : ByteReader) | Released.

Record ReaderState : Type := mkReaderState {
  rs_net : Net; rs_phase : ReaderPhase; rs_cancel : option ProducerHandle; rs_seen : list Answer
}.

Inductive reader_step : ReaderState → option Event → ReaderState → Prop :=
| reader_connects n r n' seen :
    connector_connect n = (r, n') →
    reader_step (mkReaderState n ToConnect None seen) None
      (mkReaderState n' (match r with Ok _ => ToOpen | Err e => Opened (Err e) end) None seen)
| reader_opens n r n' seen :
    net c_char_signed (open_producer method.READ_RESULT request) n = (r, n') →
    reader_step (mkReaderState n ToOpen None seen) None (mkReaderState n' (Opened (ReaderRunning <$> r)) None seen)
| reader_startup_lost n phase seen :
    phase = ToConnect ∨ phase = ToOpen →
    reader_step (mkReaderState n phase None seen) (Some EPanics) (mkReaderState n (Opened (Err startup_stopped)) None seen)
| reader_open_returns n r seen :
    reader_step (mkReaderState n (Opened r) None seen) (Some (EOpened ((λ _, tt) <$> r)))
      (mkReaderState n (match r with Ok r => Free r | Err e => Unopened e end) None seen)
| reader_called n r seen :
    reader_step (mkReaderState n (Free r) None seen) (Some ECallsNext) (mkReaderState n (Called r) None seen)
| reader_nexts n r v r' n' seen :
    byte_reader_next c_char_signed r n = (v, r', n') →
    reader_step (mkReaderState n (Called r) None seen) None (mkReaderState n' (Done r' v) None seen)
| reader_next_lost n h seen :
    reader_step (mkReaderState n (Called (ReaderRunning h)) None seen) (Some EPanics)
      (mkReaderState n (Done ReaderStopped (Err worker_stopped)) None seen)
| reader_returns n r v seen :
    reader_step (mkReaderState n (Done r v) None seen) (Some (EReturns v)) (mkReaderState n (Free r) None (seen ++ [v]))
| reader_called_drop n r seen :
    reader_step (mkReaderState n (Free r) None seen) (Some ECallsDrop) (mkReaderState n (Leaving r) None seen)
| reader_dropped n r seen :
    reader_step (mkReaderState n (Leaving r) None seen) None
      (mkReaderState n Released (match r with ReaderRunning h => Some h | ReaderStopped => None end) seen)
| reader_cancels n h seen :
    reader_step (mkReaderState n Released (Some h) seen) None
      (mkReaderState (byte_reader_drop (ReaderRunning h) n) Released None seen)
| reader_cancel_lost n h seen :
    reader_step (mkReaderState n Released (Some h) seen) (Some EPanics) (mkReaderState n Released None seen)
| reader_others n n' phase cancel seen :
    reader_step (mkReaderState n phase cancel seen) (Some (EOthers n')) (mkReaderState n' phase cancel seen).

(** The reader a thread stands for. *)
Definition reader_of (w : Worker) : ByteReader :=
  match w with
  | Announcing h | Waiting h | Ticking h _ => ReaderRunning h
  | Answering h _ (Ok (Some _)) => ReaderRunning h
  | _ => ReaderStopped
  end.

Definition phase_of (s : ThreadState) : ReaderPhase :=
  let w := th_worker s in
  match th_owner s with
  | Opening =>
      match w, th_ready s with
      | Connecting, _ => ToConnect
      | OpeningStream, _ => ToOpen
      | Announcing h, _ => Opened (Ok (ReaderRunning h))
      | Refusing e, _ => Opened (Err e)
      | _, Delivered (Ok _) => Opened (Ok (reader_of w))
      | _, Delivered (Err e) => Opened (Err e)
      | _, _ => Opened (Err startup_stopped)
      end
  | OpenFailed e => Unopened e
  | Idle => Free (reader_of w)
  | Dropping => Leaving (reader_of w)
  | Sending _ => Called (reader_of w)
  | Receiving id =>
      match th_replies s !! id, w with
      | Some (Delivered v), _ => Done (reader_of w) v
      | Some Closed, _ => Done ReaderStopped (Err worker_stopped)
      | _, Answering _ _ v => Done (reader_of w) v
      | _, _ => Called (reader_of w)
      end
  | Gone => Released
  end.

(** A cancel that was sent and will be done. *)
Definition cancel_of (s : ThreadState) : option ProducerHandle :=
  match th_owner s, th_worker s, th_queue s with
  | Gone, Waiting h, CancelCommand :: _ => Some h
  | Gone, Cancelling h, _ => Some h
  | _, _, _ => None
  end.

Definition reader_view (s : ThreadState) : ReaderState :=
  mkReaderState (th_net s) (phase_of s) (cancel_of s) (th_seen s).

(** ** Invariant *)

(** On the way out; between commands. *)
Definition leaving (w : Worker) : Prop :=
  match w with DroppingStream | DroppingLease | Ending | Ended => True | _ => False end.
Definition settled (w : Worker) : Prop := match w with Waiting _ => True | _ => leaving w end.

(** What is in the channels when the owner and the thread are where they are. *)
Definition channels_ok (s : ThreadState) : Prop :=
  let w := th_worker s in
  match th_owner s with
  | Opening =>
      th_queue s = []
      ∧ match w with
        | Connecting | OpeningStream | Announcing _ | Refusing _ => th_ready s = Pending
        | Waiting _ => th_ready s = Delivered (Ok tt)
        | DroppingLease | Ending | Ended =>
            match th_ready s with Delivered (Err _) | Closed => True | _ => False end
        | _ => False
        end
  | OpenFailed _ => th_queue s = [] ∧ leaving w
  | Idle | Dropping => th_queue s = [] ∧ settled w
  | Sending id => th_queue s = [] ∧ settled w ∧ th_replies s !! id = Some Pending
  | Receiving id =>
      match th_replies s !! id, th_queue s with
      | Some Pending, [NextCommand id'] => id' = id ∧ settled w ∧ w ≠ Ended
      | Some Pending, [] => match w with Ticking _ id' | Answering _ id' _ => id' = id | _ => False end
      | Some (Delivered _), [] => settled w
      | Some Closed, [] => leaving w
      | _, _ => False
      end
  | Gone =>
      match th_queue s with
      | [] => match w with Cancelling _ => True | _ => leaving w end
      | [CancelCommand] => settled w ∧ w ≠ Ended
      | _ => False
      end
  end.

Record thread_inv (s : ThreadState) : Prop := mkThreadInv {
  ti_channels : channels_ok s;
  ti_rx : th_rx s = match th_worker s with Ended => false | _ => true end;
  ti_tx : th_tx s = match th_owner s with OpenFailed _ | Gone => false | _ => true end;
  ti_lease : match th_worker s with Connecting | Ending | Ended => th_lease s = false | _ => True end
}.

Lemma spawned_inv n : thread_inv (spawned n).
Proof. by split. Qed.

(** Every case of what the channels hold. *)
Ltac channel_cases :=
  repeat match goal with
    | H : _ ∧ _ |- _ => destruct H
    | H : context [match ?m !! ?i with Some _ => _ | None => _ end] |- _ => destruct (m !! i) as [[]|] eqn:?
    | H : context [match ?l with [] => _ | _ :: _ => _ end] |- _ => is_var l; destruct l as [|[] []]
    | v : result AdbcError (option RecordBatch) |- _ => destruct v as [[]|]
    end; simplify_eq/=; try done; rewrite ?lookup_insert_eq; try done; naive_solver.

Lemma owner_step_inv s l s' : thread_inv s → owner_step s l s' → thread_inv s'.
Proof.
  intros [Hc Hrx Htx Hl] Ho. unfold channels_ok in Hc.
  destruct Ho; destruct s as [net o w queue tx rx ready replies nxt lease seen]; simpl in *; simplify_eq/=;
    (split; unfold channels_ok; simpl; [|try done; by destruct w..]).
  all: try (destruct w; naive_solver).
  - destruct Hc as (-> & Hw & ->). simpl. split; [done|]. split; [done|]. by intros ->.
  - destruct (replies !! id) as [[]|]; simplify_eq; by destruct queue.
  - destruct (replies !! id) as [[]|]; simplify_eq; destruct queue; by destruct w.
Qed.

Lemma worker_step_inv s l s' : thread_inv s → worker_step s l s' → thread_inv s'.
Proof.
  intros [Hc Hrx Htx Hl] Hw. unfold channels_ok in Hc.
  destruct Hw; destruct s as [net o w queue tx rx ready replies nxt lease seen]; simpl in *; simplify_eq/=;
    (split; unfold channels_ok; simpl; [|try done..]).
  all: try (destruct o as [| | |id'|id'| |]); simplify_eq/=; try done.
  all: try (channel_cases; fail).
  destruct (replies !! id') as [[]|] eqn:Hid; destruct queue as [|[] []]; simplify_eq/=; try done; rewrite ?Hid; try done.
  destruct Hc as (-> & _ & _). by rewrite lookup_insert_eq.
Qed.

Lemma thread_step_inv s l s' : thread_inv s → thread_step s l s' → thread_inv s'.
Proof.
  intros Hs [l1 s1 Ho|l1 s1 Hw|Hi|Hi|n]; [by eapply owner_step_inv|by eapply worker_step_inv|..];
    destruct Hs as [Hc Hrx Htx Hl]; unfold channels_ok in Hc; rewrite ?Hi in *; (split; unfold channels_ok; simpl; try done).
  - rewrite lookup_insert_eq. naive_solver.
Qed.

(** ** Refinement *)

Lemma owner_step_view s l s' :
  thread_inv s → owner_step s l s' → weakly reader_step (reader_view s) (option_list l) (reader_view s').
Proof.
  intros [Hc Hrx Htx Hl] Ho. unfold channels_ok in Hc.
  destruct Ho; destruct s as [net o w queue tx rx ready replies nxt lease seen]; simpl in *; simplify_eq/=;
    unfold reader_view, phase_of, cancel_of; simpl.
  - destruct Hc as [_ Hc]. destruct w; try done. exact (weakly_once _ _ _ _ (reader_open_returns _ (Ok _) _)).
  - destruct Hc as [_ Hc]. destruct w; try done; exact (weakly_once _ _ _ _ (reader_open_returns _ (Err _) _)).
  - destruct Hc as [_ Hc]. destruct w; try done; exact (weakly_once _ _ _ _ (reader_open_returns _ (Err _) _)).
  - destruct Hc as (_ & Hw & ->). destruct w; try done; apply weakly_refl.
  - destruct w; try done. eapply (weakly_step _ _ None _ [_]); [by apply reader_nexts|].
    exact (weakly_once _ _ _ _ (reader_returns _ _ _ _)).
  - destruct (replies !! id) as [[]|]; simplify_eq. exact (weakly_once _ _ _ _ (reader_returns _ _ _ _)).
  - destruct (replies !! id) as [[]|]; simplify_eq. destruct queue; [|done].
    assert (reader_of w = ReaderStopped) as -> by (by destruct w). exact (weakly_once _ _ _ _ (reader_returns _ _ _ _)).
  - destruct Hc as [-> Hw]. destruct w; try done;
      first [exact (weakly_once _ _ None _ (reader_dropped _ (ReaderRunning _) _))
            | exact (weakly_once _ _ None _ (reader_dropped _ ReaderStopped _))].
  - destruct w; try done. exact (weakly_once _ _ None _ (reader_dropped _ ReaderStopped _)).
Qed.

Lemma worker_step_view s l s' :
  thread_inv s → worker_step s l s' → weakly reader_step (reader_view s) (option_list l) (reader_view s').
Proof.
  intros [Hc Hrx Htx Hl] Hw. unfold channels_ok in Hc.
  destruct Hw; destruct s as [net o w queue tx rx ready replies nxt lease seen]; simpl in *; simplify_eq/=;
    unfold reader_view, phase_of, cancel_of; simpl.
  all: try (destruct o as [| | |id'|id'| |]); simplify_eq/=; try (exfalso; channel_cases; fail).
  all: try apply weakly_refl.
  - by apply (weakly_once _ _ None), (reader_connects _ (Ok tt)).
  - by apply (weakly_once _ _ None), (reader_connects _ (Err e)).
  - by apply (weakly_once _ _ None), (reader_opens _ (Ok h)).
  - by apply (weakly_once _ _ None), (reader_opens _ (Err e)).
  - destruct (replies !! id') as [[]|]; destruct queue as [|[] []]; try done; try (by destruct Hc as (_ & [] & _)).
    apply (weakly_once _ _ None). eapply reader_nexts. simpl. match goal with Hn : _ = (v, n) |- _ => by rewrite Hn end.
  - destruct (replies !! id') as [[]|]; destruct queue as [|[] []]; try done; try (by destruct Hc as (_ & [] & _)). simplify_eq. rewrite lookup_insert_eq.
    destruct v as [[]|]; apply weakly_refl.
  - apply (weakly_once _ _ None), reader_cancels.
  - destruct (replies !! id') as [[]|] eqn:Hid; destruct queue as [|[] []]; simplify_eq/=; try done; rewrite ?Hid; try apply weakly_refl.
    destruct Hc as (-> & _). rewrite lookup_insert_eq. apply (weakly_once _ _ None). by apply reader_nexts.
  - apply (weakly_once _ _ (Some EPanics)). destruct w; naive_solver eauto using reader_startup_lost.
  - destruct (replies !! id') as [[]|]; destruct queue as [|[] []]; try done; try (by destruct Hc as (_ & [] & _)). simplify_eq. rewrite lookup_insert_eq.
    apply (weakly_once _ _ (Some EPanics)), reader_next_lost.
  - apply (weakly_once _ _ (Some EPanics)), reader_cancel_lost.
Qed.

Lemma thread_step_view s l s' :
  thread_inv s → thread_step s l s' → weakly reader_step (reader_view s) (option_list l) (reader_view s').
Proof.
  intros Hs [l1 s1 Ho|l1 s1 Hw|Hi|Hi|n]; [by apply owner_step_view|by apply worker_step_view|..];
    destruct Hs as [Hc Hrx Htx Hl]; unfold reader_view, phase_of, cancel_of; simpl; rewrite ?Hi.
  - apply (weakly_once _ _ (Some ECallsNext)), reader_called.
  - apply (weakly_once _ _ (Some ECallsDrop)), reader_called_drop.
  - apply (weakly_once _ _ (Some (EOthers n))), reader_others.
Qed.

(** Undisturbed, the two steps of the open are [byte_reader_open] in its thread. *)
Lemma open_in_one n r n' seen :
  (connector_connect;; h ← net c_char_signed (open_producer method.READ_RESULT request); mret (ReaderRunning h)) n = (r, n') →
  weakly reader_step (mkReaderState n ToConnect None seen) [] (mkReaderState n' (Opened r) None seen).
Proof.
  unfold mbind, M_bind. destruct (connector_connect n) as [[[]|e] n1] eqn:Hc; intros Hrun.
  - eapply (weakly_step _ _ None _ []); [by apply (reader_connects _ (Ok tt))|].
    destruct (net c_char_signed (open_producer method.READ_RESULT request) n1) as [[h|e] n2] eqn:Ho; injection Hrun as <- <-.
    + by apply (weakly_once _ _ None), (reader_opens _ (Ok h)).
    + by apply (weakly_once _ _ None), (reader_opens _ (Err e)).
  - injection Hrun as <- <-. by apply (weakly_once _ _ None), (reader_connects _ (Err e)).
Qed.

(** ** Progress *)

(** The owner is inside a call. *)
Definition in_call (s : ThreadState) : bool :=
  match th_owner s with Opening | Sending _ | Receiving _ | Dropping => true | _ => false end.

(** Every internal step brings the thread and the owner nearer to rest. *)
Definition owner_weight (o : Owner) : nat :=
  match o with Opening => 20 | Sending _ | Dropping => 20 | Receiving _ => 5 | _ => 0 end.
Definition worker_weight (w : Worker) : nat :=
  match w with
  | Connecting => 20 | OpeningStream => 18 | Announcing _ | Refusing _ => 16
  | Ticking _ _ => 15 | Answering _ _ _ | Cancelling _ => 14 | Waiting _ => 6
  | DroppingStream => 4 | DroppingLease => 3 | Ending => 2 | Ended => 0
  end.
Definition work_left (s : ThreadState) : nat :=
  owner_weight (th_owner s) + worker_weight (th_worker s) + 10 * length (th_queue s).

Lemma internal_step_work s s' : internal_step s s' → (work_left s' < work_left s)%nat.
Proof.
  unfold work_left. intros (l & [Ho|Hw]).
  - destruct Ho as [Hi| | | | | | | |]; simpl; repeat match goal with Hi : th_owner _ = _ |- _ => rewrite Hi; clear Hi end;
      rewrite ?length_app; simpl; try lia.
  - destruct Hw as [| | | | | | | | | | |h id [[]|]| | | | |[]| |]; simpl;
      repeat match goal with
        | Hi : th_worker _ = _ |- _ => rewrite Hi; clear Hi
        | Hi : th_queue _ = _ |- _ => rewrite Hi; clear Hi
        end; simpl; lia.
Qed.

(** The thread is never stuck but for commands. *)
Lemma worker_moves s :
  match th_worker s with Waiting _ | Ended => False | _ => True end → ∃ l s', worker_step s l s'.
Proof.
  destruct (th_worker s) as [| |h|e|h|h id|h id v|h| | | |] eqn:Hw; intros Hm; try done.
  - destruct (connector_connect (th_net s)) as [[[]|e] n] eqn:Hr; eexists _, _; [by eapply worker_connects|by eapply worker_unconnected].
  - destruct (net c_char_signed (open_producer method.READ_RESULT request) (th_net s)) as [[h|e] n] eqn:Hr;
      eexists _, _; [by eapply worker_opens|by eapply worker_unopened].
  - destruct (th_owner s) eqn:Ho; eexists _, _; first [by apply worker_announces | by (eapply worker_unheard; [done|rewrite Ho])].
  - eexists _, _. by apply worker_refuses.
  - destruct (net c_char_signed (tick h) (th_net s)) as [v n] eqn:Hr. eexists _, _. by eapply worker_ticks.
  - eexists _, _. by apply worker_answers.
  - eexists _, _. by apply worker_cancels.
  - eexists _, _. by apply worker_drops_stream.
  - eexists _, _. by apply worker_drops_lease.
  - eexists _, _. by apply worker_ends.
Qed.

(** The thread is at rest when it waits for a command or is over. *)
Lemma worker_rests s :
  (∀ l s', ¬ worker_step s l s') → (∃ h, th_worker s = Waiting h ∧ th_queue s = [] ∧ th_tx s = true) ∨ th_worker s = Ended.
Proof.
  intros Hno.
  assert (match th_worker s with Waiting _ | Ended => True | _ => False end) as Hw.
  { pose proof (worker_moves s) as Hm. destruct (th_worker s); try done; destruct (Hm I) as (l1 & s1 & Hs1); by apply (Hno l1 s1). }
  destruct (th_worker s) as [| |h'|e|h|h' id|h' id v|h'| | | |] eqn:Hworker; try done; [|by right].
  left. exists h. split; [done|]. destruct (th_queue s) as [|[id|] q] eqn:Hq.
  - split; [done|]. destruct (th_tx s) eqn:Htx; [done|]. exfalso. by eapply Hno, worker_disconnected.
  - exfalso. by eapply Hno, worker_takes_next.
  - exfalso. by eapply Hno, worker_takes_cancel.
Qed.

Lemma worker_decided s : (∃ l s', worker_step s l s') ∨ (∀ l s', ¬ worker_step s l s').
Proof.
  pose proof (worker_moves s) as Hm.
  destruct (th_worker s) as [| |h'|e|h|h' id|h' id v|h'| | | |] eqn:Hw; try (left; by apply Hm).
  - destruct (th_queue s) as [|[id|] q] eqn:Hq; [destruct (th_tx s) eqn:Ht| |].
    + right. intros l1 s' Hs'. destruct Hs'; first [congruence | destruct_or!; congruence].
    + left. eexists _, _. by eapply worker_disconnected.
    + left. eexists _, _. by eapply worker_takes_next.
    + left. eexists _, _. by eapply worker_takes_cancel.
  - right. intros l1 s' Hs'. destruct Hs'; first [congruence | destruct_or!; congruence].
Qed.

(** An owner inside a call is never stuck when the thread rests. *)
Lemma owner_moves s :
  thread_inv s → (∀ l s', ¬ worker_step s l s') → in_call s = true → ∃ l s', owner_step s l s'.
Proof.
  intros [Hc Hrx Htx Hl] Hno Hcall. unfold channels_ok in Hc. unfold in_call in Hcall.
  destruct (worker_rests s Hno) as [(h & Hw & Hq & _)|Hw]; rewrite Hw in *;
    destruct (th_owner s) as [| | |id|id| |] eqn:Ho; try done; rewrite ?Hq in *.
  - eexists _, _. apply open_returns; [done|]. apply Hc.
  - eexists _, _. apply next_sends; [done..|]. unfold command_room. by rewrite Hq.
  - destruct (th_replies s !! id) as [[|v|]|] eqn:Hr; try done. eexists _, _. by eapply next_receives.
  - eexists _, _. apply drop_sends; [done..|]. unfold command_room. by rewrite Hq.
  - destruct Hc as [_ Hc]. destruct (th_ready s) as [|[[]|e]|] eqn:Hr; try done; eexists _, _;
      [by eapply open_refused|by eapply open_lost].
  - eexists _, _. by apply next_unsent.
  - destruct (th_replies s !! id) as [[|v|]|] eqn:Hr; [by destruct (th_queue s) as [|[] []]; naive_solver| | |done];
      eexists _, _; [by eapply next_receives|by eapply next_lost].
  - eexists _, _. by apply drop_unsent.
Qed.

Lemma rests_outside_calls s :
  thread_inv s → (∀ s', ¬ internal_step s s') →
  in_call s = false ∧ (th_owner s = Idle ∨ (th_worker s = Ended ∧ th_lease s = false ∧ th_queue s = [])).
Proof.
  intros Hs Hno.
  assert (in_call s = false) as Hcall.
  { destruct (in_call s) eqn:Hcall; [|done]. destruct (owner_moves s Hs) as (l & s' & Hs'); [|done|].
    - intros l s' Hs'. apply (Hno s'). exists l. by right.
    - exfalso. apply (Hno s'). exists l. by left. }
  split; [done|]. destruct Hs as [Hc Hrx Htx Hl]. unfold channels_ok in Hc. unfold in_call in Hcall.
  destruct (worker_rests s) as [(h & Hw & Hq & Ht)|Hw]; [by intros l s' Hs'; apply (Hno s'); exists l; right|..]; rewrite Hw in *.
  - left. rewrite Ht in Htx. by destruct (th_owner s).
  - destruct (th_owner s) eqn:Ho; try done; [right; naive_solver|by left|right].
    destruct (th_queue s) as [|[] []]; naive_solver.
Qed.

Lemma reader_reachable_inv n ls s : traces thread_step (spawned n) ls s → thread_inv s.
Proof.
  intros Hrun. assert (thread_inv (spawned n)) as Hs by apply spawned_inv.
  revert Hs. induction Hrun as [|s1 l s2 ls s3 Hstep _ IH]; [done|]. intros Hs. by eapply IH, thread_step_inv.
Qed.

Lemma reachable_view s ls s' :
  thread_inv s → traces thread_step s ls s' → weakly reader_step (reader_view s) (omap id ls) (reader_view s').
Proof.
  intros Hs Hrun. induction Hrun as [|s1 l s2 ls s3 Hstep _ IH]; [apply weakly_refl|].
  assert (omap id (l :: ls) = option_list l ++ omap id ls) as -> by by destruct l.
  eapply weakly_trans; [by apply thread_step_view|]. by eapply IH, thread_step_inv.
Qed.

Lemma internal_steps_work k s s' : nsteps internal_step k s s' → (k + work_left s' ≤ work_left s)%nat.
Proof. induction 1 as [|k s1 s2 s3 Hstep _ IH]; [done|]. pose proof (internal_step_work _ _ Hstep). lia. Qed.

Lemma work_bounded s : thread_inv s → (work_left s ≤ 50)%nat.
Proof.
  intros [Hc _ _ _]. unfold channels_ok in Hc. unfold work_left.
  assert (length (th_queue s) ≤ 1)%nat as Hq.
  { destruct (th_owner s) as [| | |id|id| |]; try (destruct Hc as [-> _]; simpl; lia);
      [destruct (th_replies s !! id) as [[]|]|];
      destruct (th_queue s) as [|[] []]; simpl; try lia; done. }
  assert (owner_weight (th_owner s) ≤ 20)%nat by (destruct (th_owner s); simpl; lia).
  assert (worker_weight (th_worker s) ≤ 20)%nat by (destruct (th_worker s); simpl; lia). lia.
Qed.

(** ** Main theorems *)

(** C7: the thread behind a byte-stream reader is the reader.  However the
    owner, the thread and the rest of the network interleave, and wherever the
    thread panics, there is a run of the reader with each call in one piece that
    has the same events in the same order (the calls of the owner with their
    answers, every change that others make to the network, and the panics) and ends
    with the same network.  So nothing else touches the network than one connect, one
    [open_producer], one [byte_reader_next] in each call of [next] and one cancel of
    a stream that was running when its reader was dropped; when the thread has
    ended that cancel has been done, unless the thread panicked. *)
Theorem reader_thread_is_reader n ls s :
  traces thread_step (spawned n) ls s →
  ∃ ls' rs, traces reader_step (mkReaderState n ToConnect None []) ls' rs
    ∧ omap id ls' = omap id ls
    ∧ rs_net rs = th_net s ∧ rs_seen rs = th_seen s
    ∧ match th_owner s with
      | OpenFailed e => rs_phase rs = Unopened e
      | Idle => ∃ r, rs_phase rs = Free r
      | Gone => rs_phase rs = Released
      | _ => True
      end
    ∧ (th_worker s = Ended → rs_cancel rs = None).
Proof.
  intros Hrun. destruct (reachable_view _ _ _ (spawned_inv n) Hrun) as (ls' & Hrun' & Hls).
  exists ls', (reader_view s). split; [exact Hrun'|]. split; [exact Hls|].
  split; [done|]. split; [done|]. unfold reader_view, phase_of, cancel_of. simpl. split.
  - destruct (th_owner s); eauto.
  - intros ->. by destruct (th_owner s).
Qed.

(** C30: a reader's calls return and its thread goes away.  In every reachable
    state: as long as the owner is inside a call somebody can move; the owner and
    the thread move at most fifty times before they rest; and when they rest
    the owner is outside of its calls, and either it holds the reader or the
    thread has ended, its lease given back and nothing left in its channel. *)
Theorem reader_calls_return n ls s :
  traces thread_step (spawned n) ls s →
  (in_call s = true → ∃ s', internal_step s s')
  ∧ (∀ k s', nsteps internal_step k s s' → (k ≤ 50)%nat)
  ∧ ((∀ s', ¬ internal_step s s') →
     in_call s = false ∧ (th_owner s = Idle ∨ (th_worker s = Ended ∧ th_lease s = false ∧ th_queue s = []))).
Proof.
  intros Hs%reader_reachable_inv. split_and!; [|intros k s' Hk%internal_steps_work; pose proof (work_bounded s Hs); lia
    |by apply rests_outside_calls].
  intros Hcall. destruct (worker_decided s) as [(l & s' & Hs')|Hno]; [exists s', l; by right|].
  destruct (owner_moves s Hs Hno Hcall) as (l & s' & Hs'). exists s', l. by left.
Qed.
End ReaderThread.

(** ** Example *)

Section Example.
#[local] Existing Instance simple_core.
#[local] Existing Instance ref_arrow.
#[local] Existing Instance ref_ipc.
#[local] Existing Instance ref_base64.
#[local] Existing Instance ref_rpc.
#[local] Existing Instance ref_json_error.
#[local] Existing Instance tape.

Definition one_batch : @Net _ _ tape := [tape_batch 0].
Definition no_batch : @Net _ _ tape := [].

(** The owner reads the batch, and is about to drop the reader. *)
Definition read_one : ThreadState :=
  mkThread no_batch Dropping (Waiting tt) [] true true (Delivered (Ok tt))
    {[0%nat := Delivered (Ok (Some (tape_batch 0)))]} 1 true [Ok (Some (tape_batch 0))].

Definition read_one_events : list Event := [EOpened (Ok tt); ECallsNext; EReturns (Ok (Some (tape_batch 0))); ECallsDrop].

Lemma read_one_reached :
  ∃ ls, traces (thread_step true tape_request) (spawned one_batch) ls read_one ∧ omap id ls = read_one_events.
Proof.
  eexists. split.
  - eapply traces_cons; [apply step_worker; by eapply worker_connects|].
    eapply traces_cons; [apply step_worker; by eapply worker_opens|].
    eapply traces_cons; [apply step_worker; by eapply worker_announces|].
    eapply traces_cons; [apply step_owner; by apply open_returns|].
    eapply traces_cons; [by apply step_calls_next|].
    eapply traces_cons; [apply step_owner; by eapply next_sends|].
    eapply traces_cons; [apply step_worker; by eapply worker_takes_next|].
    eapply traces_cons; [apply step_worker; by eapply worker_ticks|].
    eapply traces_cons; [apply step_worker; by eapply worker_answers|].
    eapply traces_cons; [apply step_owner; by eapply next_receives|].
    apply traces_once. by apply step_calls_drop.
  - reflexivity.
Qed.

Lemma reader_thread_is_reader_witness :
  ∃ ls rs, traces (reader_step true tape_request) (mkReaderState one_batch ToConnect None []) ls rs
    ∧ omap id ls = read_one_events ∧ rs_net rs = no_batch.
Proof.
  destruct read_one_reached as (ls & Hrun & Hls).
  destruct (reader_thread_is_reader true tape_request one_batch ls read_one Hrun)
    as (ls' & rs & Hrun' & Hls' & Hnet & _). exists ls', rs. by rewrite Hls', Hls.
Defined.

Lemma reader_calls_return_witness : ∃ s', internal_step true tape_request read_one s'.
Proof.
  destruct read_one_reached as (ls & Hrun & _).
  destruct (reader_calls_return true tape_request one_batch ls read_one Hrun) as (Hmove & _).
  by apply Hmove.
Defined.
End Example.
