(* ===== verification/ClientHandles.v ===== *)
(** * The handles of an application (adbc-driver-grainlift/src/lib.rs)

    A [GrainliftConnection], its statements, its readers and an upgraded cancel
    handle share one [RemoteConnection] through an [Arc]; cancel handles hold it
    weakly.  Here the shared connections are locations of a heap with strong
    counts, each operation takes and releases references where the driver does,
    and a log records, next to what goes over the network, which connection was
    used and when it was closed. *)

From S2P Require Import Prelude RefCounts Adbc WireError Options Arrow Framing Envelope Partitions.
From S2P Require Import Config Backend Rpc ClientOptions Client ClientTheorems.
From S2P Require Import Reference ReferenceIpc ReferenceBackend ReferenceRpc ReferenceService.

(** What happens to a connection: a request is made through a handle, or its
    [Drop] runs. *)
Inductive Event : Type := Used | Closed.

Section Handles.
Context `{AdbcCore} `{RustFmt} `{ArrowCrate} `{!IpcCrate} `{AdbcOptions} `{Base64} `{VgiRpc}.
Context `{!StructCrate} `{!WireRecords} `{!Json WireAdbcError} `{!RpcTransport}.
Context (c_char_signed : bool).

(** ** State *)

Record AppState : Type := mkAppState {
  ap_net : Net;
  ap_remotes : gmap nat (nat * RemoteConnection);
  ap_next : nat;
  ap_log : list (nat * Event)
}.

(** What an application holds next to the reference to the connection. *)
Inductive Handle : Type :=
| ConnectionHandle
| StatementHandle (statement_id : string)
| ReaderHandle (reader : RemoteReader)
| Upgraded.

Definition set_net (n : Net) (s : AppState) : AppState :=
  mkAppState n (ap_remotes s) (ap_next s) (ap_log s).
Definition set_remotes (m : gmap nat (nat * RemoteConnection)) (s : AppState) : AppState :=
  mkAppState (ap_net s) m (ap_next s) (ap_log s).
Definition record_event (l : nat) (e : Event) (s : AppState) : AppState :=
  mkAppState (ap_net s) (ap_remotes s) (ap_next s) (ap_log s ++ [(l, e)]).

Definition App := (M AppState AdbcError).

(** ** References *)

Definition clone_remote (l : nat) (s : AppState) : AppState :=
  match ap_remotes s !! l with
  | Some (n, c) => set_remotes (<[l := (S n, c)]> (ap_remotes s)) s
  | None => s
  end.

(** The last reference runs [Drop for RemoteConnection]. *)
Definition release_remote (l : nat) (s : AppState) : AppState :=
  match ap_remotes s !! l with
  | Some (S (S n), c) => set_remotes (<[l := (S n, c)]> (ap_remotes s)) s
  | Some (_, c) =>
      let s := record_event l Closed (set_remotes (delete l (ap_remotes s)) s) in
      set_net (drop_connection c_char_signed c (ap_net s)) s
  | None => s
  end.

(** A call through the connection at [l].  A handle keeps it alive, so the
    last case is never reached ([handles_share_connection]). *)
Definition on_remote {A} (l : nat) (f : RemoteConnection → M Net AdbcError A) : App A := λ s,
  match ap_remotes s !! l with
  | Some (_, c) => let '(r, n) := f c (ap_net s) in (r, set_net n (record_event l Used s))
  | None => (Err (client_internal "dangling connection"), s)
  end.

(** A request in a [Drop], its answer ignored. *)
Definition on_remote_ignored (l : nat) (f : RemoteConnection → Net → Net) (s : AppState) : AppState :=
  match ap_remotes s !! l with
  | Some (_, c) => set_net (f c (ap_net s)) (record_event l Used s)
  | None => s
  end.

(** ** Operations *)

(** [Database::new_connection_with_opts], on a transport that is connected. *)
Definition new_connection (t : RemoteTransport) (options : RemoteConnectionOptions) : App nat := λ s,
  match open_remote c_char_signed t options (ap_net s) with
  | (Ok c, n) =>
      let l := ap_next s in
      (Ok l, mkAppState n (<[l := (1%nat, c)]> (ap_remotes s)) (S l) (ap_log s))
  | (Err e, n) => (Err e, set_net n s)
  end.

(** [Connection::new_statement]. *)
Definition new_statement_handle (l : nat) : App Handle :=
  st ← on_remote l (connection_new_statement c_char_signed);
  mmodify (clone_remote l);;
  mret (StatementHandle (st_statement_id st)).

(** Every method that ends in [reader_from_response], with its request. *)
Definition new_reader (l : nat) (request : RemoteConnection → M Net AdbcError RemoteReader) : App Handle :=
  reader ← on_remote l request;
  mmodify (clone_remote l);;
  mret (ReaderHandle reader).

Definition execute_handle (l : nat) (statement_id : string) : App Handle :=
  new_reader l (λ c, statement_execute c_char_signed (mkGrainliftStatement c statement_id)).

(** [Iterator::next] of a reader. *)
Definition advance_reader (l : nat) (r : RemoteReader) (s : AppState)
  : option (result ArrowError RecordBatch) * Handle * AppState :=
  match ap_remotes s !! l with
  | Some (_, c) =>
      let '(item, r, n) := reader_next_item c_char_signed c r (ap_net s) in
      (item, ReaderHandle r, set_net n (record_event l Used s))
  | None => (None, ReaderHandle r, s)
  end.

(** The drops of [GrainliftConnection], [GrainliftStatement] and
    [RemoteReader]: first what [Drop] sends, then the fields in their order. *)
Definition drop_handle (l : nat) (h : Handle) (s : AppState) : AppState :=
  match h with
  | ConnectionHandle | Upgraded => release_remote l s
  | StatementHandle statement_id =>
      release_remote l
        (on_remote_ignored l (λ c, drop_statement c_char_signed (mkGrainliftStatement c statement_id)) s)
  | ReaderHandle r =>
      let s := release_remote l (on_remote_ignored l (λ c, close_reader c_char_signed c r) s) in
      set_net (drop_mode r (ap_net s)) s
  end.

(** Several handles of one connection, one after the other. *)
Definition drop_all (l : nat) (hs : list Handle) (s : AppState) : AppState :=
  foldl (λ s h, drop_handle l h s) s hs.

(** ** Cancel handles *)

(** [get_cancel_handle] downgrades: what it holds is the location alone. *)
Record CancelHandle : Type := mkCancelHandle { ch_remote : nat; ch_statement_id : option string }.

Definition connection_cancel_handle (l : nat) : CancelHandle := mkCancelHandle l None.
Definition statement_cancel_handle (l : nat) (statement_id : string) : CancelHandle :=
  mkCancelHandle l (Some statement_id).

(** [Weak::upgrade]. *)
Definition upgrade_remote (l : nat) (s : AppState) : bool * AppState :=
  (bool_decide (is_Some (ap_remotes s !! l)), clone_remote l s).

(** The request of [try_cancel] on the upgraded reference. *)
Definition cancel_request (h : CancelHandle) : App unit :=
  on_remote (ch_remote h) (λ c,
    match ch_statement_id h with
    | None => connection_try_cancel c_char_signed (Some c)
    | Some statement_id => statement_try_cancel c_char_signed (Some c) statement_id
    end).

Definition try_cancel_handle (h : CancelHandle) : App unit := λ s,
  let '(alive, s) := upgrade_remote (ch_remote h) s in
  if alive then
    let '(r, s) := cancel_request h s in (r, release_remote (ch_remote h) s)
  else (Ok tt, s).

(** ** Runs *)

(** The state and the handles the application and its threads hold. *)
Definition Running : Type := AppState * list (nat * Handle).

Inductive app_step : Running → Running → Prop :=
| step_open t options s r s' hs :
    new_connection t options s = (r, s') →
    app_step (s, hs) (s', match r with Ok l => (l, ConnectionHandle) :: hs | Err _ => hs end)
| step_call {A} l h (f : RemoteConnection → M Net AdbcError A) s r s' hs :
    (l, h) ∈ hs → on_remote l f s = (r, s') → app_step (s, hs) (s', hs)
| step_statement l h s r s' hs :
    (l, h) ∈ hs → new_statement_handle l s = (r, s') →
    app_step (s, hs) (s', match r with Ok h' => (l, h') :: hs | Err _ => hs end)
| step_reader l h request s r s' hs :
    (l, h) ∈ hs → new_reader l request s = (r, s') →
    app_step (s, hs) (s', match r with Ok h' => (l, h') :: hs | Err _ => hs end)
| step_advance l reader s item h s' hs hs' :
    hs ≡ₚ (l, ReaderHandle reader) :: hs' → advance_reader l reader s = (item, h, s') →
    app_step (s, hs) (s', (l, h) :: hs')
| step_drop l h s hs hs' :
    hs ≡ₚ (l, h) :: hs' → app_step (s, hs) (drop_handle l h s, hs')
| step_upgrade l s s' hs :
    upgrade_remote l s = (true, s') → app_step (s, hs) (s', (l, Upgraded) :: hs).

Definition unopened (n : Net) : Running := (mkAppState n ∅ 0 [], []).

(** ** Invariant *)

Definition events (l : nat) (log : list (nat * Event)) : list Event :=
  (filter (λ e, e.1 = l) log).*2.

(** What has happened to a connection, given whether it is still there. *)
Definition history (alive : bool) (log : list Event) : Prop :=
  if alive then Closed ∉ log else ∃ before, log = before ++ [Closed] ∧ Closed ∉ before.

Record handles_inv (s : AppState) (refs : list nat) : Prop := mkHandlesInv {
  hi_counted : counted (ap_remotes s) refs;
  hi_fresh : ∀ l, (ap_next s ≤ l)%nat → ap_remotes s !! l = None ∧ events l (ap_log s) = [];
  hi_history : ∀ l, (l < ap_next s)%nat →
    history (bool_decide (is_Some (ap_remotes s !! l))) (events l (ap_log s))
}.

Lemma events_snoc l log l' e :
  events l (log ++ [(l', e)]) = events l log ++ (if decide (l' = l) then [e] else []).
Proof. unfold events. rewrite filter_app, fmap_app, filter_cons, filter_nil. simpl. by destruct (decide _). Qed.

Lemma inv_live s refs l : handles_inv s refs → l ∈ refs → ∃ n c, ap_remotes s !! l = Some (n, c).
Proof. intros Hs Hl. destruct (counted_live _ _ _ (hi_counted _ _ Hs) Hl) as [[n c] Hc]. by exists n, c. Qed.

Lemma inv_bound s refs l x : handles_inv s refs → ap_remotes s !! l = Some x → (l < ap_next s)%nat.
Proof.
  intros Hs Hl. destruct (decide (l < ap_next s)%nat) as [|Hn]; [done|].
  destruct (hi_fresh _ _ Hs l) as [Hnone _]; [lia|]. congruence.
Qed.

Lemma inv_net s refs n : handles_inv s refs → handles_inv (set_net n s) refs.
Proof. by intros []. Qed.

Lemma inv_used s refs l x :
  handles_inv s refs → ap_remotes s !! l = Some x → handles_inv (record_event l Used s) refs.
Proof.
  intros Hs Hl. pose proof (inv_bound _ _ _ _ Hs Hl) as Hlt. destruct Hs as [Hc Hf Hh]. split; simpl; [done| |].
  - intros l' Hl'. rewrite events_snoc, decide_False, app_nil_r by lia. by apply Hf.
  - intros l' Hl'. specialize (Hh l' Hl'). rewrite events_snoc. destruct (decide (l = l')) as [<-|]; [|by rewrite app_nil_r].
    rewrite Hl in *. rewrite bool_decide_true in * by done. unfold history in *. set_solver.
Qed.

Lemma inv_clone s refs l x :
  handles_inv s refs → ap_remotes s !! l = Some x → handles_inv (clone_remote l s) (l :: refs).
Proof.
  intros Hs Hl. pose proof (inv_bound _ _ _ _ Hs Hl) as Hlt. destruct Hs as [Hc Hf Hh].
  unfold clone_remote. rewrite Hl. destruct x as [n c]. split; simpl; [by eapply counted_incr| |].
  - intros l' Hl'. rewrite lookup_insert_ne by lia. by apply Hf.
  - intros l' Hl'. destruct (decide (l = l')) as [<-|].
    + specialize (Hh l Hl'). rewrite Hl in Hh. by rewrite lookup_insert_eq.
    + rewrite lookup_insert_ne by done. by apply Hh.
Qed.

Lemma inv_release s refs l : handles_inv s (l :: refs) → handles_inv (release_remote l s) refs.
Proof.
  intros Hs. destruct (inv_live s _ l Hs) as (n & c & Hl); [set_solver|].
  pose proof (inv_bound _ _ _ _ Hs Hl) as Hlt. destruct Hs as [Hc Hf Hh].
  unfold release_remote. rewrite Hl. destruct n as [|[|n]].
  - specialize (Hc l). rewrite Hl in Hc. lia.
  - split; simpl; [by eapply counted_free| |].
    + intros l' Hl'. rewrite lookup_delete_ne, events_snoc, decide_False, app_nil_r by lia. by apply Hf.
    + intros l' Hl'. rewrite events_snoc. specialize (Hh l' Hl'). destruct (decide (l = l')) as [<-|].
      * rewrite lookup_delete_eq. rewrite Hl in Hh. simpl. exists (events l (ap_log s)). by split.
      * by rewrite lookup_delete_ne, app_nil_r.
  - split; simpl; [by eapply counted_decr| |].
    + intros l' Hl'. rewrite lookup_insert_ne by lia. by apply Hf.
    + intros l' Hl'. destruct (decide (l = l')) as [<-|].
      * specialize (Hh l Hl'). rewrite Hl in Hh. by rewrite lookup_insert_eq.
      * rewrite lookup_insert_ne by done. by apply Hh.
Qed.

Lemma inv_open t options s r s' refs :
  handles_inv s refs → new_connection t options s = (r, s') →
  handles_inv s' (match r with Ok l => [l] | Err _ => [] end ++ refs).
Proof.
  intros Hs. unfold new_connection. destruct (open_remote _ _ _ _) as [[c|e] n]; intros [= <- <-]; simpl;
    [|by apply inv_net].
  destruct Hs as [Hc Hf Hh]. destruct (Hf (ap_next s)) as [Hnone Hev]; [done|]. split; simpl; [by apply counted_new| |].
  - intros l Hl. rewrite lookup_insert_ne by lia. apply Hf. lia.
  - intros l Hl. destruct (decide (ap_next s = l)) as [<-|].
    + rewrite lookup_insert_eq, Hev. apply not_elem_of_nil.
    + rewrite lookup_insert_ne by done. apply Hh. lia.
Qed.

Lemma inv_on_remote {A} l (f : RemoteConnection → M Net AdbcError A) s r s' refs :
  handles_inv s refs → l ∈ refs → on_remote l f s = (r, s') →
  handles_inv s' refs ∧ ap_remotes s' = ap_remotes s.
Proof.
  intros Hs Hl. destruct (inv_live s refs l Hs Hl) as (n & c & Hc). unfold on_remote. rewrite Hc.
  destruct (f c (ap_net s)) as [r0 n0]. intros [= <- <-]. split; [|done]. eapply inv_net, inv_used; eauto.
Qed.

(** The calls that hand out a further handle. *)
Lemma inv_handle {A} l (f : RemoteConnection → M Net AdbcError A) (wrap : A → Handle) s r s' refs :
  handles_inv s refs → l ∈ refs →
  (x ← on_remote l f; mmodify (clone_remote l);; mret (wrap x)) s = (r, s') →
  handles_inv s' (match r with Ok _ => [l] | Err _ => [] end ++ refs).
Proof.
  intros Hs Hl. unfold mbind, M_bind, mmodify, mret, M_ret.
  destruct (on_remote l f s) as [[x|e] s1] eqn:Hr; intros [= <- <-];
    destruct (inv_on_remote _ _ _ _ _ _ Hs Hl Hr) as [Hs1 Heq]; [|done].
  destruct (inv_live s1 refs l Hs1 Hl) as (n & c & Hc). by eapply inv_clone.
Qed.

Lemma inv_ignored l f s refs :
  handles_inv s refs → l ∈ refs → handles_inv (on_remote_ignored l f s) refs.
Proof.
  intros Hs Hl. destruct (inv_live s refs l Hs Hl) as (n & c & Hc). unfold on_remote_ignored. rewrite Hc.
  eapply inv_net, inv_used; eauto.
Qed.

Lemma inv_drop l h s refs : handles_inv s (l :: refs) → handles_inv (drop_handle l h s) refs.
Proof.
  intros Hs. assert (∀ f, handles_inv (on_remote_ignored l f s) (l :: refs)) as Hi.
  { intros f. apply inv_ignored; [done|set_solver]. }
  destruct h; simpl; try apply inv_net; apply inv_release; auto.
Qed.

Lemma inv_permutation s refs refs' : refs ≡ₚ refs' → handles_inv s refs → handles_inv s refs'.
Proof. intros Hp [Hc Hf Hh]. split; [by rewrite <-Hp|done..]. Qed.

Lemma held_location (l : nat) (h : Handle) hs : (l, h) ∈ hs → l ∈ hs.*1.
Proof. intros Hl. apply list_elem_of_fmap. by exists (l, h). Qed.

Lemma app_step_inv A B : app_step A B → handles_inv A.1 A.2.*1 → handles_inv B.1 B.2.*1.
Proof.
  destruct 1 as [t o s r s' hs Ho|? l h f s r s' hs Hl%held_location Hr|l h s r s' hs Hl%held_location Hr
                |l h q s r s' hs Hl%held_location Hr|l r s item h s' hs hs' Hp Hr|l h s hs hs' Hp|l s s' hs Hu];
    simpl; intros Hs.
  - apply (inv_open t o s r s' _ Hs) in Ho. by destruct r.
  - by apply (inv_on_remote _ _ _ _ _ _ Hs Hl) in Hr as [].
  - apply (inv_handle _ _ _ _ _ _ _ Hs Hl) in Hr. by destruct r.
  - apply (inv_handle _ _ _ _ _ _ _ Hs Hl) in Hr. by destruct r.
  - apply (fmap_Permutation fst) in Hp. apply (inv_permutation _ _ _ Hp) in Hs. simpl in *.
    destruct (inv_live s _ l Hs) as (n & c & Hc); [set_solver|]. unfold advance_reader in Hr. rewrite Hc in Hr.
    destruct (reader_next_item _ _ _ _) as [[item' r'] n']. injection Hr as <- <- <-.
    eapply inv_net, inv_used; eauto.
  - apply (fmap_Permutation fst) in Hp. apply (inv_permutation _ _ _ Hp) in Hs. by apply inv_drop.
  - injection Hu as Hb <-. apply bool_decide_eq_true in Hb as [x Hx]. by eapply inv_clone.
Qed.

Lemma app_steps_inv n A : rtc app_step (unopened n) A → handles_inv A.1 A.2.*1.
Proof.
  assert (handles_inv (unopened n).1 (unopened n).2.*1) as Hnew.
  { split; simpl; [by intros l|by intros l _|intros l; simpl; lia]. }
  revert Hnew. generalize (unopened n). intros B HB Hr. induction Hr as [|B C D Hs _ IH]; [done|].
  apply IH. by eapply app_step_inv.
Qed.

Lemma release_shared l c n s :
  ap_remotes s !! l = Some (S (S n), c) → ap_net (release_remote l s) = ap_net s.
Proof. unfold release_remote. by intros ->. Qed.
End Handles.

(** ** Main theorem *)

Section Main.
Context `{AdbcCore} `{RustFmt} `{ArrowCrate} `{!IpcCrate} `{AdbcOptions} `{Base64} `{VgiRpc}.
Context `{!StructCrate} `{!WireRecords} `{!Json WireAdbcError} `{!RpcTransport}.
Context (c_char_signed : bool).

(** C11: a connection lives exactly as long as somebody uses it.  Whatever the
    application and its threads open, call, read, cancel and drop, in any order: a
    connection that a connection, statement, reader or cancellation in progress
    holds is there, counted once for each, has not been closed, and dropping one
    of several sends no close; a connection that nobody holds any more was closed
    exactly once, after everything else that was sent for it, and a cancel handle
    that is left over does nothing. *)
Theorem handles_share_connection n s hs :
  rtc (app_step c_char_signed) (unopened n) (s, hs) →
  (∀ l h, (l, h) ∈ hs →
     (∃ c, ap_remotes s !! l = Some (cnt l hs.*1, c)) ∧ (Closed ∉ events l (ap_log s))
     ∧ ((1 < cnt l hs.*1)%nat → ap_net (release_remote c_char_signed l s) = ap_net s))
  ∧ (∀ l, (l < ap_next s)%nat → l ∉ hs.*1 →
       (∃ before, events l (ap_log s) = before ++ [Closed] ∧ Closed ∉ before)
       ∧ ∀ statement_id,
           try_cancel_handle c_char_signed (mkCancelHandle l statement_id) s = (Ok tt, s)).
Proof.
  intros Hs%app_steps_inv. simpl in Hs. split.
  - intros l h Hl%held_location. destruct (inv_live s _ l Hs Hl) as (k & c & Hc).
    pose proof (inv_bound _ _ _ _ Hs Hc) as Hlt. destruct Hs as [Hcount _ Hh].
    specialize (Hcount l). specialize (Hh l Hlt). rewrite Hc in Hcount, Hh. destruct Hcount as [-> _].
    split_and!; [by exists c|done|]. intros Hk. destruct (cnt l hs.*1) as [|[|k]] eqn:Hn; [lia..|].
    by eapply release_shared.
  - intros l Hlt Hl%cnt_zero. destruct Hs as [Hcount _ Hh]. specialize (Hh l Hlt). specialize (Hcount l).
    destruct (ap_remotes s !! l) as [[k c]|] eqn:Hc; [lia|]. split; [exact Hh|].
    intros statement_id. unfold try_cancel_handle, upgrade_remote, clone_remote. simpl. by rewrite Hc.
Qed.
End Main.

(** ** Examples *)

Section Example.
#[local] Existing Instance simple_core.
#[local] Existing Instance simple_fmt.
#[local] Existing Instance ref_arrow.
#[local] Existing Instance ref_ipc.
#[local] Existing Instance ref_options.
#[local] Existing Instance ref_base64.
#[local] Existing Instance ref_rpc.
#[local] Existing Instance ref_struct.
#[local] Existing Instance ref_records.
#[local] Existing Instance ref_json_error.

(** A network that writes down the methods it is asked for. *)
#[local] Instance recorder : RpcTransport := {|
  Net := list string;
  build_client := mret tt;
  call_unary name _ := mprim (λ n,
    (if bool_decide (name = method.OPEN_CONNECTION) then typed_response (mkSessionResponse "id-0")
     else if bool_decide (name = method.NEW_STATEMENT) then typed_response (mkStatementResponse "id-0" "id-1")
     else ok_batch, n ++ [name]));
  ExchangeHandle := unit;
  open_exchange _ _ := mret tt;
  exchange_turn _ turn := mret (Some turn);
  exchange_cancel _ n := n;
  ProducerHandle := unit;
  open_producer _ _ := mret tt;
  resume_stream _ _ n := (tt, n);
  next_with_token _ := mret None;
  is_finished _ _ := true;
  tick _ := mret None;
  producer_cancel _ n := n;
  connector_connect := mret tt;
  spawn_thread := mret tt
|}.

Definition recorded_options : RemoteConnectionOptions :=
  mkRemoteConnectionOptions "https://localhost" None "orders" [] [] 30000 100000 1000
    (mkTransportOptions None None None None None None).

Definition nothing_sent : Net := @nil string.

(** The connection is dropped while its statement is still there. *)
Definition recorded_opened : AppState :=
  (new_connection true Http recorded_options (unopened nothing_sent).1).2.
Definition recorded_statement : AppState := (new_statement_handle true 0 recorded_opened).2.
Definition recorded_orphan : AppState := drop_handle true 0 ConnectionHandle recorded_statement.
Definition recorded_done : AppState := drop_handle true 0 (StatementHandle "id-1") recorded_orphan.

Lemma recorded_run : rtc (app_step true) (unopened nothing_sent) (recorded_done, []).
Proof.
  assert ((new_connection true Http recorded_options (unopened nothing_sent).1).1 = Ok 0%nat) as Hopen
    by (vm_compute; reflexivity).
  assert ((new_statement_handle true 0 recorded_opened).1 = Ok (StatementHandle "id-1")) as Hnew
    by (vm_compute; reflexivity).
  apply (rtc_l _ _ (recorded_opened, [(0%nat, ConnectionHandle)])).
  { refine (step_open true Http recorded_options _ (Ok 0%nat) recorded_opened [] _).
    rewrite <-Hopen. apply surjective_pairing. }
  apply (rtc_l _ _ (recorded_statement, [(0%nat, StatementHandle "id-1"); (0%nat, ConnectionHandle)])).
  { refine (step_statement true 0 ConnectionHandle _ (Ok (StatementHandle "id-1")) recorded_statement _ _ _);
      [by left|]. rewrite <-Hnew. apply surjective_pairing. }
  eapply rtc_l; [apply (step_drop true 0 ConnectionHandle _ _ [(0%nat, StatementHandle "id-1")]), Permutation_swap|].
  eapply rtc_l; [by apply (step_drop true 0 (StatementHandle "id-1") _ _ [])|]. apply rtc_refl.
Qed.

Lemma handles_share_connection_witness :
  ap_net recorded_done = [method.OPEN_CONNECTION; method.NEW_STATEMENT; method.CLOSE_STATEMENT; method.CLOSE_CONNECTION]
  ∧ events 0 (ap_log recorded_done) = [Used; Used; Closed]
  ∧ try_cancel_handle true (connection_cancel_handle 0) recorded_done = (Ok tt, recorded_done).
Proof.
  split; [vm_compute; reflexivity|]. split; [vm_compute; reflexivity|].
  destruct (handles_share_connection true nothing_sent recorded_done [] recorded_run) as [_ Hdropped].
  destruct (Hdropped 0%nat) as [_ Hcancel].
  - vm_compute. lia.
  - apply not_elem_of_nil.
  - exact (Hcancel None).
Defined.
End Example.
