(* ===== verification/EndToEnd.v ===== *)
(** * Driver and server together

    The client driver over a transport that delivers: [loopback] instantiates
    the [RpcTransport] interface with the server's own method table, so that the
    theorems relate what an application sees to what the native driver did. *)

From S2P Require Import Prelude Adbc WireError Options Arrow Framing Envelope Partitions.
From S2P Require Import Config Backend ResultCursor BindUpload Session SessionSteps Manager.
From S2P Require Import ManagerSteps Rpc Service ServiceSteps Streaming.
From S2P Require Import Reference ReferenceIpc ReferenceBackend ReferenceRpc ReferenceService.
From S2P Require Import ClientOptions Client ClientTheorems.

Section Loopback.
Context `{AdbcCore} `{RustFmt} `{ArrowCrate} `{!IpcCrate} `{FileSystem} `{AdbcOptions} `{!Backend}.
Context `{Base64} `{Hmac} `{VgiRpc} `{!StructCrate} `{!WireRecords}.
Context `{!Json WireAdbcError} `{!Json BindCursor} `{!Json ResultCursor}.
Context (uuid : nat → string) (system_now : Global → nat → Z) (mg : Manager) (max_bind : Z).
(** The caller as the server authenticated it, and a fresh collector. *)
Context (ctx : CallContext) (new_out : OutputCollector).

Fixpoint find_method (name : string) (methods : list (string * MethodInfo)) : option MethodInfo :=
  match methods with
  | [] => None
  | (key, info) :: methods => if bool_decide (key = name) then Some info else find_method name methods
  end.

Definition no_method : RpcError := rpc_protocol_error "no such method".

Definition serve_unary (name : string) (b : RecordBatch) : M MState RpcError RecordBatch :=
  match find_method name (server_methods uuid system_now mg max_bind) with
  | Some (Unary _ handler) =>
      answer ← handler (as_request b) ctx;
      mlift (ok_or answer (runtime_error "no result"))
  | _ => mthrow no_method
  end.

Definition serve_stream (name : string) (b : RecordBatch) : M MState RpcError StreamResult :=
  match find_method name (server_methods uuid system_now mg max_bind) with
  | Some (Streaming _ handler) => handler (as_request b) ctx
  | _ => mthrow no_method
  end.

(** A stream is the encoded cursor of its state. *)
Definition serve_open_producer (name : string) (b : RecordBatch) : M MState RpcError string :=
  stream ← serve_stream name b;
  match stream with
  | ProducerStream _ cursor => mlift (from_bytes <$> producer_encode_state cursor)
  | ExchangeStream _ _ _ => mthrow no_method
  end.

Definition serve_next (token : string) : M MState RpcError (option (RecordBatch * option string)) :=
  cursor ← mlift (producer_decode_state (as_bytes token));
  '(cursor, out) ← produce mg cursor new_out ctx;
  match emitted out with
  | [] => mret None
  | b :: _ => token ← mlift (from_bytes <$> producer_encode_state cursor); mret (Some (b, Some token))
  end.

Definition serve_open_exchange (name : string) (b : RecordBatch) : M MState RpcError string :=
  stream ← serve_stream name b;
  match stream with
  | ExchangeStream _ _ cursor => mlift (from_bytes <$> exchange_encode_state cursor)
  | ProducerStream _ _ => mthrow no_method
  end.

Definition serve_exchange (token : string) (turn : RecordBatch)
  : M MState RpcError (option RecordBatch) :=
  cursor ← mlift (exchange_decode_state (as_bytes token));
  out ← exchange mg cursor turn new_out ctx;
  mret (head (emitted out)).

Definition serve_cancel_exchange (token : string) (s : MState) : MState :=
  match exchange_decode_state (as_bytes token) with
  | Ok cursor => (exchange_on_cancel mg cursor ctx s).2
  | Err _ => s
  end.

Definition loopback : RpcTransport := {|
  Net := MState;
  build_client := mret tt;
  call_unary := serve_unary;
  ExchangeHandle := string;
  open_exchange := serve_open_exchange;
  exchange_turn := serve_exchange;
  exchange_cancel := serve_cancel_exchange;
  ProducerHandle := string;
  open_producer := serve_open_producer;
  resume_stream _ token s := (token, s);
  next_with_token := serve_next;
  is_finished _ _ := false;
  tick token := b ← serve_next token; mret (fst <$> b);
  producer_cancel _ s := s;
  connector_connect := mthrow (client_internal "loopback is an HTTP transport");
  spawn_thread := mret tt
|}.
#[local] Existing Instance loopback.
Context (c_char_signed : bool).

(** ** Results *)

Lemma cursor_token cursor t :
  to_json cursor = Ok t →
  producer_encode_state cursor = Ok (as_bytes t) ∧ from_bytes (as_bytes t) = t
  ∧ producer_decode_state (as_bytes t) = Ok cursor.
Proof.
  intros Hj. unfold producer_encode_state, producer_decode_state. rewrite Hj. simpl.
  unfold from_bytes, as_bytes. rewrite String.string_of_list_byte_of_string.
  by rewrite (from_to_json _ _ Hj).
Qed.

Definition end_of (ending : Ending) : StreamEnd :=
  match ending with
  | EndOfStream => EndOfResult
  | Failure error => FailedWith (rpc_error c_char_signed (adbc_rpc_error (error_from_arrow error)))
  end.

(** A registered result is served to the driver to its end. *)
Lemma serving_serves id p rid n entry w s batches ending t :
  principal mg (auth ctx) = Ok p → 0 ≤ mg_ttl mg →
  emitted new_out = [] → (∀ b, is_ok (emit new_out b) = true) →
  (∀ cursor, is_ok (to_json (T := ResultCursor) cursor) = true) →
  serving mg id p (has_result rid entry w) s → fresh_at entry n → yields (reader entry) w batches ending →
  0 ≤ n → n + len batches ≤ i64_max → to_json (mkResultCursor id rid n) = Ok t →
  serves c_char_signed Http t s batches (end_of ending).
Proof.
  intros Hp Httl Hnew Hemit Hjson Hs. revert n entry w s Hs t.
  induction batches as [|b batches IH]; intros n entry w s Hs t Hfresh Hy Hpos Hmax Ht;
    destruct (cursor_token _ _ Ht) as (_ & _ & Hdec).
  - inversion Hy as [w1 w' Hr|w1 w' error Hr|]; subst;
      (edestruct (serving_turn uuid mg id p rid n entry w s ctx) as (s2 & Hs2 & Hprod);
        [done|done|done|rewrite (fresh_fetch _ _ _ Hfresh); unfold fetch; by rewrite Hr|]).
    + eapply serves_end. simpl. unfold serve_next. rewrite Hdec. unfold mlift, mbind, M_bind. rewrite Hprod.
      rewrite (proj1 (out_finish_emitted new_out)), Hnew. done.
    + eapply serves_error. simpl. unfold serve_next. rewrite Hdec. unfold mlift, mbind, M_bind. by rewrite Hprod.
  - inversion Hy as [| |w1 w' b0 bs e Hr Hy']; subst. rewrite len_cons in Hmax. pose proof (len_nonneg batches).
    destruct (fresh_batch entry w w' n b) as (entry' & Hfirst & _ & Hfresh' & Hreader); [done|lia|done|].
    edestruct (serving_turn uuid mg id p rid n entry w s ctx) as (s2 & Hs2 & Hprod); [done|done|done|exact Hfirst|].
    specialize (Hemit b) as Hem. destruct (emit new_out b) as [out|] eqn:Hout; [|done].
    destruct (emit_emitted _ _ _ Hout) as [Hb _].
    specialize (Hjson (mkResultCursor id rid (n + 1))) as Hj.
    destruct (to_json (mkResultCursor id rid (n + 1))) as [t'|] eqn:Ht'; [|done].
    destruct (cursor_token _ _ Ht') as (Henc & Hback & _).
    eapply serves_batch.
    + simpl. unfold serve_next. rewrite Hdec. unfold mlift, mbind, M_bind.
      rewrite Hprod, Hout, Hb, Hnew. simpl. rewrite wrap_signed_succ by lia. rewrite Henc. simpl. by rewrite Hback.
    + done.
    + done.
    + done.
    + eapply IH; [exact Hs2|exact Hfresh'|by rewrite Hreader|lia|lia|done].
Qed.

Lemma read_result_serving id p rid entry w s rq :
  principal mg (auth ctx) = Ok p → 0 ≤ mg_ttl mg →
  validate_handle id = Ok tt → validate_handle rid = Ok tt →
  read_result_request id rid = Ok rq → serving mg id p (has_result rid entry w) s →
  ∃ s', read_result mg (as_request rq) ctx s
        = (Ok (ProducerStream (re_schema entry) (mkResultCursor id rid 0)), s')
        ∧ serving mg id p (has_result rid entry w) s'.
Proof.
  intros Hp Httl Hid Hrid Hrq Hs.
  apply built_request in Hrq; [subst rq|done|repeat constructor].
  destruct (serving_via uuid mg id p _ (has_result rid entry w) s (result_schema rid) (Ok (re_schema entry)) Httl Hs)
    as (a & s1 & s2 & Hget & Hon & Hs'); [intros st Hst; by apply result_schema_ready|].
  exists (drop_arc a s2). split; [|done]. unfold read_result, with_session, get_session.
  rewrite driver_version_accepted, Hp. rewrite (request_string_read _ "session_id" id) by done.
  unfold mbind, M_bind, mlift, adbc, mmap_err, mret, M_ret. rewrite Hget. cbn [map_err].
  unfold releasing. rewrite (request_string_read _ "result_id" rid) by done.
  cbn -[on_session drop_arc as_request]. unfold via, adbc, mmap_err. by rewrite Hon.
Qed.

Lemma reader_open_schema c rid schema n r n' :
  reader_open c_char_signed c rid schema n = (Ok r, n') → rr_schema r = schema.
Proof.
  unfold reader_open. intros (rq & n1 & _ & Ho)%bind_Ok. destruct (negb _).
  - apply bind_Ok in Ho as (b & n2 & _ & [= <- _]). done.
  - apply bind_Ok in Ho as (? & n2 & _ & Ho). apply bind_Ok in Ho as (h & n3 & _ & Ho).
    apply bind_Ok in Ho as ([[first cont] fin] & n4 & _ & [= <- _]). done.
Qed.

Lemma read_result_opens id p rid entry w s rq t :
  principal mg (auth ctx) = Ok p → 0 ≤ mg_ttl mg →
  validate_handle id = Ok tt → validate_handle rid = Ok tt →
  read_result_request id rid = Ok rq → serving mg id p (has_result rid entry w) s →
  to_json (mkResultCursor id rid 0) = Ok t →
  ∃ s', open_producer method.READ_RESULT rq s = (Ok t, s') ∧ serving mg id p (has_result rid entry w) s'.
Proof.
  intros Hp Httl Hid Hrid Hrq Hs Hjt. destruct (cursor_token _ _ Hjt) as (Henc & Hback & _).
  destruct (read_result_serving id p rid entry w s rq) as (s1 & Hread & Hs1); [done..|].
  exists s1. split; [|done]. simpl. unfold serve_open_producer, serve_stream. cbn [find_method].
  change (find_method method.READ_RESULT (server_methods uuid system_now mg max_bind))
    with (Some (Streaming read_result_schema (read_result mg))). cbv iota.
  unfold mbind, M_bind. rewrite Hread. unfold mlift. rewrite Henc. simpl. by rewrite Hback.
Qed.

(** The driver's reader over the loopback. *)
Lemma reader_over_loopback c id p rid entry w s schema batches ending turns :
  principal mg (auth ctx) = Ok p → 0 ≤ mg_ttl mg →
  emitted new_out = [] → (∀ b, is_ok (emit new_out b) = true) →
  (∀ cursor, is_ok (to_json (T := ResultCursor) cursor) = true) →
  transport c = Http → session_id c = id → validate_handle id = Ok tt → validate_handle rid = Ok tt →
  serving mg id p (has_result rid entry w) s → fresh_at entry 0 →
  yields (reader entry) w batches ending → len batches ≤ i64_max → (S (length batches) < turns)%nat →
  match reader_open c_char_signed c rid schema s with
  | (Ok r, s') => rr_schema r = schema ∧ drain c_char_signed c turns r s' = items_of batches (end_of ending)
  | (Err e, _) => batches = [] ∧ end_of ending = FailedWith e
  end.
Proof.
  intros Hp Httl Hnew Hemit Hjson Ht <- Hid Hrid Hs Hfresh Hy Hmax Hturns.
  destruct (read_result_request (session_id c) rid) as [rq|e] eqn:Hrq.
  2:{ exfalso. unfold read_result_request, arrow_result in Hrq.
      rewrite try_new_row in Hrq by (first [done|repeat constructor]). done. }
  specialize (Hjson (mkResultCursor (session_id c) rid 0)) as Hj.
  destruct (to_json (mkResultCursor (session_id c) rid 0)) as [t|] eqn:Hjt; [|done].
  destruct (read_result_opens (session_id c) p rid entry w s rq t) as (s1 & Hopen & Hs1); [done..|].
  pose proof (reader_open_schema c rid schema s) as Hschema.
  pose proof (http_reader_complete c_char_signed c rid schema s s rq t s1 batches (end_of ending) turns) as Hcomplete.
  match type of Hschema with ∀ r n, ?m = _ → _ => destruct m as [[r|e] s2] end; [split; [by eapply Hschema|]|];
    (apply Hcomplete; [done|reflexivity|exact Hrq|exact Hopen|by eapply (serving_serves (session_id c) p)|done]).
Qed.

(** A result whose first batch is an error: the open fails, so there is no
    reader to drop, and the result stays registered at the server. *)
Lemma failed_open_leaks_result c p rid entry w s schema error w' t :
  principal mg (auth ctx) = Ok p → 0 ≤ mg_ttl mg → transport c = Http →
  validate_handle (session_id c) = Ok tt → validate_handle rid = Ok tt →
  serving mg (session_id c) p (has_result rid entry w) s → fresh_at entry 0 →
  to_json (mkResultCursor (session_id c) rid 0) = Ok t →
  reader_next (reader entry) w = (Some (Err error), w') →
  ∃ entry' s', reader_open c_char_signed c rid schema s
      = (Err (rpc_error c_char_signed (adbc_rpc_error (error_from_arrow error))), s')
    ∧ serving mg (session_id c) p (has_result rid entry' w') s'.
Proof.
  intros Hp Httl Ht Hid Hrid Hs Hfresh Hjt Hr.
  destruct (read_result_request (session_id c) rid) as [rq|e] eqn:Hrq.
  2:{ exfalso. unfold read_result_request, arrow_result in Hrq.
      rewrite try_new_row in Hrq by (first [done|repeat constructor]). done. }
  destruct (read_result_opens (session_id c) p rid entry w s rq t) as (s1 & Hopen & Hs1); [done..|].
  destruct (cursor_token _ _ Hjt) as (_ & _ & Hdec).
  edestruct (serving_turn uuid mg (session_id c) p rid 0 entry w s1 ctx) as (s2 & Hs2 & Hprod);
    [done|done|done|rewrite (fresh_fetch _ _ _ Hfresh); unfold fetch; by rewrite Hr|].
  assert (next_with_token t s1 = (Err (adbc_rpc_error (error_from_arrow error)), s2)) as Hnext.
  { simpl. unfold serve_next. rewrite Hdec. unfold mlift, mbind, M_bind. by rewrite Hprod. }
  eexists _, s2. split; [|exact Hs2].
  unfold reader_open. rewrite Hrq, Ht. unfold stream_turn, net, mmap_err, http_client, mlift, mbind, M_bind.
  cbn -[next_with_token open_producer]. rewrite Hopen. cbn -[next_with_token]. by rewrite Hnext.
Qed.

(** ** Running a statement *)

(** Two operations through one reference are one. *)
Lemma via_bind {A B} a (m : M SState AdbcError A) (k : A → M SState AdbcError B) s :
  (x ← via a m; via a (k x)) s = via a (x ← m; k x) s.
Proof.
  unfold via, adbc, mmap_err, mbind, M_bind, on_session.
  destruct (m_heap s !! a) as [[n x]|] eqn:Hx; [|done].
  destruct (m (mkSState (m_global s) x)) as [[v|e] st]; simpl; [|done]. rewrite lookup_insert_eq. simpl.
  destruct st as [g y]. simpl. destruct (k v (mkSState g y)) as [r st']. by rewrite insert_insert_eq.
Qed.

Lemma bind_assoc {S E A B C} (m : M S E A) (f : A → M S E B) (g : B → M S E C) s :
  ((m ≫= f) ≫= g) s = (m ≫= λ x, f x ≫= g) s.
Proof. unfold mbind, M_bind. by destruct (m s) as [[x|e] s1]. Qed.

Lemma bind_ext {S E A B} (m : M S E A) (f g : A → M S E B) s :
  (∀ x s, f x s = g x s) → (m ≫= f) s = (m ≫= g) s.
Proof. intros Hfg. unfold mbind, M_bind. destruct (m s) as [[x|e] s1]; [apply Hfg|done]. Qed.

Lemma bind_cong {S E A B} (m m' : M S E A) (k : A → M S E B) s :
  m s = m' s → (m ≫= k) s = (m' ≫= k) s.
Proof. intros Hm. unfold mbind, M_bind. by rewrite Hm. Qed.

Lemma call_replied {A} (job : M JobState AdbcError A) st :
  g_outcomes (st_global st) = [] → s_backlog (st_session st) = [] →
  Session.call job st = let '(r, j) := job (job_state st) in (r, put_job j st).
Proof.
  intros Ho Hb. unfold Session.call, next_outcome, run_backlog. rewrite Ho. simpl. rewrite Hb.
  destruct st. done.
Qed.

(** What [execute] does on the session. *)
Definition execute_op (stid : string) : M SState AdbcError (string * Schema) :=
  invalidate_statement_results stid;;
  r ← with_statement stid stmt_execute;
  insert_statement_result uuid stid r.

Lemma execute_via {B} a stid (k : string * Schema → M MState RpcError B) s :
  (via a (invalidate_statement_results stid);;
   r ← via a (with_statement stid stmt_execute);
   x ← via a (insert_statement_result uuid stid r);
   k x) s = (via a (execute_op stid) ≫= k) s.
Proof.
  unfold execute_op. rewrite <-(bind_cong _ _ k s (via_bind a _ _ s)), bind_assoc.
  apply bind_ext. intros [] s1. rewrite <-(bind_cong _ _ k s1 (via_bind a _ _ s1)), bind_assoc. done.
Qed.

(** The statement [stid] is registered as [stmt], there is room for its result,
    and the next identifier is the [u]-th. *)
Definition has_statement (stid : string) (stmt : Stmt) (w : World) (u : nat) : SessionView := λ g l r m,
  g_world g = w ∧ g_uuids g = u ∧ mx_poisoned (statements r) = false
  ∧ (∃ cancel, mx_data (statements r) !! stid = Some (mkStatementEntry (Mutex_new stmt) cancel))
  ∧ mx_poisoned (results r) = false
  ∧ Z.of_nat (size (retain_others stid (mx_data (results r)))) < max_results_per_session l.

Lemma execute_ready stid stmt w u st rd w' :
  ready (has_statement stid stmt w u) st → stmt_execute stmt w = (Ok rd, w') →
  ∃ st', execute_op stid st = (Ok (uuid u, reader_schema rd), st')
    ∧ ready (has_result (uuid u) (ResultEntry_new (Some stid) rd) w') st' ∧ same_session st st'.
Proof.
  intros (Ho & Hb & Hw & Hu & Hps & (cancel & Hst) & Hpr & Hq) Hex. subst w u.
  unfold execute_op, insert_statement_result, insert_owned_result, invalidate_statement_results, with_statement.
  unfold mbind, M_bind. rewrite call_replied by done.
  unfold invalidate_job, lock_results, lock, mbind, M_bind, mmodify. simpl. rewrite Hpr.
  rewrite call_replied by done.
  unfold statement_job, lock_statements, lock, mbind, M_bind, mlift, on_world. simpl. rewrite Hps, Hst. simpl.
  rewrite Hex.
  rewrite call_replied by done. unfold lock_results, lock. simpl. rewrite Hpr. simpl.
  rewrite call_replied by done.
  unfold insert_result_job, draw_uuid, lock_results, lock, mbind, M_bind, mmodify. simpl. rewrite Hpr. simpl.
  destruct (Z.leb_spec (max_results_per_session (s_limits (st_session st)))
    (Z.of_nat (size (retain_others stid (retain_others stid (mx_data (results (s_resources (st_session st))))))))) as [Hle|].
  { pose proof (size_retain stid (retain_others stid (mx_data (results (s_resources (st_session st)))))). lia. }
  eexists. split; [done|]. unfold ready, has_result, same_session. simpl. rewrite lookup_insert_eq. done.
Qed.

Lemma execute_serving id p stid stmt w u rd w' s rq resp :
  principal mg (auth ctx) = Ok p → 0 ≤ mg_ttl mg →
  validate_handle id = Ok tt → validate_handle stid = Ok tt → statement_request id stid = Ok rq →
  serving mg id p (has_statement stid stmt w u) s → stmt_execute stmt w = (Ok rd, w') →
  execute_record (uuid u) (reader_schema rd) (response_limit ctx) = Ok resp →
  ∃ s', execute uuid mg (as_request rq) ctx s = (Ok (Some resp), s')
    ∧ serving mg id p (has_result (uuid u) (ResultEntry_new (Some stid) rd) w') s'.
Proof.
  intros Hp Httl Hid Hstid Hrq Hs Hex Hresp.
  apply built_request in Hrq; [subst rq|done|repeat constructor].
  destruct (serving_via uuid mg id p _ (has_result (uuid u) (ResultEntry_new (Some stid) rd) w') s
    (execute_op stid) (Ok (uuid u, reader_schema rd)) Httl Hs) as (a & s1 & s2 & Hget & Hon & Hs');
    [intros st Hst; by eapply execute_ready|].
  exists (drop_arc a s2). split; [|done]. unfold execute, with_session, get_session.
  rewrite driver_version_accepted, Hp. rewrite (request_string_read _ "session_id" id) by done.
  assert (∀ A (f : nat * string → M MState RpcError A),
    ('(a, session_id) ← (mlift (Ok tt);; p ← mlift (Ok p); session_id ← mlift (Ok id);
       a ← adbc (get mg session_id p); mret (a, session_id)); f (a, session_id)) s = f (a, id) s1) as Hacq.
  { intros A f. unfold mbind, M_bind, mlift, adbc, mmap_err. by rewrite Hget. }
  rewrite (Hacq _ (λ '(a, _), releasing a _)). unfold releasing.
  rewrite (request_string_read _ "statement_id" stid) by done.
  unfold mlift, mbind at 1, M_bind at 1. rewrite execute_via. unfold mbind, M_bind.
  unfold via, adbc, mmap_err. rewrite Hon. cbn [map_err]. unfold result_response. by rewrite Hresp.
Qed.

(** ** Transactions *)

Definition has_connection (conn : Conn) (w : World) : SessionView := λ g l r m,
  g_world g = w ∧ connection r = Mutex_new conn.

Lemma with_connection_ready {A} (op : Conn → M World AdbcError A) conn w r w' st :
  ready (has_connection conn w) st → op conn w = (r, w') →
  ∃ st', with_connection op st = (r, st') ∧ ready (has_connection conn w') st' ∧ same_session st st'.
Proof.
  intros (Ho & Hb & <- & Hc) Hop. unfold with_connection. rewrite call_replied by done.
  unfold connection_job, lock_connection, lock, on_world, mbind, M_bind. simpl. rewrite Hc. simpl.
  rewrite Hop. eexists. split; [done|]. unfold ready, has_connection, same_session. simpl. done.
Qed.

Lemma session_operation_serving id p conn w r w' s rq (op : Conn → M World AdbcError unit) ack :
  principal mg (auth ctx) = Ok p → 0 ≤ mg_ttl mg → validate_handle id = Ok tt →
  session_request id = Ok rq → ok_batch = Ok ack →
  serving mg id p (has_connection conn w) s → op conn w = (r, w') →
  ∃ s', session_operation mg (with_connection op) (as_request rq) ctx s
        = (match r with Ok _ => Ok (Some ack) | Err e => Err (adbc_rpc_error e) end, s')
    ∧ serving mg id p (has_connection conn w') s'.
Proof.
  intros Hp Httl Hid Hrq Hack Hs Hop.
  apply built_request in Hrq; [subst rq|done|repeat constructor].
  destruct (serving_via uuid mg id p _ (has_connection conn w') s (with_connection op) r Httl Hs)
    as (a & s1 & s2 & Hget & Hon & Hs'); [intros st Hst; by eapply with_connection_ready|].
  exists (drop_arc a s2). split; [|done]. unfold session_operation, with_session, get_session.
  rewrite driver_version_accepted, Hp. rewrite (request_string_read _ "session_id" id) by done.
  unfold mbind, M_bind, mlift, adbc, mmap_err, mret, M_ret. rewrite Hget. cbn [map_err].
  unfold releasing, via, adbc, mmap_err, reply. rewrite Hon, Hack. by destruct r as [[]|e].
Qed.

(** A session method that the table maps to a native operation. *)
Lemma session_call_serving c id p conn w r w' s (op : Conn → M World AdbcError unit) ack name :
  find_method name (server_methods uuid system_now mg max_bind)
    = Some (Unary session_schema (session_operation mg (with_connection op))) →
  name ∈ acknowledged →
  principal mg (auth ctx) = Ok p → 0 ≤ mg_ttl mg → validate_handle id = Ok tt →
  transport c = Http → session_id c = id → ok_batch = Ok ack →
  client_decode ack = Ok (mkOkResponse true) →
  serving mg id p (has_connection conn w) s → op conn w = (r, w') →
  ∃ s', session_call c_char_signed c name s
        = (map_err (λ e, rpc_error c_char_signed (adbc_rpc_error e)) r, s')
    ∧ serving mg id p (has_connection conn w') s'.
Proof.
  intros Hm Hn Hp Httl Hid Ht <- Hack Hdec Hs Hop.
  destruct (session_request (session_id c)) as [rq|e] eqn:Hrq.
  2:{ exfalso. unfold session_request, arrow_result in Hrq.
      rewrite try_new_row in Hrq by (first [done|repeat constructor]). done. }
  destruct (session_operation_serving (session_id c) p conn w r w' s rq op ack) as (s' & Hrun & Hs'); [done..|].
  exists s'. split; [|done]. unfold session_call. rewrite Hrq. unfold mlift, mbind, M_bind.
  unfold call, transport_call, client_for. rewrite Ht. unfold http_client, net, mmap_err, mbind, M_bind.
  simpl. unfold serve_unary. rewrite Hm. unfold mbind, M_bind. rewrite Hrun.
  destruct r as [[]|e]; simpl; [|done]. unfold check_acknowledged.
  rewrite bool_decide_eq_true_2 by done. by rewrite Hdec.
Qed.
End Loopback.

(** ** Main theorems *)

Section Main.
Context `{AdbcCore} `{RustFmt} `{ArrowCrate} `{!IpcCrate} `{FileSystem} `{AdbcOptions} `{!Backend}.
Context `{Base64} `{Hmac} `{VgiRpc} `{!StructCrate} `{!WireRecords}.
Context `{!Json WireAdbcError} `{!Json BindCursor} `{!Json ResultCursor}.
Context (uuid : nat → string) (system_now : Global → nat → Z) (mg : Manager) (max_bind : Z).
Context (ctx : CallContext) (new_out : OutputCollector) (c_char_signed : bool).
#[local] Instance wire : RpcTransport := loopback uuid system_now mg max_bind ctx new_out.

(** C2: a query through the proxy is the query: executing a statement with the
    driver, over a transport that delivers, runs the native statement once, and
    the reader the application gets has the native schema and yields exactly the
    batches of the native reader, in order, then ends or fails with the native
    error as the wire carries it. *)
Theorem query_through_proxy c id p stid stmt w u rd w' s resp batches ending turns :
  principal mg (auth ctx) = Ok p → 0 ≤ mg_ttl mg →
  emitted new_out = [] → (∀ b, is_ok (emit new_out b) = true) →
  (∀ cursor, is_ok (to_json (T := ResultCursor) cursor) = true) →
  transport c = Http → session_id c = id →
  validate_handle id = Ok tt → validate_handle stid = Ok tt → validate_handle (uuid u) = Ok tt →
  serving mg id p (has_statement stid stmt w u) s → stmt_execute stmt w = (Ok rd, w') →
  execute_record (uuid u) (reader_schema rd) (response_limit ctx) = Ok resp →
  client_decode resp = Ok (mkExecuteResponse (uuid u) None (schema_message (reader_schema rd))) →
  yields rd w' batches ending → len batches ≤ i64_max → (S (length batches) < turns)%nat →
  match statement_execute c_char_signed (mkGrainliftStatement c stid) s with
  | (Ok r, s') =>
      rr_schema r = reader_schema rd
      ∧ drain c_char_signed c turns r s' = items_of batches (end_of c_char_signed ending)
  | (Err e, _) => batches = [] ∧ end_of c_char_signed ending = FailedWith e
  end.
Proof.
  intros Hp Httl Hnew Hemit Hjson Ht <- Hid Hstid Hrid Hs Hex Hresp Hdec Hy Hmax Hturns.
  destruct (statement_request (session_id c) stid) as [rq|e] eqn:Hrq.
  2:{ exfalso. unfold statement_request, arrow_result in Hrq.
      rewrite try_new_row in Hrq by (first [done|repeat constructor]). done. }
  destruct (execute_serving uuid mg ctx (session_id c) p stid stmt w u rd w' s rq resp)
    as (s1 & Hrun & Hs1); [done..|].
  assert (statement_call c_char_signed (mkGrainliftStatement c stid) method.EXECUTE s = (Ok resp, s1)) as Hcall.
  { unfold statement_call, request_of. simpl. rewrite Hrq. unfold mlift, mbind, M_bind.
    unfold call, transport_call, client_for. rewrite Ht. unfold http_client, net, mmap_err, mbind, M_bind.
    simpl. unfold serve_unary.
    change (find_method method.EXECUTE (server_methods uuid system_now mg max_bind))
      with (Some (Unary statement_schema (execute uuid mg))). cbv iota.
    unfold mbind, M_bind. rewrite Hrun. done. }
  unfold statement_execute. unfold mbind at 1, M_bind at 1. rewrite Hcall.
  unfold reader_from_response. rewrite Hdec. unfold mlift, mbind at 1, M_bind at 1.
  unfold client_decode_schema. rewrite (decode_encode_schema (reader_schema rd)) by done.
  cbn [map_err]. unfold mbind at 1, M_bind at 1.
  cbn [er_result_id].
  eapply (reader_over_loopback uuid system_now mg max_bind ctx new_out); try done.
Qed.

(** Commit and rollback through the proxy are the native commit and
    rollback: the native connection sees exactly that call, the application sees
    its outcome, and a native error arrives as the wire carries it. *)
Theorem transactions_through_proxy c id p conn w s ack :
  principal mg (auth ctx) = Ok p → 0 ≤ mg_ttl mg → validate_handle id = Ok tt →
  transport c = Http → session_id c = id → ok_batch = Ok ack →
  client_decode ack = Ok (mkOkResponse true) → serving mg id p (has_connection conn w) s →
  (∀ r w', conn_commit conn w = (r, w') →
     ∃ s', connection_commit c_char_signed c s
           = (map_err (λ e, rpc_error c_char_signed (adbc_rpc_error e)) r, s')
       ∧ serving mg id p (has_connection conn w') s')
  ∧ (∀ r w', conn_rollback conn w = (r, w') →
     ∃ s', connection_rollback c_char_signed c s
           = (map_err (λ e, rpc_error c_char_signed (adbc_rpc_error e)) r, s')
       ∧ serving mg id p (has_connection conn w') s').
Proof.
  intros Hp Httl Hid Ht Hc Hack Hdec Hs. split; intros r w' Hop.
  - eapply (session_call_serving uuid system_now mg max_bind ctx new_out); [reflexivity| |done..].
    right. left.
  - eapply (session_call_serving uuid system_now mg max_bind ctx new_out); [reflexivity| |done..].
    right. right. left.
Qed.
End Main.

(** ** Examples *)

Section Example.
#[local] Existing Instance simple_core.
#[local] Existing Instance simple_fmt.
#[local] Existing Instance ref_arrow.
#[local] Existing Instance ref_ipc.
#[local] Existing Instance ref_files.
#[local] Existing Instance ref_options.
#[local] Existing Instance ref_backend.
#[local] Existing Instance ref_base64.
#[local] Existing Instance ref_hmac.
#[local] Existing Instance ref_rpc.
#[local] Existing Instance ref_struct.
#[local] Existing Instance ref_records.
#[local] Existing Instance ref_json_error.
#[local] Existing Instance ref_json_bind.
#[local] Existing Instance ref_json_result.

Definition fresh_out : @OutputCollector ref_rpc := ([], false).

#[local] Instance example_wire : RpcTransport :=
  loopback example_uuid example_clock example_manager 1000 alice fresh_out.

(** A session of [alice] with a statement and no result yet. *)
Definition statement_session : Session :=
  mkSession alice_principal "orders" (Mutex_new 0)
    (mkSessionResources (Mutex_new ref_conn)
       (Mutex_new {["s1" := mkStatementEntry (Mutex_new tt) ref_cancel]}) (Mutex_new ∅))
    1000 [] ref_cancel (ClientOptionPolicy_new false [] []) (Mutex_new ∅) (mkSessionLimits 4 2 2 2).

Definition statement_state : MState :=
  mkMState (mkGlobal result_items 30 0 [] [])
    (Mutex_new (mkSessionRegistry {["id-0" := 0%nat]} 0 ∅)) {[0%nat := (1%nat, statement_session)]} 1 false.

Definition remote : RemoteConnection := mkRemoteConnection Http "id-0" 1000.

Definition execute_answer : RecordBatch :=
  default (batch ReferenceService.session_request)
    (result_ok (execute_record "id-0" (reader_schema ref_reader) (response_limit alice))).

Lemma query_through_proxy_witness :
  match statement_execute true (mkGrainliftStatement remote "s1") statement_state with
  | (Ok r, s') => drain true remote 5 r s' = [Ok (example_rows 7); Ok (example_rows 8)]
  | (Err _, _) => False
  end.
Proof.
  pose proof (query_through_proxy example_uuid example_clock example_manager 1000 alice fresh_out true
    remote "id-0" alice_principal "s1" tt result_items 0 ref_reader result_items statement_state
    execute_answer [example_rows 7; example_rows 8] EndOfStream 5) as Hq.
  assert (let (r0, s') := statement_execute true (mkGrainliftStatement remote "s1") statement_state in
    match r0 with
    | Ok r =>
        rr_schema r = reader_schema ref_reader
        ∧ drain true remote 5 r s' = items_of [example_rows 7; example_rows 8] (end_of true EndOfStream)
    | Err e => [example_rows 7; example_rows 8] = [] ∧ end_of true EndOfStream = FailedWith e
    end) as Hm.
  { apply Hq; try reflexivity.
    - vm_compute. discriminate.
    - split; [reflexivity..|]. exists 0%nat, 0%nat, statement_session, 0.
      repeat split; try reflexivity. by exists ref_cancel.
    - eapply yields_batch; [reflexivity|]. eapply yields_batch; [reflexivity|].
      eapply yields_end. reflexivity.
    - vm_compute. discriminate.
    - apply Nat.ltb_lt. reflexivity. }
  revert Hm. match goal with |- match ?m with _ => _ end → _ => destruct m as [[r|e] s'] end.
  - intros [_ Hd]. exact Hd.
  - intros [Hm _]. discriminate Hm.
Defined.

Definition ok_answer : RecordBatch := default (batch ReferenceService.session_request) (result_ok ok_batch).

Lemma transactions_through_proxy_witness :
  (connection_commit true remote statement_state).1 = Ok tt.
Proof.
  destruct (transactions_through_proxy example_uuid example_clock example_manager 1000 alice fresh_out
    true remote "id-0" alice_principal ref_conn result_items statement_state ok_answer) as [Hc _].
  - reflexivity.
  - vm_compute. discriminate.
  - reflexivity.
  - reflexivity.
  - reflexivity.
  - vm_compute. reflexivity.
  - vm_compute. reflexivity.
  - split; [reflexivity..|]. by exists 0%nat, 0%nat, statement_session, 0.
  - destruct (Hc (Ok tt) result_items) as (s' & Hs' & _); [reflexivity|]. exact (f_equal fst Hs').
Defined.
End Example.
