(* ===== verification/BindEndToEnd.v ===== *)
(** * Binding through the proxy

    The driver's bind exchange over the [loopback] transport: the turns the driver
    sends, the upload that stages them on the server, and the native bind at the
    end of it. *)

From S2P Require Import Prelude Adbc WireError Options Arrow Framing Envelope Partitions.
From S2P Require Import Config Backend ResultCursor BindUpload Session SessionSteps Manager.
From S2P Require Import ManagerSteps Rpc Service ServiceSteps Streaming.
From S2P Require Import Reference ReferenceIpc ReferenceBackend ReferenceRpc ReferenceService.
From S2P Require Import ClientOptions Client ClientTheorems EndToEnd.

(** ** The session *)

Section SessionSide.
Context `{AdbcCore} `{RustFmt} `{ArrowCrate} `{!IpcCrate} `{FileSystem} `{AdbcOptions} `{!Backend}.
Context (uuid : nat → string).

(** The statement [stid] is registered as [stmt] and the uploads are [ups]. *)
Definition binding (stid : string) (stmt : Stmt) (w : World) (ups : gmap string BindUploadEntry)
  : SessionView := λ g l r m,
  g_world g = w ∧ mx_poisoned (statements r) = false
  ∧ (∃ cancel, mx_data (statements r) !! stid = Some (mkStatementEntry (Mutex_new stmt) cancel))
  ∧ m = Mutex_new ups.

(** What a successful finish calls on the native statement. *)
Definition bound (mode : BindMode) (stmt : Stmt) (r : result AdbcError StagedReader)
  : M World AdbcError unit :=
  reader ← mlift r;
  match mode with
  | Batch => batch ← mlift (single_batch reader); stmt_bind stmt batch
  | Stream => stmt_bind_stream stmt reader
  end.

(** The native bind of [batches]. *)
Definition natively (mode : BindMode) (stmt : Stmt) (batches : list RecordBatch) (w : World)
    (r : result AdbcError unit) (w' : World) : Prop :=
  match mode with
  | Batch => ∃ b, batches = [b] ∧ stmt_bind stmt b w = (r, w')
  | Stream => stmt_bind_stream stmt (Ok <$> batches) w = (r, w')
  end.

Lemma bound_natively mode stmt batches w r w' :
  bound mode stmt (Ok (Ok <$> batches)) w = (r, w') →
  natively mode stmt batches w r w' ∨ w' = w ∧ ∃ e, r = Err e.
Proof.
  unfold bound, mlift, mbind, M_bind. destruct mode; [|by left].
  destruct batches as [|b [|b' batches]]; simpl; [intros [= <- <-]; right; eauto| |intros [= <- <-]; right; eauto].
  intros Hb. left. by exists b.
Qed.

Lemma set_uploads_ready stid stmt w ups ups' st :
  ready (binding stid stmt w ups) st →
  ready (binding stid stmt w ups') (set_uploads ups' st) ∧ same_session st (set_uploads ups' st).
Proof.
  intros (Ho & Hb & Hw & Hp & Hst & Hm). unfold ready, binding, same_session, set_uploads. simpl.
  split; [split_and!|]; try done. by rewrite Hm.
Qed.

Lemma cancel_ready stid stmt w ups uid st :
  ready (binding stid stmt w ups) st →
  ∃ st', cancel_bind_upload uid st = st' ∧ ready (binding stid stmt w (delete uid ups)) st'
    ∧ same_session st st'.
Proof.
  intros Hr. eexists. split; [done|]. pose proof Hr as (_ & _ & _ & _ & _ & Hm).
  unfold cancel_bind_upload, lock. rewrite Hm. simpl. by eapply set_uploads_ready.
Qed.

(** A new upload, when its worker starts. *)
Definition started (stid : string) (mode : BindMode) (ups : gmap string BindUploadEntry) (uid : string)
    (r : result AdbcError BindUpload) : gmap string BindUploadEntry :=
  match r with Ok upload => <[uid := mkBindUploadEntry stid mode upload]> ups | Err _ => ups end.

Lemma start_ready stid stmt w ups u spawns mode schema limit st :
  ready (λ g l r m, binding stid stmt w ups g l r m ∧ g_uuids g = u ∧ g_spawns g = spawns) st →
  let r := upload_start (default (Ok tt) (head spawns)) schema limit in
  ∃ st', start_bind_upload uuid stid mode schema limit st = ((λ _, uuid u) <$> r, st')
    ∧ ready (binding stid stmt w (started stid mode ups (uuid u) r)) st' ∧ same_session st st'.
Proof.
  intros (Ho & Hb & (Hw & Hp & (cancel & Hst) & Hm) & Hu & Hs). cbv zeta.
  unfold start_bind_upload, lock_statements_now, session_statements, lock, mbind, M_bind. rewrite Hp, Hst.
  rewrite bool_decide_eq_false_2 by done. unfold op_spawn. rewrite Hs.
  destruct spawns as [|sp spawns]; cbn -[upload_start]; unfold mlift;
    (match goal with |- context [upload_start ?sp schema limit] =>
       destruct (upload_start sp schema limit) as [upload|e] end; simpl;
      [unfold op_uuid, lock_uploads, lock; simpl; rewrite Hm; simpl|]);
    (eexists; split; [by rewrite ?Hu|]); unfold ready, binding, same_session; simpl;
    rewrite ?Hm, ?Hu; split_and!; eauto.
Qed.

Lemma push_ready stid stmt w ups uid mode upload b st :
  ready (binding stid stmt w (<[uid := mkBindUploadEntry stid mode upload]> ups)) st →
  ∃ st', push_bind_upload uid b st = ((push upload b).1, st')
    ∧ ready (binding stid stmt w (<[uid := mkBindUploadEntry stid mode (push upload b).2]> ups)) st'
    ∧ same_session st st'.
Proof.
  intros Hr. pose proof Hr as (_ & _ & _ & _ & _ & Hm).
  unfold push_bind_upload, lock_uploads, lock, mbind, M_bind. rewrite Hm. simpl. rewrite lookup_insert_eq. simpl.
  unfold mlift, push_entry. simpl. destruct (push upload b) as [r upload']. eexists. split; [done|].
  rewrite insert_insert_eq. by eapply set_uploads_ready.
Qed.

Lemma finish_ready stid stmt w ups uid mode upload r w' st :
  ups !! uid = None →
  ready (binding stid stmt w (<[uid := mkBindUploadEntry stid mode upload]> ups)) st →
  bound mode stmt (BindUpload.finish upload) w = (r, w') →
  ∃ st', finish_bind_upload uid st = (r, st') ∧ ready (binding stid stmt w' ups) st' ∧ same_session st st'.
Proof.
  intros Hnone Hr Hbound. pose proof Hr as (_ & _ & _ & _ & _ & Hm).
  unfold finish_bind_upload, lock_uploads, lock, mbind, M_bind. rewrite Hm. simpl. rewrite lookup_insert_eq. simpl.
  unfold mlift, mmodify. rewrite delete_insert_id by done.
  destruct (set_uploads_ready _ _ _ _ ups _ Hr) as [(Ho & Hb & Hw & Hp & (cancel & Hst) & Hm') Hsame].
  set (st1 := set_uploads ups st) in *. clearbody st1.
  assert (∀ (op : Stmt → M World AdbcError unit) r w', op stmt w = (r, w') →
    ∃ st', with_statement stid op st1 = (r, st') ∧ ready (binding stid stmt w' ups) st' ∧ same_session st st') as Hrun.
  { intros op r1 w1 Hop. unfold with_statement. rewrite call_replied by done.
    unfold statement_job, lock_statements, lock, on_world, mbind, M_bind, mlift. simpl. rewrite Hp, Hst. simpl.
    rewrite Hw, Hop. eexists. split; [done|]. unfold ready, binding, same_session. simpl. split_and!; eauto; apply Hsame. }
  unfold bound, mbind, M_bind, mlift in Hbound. destruct (BindUpload.finish upload) as [reader|e].
  - destruct mode; [|exact (Hrun (λ s, stmt_bind_stream s reader) _ _ Hbound)].
    destruct (single_batch reader) as [b|e]; [exact (Hrun (λ s, stmt_bind s b) _ _ Hbound)|].
    injection Hbound as <- <-. exists st1. unfold ready, binding. split_and!; eauto.
  - injection Hbound as <- <-. exists st1. unfold ready, binding. split_and!; eauto.
Qed.
End SessionSide.

(** ** The server *)

Section ServerSide.
Context `{AdbcCore} `{RustFmt} `{ArrowCrate} `{!IpcCrate} `{FileSystem} `{AdbcOptions} `{!Backend}.
Context `{Base64} `{Hmac} `{VgiRpc} `{!StructCrate} `{!WireRecords}.
Context `{!Json WireAdbcError} `{!Json BindCursor} `{!Json ResultCursor}.
Context (uuid : nat → string) (mg : Manager) (ctx : CallContext).

(** A request on the session of its caller, whatever it does with the reference,
    as long as that is one operation of the session. *)
Lemma by_id_serving {A B} id p P Q s (op : M SState AdbcError A) r (f : nat → M MState RpcError B) rb :
  principal mg (auth ctx) = Ok p → 0 ≤ mg_ttl mg → serving mg id p P s →
  (∀ st, ready P st → ∃ st', op st = (r, st') ∧ ready Q st' ∧ same_session st st') →
  (∀ a s1 s2, on_session a op s1 = (r, s2) → f a s1 = (rb, s2)) →
  ∃ s', (a ← session_by_id mg id ctx; releasing a (f a)) s = (rb, s') ∧ serving mg id p Q s'.
Proof.
  intros Hp Httl Hs Hop Hf.
  destruct (serving_via uuid mg id p P Q s op r Httl Hs Hop) as (a & s1 & s2 & Hget & Hon & Hs').
  exists (drop_arc a s2). split; [|done]. unfold session_by_id. rewrite Hp.
  unfold mbind, M_bind, mlift, adbc, mmap_err. rewrite Hget. cbn [map_err]. unfold releasing.
  by rewrite (Hf _ _ _ Hon).
Qed.

(** An operation that gives the upload up when it fails. *)
Definition or_cancel {A} (uid : string) (op : M SState AdbcError A) : M SState AdbcError A := λ st,
  match op st with
  | (Ok v, st) => (Ok v, st)
  | (Err e, st) => (Err e, cancel_bind_upload uid st)
  end.

Lemma cancelling_via {A} a uid (op : M SState AdbcError A) s :
  cancelling a uid (via a op) s
  = let '(r, s') := on_session a (or_cancel uid op) s in (map_err adbc_rpc_error r, s').
Proof.
  unfold cancelling, via, adbc, mmap_err, on_session, or_cancel.
  destruct (m_heap s !! a) as [[n x]|] eqn:Hx; simpl; [|by rewrite Hx].
  destruct (op (mkSState (m_global s) x)) as [[v|e] st]; simpl; [done|].
  rewrite lookup_insert_eq. simpl. destruct st as [g y]. simpl. by rewrite insert_insert_eq.
Qed.

Section Turn.
Context (id p uid stid : string) (stmt : Stmt) (mode : BindMode) (ups : gmap string BindUploadEntry) (limit : Z).
Context (out : OutputCollector) (ack : RecordBatch).
Hypothesis Hp : principal mg (auth ctx) = Ok p.
Hypothesis Httl : 0 ≤ mg_ttl mg.
Hypothesis Hfree : ups !! uid = None.
Hypothesis Hack : bind_ack = Ok ack.
Hypothesis Hemit : is_ok (emit out ack) = true.

Definition uploading (upload : BindUpload) (w : World) : SessionView :=
  binding stid stmt w (<[uid := mkBindUploadEntry stid mode upload]> ups).
Definition cursor : BindCursor := mkBindCursor id uid limit.
Definition decoded (turn : RecordBatch) : result ProtocolError (option RecordBatch) :=
  decode_bind_turn turn (Z.min limit MAX_CONTROL_BYTES).

Lemma cancel_uploading upload w st :
  ready (uploading upload w) st →
  ∃ st', cancel_bind_upload uid st = st' ∧ ready (binding stid stmt w ups) st' ∧ same_session st st'.
Proof.
  intros (st' & Hc & Hr & Hsame)%(cancel_ready _ _ _ _ uid). exists st'.
  rewrite delete_insert_id in Hr by done. done.
Qed.

(** A turn that cannot be decoded ends the upload. *)
Lemma bad_turn_serving turn e upload w s :
  decoded turn = Err e → serving mg id p (uploading upload w) s →
  ∃ s', exchange mg cursor turn out ctx s = (Err (protocol_rpc_error e), s')
    ∧ serving mg id p (binding stid stmt w ups) s'.
Proof.
  intros Hd Hs. unfold exchange. cbn [bc_session_id bc_upload_id bc_max_bytes cursor].
  apply (by_id_serving id p _ _ s (mmodify (cancel_bind_upload uid)) (Ok tt) _ _ Hp Httl Hs).
  - intros st (st' & Hc & Hr)%cancel_uploading. exists st'. split; [|done]. unfold mmodify. by rewrite Hc.
  - intros a s1 s2 Hon. unfold decoded in Hd. rewrite Hd. unfold mbind, M_bind, cancelling, mlift.
    cbn [map_err]. by rewrite Hon.
Qed.

(** A turn with a batch pushes it. *)
Lemma batch_turn_serving turn b upload w s :
  decoded turn = Ok (Some b) → serving mg id p (uploading upload w) s →
  ∃ s', match (push upload b).1 with
        | Ok _ =>
            (∃ out', emit out ack = Ok out' ∧ exchange mg cursor turn out ctx s = (Ok out', s'))
            ∧ serving mg id p (uploading (push upload b).2 w) s'
        | Err e =>
            exchange mg cursor turn out ctx s = (Err (adbc_rpc_error e), s')
            ∧ serving mg id p (binding stid stmt w ups) s'
        end.
Proof.
  intros Hd Hs. destruct (emit out ack) as [out'|] eqn:Hout; [|done].
  set (Q := match (push upload b).1 with Ok _ => uploading (push upload b).2 w | Err _ => binding stid stmt w ups end).
  destruct (by_id_serving id p (uploading upload w) Q s (or_cancel uid (push_bind_upload uid b)) (push upload b).1
    (λ a, turn ← cancelling a uid (mlift (map_err protocol_rpc_error (decode_bind_turn turn (Z.min limit MAX_CONTROL_BYTES))));
      match turn with
      | Some b => cancelling a uid (via a (push_bind_upload uid b));; ack ← mlift bind_ack; mlift (emit out ack)
      | None => via a (finish_bind_upload uid);; ack ← mlift bind_ack; out ← mlift (emit out ack); mret (out_finish out)
      end)
    (match (push upload b).1 with Ok _ => Ok out' | Err e => Err (adbc_rpc_error e) end) Hp Httl Hs)
    as (s' & Hrun & Hs').
  - intros st Hst. unfold or_cancel. destruct (push_ready _ _ _ _ _ _ _ b _ Hst) as (st' & Hpush & Hr & Hsame).
    rewrite Hpush. unfold Q. destruct (push upload b) as [[[]|e] upload']; cbn [fst snd] in *; [eauto|].
    destruct (cancel_uploading _ _ _ Hr) as (st2 & Hc & Hr2 & Hsame2). rewrite Hc. exists st2.
    split_and!; [done..|]. unfold same_session in *. naive_solver congruence.
  - intros a s1 s2 Hon. unfold decoded in Hd. rewrite Hd. unfold mbind, M_bind, cancelling at 1, mlift.
    cbn [map_err]. rewrite cancelling_via, Hon. destruct (push upload b).1; cbn [map_err]; [|done].
    by rewrite Hack, Hout.
  - exists s'. unfold Q in Hs'. unfold exchange. cbn [bc_session_id bc_upload_id bc_max_bytes cursor].
    destruct (push upload b).1; [|done]. split; [|done]. by exists out'.
Qed.

(** The finishing turn binds what was staged. *)
Lemma finish_turn_serving turn upload w r w' s :
  decoded turn = Ok None → serving mg id p (uploading upload w) s →
  bound mode stmt (BindUpload.finish upload) w = (r, w') →
  ∃ s', match r with
        | Ok _ => ∃ out', emit out ack = Ok out' ∧ exchange mg cursor turn out ctx s = (Ok (out_finish out'), s')
        | Err e => exchange mg cursor turn out ctx s = (Err (adbc_rpc_error e), s')
        end ∧ serving mg id p (binding stid stmt w' ups) s'.
Proof.
  intros Hd Hs Hbound. destruct (emit out ack) as [out'|] eqn:Hout; [|done].
  destruct (by_id_serving id p (uploading upload w) (binding stid stmt w' ups) s (finish_bind_upload uid) r
    (λ a, turn ← cancelling a uid (mlift (map_err protocol_rpc_error (decode_bind_turn turn (Z.min limit MAX_CONTROL_BYTES))));
      match turn with
      | Some b => cancelling a uid (via a (push_bind_upload uid b));; ack ← mlift bind_ack; mlift (emit out ack)
      | None => via a (finish_bind_upload uid);; ack ← mlift bind_ack; out ← mlift (emit out ack); mret (out_finish out)
      end)
    (match r with Ok _ => Ok (out_finish out') | Err e => Err (adbc_rpc_error e) end) Hp Httl Hs)
    as (s' & Hrun & Hs').
  - intros st Hst. by eapply finish_ready.
  - intros a s1 s2 Hon. unfold decoded in Hd. rewrite Hd. unfold mbind, M_bind, cancelling at 1, mlift.
    cbn [map_err]. unfold via, adbc, mmap_err. rewrite Hon. destruct r; cbn [map_err]; [|done].
    by rewrite Hack, Hout.
  - exists s'. split; [|done]. unfold exchange. cbn [bc_session_id bc_upload_id bc_max_bytes cursor].
    destruct r; [|done]. by exists out'.
Qed.

Lemma cancel_serving upload w s :
  serving mg id p (uploading upload w) s ∨ serving mg id p (binding stid stmt w ups) s →
  serving mg id p (binding stid stmt w ups) (exchange_on_cancel mg cursor ctx s).2.
Proof.
  assert (∀ P, (∀ st, ready P st →
      ∃ st', cancel_bind_upload uid st = st' ∧ ready (binding stid stmt w ups) st' ∧ same_session st st') →
    serving mg id p P s → serving mg id p (binding stid stmt w ups) (exchange_on_cancel mg cursor ctx s).2) as Hgen.
  { intros P Hc Hs. destruct (by_id_serving id p P (binding stid stmt w ups) s (mmodify (cancel_bind_upload uid)) (Ok tt)
      (λ a, via a (mmodify (cancel_bind_upload uid))) (Ok tt) Hp Httl Hs) as (s' & Hrun & Hs').
    - intros st (st' & Hst & Hr)%Hc. exists st'. split; [|done]. unfold mmodify. by rewrite Hst.
    - intros a s1 s2 Hon. unfold via, adbc, mmap_err. by rewrite Hon.
    - unfold exchange_on_cancel, quietly. cbn [bc_session_id bc_upload_id cursor].
      revert Hrun. match goal with |- ?m = _ → _ => intros -> end. done. }
  intros [Hs|Hs]; (eapply Hgen; [|exact Hs]); [intros st; apply cancel_uploading|].
  intros st (st' & Hc & Hr & Hsame)%(cancel_ready _ _ _ _ uid). exists st'.
  by rewrite delete_id in Hr.
Qed.
End Turn.
End ServerSide.

(** ** The driver *)

Section ClientSide.
Context `{AdbcCore} `{RustFmt} `{ArrowCrate} `{!IpcCrate} `{FileSystem} `{AdbcOptions} `{!Backend}.
Context `{Base64} `{Hmac} `{VgiRpc} `{!StructCrate} `{!WireRecords}.
Context `{!Json WireAdbcError} `{!Json BindCursor} `{!Json ResultCursor}.
Context (uuid : nat → string) (system_now : Global → nat → Z) (mg : Manager) (max_bind : Z).
Context (ctx : CallContext) (new_out : OutputCollector) (c_char_signed : bool).
#[local] Instance bind_wire : RpcTransport := loopback uuid system_now mg max_bind ctx new_out.

(** However a turn is bounded when it is read, it is the turn that was sent. *)
Lemma decode_encoded_turn batch limit limit' turn t :
  0 ≤ limit ≤ i64_max → encode_bind_turn batch limit = Ok turn → decode_bind_turn turn limit' = Ok t →
  t = batch.
Proof.
  intros Hl He Hd. unfold encode_bind_turn in He. apply result_bind_Ok in He as (payload & Hp & He).
  apply map_err_Ok in He. rewrite try_new_row in He by (first [done | repeat constructor]). injection He as <-.
  unfold decode_bind_turn in Hd. apply result_bind_unit_Ok in Hd as [_ Hd].
  rewrite bool_decide_eq_false_2 in Hd by (by intros []).
  assert (batch_binary_value (mkRecordBatch bind_turn_schema
    [BinaryArray [Some payload]; BooleanArray [Some (bool_decide (batch = None))]] 1) "batch_ipc"
    = Ok payload) as Hb by done.
  rewrite Hb in Hd. destruct batch as [batch|]; cbn in Hd.
  - apply encode_batch_ipc_Ok in Hp as (_ & He & Hlen); [|lia].
    apply result_fmap_Ok in Hd as (b & Hd & ->). apply decode_batch_ipc_Ok in Hd as (_ & _ & Hr & _).
    + apply stream_reads in He. rewrite He in Hr. by injection Hr as ->.
    + unfold slice_ok. lia.
  - injection Hp as <-. by injection Hd as <-.
Qed.

Lemma bind_cursor_token c t :
  to_json c = Ok t →
  exchange_encode_state c = Ok (as_bytes t) ∧ from_bytes (as_bytes t) = t
  ∧ exchange_decode_state (as_bytes t) = Ok c.
Proof.
  intros Hj. unfold exchange_encode_state, exchange_decode_state. rewrite Hj. simpl.
  unfold from_bytes, as_bytes. rewrite String.string_of_list_byte_of_string.
  by rewrite (from_to_json _ _ Hj).
Qed.

(** A native error as the application sees it. *)
Definition seen_as {A} (r : result AdbcError A) : result AdbcError A :=
  map_err (λ e, rpc_error c_char_signed (adbc_rpc_error e)) r.

Section Exchange.
Context (id p uid stid token : string) (stmt : Stmt) (mode : BindMode) (ups : gmap string BindUploadEntry).
Context (schema : Schema) (w : World) (ack : RecordBatch) (client_max turn_limit : Z).
Hypothesis Hp : principal mg (auth ctx) = Ok p.
Hypothesis Httl : 0 ≤ mg_ttl mg.
Hypothesis Hfree : ups !! uid = None.
Hypothesis Hnew : emitted new_out = [].
Hypothesis Hemit : ∀ b, is_ok (emit new_out b) = true.
Hypothesis Hack : bind_ack = Ok ack.
Hypothesis Haccepted : validate_bind_ack ack = Ok tt.
Hypothesis Htoken : exchange_decode_state (as_bytes token) = Ok (cursor id uid max_bind).
Hypothesis Hmax : max_bind < usize_max.
Hypothesis Hlimit : 0 ≤ turn_limit ≤ i64_max.

Abbreviation Uploading upload := (uploading uid stid stmt mode ups upload w).
Abbreviation Closed w := (binding stid stmt w ups).

(** How the exchange can leave the session: the native bind ran with all the
    batches and its outcome is known, or it did not run. *)
Definition exchanged (batches : list RecordBatch) (r : result AdbcError unit) (s : MState) : Prop :=
  (∃ native w', natively mode stmt batches w native w' ∧ r = seen_as native
     ∧ serving mg id p (Closed w') s)
  ∨ (∃ e, r = Err e) ∧ (serving mg id p (Closed w) s ∨ ∃ upload, serving mg id p (Uploading upload) s).

(** One turn over the wire. *)
Lemma send_turn_batch upload b turn pushed s :
  encode_bind_turn (Some b) turn_limit = Ok turn → serving mg id p (Uploading upload) s →
  upload_inv schema upload pushed → BindUpload.max_bytes upload = max_bind →
  ∃ r s', send_turn c_char_signed token turn s = (r, s')
    ∧ match r with
      | Ok _ => ∃ upload', serving mg id p (Uploading upload') s' ∧ upload_inv schema upload' (pushed ++ [b])
                  ∧ BindUpload.max_bytes upload' = max_bind
      | Err _ => serving mg id p (Closed w) s'
      end.
Proof.
  intros He Hs Hinv Hm. unfold send_turn, net, mmap_err. simpl. unfold serve_exchange. rewrite Htoken.
  destruct (decoded max_bind turn) as [t|e] eqn:Hd.
  - assert (t = Some b) as -> by (by eapply decode_encoded_turn).
    destruct (batch_turn_serving uuid mg ctx id p uid stid stmt mode ups max_bind new_out ack Hp Httl Hfree Hack
      (Hemit ack) turn b upload w s Hd Hs) as (s' & Hturn).
    unfold mbind, M_bind, mlift. destruct (push upload b) as [[[]|e] upload'] eqn:Hpush; cbn [fst snd] in Hturn.
    + destruct Hturn as [(out' & [Hout _]%emit_emitted & ->) Hs']. rewrite Hout, Hnew. cbn.
      exists (Ok tt), s'. split; [by rewrite Haccepted|]. exists upload'. split; [done|].
      destruct (push_inv _ _ _ _ _ Hinv Hpush) as [? ->]. done.
    + destruct Hturn as [-> Hs']. cbn. by eexists _, _.
  - destruct (bad_turn_serving uuid mg ctx id p uid stid stmt mode ups max_bind new_out Hp Httl Hfree
      turn e upload w s Hd Hs) as (s' & Hturn & Hs').
    unfold mbind, M_bind, mlift. rewrite Hturn. cbn. by eexists _, _.
Qed.

Lemma send_turn_finish upload turn batches s :
  encode_bind_turn None turn_limit = Ok turn → serving mg id p (Uploading upload) s →
  upload_inv schema upload batches → BindUpload.max_bytes upload = max_bind →
  let '(r, s') := send_turn c_char_signed token turn s in exchanged batches r s'.
Proof.
  intros He Hs Hinv Hm. unfold send_turn, net, mmap_err. simpl. unfold serve_exchange. rewrite Htoken.
  unfold mbind, M_bind, mlift. destruct (decoded max_bind turn) as [t|e] eqn:Hd.
  - assert (t = None) as -> by (by eapply decode_encoded_turn).
    destruct (bound mode stmt (BindUpload.finish upload) w) as [r w'] eqn:Hb.
    destruct (finish_turn_serving uuid mg ctx id p uid stid stmt mode ups max_bind new_out ack Hp Httl Hfree Hack
      (Hemit ack) turn upload w r w' s Hd Hs Hb) as (s' & Hturn & Hs').
    assert (natively mode stmt batches w r w' ∨ w' = w ∧ ∃ e, r = Err e) as Hnative.
    { destruct (BindUpload.finish upload) as [reader|e] eqn:Hf.
      - destruct (finish_reads _ _ _ _ Hinv ltac:(lia) Hf) as [-> _]. by apply bound_natively.
      - right. unfold bound, mlift, mbind, M_bind in Hb. injection Hb as <- <-. eauto. }
    destruct r as [[]|e].
    + destruct Hturn as (out' & [Hout _]%emit_emitted & ->).
      rewrite (proj1 (out_finish_emitted out')), Hout, Hnew. cbn. rewrite Haccepted.
      destruct Hnative as [Hn|(_ & e & [=])]. left. by exists (Ok tt), w'.
    + rewrite Hturn. cbn. destruct Hnative as [Hn|(-> & _)].
      * left. by exists (Err e), w'.
      * right. split; [eauto|by left].
  - destruct (bad_turn_serving uuid mg ctx id p uid stid stmt mode ups max_bind new_out Hp Httl Hfree
      turn e upload w s Hd Hs) as (s' & Hturn & Hs').
    rewrite Hturn. cbn. right. split; [eauto|by left].
Qed.

(** The loop of the driver. *)
Lemma send_batches_exchanged items logical encoded upload pushed s :
  serving mg id p (Uploading upload) s → upload_inv schema upload pushed →
  BindUpload.max_bytes upload = max_bind →
  let '(r, s') := send_batches c_char_signed token client_max turn_limit logical encoded items s in
  (∃ batches, items = Ok <$> batches ∧ exchanged (pushed ++ batches) r s')
  ∨ (∃ e, r = Err e) ∧ (serving mg id p (Closed w) s' ∨ ∃ upload, serving mg id p (Uploading upload) s').
Proof.
  revert logical encoded upload pushed s. induction items as [|item items IH]; intros logical encoded upload pushed s Hs Hinv Hm;
    cbn [send_batches]; unfold mbind, M_bind, mlift.
  - destruct (encode_bind_turn None turn_limit) as [turn|e] eqn:He; cbn [map_err].
    + pose proof (send_turn_finish upload turn pushed s He Hs Hinv Hm) as Hfin.
      destruct (send_turn _ _ _ _) as [r s']. left. exists []. by rewrite app_nil_r.
    + right. split; [eauto|by right; exists upload].
  - destruct (bind_turn_of client_max turn_limit logical encoded item) as [[[turn logical'] encoded']|e] eqn:Ht.
    + apply bind_turn_of_Ok in Ht as (b & -> & He & _).
      destruct (send_turn_batch upload b turn pushed s He Hs Hinv Hm) as (r & s1 & -> & Hr).
      destruct r as [u|e]; [|right; split; [eauto|by left]].
      destruct Hr as (upload' & Hs1 & Hinv' & Hm'). specialize (IH logical' encoded' upload' (pushed ++ [b]) s1 Hs1 Hinv' Hm').
      destruct (send_batches _ _ _ _ _ _ _ _) as [r s']. destruct IH as [(batches & -> & Hx)|IH]; [left|by right].
      exists (b :: batches). split; [done|]. by rewrite <-(assoc_L (++)) in Hx.
    + right. split; [eauto|by right; exists upload].
Qed.
End Exchange.
End ClientSide.

(** ** The whole bind *)

Section Whole.
Context `{AdbcCore} `{RustFmt} `{ArrowCrate} `{!IpcCrate} `{FileSystem} `{AdbcOptions} `{!Backend}.
Context `{Base64} `{Hmac} `{VgiRpc} `{!StructCrate} `{!WireRecords}.
Context `{!Json WireAdbcError} `{!Json BindCursor} `{!Json ResultCursor}.
Context (uuid : nat → string) (system_now : Global → nat → Z) (mg : Manager) (max_bind : Z).
Context (ctx : CallContext) (new_out : OutputCollector) (c_char_signed : bool).
#[local] Instance whole_wire : RpcTransport := loopback uuid system_now mg max_bind ctx new_out.

Definition ack_batch : RecordBatch := mkRecordBatch empty_response_schema [BooleanArray [Some true]] 1.

Lemma bind_ack_Ok : bind_ack = Ok ack_batch.
Proof. unfold bind_ack. by rewrite try_new_row by (first [done|repeat constructor]). Qed.

Lemma ack_accepted : validate_bind_ack ack_batch = Ok tt.
Proof.
  unfold validate_bind_ack, ack_batch. cbn [rb_fields num_rows].
  rewrite bool_decide_eq_true_2 by done. cbn. by rewrite bool_decide_eq_true_2.
Qed.

(** The methods and how their uploads are bound. *)
Definition bind_method (mode : BindMode) : string :=
  match mode with Batch => method.BIND | Stream => method.BIND_STREAM end.

Lemma bind_method_registered mode :
  find_method (bind_method mode) (server_methods uuid system_now mg max_bind)
  = Some (Streaming bind_init_schema (bind_exchange uuid mg mode max_bind)).
Proof. by destruct mode. Qed.

(** Opening the exchange starts an upload. *)
Lemma open_exchange_serving mode id p stid stmt w ups u spawns schema schema_ipc rq s :
  principal mg (auth ctx) = Ok p → 0 ≤ mg_ttl mg →
  (∀ cursor, is_ok (to_json (T := BindCursor) cursor) = true) →
  validate_handle id = Ok tt → validate_handle stid = Ok tt →
  encode_schema schema = Ok schema_ipc → bind_init_request id stid schema_ipc = Ok rq →
  serving mg id p (λ g l r m, binding stid stmt w ups g l r m ∧ g_uuids g = u ∧ g_spawns g = spawns) s →
  let r := upload_start (default (Ok tt) (head spawns)) schema max_bind in
  ∃ s', serving mg id p (binding stid stmt w (started stid mode ups (uuid u) r)) s'
    ∧ match r with
      | Ok _ => ∃ token,
          open_exchange (bind_method mode) rq s = (Ok token, s')
          ∧ exchange_decode_state (as_bytes token) = Ok (mkBindCursor id (uuid u) max_bind)
      | Err e => ∃ e', open_exchange (bind_method mode) rq s = (Err e', s')
      end.
Proof.
  intros Hp Httl Hjson Hid Hstid Hsch Hrq Hs. cbv zeta.
  apply built_request in Hrq; [subst rq|done|repeat constructor].
  destruct (serving_via uuid mg id p _ _ s (start_bind_upload uuid stid mode schema max_bind) _ Httl Hs
    (λ st Hst, start_ready uuid stid stmt w ups u spawns mode schema max_bind st Hst))
    as (a & s1 & s2 & Hget & Hon & Hs').
  exists (drop_arc a s2). split; [done|].
  assert (bind_exchange uuid mg mode max_bind (as_request (mkRecordBatch bind_init_schema
      [string_column id; string_column stid; binary_column schema_ipc] 1)) ctx s
    = (match upload_start (default (Ok tt) (head spawns)) schema max_bind with
       | Ok _ => Ok (ExchangeStream empty_response_schema bind_turn_schema (mkBindCursor id (uuid u) max_bind))
       | Err e => Err (adbc_rpc_error e)
       end, drop_arc a s2)) as Hx.
  { unfold bind_exchange, with_session, get_session.
    rewrite driver_version_accepted, Hp. rewrite (request_string_read _ "session_id" id) by done.
    unfold mbind, M_bind, mlift, adbc, mmap_err, mret, M_ret. rewrite Hget. cbn [map_err].
    unfold releasing. rewrite (request_string_read _ "statement_id" stid) by done.
    assert (request_binary (as_request (mkRecordBatch bind_init_schema
      [string_column id; string_column stid; binary_column schema_ipc] 1)) "schema_ipc" = Ok schema_ipc) as -> by done.
    rewrite (decode_encode_schema _ _ Hsch). cbn [map_err]. unfold via, adbc, mmap_err. rewrite Hon.
    by destruct (upload_start _ schema max_bind). }
  cbn [open_exchange whole_wire loopback]. unfold serve_open_exchange, serve_stream. rewrite bind_method_registered.
  unfold mbind, M_bind. rewrite Hx. destruct (upload_start _ schema max_bind) as [upload|e]; [|eauto].
  specialize (Hjson (mkBindCursor id (uuid u) max_bind)).
  destruct (to_json (mkBindCursor id (uuid u) max_bind)) as [t|] eqn:Ht; [|done].
  destruct (bind_cursor_token _ _ Ht) as (Henc & Hback & Hdec). rewrite Henc. cbn. rewrite Hback.
  exists t. by split.
Qed.

(** Either the native bind of exactly the given batches ran, once, and its
    outcome is the caller's, or nothing was bound and the caller has an error; in
    both cases no upload is left. *)
Definition bind_outcome (id p stid : string) (stmt : Stmt) (mode : BindMode) (w : World)
    (ups : gmap string BindUploadEntry) (items : list (result ArrowError RecordBatch))
    (r : result AdbcError unit) (s' : MState) : Prop :=
  (∃ batches native w', items = Ok <$> batches ∧ natively mode stmt batches w native w'
     ∧ r = seen_as c_char_signed native ∧ serving mg id p (binding stid stmt w' ups) s')
  ∨ (∃ e, r = Err e) ∧ serving mg id p (binding stid stmt w ups) s'.

Lemma bind_batches_outcome mode c id p stid stmt w ups schema items s :
  principal mg (auth ctx) = Ok p → 0 ≤ mg_ttl mg → max_bind < usize_max → 0 ≤ Client.max_bind_bytes c →
  emitted new_out = [] → (∀ b, is_ok (emit new_out b) = true) →
  (∀ cursor, is_ok (to_json (T := BindCursor) cursor) = true) →
  transport c = Http → session_id c = id → validate_handle id = Ok tt → validate_handle stid = Ok tt →
  ups !! uuid (g_uuids (m_global s)) = None →
  serving mg id p (binding stid stmt w ups) s →
  let '(r, s') := bind_batches c_char_signed c (bind_method mode) stid schema items s in
  bind_outcome id p stid stmt mode w ups items r s'.
Proof.
  intros Hp Httl Hmax Hcmax Hnew Hemit Hjson Ht <- Hid Hstid Hfree Hs.
  unfold bind_batches. destruct (encode_schema schema) as [schema_ipc|e] eqn:Hsch;
    unfold mbind, M_bind, mlift; cbn [map_err]; [|right; split; [eauto|done]].
  destruct (bind_init_request (session_id c) stid schema_ipc) as [rq|e] eqn:Hrq; [|right; split; [eauto|done]].
  unfold client_for. rewrite Ht. unfold http_client, net, mmap_err. cbn [build_client whole_wire loopback mret M_ret map_err].
  assert (serving mg (session_id c) p (λ g l r m, binding stid stmt w ups g l r m
    ∧ g_uuids g = g_uuids (m_global s) ∧ g_spawns g = g_spawns (m_global s)) s) as Hs0.
  { destruct Hs as [Hh Ho (a & n & x & t & ? & ? & ? & ? & ? & ? & ?)]. split; [done..|].
    exists a, n, x, t. by split_and!. }
  destruct (open_exchange_serving mode (session_id c) p stid stmt w ups _ _ schema schema_ipc rq s
    Hp Httl Hjson Hid Hstid Hsch Hrq Hs0) as (s1 & Hs1 & Hopen).
  change (λ s0 : MState, (Ok tt, s0)) with (mret tt : M MState RpcError unit).
  destruct (upload_start _ schema max_bind) as [upload|e] eqn:Hup.
  2:{ destruct Hopen as [e' Hopen]. cbn in Hopen |- *. rewrite Hopen. right. split; [eauto|done]. }
  destruct Hopen as (token & Hopen & Hdec). cbn in Hopen |- *. rewrite Hopen. cbn.
  assert (0 ≤ Z.min (Client.max_bind_bytes c) MAX_CONTROL_BYTES ≤ i64_max) as Hlim
    by (unfold MAX_CONTROL_BYTES, i64_max; lia).
  assert (BindUpload.max_bytes upload = max_bind) as Hmb by (unfold upload_start in Hup; by inv_ok).
  pose proof (send_batches_exchanged uuid system_now mg max_bind ctx new_out c_char_signed (session_id c) p
    (uuid (g_uuids (m_global s))) stid token stmt mode ups schema w ack_batch (Client.max_bind_bytes c)
    (Z.min (Client.max_bind_bytes c) MAX_CONTROL_BYTES) Hp Httl Hfree Hnew Hemit bind_ack_Ok ack_accepted
    Hdec Hmax Hlim items 0 0 upload [] s1 Hs1 (upload_start_inv _ _ _ _ Hup) Hmb) as Hloop.
  assert (∀ w2 s2, serving mg (session_id c) p (binding stid stmt w2 ups) s2
      ∨ (∃ upload, serving mg (session_id c) p
           (uploading (uuid (g_uuids (m_global s))) stid stmt mode ups upload w2) s2) →
    serving mg (session_id c) p (binding stid stmt w2 ups) (serve_cancel_exchange mg ctx token s2)) as Hcancel.
  { intros w2 s2 Hs2. unfold serve_cancel_exchange. rewrite Hdec.
    pose proof (cancel_serving uuid mg ctx (session_id c) p _ stid stmt mode ups max_bind Hp Httl Hfree) as Hc.
    destruct Hs2 as [Hs2|[upload' Hs2]]; [apply (Hc upload); by right|apply (Hc upload'); by left]. }
  unfold mprim. destruct (send_batches _ _ _ _ _ _ _ _) as [[[]|e] s']; unfold bind_outcome.
  - destruct Hloop as [(batches & -> & [(native & w' & Hn & Hr & Hs')|[[e [=]] _]])|[[e [=]] _]].
    left. by exists batches, native, w'.
  - destruct Hloop as [(batches & -> & [(native & w' & Hn & Hr & Hs')|[_ Hs']])|[_ Hs']].
    + left. exists batches, native, w'. split_and!; [done..|]. by apply Hcancel; left.
    + right. split; [eauto|by apply Hcancel].
    + right. split; [eauto|by apply Hcancel].
Qed.
End Whole.

(** ** Main theorem *)

Section Main.
Context `{AdbcCore} `{RustFmt} `{ArrowCrate} `{!IpcCrate} `{FileSystem} `{AdbcOptions} `{!Backend}.
Context `{Base64} `{Hmac} `{VgiRpc} `{!StructCrate} `{!WireRecords}.
Context `{!Json WireAdbcError} `{!Json BindCursor} `{!Json ResultCursor}.
Context (uuid : nat → string) (system_now : Global → nat → Z) (mg : Manager) (max_bind : Z).
Context (ctx : CallContext) (new_out : OutputCollector) (c_char_signed : bool).
#[local] Instance main_wire : RpcTransport := loopback uuid system_now mg max_bind ctx new_out.

(** C4: binding through the proxy is the native bind or none: over a transport
    that delivers, [bind] and [bind_stream] of the driver run the native bind at
    most once, with exactly the batches the application gave in their order, and
    report its outcome, a native error as the wire carries it; if the input, a
    limit, the staging or the encoding fails before that, the application gets an
    error and nothing is bound; in every case no upload is left on the server. *)
Theorem binds_through_proxy c id p stid stmt w ups s :
  principal mg (auth ctx) = Ok p → 0 ≤ mg_ttl mg → max_bind < usize_max → 0 ≤ Client.max_bind_bytes c →
  emitted new_out = [] → (∀ b, is_ok (emit new_out b) = true) →
  (∀ cursor, is_ok (to_json (T := BindCursor) cursor) = true) →
  transport c = Http → session_id c = id → validate_handle id = Ok tt → validate_handle stid = Ok tt →
  ups !! uuid (g_uuids (m_global s)) = None →
  serving mg id p (binding stid stmt w ups) s →
  (∀ schema items,
     let '(r, s') := statement_bind_stream c_char_signed (mkGrainliftStatement c stid) schema items s in
     (∃ batches native w', items = Ok <$> batches ∧ stmt_bind_stream stmt (Ok <$> batches) w = (native, w')
        ∧ r = map_err (λ e, rpc_error c_char_signed (adbc_rpc_error e)) native
        ∧ serving mg id p (binding stid stmt w' ups) s')
     ∨ (∃ e, r = Err e) ∧ serving mg id p (binding stid stmt w ups) s')
  ∧ (∀ batch,
     let '(r, s') := statement_bind c_char_signed (mkGrainliftStatement c stid) batch s in
     (∃ native w', stmt_bind stmt batch w = (native, w')
        ∧ r = map_err (λ e, rpc_error c_char_signed (adbc_rpc_error e)) native
        ∧ serving mg id p (binding stid stmt w' ups) s')
     ∨ (∃ e, r = Err e) ∧ serving mg id p (binding stid stmt w ups) s').
Proof.
  intros Hp Httl Hmax Hcmax Hnew Hemit Hjson Ht Hc Hid Hstid Hfree Hs. split.
  - intros schema items.
    exact (bind_batches_outcome uuid system_now mg max_bind ctx new_out c_char_signed Stream c id p stid stmt w ups
      schema items s Hp Httl Hmax Hcmax Hnew Hemit Hjson Ht Hc Hid Hstid Hfree Hs).
  - intros batch.
    pose proof (bind_batches_outcome uuid system_now mg max_bind ctx new_out c_char_signed Batch c id p stid stmt w ups
      (batch_schema batch) [Ok batch] s Hp Httl Hmax Hcmax Hnew Hemit Hjson Ht Hc Hid Hstid Hfree Hs) as Hb.
    change (bind_batches c_char_signed c (bind_method Batch) stid (batch_schema batch) [Ok batch])
      with (statement_bind c_char_signed (mkGrainliftStatement c stid) batch) in Hb. revert Hb.
    match goal with |- match ?m with _ => _ end → _ => destruct m as [r s'] end. unfold bind_outcome, natively.
    intros [(batches & native & w' & Hi & (b & -> & Hn) & Hr & Hs')|Hr]; [left|by right].
    simpl in Hi. injection Hi as <-. by exists native, w'.
Qed.
End Main.

(** ** Example *)

Section Example.
#[local] Existing Instance simple_core.
#[local] Existing Instance simple_fmt.
#[local] Existing Instance ref_arrow.
#[local] Existing Instance ref_ipc.
#[local] Existing Instance ref_files.
#[local] Existing Instance ref_options.
#[local] Existing Instance ref_backend.
#[local] Existing Instance ref_base64.
#[local] Existing Instance ref_hmac.
#[local] Existing Instance ref_rpc.
#[local] Existing Instance ref_struct.
#[local] Existing Instance ref_records.
#[local] Existing Instance ref_json_error.
#[local] Existing Instance ref_json_bind.
#[local] Existing Instance ref_json_result.
#[local] Instance bind_example_wire : RpcTransport :=
  loopback example_uuid example_clock example_manager 1000 alice fresh_out.

Definition bound_rows : list (result ArrowError RecordBatch) := [Ok (example_rows 7); Ok (example_rows 8)].

Definition bind_example : result AdbcError unit * MState :=
  statement_bind_stream true (mkGrainliftStatement remote "s1") (reader_schema ref_reader) bound_rows statement_state.

Lemma binds_through_proxy_witness :
  bind_example.1 = Ok tt
  ∧ ∃ batches native w', bound_rows = Ok <$> batches
      ∧ stmt_bind_stream (tt : Stmt) (Ok <$> batches) result_items = (native, w') ∧ native = Ok tt.
Proof.
  split; [reflexivity|].
  destruct (binds_through_proxy example_uuid example_clock example_manager 1000 alice fresh_out true
    remote "id-0" alice_principal "s1" tt result_items ∅ statement_state) as [Hb _].
  - reflexivity.
  - vm_compute. discriminate.
  - reflexivity.
  - vm_compute. discriminate.
  - reflexivity.
  - reflexivity.
  - reflexivity.
  - reflexivity.
  - reflexivity.
  - reflexivity.
  - reflexivity.
  - reflexivity.
  - split; [reflexivity..|]. exists 0%nat, 0%nat, statement_session, 0.
    repeat split; try reflexivity. by exists ref_cancel.
  - specialize (Hb (reader_schema ref_reader) bound_rows).
    match type of Hb with match ?m with _ => _ end =>
      assert (m.1 = Ok tt) as Hok by reflexivity; destruct m as [r s'] end.
    cbn [fst] in Hok. subst r. revert Hb.
    intros [(batches & native & w' & Hi & Hn & Hr & _)|[[e He] _]]; [|discriminate He].
    exists batches, native, w'. split; [exact Hi|]. split; [exact Hn|]. destruct native as [[]|]; [reflexivity|discriminate Hr].
Defined.
End Example.
