(* ===== verification/OpenEndToEnd.v ===== *)
(** * Opening a connection through driver and server

    [open_remote] of the driver over [loopback] is [open] of the session
    manager with the options the application set: its answer is the manager's
    as the wire carries it, and what it leaves behind is what the abstract
    [open_lease] leaves, with a session ready to serve the native connection. *)

From S2P Require Import Prelude Adbc WireError Options Arrow Framing Envelope EnvelopeTheorems Partitions.
From S2P Require Import Config Backend ResultCursor BindUpload Session SessionSteps Manager.
From S2P Require Import ManagerSteps LeaseTable ManagerRefinement Rpc Service ServiceSteps Streaming.
From S2P Require Import Reference ReferenceIpc ReferenceBackend ReferenceRpc ReferenceService.
From S2P Require Import ClientOptions Client ClientTheorems EndToEnd.

(** ** Typed requests arrive *)

Section Typed.
Context `{AdbcCore} `{RustFmt} `{ArrowCrate} `{!IpcCrate} `{VgiRpc} `{!StructCrate}.

(** The payload is a slice, and the memory it decodes to is within the limit. *)
Definition request_fits (rq : RecordBatch) : Prop :=
  ∀ b, batch_binary_value rq "request" = Ok b → slice_ok b ∧ batch_buffer_bytes b ≤ MAX_CONTROL_BYTES.

Lemma typed_request_delivered {T} `{!VgiArrow T} `{!RequestRecord T} (value : T) rq :
  client_typed_request value = Ok rq → request_fits rq →
  typed_request (as_request rq) = Ok value.
Proof.
  unfold client_typed_request, typed_request. rewrite driver_version_accepted.
  destruct (encode_request value MAX_CONTROL_BYTES) as [outer|] eqn:He; [|done]. intros [= ->] Hfits.
  unfold encode_request in He. apply result_bind_unit_Ok in He as [Hv He].
  apply result_bind_Ok in He as (batch & Hrec & He). apply result_bind_Ok in He as (wire & _ & [= ->]).
  apply encode_record_Ok in Hrec as (b & Hb & ->).
  destruct (Hfits b) as [Hs Hmem]; [done|].
  assert (len b ≤ MAX_CONTROL_BYTES) as Hlen by (by eapply encode_record_ipc_bound).
  simpl. unfold decode_request. rewrite decode_record_envelope.
  rewrite (record_ipc_roundtrip value MAX_CONTROL_BYTES MAX_CONTROL_BYTES b) by done. simpl. by rewrite Hv.
Qed.
End Typed.

(** ** Options arrive *)

Lemma validated_options_decode kvs :
  validate_options (named_option_from <$> kvs) = Ok tt →
  named_options_into_adbc (named_option_from <$> kvs) = Ok kvs.
Proof.
  intros Hv. unfold named_options_into_adbc. rewrite Hv. simpl. apply named_options_images. split; [done|].
  apply validate_options_Ok in Hv as [Hall _]. rewrite Forall_fmap in Hall.
  eapply Forall_impl; [exact Hall|]. intros [k v] [_ [v' Hv]]. simpl in *.
  intros ->. by destruct (proj1 (option_value_into_adbc_Ok _ _) Hv) as [Hw ?]; destruct v'.
Qed.

(** ** The server *)

Section Open.
Context `{AdbcCore} `{RustFmt} `{ArrowCrate} `{!IpcCrate} `{FileSystem} `{AdbcOptions} `{!Backend}.
Context `{Base64} `{Hmac} `{VgiRpc} `{!StructCrate} `{!WireRecords}.
Context `{!Json WireAdbcError} `{!Json BindCursor} `{!Json ResultCursor}.
Context (uuid : nat → string) (system_now : Global → nat → Z) (mg : Manager) (max_bind : Z).
Context (ctx : CallContext) (new_out : OutputCollector) (c_char_signed : bool).
#[local] Instance wire : RpcTransport := loopback uuid system_now mg max_bind ctx new_out.

Definition open_args_of (r : RemoteConnectionOptions) : OpenConnectionRequest :=
  mkOpenConnectionRequest (rco_target r) (rco_database_options r) (rco_connection_options r).

(** The application's options are [db] and [co], and the request of the driver
    reaches the server. *)
Record delivered (r : RemoteConnectionOptions) (db co : list (string * OptionValue))
    (rq : RecordBatch) : Prop := mkDelivered {
  dv_database : rco_database_options r = named_option_from <$> db;
  dv_connection : rco_connection_options r = named_option_from <$> co;
  dv_request : client_typed_request (open_args_of r) = Ok rq;
  dv_fits : request_fits rq
}.

Lemma open_connection_serves r db co rq p s :
  principal mg (auth ctx) = Ok p → delivered r db co rq →
  open_connection uuid mg (as_request rq) ctx s
  = match open uuid mg p (rco_target r) db co s with
    | (Err e, s') => (Err (adbc_rpc_error e), s')
    | (Ok id, s') =>
        match bounded_response (mkSessionResponse id) (response_limit ctx) with
        | Ok resp => (Ok (Some resp), s')
        | Err e => (Err (protocol_rpc_error e), (close id p s').2)
        end
    end.
Proof.
  intros Hp [Hdb Hco Hrq Hfits].
  assert (request_validate (open_args_of r) = Ok tt) as Hv.
  { revert Hrq. unfold client_typed_request, encode_request.
    destruct (request_validate (open_args_of r)) as [[]|]; done. }
  unfold open_args_of in Hv. rewrite Hdb, Hco in Hv.
  apply result_bind_unit_Ok in Hv as [_ Hv]. apply result_bind_unit_Ok in Hv as [Hvd Hvc].
  simpl in Hvd, Hvc.
  unfold open_connection. rewrite (typed_request_delivered (open_args_of r) rq Hrq Hfits), Hp.
  unfold mlift, mbind at 1 2 3 4, M_bind, adbc, mmap_err, open_args_of.
  cbn [oc_database_options oc_connection_options oc_target].
  rewrite Hdb, Hco, !validated_options_decode by done. cbn [map_err].
  unfold mbind, M_bind.
  destruct (open uuid mg p (rco_target r) db co s) as [[id|e] s']; [|done]. cbn [map_err].
  unfold handle_response. by destruct (bounded_response _ _).
Qed.

Lemma open_remote_open r db co rq p s :
  principal mg (auth ctx) = Ok p → delivered r db co rq →
  open_remote c_char_signed Http r s
  = match open uuid mg p (rco_target r) db co s with
    | (Err e, s') => (Err (rpc_error c_char_signed (adbc_rpc_error e)), s')
    | (Ok id, s') =>
        match bounded_response (mkSessionResponse id) (response_limit ctx) with
        | Ok resp =>
            (session ← client_decode (T := SessionResponse) resp;
             Ok (mkRemoteConnection Http (sr_session_id session) (rco_max_bind_bytes r)), s')
        | Err e => (Err (rpc_error c_char_signed (protocol_rpc_error e)), (close id p s').2)
        end
    end.
Proof.
  intros Hp Hd. pose proof (open_connection_serves r db co rq p s Hp Hd) as Hserve.
  unfold open_remote. fold (open_args_of r). rewrite (dv_request _ _ _ _ Hd).
  unfold mlift, mbind, M_bind, transport_call, client_for, http_client, net, mmap_err.
  unfold mbind, M_bind. simpl. unfold serve_unary.
  change (find_method method.OPEN_CONNECTION (server_methods uuid system_now mg max_bind))
    with (Some (Unary (envelope_schema "request") (open_connection uuid mg))). cbv iota.
  unfold mbind, M_bind. rewrite Hserve.
  destruct (open uuid mg p (rco_target r) db co s) as [[id|e] s']; [|done].
  destruct (bounded_response _ _) as [resp|e]; [|done]. simpl. by destruct (client_decode resp).
Qed.

(** ** The native connection *)

(** The threads start, and the workers answer in time. *)
Definition prompt (s : MState) : Prop :=
  g_outcomes (m_global s) = [] ∧ g_spawns (m_global s) = [].

Lemma drop_arc_prompt a s :
  prompt s → prompt (drop_arc a s) ∧ g_uuids (m_global (drop_arc a s)) = g_uuids (m_global s).
Proof.
  intros [Ho Hs]. unfold drop_arc.
  destruct (m_heap s !! a) as [[[|[|n]] x]|]; simpl; unfold run_drop, spawn_now, prompt; simpl;
    rewrite ?Hs; done.
Qed.

Lemma drop_arcs_prompt ls s : prompt s → prompt (drop_arcs ls s).
Proof.
  revert s; induction ls as [|a ls IH]; intros s Hs; [done|]. simpl. by apply IH, drop_arc_prompt.
Qed.

Lemma reserve_prompt p s s0 :
  prompt s → reserve_open mg p s = (Ok tt, s0) → prompt s0 ∧ m_closing s0 = false.
Proof.
  intros Hs. unfold reserve_open. destruct (m_closing s); [done|]. intros (n & s1 & Hreap & Hres)%bind_Ok.
  assert (prompt s1) as Hs1.
  { revert Hreap. unfold reap_expired, lock_registry, mbind, M_bind, lock, mprim.
    destruct (mx_poisoned _); [done|]. destruct (expired_sessions _ _ _) as [e|]; [|done].
    intros [= _ <-]. by apply drop_arcs_prompt. }
  revert Hres. unfold reserve_locked, lock_registry, mbind, M_bind, lock, mprim.
  destruct (mx_poisoned _); [done|]. destruct (m_closing s1) eqn:Hc; [done|].
  destruct (_ <=? _); [done|]. destruct (_ <=? _); [done|]. by intros [= <-].
Qed.

Lemma reserve_healthy p s s0 : healthy s → reserve_open mg p s = (Ok tt, s0) → healthy s0.
Proof.
  intros Hs. unfold reserve_open. destruct (m_closing s); [done|]. intros (n & s1 & Hreap & Hres)%bind_Ok.
  pose proof (reap_healthy mg s Hs) as Hs1. rewrite Hreap in Hs1. by eapply admit_healthy.
Qed.

(** A session that has just been opened on [conn]. *)
Definition new_view (conn : Conn) (w : World) (u : nat) : SessionView := λ g l r m,
  g_world g = w ∧ g_uuids g = u ∧ l = mg_limits mg
  ∧ r = mkSessionResources (Mutex_new conn) (Mutex_new ∅) (Mutex_new ∅) ∧ m = Mutex_new ∅.

Lemma serving_weaken id p (P Q : SessionView) s :
  (∀ g l r m, P g l r m → Q g l r m) → serving mg id p P s → serving mg id p Q s.
Proof.
  intros HPQ [Hh Ho (a & n & x & t & Hid & Hx & Hp & Ht & He & Hb & HP)]. split; [done..|].
  exists a, n, x, t. repeat split; try done. by apply HPQ.
Qed.

Lemma open_native p t target db co s s0 res w' :
  healthy s → prompt s → 0 ≤ mg_ttl mg → permitted mg p t = Ok target →
  reserve_open mg p s = (Ok tt, s0) →
  let u := g_uuids (m_global s0) in
  sessions (registry s0) !! uuid u = None →
  backend_open target db co (g_world (m_global s0)) = (res, w') →
  match res with
  | Ok conn => ∃ s', open uuid mg p t db co s = (Ok (uuid u), s')
                 ∧ serving mg (uuid u) p (new_view conn w' (S u)) s'
  | Err e => (open uuid mg p t db co s).1 = Err e
  end.
Proof.
  intros Hh Hprompt Httl Hperm Hres u Hfresh Hopen.
  destruct (reserve_prompt p s s0 Hprompt Hres) as [[Ho Hsp] Hcl].
  pose proof (reserve_healthy p s s0 Hh Hres) as Hh0. unfold healthy in Hh0.
  assert (∀ r, open_thread mg target db co s0 = r → r = (Ok res, set_global (set_world w' (m_global s0)) s0)) as Hot.
  { intros r <-. unfold open_thread, spawn_now, next_outcome. rewrite Hsp, Ho, Hopen. done. }
  specialize (Hot _ eq_refl).
  assert (open uuid mg p t db co s
    = finish_open uuid mg p t target res (set_global (set_world w' (m_global s0)) s0)) as ->.
  { revert Hperm. unfold permitted, open. destruct (negb _); [done|]. intros Htarget.
    unfold mlift, mbind, M_bind. rewrite Htarget, Hres, Hot. done. }
  destruct res as [conn|e].
  - unfold finish_open, start_session, act_uuid, act_spawn, spawn_now, mgets, mbind, M_bind. simpl.
    rewrite Hsp. unfold register, lock_registry, mbind, M_bind, lock, mprim.
    cbn -[release_open_reservation_locked drop_arcs]. rewrite Hh0, Hcl.
    cbn -[release_open_reservation_locked drop_arcs].
    fold (registry s0). fold u. rewrite release_sessions, Hfresh.
    cbn -[release_open_reservation_locked]. eexists. split; [done|].
    split; simpl; [exact Hh0|done|].
    eexists (m_next_loc s0), 0%nat, _, _. unfold registry. simpl. rewrite !lookup_insert_eq.
    split; [done|]. split; [done|]. split; [done|]. split; [done|]. split; [|done].
    by rewrite (proj2 (Z.ltb_ge (mg_ttl mg) (elapsed _ _))) by (unfold elapsed; lia).
  - unfold finish_open. rewrite release_then by exact Hh0. done.
Qed.
End Open.

(** ** Main theorems *)

Section Main.
Context `{AdbcCore} `{RustFmt} `{ArrowCrate} `{!IpcCrate} `{FileSystem} `{AdbcOptions} `{!Backend}.
Context `{Base64} `{Hmac} `{VgiRpc} `{!StructCrate} `{!WireRecords}.
Context `{!Json WireAdbcError} `{!Json BindCursor} `{!Json ResultCursor}.
Context (uuid : nat → string) (system_now : Global → nat → Z) (mg : Manager) (max_bind : Z).
Context (ctx : CallContext) (new_out : OutputCollector) (c_char_signed : bool).
#[local] Instance open_wire : RpcTransport := loopback uuid system_now mg max_bind ctx new_out.

(** C5: opening a connection through the proxy is opening a lease.  In every
    reachable state the manager performs [open_lease] for the authenticated
    principal with the options the application set; a refusal or a native error
    reaches the application as the wire carries it; a session whose handle the
    application receives is its connection; and one whose handle cannot be sent
    is closed again. *)
Theorem open_through_proxy G r db co rq p :
  limits_usize (mg_limits mg) → reachable uuid mg G →
  principal mg (auth ctx) = Ok p → delivered r db co rq →
  let now := now_of (gs G) in
  let s0 := (reserve_open mg p (gs G)).2 in
  let '(res, T) := open_lease (mg_ttl mg) (mg_limits mg) (permitted mg p (rco_target r)) p now
                     (native_answer uuid mg db co s0) (table_of G) in
  ∃ s', T = table_of (mkGState s' (pending G) (held G) (detached G)) ∧
    match res with
    | Err e => open_remote c_char_signed Http r (gs G)
               = (Err (rpc_error c_char_signed (adbc_rpc_error e)), s')
    | Ok id =>
        match bounded_response (mkSessionResponse id) (response_limit ctx) with
        | Ok resp =>
            client_decode resp = Ok (mkSessionResponse id) →
            open_remote c_char_signed Http r (gs G)
            = (Ok (mkRemoteConnection Http id (rco_max_bind_bytes r)), s')
        | Err e => open_remote c_char_signed Http r (gs G)
                   = (Err (rpc_error c_char_signed (protocol_rpc_error e)), (close id p s').2)
        end
    end.
Proof.
  intros Hl Hr Hp Hd now s0.
  pose proof (open_remote_open uuid system_now mg max_bind ctx new_out c_char_signed r db co rq p (gs G) Hp Hd)
    as Hopen.
  pose proof (reachable_rinv uuid mg G Hl Hr) as HG. destruct G as [s pend hd d]. cbn [gs] in *.
  destruct (open uuid mg p (rco_target r) db co s) as [res s'] eqn:Hrun.
  unfold now, s0. rewrite (open_table uuid mg p (rco_target r) db co s res s' pend hd d Hl HG Hrun).
  exists s'. split; [done|]. destruct res as [id|e]; [|exact Hopen].
  destruct (bounded_response _ _) as [resp|e]; [|exact Hopen]. intros Hdec. etrans; [exact Hopen|].
  by rewrite Hdec.
Qed.

(** A connection opened through the proxy is the native connection.  When
    the principal may use the target, a reservation is left and the host is
    prompt, the native database and connection are opened once, with exactly the
    options the application set, in order; on success the application holds a
    session that serves that connection and nothing else, and a native error
    reaches it as the wire carries it. *)
Theorem opened_connection_serves r db co rq p target s s0 res w' resp :
  principal mg (auth ctx) = Ok p → delivered r db co rq → 0 ≤ mg_ttl mg →
  healthy s → prompt s → permitted mg p (rco_target r) = Ok target →
  reserve_open mg p s = (Ok tt, s0) →
  let id := uuid (g_uuids (m_global s0)) in
  sessions (registry s0) !! id = None →
  bounded_response (mkSessionResponse id) (response_limit ctx) = Ok resp →
  client_decode resp = Ok (mkSessionResponse id) →
  backend_open target db co (g_world (m_global s0)) = (res, w') →
  match res with
  | Ok conn =>
      ∃ s', open_remote c_char_signed Http r s
            = (Ok (mkRemoteConnection Http id (rco_max_bind_bytes r)), s')
        ∧ serving mg id p (new_view mg conn w' (S (g_uuids (m_global s0)))) s'
  | Err e => (open_remote c_char_signed Http r s).1 = Err (rpc_error c_char_signed (adbc_rpc_error e))
  end.
Proof.
  intros Hp Hd Httl Hh Hprompt Hperm Hres id Hfresh Hresp Hdec Hopen.
  pose proof (open_native uuid mg p (rco_target r) target db co s s0 res w' Hh Hprompt Httl Hperm Hres Hfresh Hopen)
    as Hnative.
  pose proof (open_remote_open uuid system_now mg max_bind ctx new_out c_char_signed r db co rq p s Hp Hd)
    as Hremote.
  destruct res as [conn|e].
  - destruct Hnative as (s' & Hrun & Hs'). exists s'. split; [|exact Hs'].
    rewrite Hrun in Hremote. fold id in Hremote. rewrite Hresp, Hdec in Hremote. exact Hremote.
  - destruct (open uuid mg p (rco_target r) db co s) as [r0 s']. simpl in Hnative. subst r0.
    exact (f_equal fst Hremote).
Qed.
End Main.

(** ** Examples *)

Section Example.
#[local] Existing Instance simple_core.
#[local] Existing Instance simple_fmt.
#[local] Existing Instance ref_arrow.
#[local] Existing Instance ref_ipc.
#[local] Existing Instance ref_files.
#[local] Existing Instance ref_options.
#[local] Existing Instance ref_backend.
#[local] Existing Instance ref_base64.
#[local] Existing Instance ref_hmac.
#[local] Existing Instance ref_rpc.
#[local] Existing Instance ref_struct.
#[local] Existing Instance ref_records.
#[local] Existing Instance ref_json_error.
#[local] Existing Instance ref_json_bind.
#[local] Existing Instance ref_json_result.

#[local] Instance example_open_wire : RpcTransport :=
  loopback example_uuid example_clock example_manager 1000 alice fresh_out.

Definition example_options : RemoteConnectionOptions :=
  mkRemoteConnectionOptions "https://localhost" None "orders"
    (named_option_from <$> [("uri", OptInt 1)])
    [] 30000 100000 1000
    (mkTransportOptions None None None None None None).

Definition example_open_batch : RecordBatch :=
  default (batch ReferenceService.session_request)
    (result_ok (client_typed_request (open_args_of example_options))).

Lemma example_delivered :
  delivered example_options [("uri", OptInt 1)] [] example_open_batch.
Proof.
  split; [reflexivity|reflexivity|vm_compute; reflexivity|].
  intros b Hb. vm_compute in Hb. injection Hb as <-. split; vm_compute; discriminate.
Qed.

Definition empty_state : MState := gs (initial (mkGlobal result_items 30 0 [] [])).

Lemma empty_reachable : reachable example_uuid example_manager (initial (mkGlobal result_items 30 0 [] [])).
Proof. exists (mkGlobal result_items 30 0 [] []). done. Qed.

Definition opened_answer : RecordBatch :=
  default (batch ReferenceService.session_request)
    (result_ok (bounded_response (mkSessionResponse "id-0") (response_limit alice))).

Definition alice_table : LeaseTable := mkLeaseTable {["id-0" := mkLease alice_principal 30 0]} ∅ false.

Lemma open_through_proxy_witness :
  ∃ s', open_remote true Http example_options empty_state = (Ok (mkRemoteConnection Http "id-0" 1000), s')
    ∧ table_of (mkGState s' [] [] false) = alice_table.
Proof.
  pose proof (open_through_proxy example_uuid example_clock example_manager 1000 alice fresh_out true
    (initial (mkGlobal result_items 30 0 [] [])) example_options _ _ example_open_batch alice_principal
    example_limits empty_reachable eq_refl example_delivered) as Hopen.
  cbv zeta in Hopen.
  match type of Hopen with context [open_lease ?a ?b ?c ?d ?e ?f ?g] =>
    assert (open_lease a b c d e f g = (Ok "id-0", alice_table)) as Hl
      by (rewrite initial_table; vm_compute; reflexivity); rewrite Hl in Hopen end.
  destruct Hopen as (s' & HT & Hremote). exists s'. split; [|exact (eq_sym HT)].
  assert (bounded_response (mkSessionResponse "id-0") (response_limit alice) = Ok opened_answer) as Hr
    by (vm_compute; reflexivity).
  rewrite Hr in Hremote. apply Hremote. vm_compute. reflexivity.
Defined.

Lemma opened_connection_serves_witness :
  (open_remote true Http example_options empty_state).1 = Ok (mkRemoteConnection Http "id-0" 1000).
Proof.
  pose proof (opened_connection_serves example_uuid example_clock example_manager 1000 alice fresh_out true
    example_options _ _ example_open_batch alice_principal
    (mkTargetConfig "sqlite" None [] [] false false [] []) empty_state
    (reserve_open example_manager alice_principal empty_state).2 (Ok ref_conn) result_items opened_answer
    eq_refl example_delivered) as Hopen.
  destruct Hopen as (s' & Hs' & _).
  - vm_compute. discriminate.
  - reflexivity.
  - split; reflexivity.
  - reflexivity.
  - reflexivity.
  - reflexivity.
  - vm_compute. reflexivity.
  - vm_compute. reflexivity.
  - reflexivity.
  - exact (f_equal fst Hs').
Defined.
End Example.
