(* ===== verification/SessionEndToEnd.v ===== *)
(** * Calls of a session through driver and server

    A session whose contents are known exactly ([holding]), what the operations
    of the server do to it, and one lemma per layer: a handler that runs such an
    operation, and a call of the driver that reaches such a handler over
    [loopback]. *)

From S2P Require Import Prelude Adbc WireError Options Arrow Framing Envelope Partitions.
From S2P Require Import Config Backend ResultCursor BindUpload Session SessionSteps Manager.
From S2P Require Import ManagerSteps Rpc Service ServiceSteps Streaming.
From S2P Require Import ClientOptions Client ClientTheorems EndToEnd OpenEndToEnd.

Lemma mlift_bind {S E A B} (x : A) (k : A → M S E B) s : (mlift (Ok x) ≫= k) s = k x s.
Proof. done. Qed.

Section SessionEndToEnd.
Context `{AdbcCore} `{RustFmt} `{ArrowCrate} `{!IpcCrate} `{FileSystem} `{AdbcOptions} `{!Backend}.
Context `{Base64} `{Hmac} `{VgiRpc} `{!StructCrate} `{!WireRecords}.
Context `{!Json WireAdbcError} `{!Json BindCursor} `{!Json ResultCursor}.
Context (uuid : nat → string) (system_now : Global → nat → Z) (mg : Manager) (max_bind : Z).
Context (ctx : CallContext) (new_out : OutputCollector) (c_char_signed : bool).
#[local] Instance session_wire : RpcTransport := loopback uuid system_now mg max_bind ctx new_out.

(** ** Contents *)

(** The native world, the identifiers drawn so far, the native connection, and
    the statements, results and uploads of the session. *)
Record Contents : Type := mkContents {
  co_world : World; co_uuids : nat; co_connection : Conn;
  co_statements : gmap string StatementEntry; co_results : gmap string (Mutex ResultEntry);
  co_uploads : gmap string BindUploadEntry
}.

Definition holding (K : Contents) : SessionView := λ g l r m,
  g_world g = co_world K ∧ g_uuids g = co_uuids K ∧ l = mg_limits mg
  ∧ r = mkSessionResources (Mutex_new (co_connection K)) (Mutex_new (co_statements K))
          (Mutex_new (co_results K))
  ∧ m = Mutex_new (co_uploads K).

Definition at_world (w : World) (K : Contents) : Contents :=
  mkContents w (co_uuids K) (co_connection K) (co_statements K) (co_results K) (co_uploads K).
Definition with_statements (m : gmap string StatementEntry) (K : Contents) : Contents :=
  mkContents (co_world K) (co_uuids K) (co_connection K) m (co_results K) (co_uploads K).
Definition with_results (m : gmap string (Mutex ResultEntry)) (K : Contents) : Contents :=
  mkContents (co_world K) (co_uuids K) (co_connection K) (co_statements K) m (co_uploads K).
Definition next_uuid (K : Contents) : Contents :=
  mkContents (co_world K) (S (co_uuids K)) (co_connection K) (co_statements K) (co_results K) (co_uploads K).

(** [op] answers [r] and turns contents [K] into [K']. *)
Definition takes {A} (op : M SState AdbcError A) (K : Contents) (r : result AdbcError A) (K' : Contents)
  : Prop :=
  ∀ st, ready (holding K) st →
    ∃ st', op st = (r, st') ∧ ready (holding K') st' ∧ same_session st st'.

(** What a job of the worker starts on. *)
Definition job_on (K : Contents) : JobState :=
  mkJobState (co_world K) (co_uuids K)
    (mkSessionResources (Mutex_new (co_connection K)) (Mutex_new (co_statements K)) (Mutex_new (co_results K))).

(** A job of the worker, which answers. *)
Lemma takes_call {A} (job : M JobState AdbcError A) K r K' :
  job (job_on K) = (r, job_on K') → co_uploads K' = co_uploads K → takes (Session.call job) K r K'.
Proof.
  intros Hjob Hup st (Ho & Hb & Hw & Hu & Hl & Hres & Hm). rewrite call_replied by done.
  unfold job_state. rewrite Hw, Hu, Hres. fold (job_on K). rewrite Hjob.
  eexists. split; [done|]. unfold ready, holding, same_session. simpl. by rewrite Hm, Hup.
Qed.

Lemma takes_connection {A} (op : Conn → M World AdbcError A) K r w' :
  op (co_connection K) (co_world K) = (r, w') → takes (with_connection op) K r (at_world w' K).
Proof.
  intros Hop. apply takes_call; [|done].
  unfold connection_job, lock_connection, lock, on_world, mbind, M_bind. simpl. by rewrite Hop.
Qed.

Lemma takes_statement {A} stid stmt cancel (op : Stmt → M World AdbcError A) K r w' :
  co_statements K !! stid = Some (mkStatementEntry (Mutex_new stmt) cancel) →
  op stmt (co_world K) = (r, w') → takes (with_statement stid op) K r (at_world w' K).
Proof.
  intros Hst Hop. apply takes_call; [|done].
  unfold statement_job, lock_statements, lock, mlift, on_world, mbind, M_bind. simpl. rewrite Hst. simpl.
  by rewrite Hop.
Qed.

(** The limits of a session are those of the manager. *)
Lemma takes_limits {A} (op : SessionLimits → M SState AdbcError A) K r K' :
  takes (op (mg_limits mg)) K r K' → takes (λ s, op (s_limits (st_session s)) s) K r K'.
Proof. intros Hop st Hst. pose proof Hst as (_ & _ & _ & _ & -> & _). by apply Hop. Qed.

Definition new_entry (stmt : Stmt) : StatementEntry :=
  mkStatementEntry (Mutex_new stmt) (stmt_cancel_handle stmt).

(** The session after a new statement was asked for. *)
Definition with_new_statement (r : result AdbcError Stmt) (w' : World) (K : Contents) : Contents :=
  match r with
  | Ok stmt =>
      next_uuid (with_statements (<[uuid (co_uuids K) := new_entry stmt]> (co_statements K)) (at_world w' K))
  | Err _ => at_world w' K
  end.

Lemma takes_new_statement K r w' :
  Z.of_nat (size (co_statements K)) < max_statements_per_session (mg_limits mg) →
  conn_new_statement (co_connection K) (co_world K) = (r, w') →
  takes (new_statement uuid) K ((λ _, uuid (co_uuids K)) <$> r) (with_new_statement r w' K).
Proof.
  intros Hq Hnew. apply (takes_limits (λ l, Session.call (new_statement_job uuid (max_statements_per_session l)))).
  apply takes_call; [|by destruct r].
  unfold new_statement_job, lock_statements, lock_connection, draw_uuid, on_world, lock, mbind, M_bind, mmodify.
  simpl. rewrite (proj2 (Z.leb_gt _ _)) by done. simpl. rewrite Hnew. by destruct r.
Qed.

Lemma takes_invalidate stid K :
  takes (invalidate_statement_results stid) K (Ok tt)
    (with_results (retain_others stid (co_results K)) K).
Proof. by apply takes_call. Qed.

Lemma takes_insert_result owner rd K :
  Z.of_nat (size (co_results K)) < max_results_per_session (mg_limits mg) →
  takes (insert_owned_result uuid owner rd) K (Ok (uuid (co_uuids K), reader_schema rd))
    (next_uuid (with_results (<[uuid (co_uuids K) := Mutex_new (ResultEntry_new owner rd)]> (co_results K)) K)).
Proof.
  intros Hq.
  apply (takes_limits (λ l, Session.call (insert_result_job uuid (max_results_per_session l) owner rd))).
  apply takes_call; [|done].
  unfold insert_result_job, draw_uuid, lock_results, lock, mbind, M_bind, mmodify. simpl.
  by rewrite (proj2 (Z.leb_gt _ _)) by done.
Qed.

Lemma takes_bind {A B} (m : M SState AdbcError A) (k : A → M SState AdbcError B) K x K1 r K2 :
  takes m K (Ok x) K1 → takes (k x) K1 r K2 → takes (m ≫= k) K r K2.
Proof.
  intros Hm Hk st Hst. destruct (Hm st Hst) as (st1 & Hrun1 & Hst1 & Hs1).
  destruct (Hk st1 Hst1) as (st2 & Hrun2 & Hst2 & Hs2). exists st2. unfold mbind, M_bind. rewrite Hrun1.
  split; [done|]. split; [done|]. unfold same_session in *. naive_solver congruence.
Qed.

Lemma takes_error {A B} (m : M SState AdbcError A) (k : A → M SState AdbcError B) K e K1 :
  takes m K (Err e) K1 → takes (m ≫= k) K (Err e) K1.
Proof.
  intros Hm st Hst. destruct (Hm st Hst) as (st1 & Hrun1 & Hst1 & Hs1). exists st1.
  unfold mbind, M_bind. by rewrite Hrun1.
Qed.

(** ** Handlers *)

(** On a session of [p] that holds [K], [run] answers [rb] and leaves [K']. *)
Definition handled {E B} (run : MState → result E B * MState) (id p : string) (K : Contents)
    (rb : result E B) (K' : Contents) : Prop :=
  ∀ s, serving mg id p (holding K) s → ∃ s', run s = (rb, s') ∧ serving mg id p (holding K') s'.

Lemma handled_ext {E B} (run run' : MState → result E B * MState) id p K rb K' :
  (∀ s, run s = run' s) → handled run' id p K rb K' → handled run id p K rb K'.
Proof. intros Heq Hh s Hs. rewrite Heq. by apply Hh. Qed.

Lemma session_handled {A B} id p K K' (op : M SState AdbcError A) r rq
    (f : nat → string → M MState RpcError B) rb :
  principal mg (auth ctx) = Ok p → 0 ≤ mg_ttl mg →
  request_string (as_request rq) "session_id" = Ok id → takes op K r K' →
  (∀ a s1 s2, on_session a op s1 = (r, s2) → f a id s1 = (rb, s2)) →
  handled (with_session mg (as_request rq) ctx f) id p K rb K'.
Proof.
  intros Hp Httl Hid Hop Hf s Hs.
  destruct (serving_via uuid mg id p _ _ s op r Httl Hs Hop) as (a & s1 & s2 & Hget & Hon & Hs').
  exists (drop_arc a s2). split; [|done]. unfold with_session, get_session.
  rewrite driver_version_accepted, Hp, Hid. unfold mbind, M_bind, mlift, adbc, mmap_err, mret, M_ret.
  rewrite Hget. cbn [map_err]. unfold releasing. by rewrite (Hf _ _ _ Hon).
Qed.

Lemma typed_handled {T A B} `{!VgiArrow T} `{!RequestRecord T} (name_of : T → string) id p K K'
    (op : M SState AdbcError A) r rq (args : T) (f : nat → T → M MState RpcError B) rb :
  principal mg (auth ctx) = Ok p → 0 ≤ mg_ttl mg →
  client_typed_request args = Ok rq → request_fits rq → name_of args = id → takes op K r K' →
  (∀ a s1 s2, on_session a op s1 = (r, s2) → f a args s1 = (rb, s2)) →
  handled (with_typed mg name_of (as_request rq) ctx f) id p K rb K'.
Proof.
  intros Hp Httl Hrq Hfits <- Hop Hf s Hs.
  destruct (serving_via uuid mg (name_of args) p _ _ s op r Httl Hs Hop) as (a & s1 & s2 & Hget & Hon & Hs').
  exists (drop_arc a s2). split; [|done]. unfold with_typed, session_by_id.
  rewrite (typed_request_delivered args rq) by done. rewrite Hp.
  unfold mbind, M_bind, mlift, adbc, mmap_err.
  rewrite Hget. cbn [map_err]. unfold releasing. by rewrite (Hf _ _ _ Hon).
Qed.

(** ** Calls of the driver *)

Abbreviation methods := (server_methods uuid system_now mg max_bind).

Definition seen {A} (r : result RpcError A) : result AdbcError A := map_err (rpc_error c_char_signed) r.

(** A call reaches the handler, and its answer the driver. *)
Lemma call_reaches c name params handler rq s :
  transport c = Http → find_method name methods = Some (Unary params handler) →
  call c_char_signed c name rq s
  = let '(ans, s') := handler (as_request rq) ctx s in
    (b ← (answer ← seen ans; ok_or answer (rpc_error c_char_signed (runtime_error "no result")));
     check_acknowledged name b;; Ok b, s').
Proof.
  intros Ht Hm. unfold call, transport_call, client_for. rewrite Ht.
  unfold http_client, net, mmap_err, mbind, M_bind. simpl. unfold serve_unary. rewrite Hm.
  unfold mbind, M_bind. destruct (handler (as_request rq) ctx s) as [[[b|]|e] s']; [|done..].
  simpl. unfold mlift. by destruct (check_acknowledged name b) as [[]|].
Qed.

(** The driver sees what the handler answered. *)
Lemma call_handled c name params handler rq id p K rb K' :
  transport c = Http → find_method name methods = Some (Unary params handler) →
  handled (handler (as_request rq) ctx) id p K (Some <$> rb) K' →
  (∀ b, rb = Ok b → check_acknowledged name b = Ok tt) →
  handled (call c_char_signed c name rq) id p K (seen rb) K'.
Proof.
  intros Ht Hm Hh Hack s Hs. destruct (Hh s Hs) as (s' & Hrun & Hs'). exists s'. split; [|done].
  rewrite (call_reaches c name params handler rq s Ht Hm), Hrun.
  destruct rb as [b|e]; [|done]. simpl. by rewrite (Hack b eq_refl).
Qed.

Lemma handled_bind {A B} (m : M MState AdbcError A) (k : A → M MState AdbcError B) id p K x K1 r K2 :
  handled m id p K (Ok x) K1 → handled (k x) id p K1 r K2 → handled (m ≫= k) id p K r K2.
Proof.
  intros Hm Hk s Hs. destruct (Hm s Hs) as (s1 & Hrun1 & Hs1). destruct (Hk s1 Hs1) as (s2 & Hrun2 & Hs2).
  exists s2. unfold mbind, M_bind. by rewrite Hrun1.
Qed.

Lemma handled_error {A B} (m : M MState AdbcError A) (k : A → M MState AdbcError B) id p K e K1 :
  handled m id p K (Err e) K1 → handled (m ≫= k) id p K (Err e) K1.
Proof.
  intros Hm s Hs. destruct (Hm s Hs) as (s1 & Hrun1 & Hs1). exists s1. unfold mbind, M_bind. by rewrite Hrun1.
Qed.

(** What the driver makes of the answer, without another call. *)
Lemma handled_answer {A B} (m : M MState AdbcError A) (k : A → M MState AdbcError B)
    (f : A → result AdbcError B) id p K r K1 :
  handled m id p K r K1 → (∀ x s, k x s = (f x, s)) → handled (m ≫= k) id p K (x ← r; f x) K1.
Proof.
  intros Hm Hk s Hs. destruct (Hm s Hs) as (s1 & Hrun1 & Hs1). exists s1. unfold mbind, M_bind.
  rewrite Hrun1. destruct r as [x|e]; [|done]. by rewrite Hk.
Qed.

Lemma handled_lift {A B} (r : result AdbcError A) x (k : A → M MState AdbcError B) id p K r' K' :
  r = Ok x → handled (k x) id p K r' K' → handled (mlift r ≫= k) id p K r' K'.
Proof. intros -> Hk s Hs. exact (Hk s Hs). Qed.

(** ** Acknowledgements and responses *)

Definition wired {A} (r : result AdbcError A) : result AdbcError A :=
  map_err (λ e, rpc_error c_char_signed (adbc_rpc_error e)) r.

(** A response is sent within its limit and read back by the driver. *)
Definition crosses {T} `{!VgiArrow T} `{!ResponseRecord T} (value : T) : Prop :=
  ∃ resp, typed_response value = Ok resp ∧ client_decode resp = Ok value.
Definition crosses_bounded {T} `{!VgiArrow T} `{!ResponseRecord T} (value : T) : Prop :=
  ∃ resp, bounded_response value (response_limit ctx) = Ok resp ∧ client_decode resp = Ok value.

Lemma arrow_result_row fields columns :
  fields ≠ [] → Forall2 (λ f c, column_fits 1 f c = true) fields columns →
  arrow_result (try_new fields columns) = Ok (mkRecordBatch fields columns 1).
Proof. intros Hne Hf. unfold arrow_result. by rewrite try_new_row. Qed.

(** A method that runs one operation and acknowledges it. *)
Lemma acknowledged_handled {B} c name params handler rq id p K (r : result AdbcError unit) K'
    (k : RecordBatch → M MState AdbcError B) v :
  transport c = Http → find_method name methods = Some (Unary params handler) →
  name ∈ acknowledged → crosses (mkOkResponse true) →
  (∀ ack, ok_batch = Ok ack →
     handled (handler (as_request rq) ctx) id p K (r' ← map_err adbc_rpc_error r; Ok (Some ack)) K') →
  (∀ b s, k b s = (Ok v, s)) →
  handled (call c_char_signed c name rq ≫= k) id p K (u ← wired r; Ok v) K'.
Proof.
  intros Ht Hm Hn (ack & Hack & Hdec) Hh Hk.
  assert (handled (call c_char_signed c name rq) id p K
    (seen (u ← map_err adbc_rpc_error r; Ok ack)) K') as Hcall.
  { apply (call_handled c name params handler); [done|done| |].
    - specialize (Hh ack Hack). by destruct r as [[]|e].
    - intros b. destruct r as [[]|e]; [|done]. intros [= <-]. unfold check_acknowledged.
      rewrite bool_decide_eq_true_2 by done. by rewrite Hdec. }
  pose proof (handled_answer _ k (λ _, Ok v) id p K _ K' Hcall Hk) as Ha. by destruct r as [[]|e].
Qed.
End SessionEndToEnd.
