(* ===== verification/StatementEndToEnd.v ===== *)
(** * Statements through driver and server

    The calls an application makes on a statement, over [loopback], are the
    native calls on the statement of the session (queries, plans, options, the
    typed getters, cancelling, updates and schemas); a whole session of an
    application, from the open to the last batch of a query, is the native one. *)

From S2P Require Import Prelude Adbc WireError Options Arrow Framing Envelope Partitions.
From S2P Require Import Config Backend ResultCursor BindUpload Session SessionSteps Manager.
From S2P Require Import ManagerSteps LeaseTable ManagerRefinement Rpc Service ServiceSteps Streaming.
From S2P Require Import Reference ReferenceIpc ReferenceBackend ReferenceRpc ReferenceService.
From S2P Require Import ClientOptions Client ClientTheorems EndToEnd OpenEndToEnd SessionEndToEnd.

(** A response that names a result opens a reader on it. *)
Lemma reader_from_named `{AdbcCore} `{RustFmt} `{ArrowCrate} `{!IpcCrate} `{AdbcOptions} `{Base64} `{VgiRpc}
    `{!StructCrate} `{!WireRecords} `{!Json WireAdbcError} `{!RpcTransport}
    c_char_signed c resp rid rows schema n :
  client_decode resp = Ok (mkExecuteResponse rid rows (schema_message schema)) →
  reader_from_response c_char_signed c resp n = reader_open c_char_signed c rid schema n.
Proof.
  intros Hd. unfold reader_from_response. rewrite Hd. unfold mlift. unfold mbind at 1, M_bind at 1.
  unfold client_decode_schema. cbn [er_schema_ipc er_result_id].
  by rewrite (decode_encode_schema schema) by done.
Qed.

(** ** The typed getters of options *)

Section TypedOption.
Context `{AdbcCore} `{RustFmt} `{ArrowCrate} `{!IpcCrate} `{FileSystem} `{AdbcOptions} `{!Backend}.

(** What the getter of a type reads, the type's name and the driver's check of
    the value that comes back. *)
Record typed_option (A : Type) : Type := mkTypedOption {
  to_name : string;
  to_get : Stmt → string → M World AdbcError A;
  to_value : A → OptionValue;
  to_expect : OptionValue → result AdbcError A
}.
#[global] Arguments mkTypedOption {A}.
#[global] Arguments to_name {A}.
#[global] Arguments to_get {A}.
#[global] Arguments to_value {A}.
#[global] Arguments to_expect {A}.

Definition server_getter (value_type key : string) (st : Stmt) : M World AdbcError OptionValue :=
  typed_getter value_type (stmt_get_option_string st key) (stmt_get_option_bytes st key)
    (stmt_get_option_int st key) (stmt_get_option_double st key).

(** The getter the server picks for the name is the one of the type. *)
Definition typed {A} (t : typed_option A) : Prop :=
  (∀ st key, server_getter (to_name t) key st = (x ← to_get t st key; mret (to_value t x)))
  ∧ (∀ x, to_value t x ≠ OptOther ∧ to_expect t (to_value t x) = Ok x) ∧ validate_text (to_name t) = Ok tt.

Definition string_option : typed_option string :=
  mkTypedOption "string" stmt_get_option_string OptString as_string_option.
Definition bytes_option : typed_option bytes :=
  mkTypedOption "bytes" stmt_get_option_bytes OptBytes as_bytes_option.
Definition int_option : typed_option Z :=
  mkTypedOption "int" stmt_get_option_int OptInt as_int_option.
Definition double_option : typed_option Z :=
  mkTypedOption "double" stmt_get_option_double OptDouble as_double_option.

Lemma typed_options : typed string_option ∧ typed bytes_option ∧ typed int_option ∧ typed double_option.
Proof. by split_and!. Qed.

End TypedOption.

Section Statement.
Context `{AdbcCore} `{RustFmt} `{ArrowCrate} `{!IpcCrate} `{FileSystem} `{AdbcOptions} `{!Backend}.
Context `{Base64} `{Hmac} `{VgiRpc} `{!StructCrate} `{!WireRecords}.
Context `{!Json WireAdbcError} `{!Json BindCursor} `{!Json ResultCursor}.
Context (uuid : nat → string) (system_now : Global → nat → Z) (mg : Manager) (max_bind : Z).
Context (ctx : CallContext) (new_out : OutputCollector) (c_char_signed : bool).
#[local] Instance statement_wire : RpcTransport := loopback uuid system_now mg max_bind ctx new_out.

(** An authenticated caller, and a connection and a statement it may name. *)
Context (c : RemoteConnection) (p : string).
Context (Hcaller : principal mg (auth ctx) = Ok p) (Httl : 0 ≤ mg_ttl mg).
Context (Hhttp : transport c = Http) (Hsession : validate_handle (session_id c) = Ok tt).
Context (Hack : crosses (mkOkResponse true)).

Abbreviation on_wire := (handled mg).
Abbreviation methods := (server_methods uuid system_now mg max_bind).
Abbreviation wired := (wired c_char_signed).

Lemma via_answer {A B} a (op : M SState AdbcError A) r (k : A → M MState RpcError B) s1 s2 :
  on_session a op s1 = (r, s2) →
  (via a op ≫= k) s1 = match r with Ok x => k x s2 | Err e => (Err (adbc_rpc_error e), s2) end.
Proof. intros Hon. unfold via, adbc, mmap_err, mbind, M_bind. rewrite Hon. by destruct r. Qed.

Lemma via_seq {A B} a (m : M SState AdbcError unit) (op : M SState AdbcError A)
    (k : A → M MState RpcError B) s :
  (via a m;; x ← via a op; k x) s = (via a (m;; op) ≫= k) s.
Proof. rewrite <-(bind_cong _ _ k s (via_bind a _ _ s)), bind_assoc. done. Qed.

Lemma via_acknowledged a (op : M SState AdbcError unit) r s1 s2 ack :
  ok_batch = Ok ack → on_session a op s1 = (r, s2) →
  (via a op;; reply ok_batch) s1 = (r' ← map_err adbc_rpc_error r; Ok (Some ack), s2).
Proof.
  intros Hb Hon. rewrite (via_answer a op r (λ _, reply ok_batch) s1 s2 Hon).
  unfold reply. rewrite Hb. by destruct r.
Qed.

(** ** Calls that are acknowledged *)

Section Acknowledged.
Context (stid : string) (stmt : Stmt) (cancel : Cancel).
Context (Hstatement : validate_handle stid = Ok tt).

(** The statement [stid] of the session is [stmt]. *)
Definition registered (K : Contents) : Prop :=
  co_statements K !! stid = Some (mkStatementEntry (Mutex_new stmt) cancel).

Abbreviation statement := (mkGrainliftStatement c stid).

(** A native call on the statement, through the method [name]: the handler
    reads the columns of the request and runs the call. *)
Lemma statement_ack name params (f : Request → nat → string → M MState RpcError (option RecordBatch))
    fields columns (op : Stmt → M World AdbcError unit) K r w' :
  find_method name methods = Some (Unary params (λ rq ctx, with_session mg rq ctx (f rq))) →
  name ∈ acknowledged → registered K → op stmt (co_world K) = (r, w') →
  fields ≠ [] → Forall2 (λ f c, column_fits 1 f c = true) fields columns →
  request_string (as_request (mkRecordBatch fields columns 1)) "session_id" = Ok (session_id c) →
  (∀ a s, f (as_request (mkRecordBatch fields columns 1)) a (session_id c) s
          = (via a (with_statement stid op);; reply ok_batch) s) →
  on_wire (request ← mlift (arrow_result (try_new fields columns)); call c_char_signed c name request;; mret tt)
    (session_id c) p K (wired r) (at_world w' K).
Proof.
  intros Hm Hn Hst Hop Hne Hfits Hid Hf.
  eapply handled_lift; [by apply arrow_result_row|].
  assert (wired r = (u ← wired r; Ok tt)) as -> by (by destruct r as [[]|]).
  eapply (acknowledged_handled uuid system_now mg max_bind ctx new_out c_char_signed c name);
    [done|exact Hm|done|done| |done].
  intros ack Hok.
  apply (session_handled uuid mg ctx _ _ _ _ (with_statement stid op) r); [done..| |].
  - by eapply takes_statement.
  - intros a s1 s2 Hon. rewrite Hf. by apply via_acknowledged.
Qed.

Lemma statement_prepare_handled K r w' :
  registered K → stmt_prepare stmt (co_world K) = (r, w') →
  on_wire (statement_prepare c_char_signed statement) (session_id c) p K (wired r) (at_world w' K).
Proof.
  intros Hst Hop.
  eapply handled_ext; [intros s; apply bind_assoc|].
  eapply (statement_ack method.PREPARE _ _ _ _ stmt_prepare);
    [done| |done|done|done|repeat constructor| |].
  - unfold acknowledged. set_solver.
  - by apply request_string_read.
  - intros a s. cbv beta. rewrite (request_string_read _ "statement_id" stid) by done. done.
Qed.

Lemma set_sql_query_handled sql K r w' :
  registered K → validate_text sql = Ok tt → stmt_set_sql_query stmt sql (co_world K) = (r, w') →
  on_wire (statement_set_sql_query c_char_signed statement sql) (session_id c) p K (wired r) (at_world w' K).
Proof.
  intros Hst Hsql Hop.
  eapply (statement_ack method.SET_SQL_QUERY _ _ _ _ (λ st, stmt_set_sql_query st sql));
    [done| |done|done|done|repeat constructor| |].
  - unfold acknowledged. set_solver.
  - by apply request_string_read.
  - intros a s. cbv beta. rewrite (request_string_read _ "statement_id" stid), (request_string_read _ "sql" sql) by done. done.
Qed.

Lemma set_substrait_plan_handled plan K r w' :
  registered K → stmt_set_substrait_plan stmt plan (co_world K) = (r, w') →
  on_wire (statement_set_substrait_plan c_char_signed statement plan) (session_id c) p K (wired r) (at_world w' K).
Proof.
  intros Hst Hop.
  eapply (statement_ack method.SET_SUBSTRAIT_PLAN _ _ _ _ (λ st, stmt_set_substrait_plan st plan));
    [done| |done|done|done|repeat constructor| |].
  - unfold acknowledged. set_solver.
  - by apply request_string_read.
  - intros a s. cbv beta. rewrite (request_string_read _ "statement_id" stid) by done. done.
Qed.

Lemma statement_set_option_handled key value rq K r w' :
  registered K → value ≠ OptOther →
  statement_option_request (session_id c) stid key value = Ok rq → request_fits rq →
  stmt_set_option stmt key value (co_world K) = (r, w') →
  on_wire (statement_set_option c_char_signed statement key value) (session_id c) p K (wired r) (at_world w' K).
Proof.
  intros Hst Hvalue Hrq Hfits Hop.
  unfold statement_set_option. cbn [st_remote st_statement_id]. eapply handled_lift; [exact Hrq|].
  assert (wired r = (u ← wired r; Ok tt)) as -> by (by destruct r as [[]|]).
  eapply (acknowledged_handled uuid system_now mg max_bind ctx new_out c_char_signed c method.SET_STATEMENT_OPTION);
    [done|done| |done| |done]; [unfold acknowledged; set_solver|].
  intros ack Hok.
  apply (typed_handled uuid mg ctx sso_session_id _ _ _ _
    (with_statement stid (λ st, stmt_set_option st key value)) r _
    (mkSetStatementOptionRequest (session_id c) stid key (wire_option_from value))); [done..| |].
  - by eapply takes_statement.
  - intros a s1 s2 Hon. cbn [sso_value sso_statement_id sso_key].
    rewrite (proj2 (option_value_into_adbc_Ok _ value)) by done. by apply via_acknowledged.
Qed.

(** Cancelling does not go through the worker. *)
Lemma takes_cancel_statement K r w' :
  registered K → try_cancel cancel (co_world K) = (r, w') →
  takes mg (cancel_statement stid) K r (at_world w' K).
Proof.
  intros Hst Hop st (Ho & Hb & Hw & Hu & Hl & Hres & Hm).
  unfold cancel_statement, lock_statements_now, session_statements, lock, mlift, mbind, M_bind.
  rewrite Hres. simpl. rewrite Hst. unfold cancel_now. simpl. rewrite Hw, Hop.
  eexists. split; [done|]. unfold ready, same_session. simpl. by rewrite Hm.
Qed.

Lemma statement_try_cancel_handled K r w' :
  registered K → try_cancel cancel (co_world K) = (r, w') →
  on_wire (statement_try_cancel c_char_signed (Some c) stid) (session_id c) p K (wired r) (at_world w' K).
Proof.
  intros Hst Hop. eapply handled_lift; [by apply arrow_result_row; [done|repeat constructor]|].
  assert (wired r = (u ← wired r; Ok tt)) as -> by (by destruct r as [[]|]).
  eapply (acknowledged_handled uuid system_now mg max_bind ctx new_out c_char_signed c method.CANCEL_STATEMENT);
    [done|done| |done| |done]; [unfold acknowledged; set_solver|].
  intros ack Hok.
  apply (session_handled uuid mg ctx _ _ _ _ (cancel_statement stid) r); [done|done| | |].
  - by apply request_string_read.
  - by apply takes_cancel_statement.
  - intros a s1 s2 Hon. cbv beta. rewrite (request_string_read _ "statement_id" stid) by done.
    by apply via_acknowledged.
Qed.
End Acknowledged.

(** ** Calls that are answered *)

Section Answered.
Context (stid : string) (stmt : Stmt) (cancel : Cancel).
Context (Hstatement : validate_handle stid = Ok tt).
Abbreviation statement := (mkGrainliftStatement c stid).

(** A request of fixed columns to a handler that runs [op]. *)
Lemma session_request_handled {A} name params
    (f : Request → CallContext → nat → string → M MState RpcError (option RecordBatch)) fields columns
    (op : M SState AdbcError A) K r K' rb :
  find_method name methods = Some (Unary params (λ rq ctx, with_session mg rq ctx (f rq ctx))) →
  name ∉ acknowledged → takes mg op K r K' →
  fields ≠ [] → Forall2 (λ f c, column_fits 1 f c = true) fields columns →
  request_string (as_request (mkRecordBatch fields columns 1)) "session_id" = Ok (session_id c) →
  (∀ a s1 s2, on_session a op s1 = (r, s2) →
     f (as_request (mkRecordBatch fields columns 1)) ctx a (session_id c) s1 = (Some <$> rb, s2)) →
  on_wire (request ← mlift (arrow_result (try_new fields columns)); call c_char_signed c name request)
    (session_id c) p K (seen c_char_signed rb) K'.
Proof.
  intros Hm Hn Hop Hne Hfits Hid Hf.
  eapply handled_lift; [by apply arrow_result_row|].
  eapply (call_handled uuid system_now mg max_bind ctx new_out c_char_signed c name); [done|exact Hm| |].
  - by apply (session_handled uuid mg ctx _ _ _ _ op r).
  - intros b _. unfold check_acknowledged. by rewrite bool_decide_eq_false_2.
Qed.

(** What the handler replies to the answer of its operation. *)
Definition replied {A} (reply_with : A → result RpcError RecordBatch) (r : result AdbcError A)
  : result RpcError RecordBatch :=
  match r with Ok x => reply_with x | Err e => Err (adbc_rpc_error e) end.

Lemma via_replied {A} a (op : M SState AdbcError A) (reply_with : A → result RpcError RecordBatch) r s1 s2 :
  on_session a op s1 = (r, s2) →
  (via a op ≫= λ x, reply (reply_with x)) s1 = (Some <$> replied reply_with r, s2).
Proof.
  intros Hon. rewrite (via_answer a op r _ s1 s2 Hon). unfold reply. destruct r as [x|e]; [|done].
  simpl. by destruct (reply_with x).
Qed.

Lemma replied_read {A B} (reply_with : A → result RpcError RecordBatch)
    (read : RecordBatch → result AdbcError B) (v : A → B) (r : result AdbcError A) :
  (∀ x, r = Ok x → ∃ resp, reply_with x = Ok resp ∧ read resp = Ok (v x)) →
  (b ← seen c_char_signed (replied reply_with r); read b) = wired (v <$> r).
Proof.
  intros Hcross. destruct r as [x|e]; [|done]. destruct (Hcross x eq_refl) as (resp & Hr & Hread).
  simpl. by rewrite Hr.
Qed.

(** A native call on the statement whose result [reply_with] sends and [read] reads. *)
Lemma statement_answer {A B} name (f : Request → nat → string → M MState RpcError (option RecordBatch))
    (op : M SState AdbcError A) (reply_with : A → result RpcError RecordBatch)
    (read : RecordBatch → result AdbcError B) (v : A → B) K r K' :
  find_method name methods = Some (Unary statement_schema (λ rq ctx, with_session mg rq ctx (f rq))) →
  name ∉ acknowledged → takes mg op K r K' →
  (∀ x, r = Ok x → ∃ resp, reply_with x = Ok resp ∧ read resp = Ok (v x)) →
  (∀ rq a s, request_string rq "statement_id" = Ok stid → f rq a (session_id c) s
     = (via a op ≫= λ x, reply (reply_with x)) s) →
  on_wire (response ← statement_call c_char_signed statement name; mlift (read response))
    (session_id c) p K (wired (v <$> r)) K'.
Proof.
  intros Hm Hn Hop Hcross Hf. rewrite <-(replied_read reply_with read v r Hcross).
  apply (handled_answer mg _ (λ b, mlift (read b)) read); [|done].
  eapply (session_request_handled name _ (λ rq _, f rq) _ _ op K r); [done|done|done|done|repeat constructor| |].
  - by apply request_string_read.
  - intros a s1 s2 Hon. rewrite Hf by (by apply request_string_read). by apply via_replied.
Qed.

Lemma option_crosses v :
  v ≠ OptOther → crosses (mkValueResponse (wire_option_from v)) →
  ∃ resp, value_response v = Ok resp ∧ decode_option_response resp = Ok v.
Proof.
  intros Hv (resp & Hresp & Hdec). exists resp. unfold value_response, decode_option_response.
  rewrite Hdec. cbn [result_bind mbind vr_value]. unfold mbind, result_bind.
  by rewrite (proj2 (option_value_into_adbc_Ok _ v)).
Qed.

Lemma statement_get_option_handled {A} (t : typed_option A) key K r w' :
  typed t → registered stid stmt cancel K → validate_handle key = Ok tt →
  to_get t stmt key (co_world K) = (r, w') →
  (∀ x, r = Ok x → crosses (mkValueResponse (wire_option_from (to_value t x)))) →
  on_wire (statement_get_option c_char_signed statement key (to_name t) (to_expect t))
    (session_id c) p K (wired r) (at_world w' K).
Proof.
  intros (Hget & Hexpect & Hname) Hst Hkey Hop Hcross.
  set (read b := v ← decode_option_response b; to_expect t v).
  assert (wired r = wired (Datatypes.id <$> r)) as -> by (by destruct r).
  rewrite <-(replied_read (λ x, value_response (to_value t x)) read Datatypes.id r).
  2:{ intros x Hx. destruct (Hexpect x) as [Hvalue Hback].
      destruct (option_crosses _ Hvalue (Hcross x Hx)) as (resp & Hresp & Hdec). exists resp.
      unfold read. by rewrite Hdec. }
  eapply handled_ext; [intros s; symmetry; apply bind_assoc|].
  apply (handled_answer mg _ _ read).
  2:{ intros b s. unfold read, mlift, mbind, M_bind. by destruct (decode_option_response b). }
  assert (takes mg (with_statement stid (server_getter (to_name t) key)) K (to_value t <$> r) (at_world w' K)) as Hop'.
  { eapply takes_statement; [exact Hst|]. rewrite Hget. unfold mbind, M_bind. rewrite Hop. by destruct r. }
  eapply (session_request_handled method.GET_STATEMENT_OPTION _ _ _ _ _ K (to_value t <$> r));
    [done| |exact Hop'|done|repeat constructor| |].
  - unfold acknowledged. set_solver.
  - by apply request_string_read.
  - intros a s1 s2 Hon. cbv beta. rewrite (request_string_read _ "statement_id" stid), (request_string_read _ "key" key),
      (request_string_read _ "value_type" (to_name t)) by done.
    etrans; [exact (via_replied a _ value_response _ s1 s2 Hon)|]. by destruct r.
Qed.

(** The results of the statement are invalidated first. *)
Lemma takes_execution {A} (op : Stmt → M World AdbcError A) K r w' :
  registered stid stmt cancel K → op stmt (co_world K) = (r, w') →
  takes mg (invalidate_statement_results stid;; with_statement stid op) K r
    (at_world w' (with_results (retain_others stid (co_results K)) K)).
Proof. intros Hst Hop. eapply takes_bind; [apply takes_invalidate|]. by eapply takes_statement. Qed.

Lemma execute_update_handled K r w' :
  registered stid stmt cancel K → stmt_execute_update stmt (co_world K) = (r, w') →
  (∀ n, r = Ok n → crosses (mkUpdateResponse n)) →
  on_wire (statement_execute_update c_char_signed statement) (session_id c) p K (wired r)
    (at_world w' (with_results (retain_others stid (co_results K)) K)).
Proof.
  intros Hst Hop Hcross.
  assert (wired r = wired (Datatypes.id <$> r)) as -> by (by destruct r).
  eapply handled_ext; [|eapply (statement_answer method.EXECUTE_UPDATE _ _ (λ n, typed_response (mkUpdateResponse n))
    (λ b, ur_rows_affected <$> client_decode (T := UpdateResponse) b) Datatypes.id K r);
    [done| |by apply takes_execution| |]].
  - intros s. unfold statement_execute_update. apply bind_ext. intros b s'.
    unfold mlift, mbind, M_bind. by destruct (client_decode b).
  - unfold acknowledged. set_solver.
  - intros n Hn. destruct (Hcross n Hn) as (resp & Hresp & Hdec). exists resp. by rewrite Hdec.
  - intros rq a s Hrq. cbv beta. rewrite Hrq. apply via_seq.
Qed.

Lemma schema_crosses schema :
  crosses (mkSchemaResponse (schema_message schema)) →
  ∃ resp, schema_response schema = Ok resp ∧ decode_schema_response resp = Ok schema.
Proof.
  intros (resp & Hresp & Hdec). exists resp. unfold schema_response. cbn [map_err encode_schema].
  split; [exact Hresp|]. unfold decode_schema_response. rewrite Hdec. simpl. unfold client_decode_schema.
  by rewrite (decode_encode_schema schema) by done.
Qed.

Lemma execute_schema_handled K r w' :
  registered stid stmt cancel K → stmt_execute_schema stmt (co_world K) = (r, w') →
  (∀ schema, r = Ok schema → crosses (mkSchemaResponse (schema_message schema))) →
  on_wire (statement_execute_schema c_char_signed statement) (session_id c) p K (wired r)
    (at_world w' (with_results (retain_others stid (co_results K)) K)).
Proof.
  intros Hst Hop Hcross.
  assert (wired r = wired (Datatypes.id <$> r)) as -> by (by destruct r).
  eapply (statement_answer method.EXECUTE_SCHEMA _ _ schema_response decode_schema_response Datatypes.id K r);
    [done| |by apply takes_execution| |].
  - unfold acknowledged. set_solver.
  - intros schema Hs. by apply schema_crosses, Hcross.
  - intros rq a s Hrq. cbv beta. rewrite Hrq. apply via_seq.
Qed.

Lemma parameter_schema_handled K r w' :
  registered stid stmt cancel K → stmt_get_parameter_schema stmt (co_world K) = (r, w') →
  (∀ schema, r = Ok schema → crosses (mkSchemaResponse (schema_message schema))) →
  on_wire (statement_get_parameter_schema c_char_signed statement) (session_id c) p K (wired r) (at_world w' K).
Proof.
  intros Hst Hop Hcross.
  assert (wired r = wired (Datatypes.id <$> r)) as -> by (by destruct r).
  eapply (statement_answer method.GET_PARAMETER_SCHEMA _ (with_statement stid stmt_get_parameter_schema)
    schema_response decode_schema_response Datatypes.id K r); [done| |by eapply takes_statement| |].
  - unfold acknowledged. set_solver.
  - intros schema Hs. by apply schema_crosses, Hcross.
  - intros rq a s Hrq. cbv beta. by rewrite Hrq.
Qed.

(** ** New statements, and queries *)

Lemma connection_new_statement_handled K r w' :
  Z.of_nat (size (co_statements K)) < max_statements_per_session (mg_limits mg) →
  conn_new_statement (co_connection K) (co_world K) = (r, w') →
  crosses_bounded ctx (mkStatementResponse (session_id c) (uuid (co_uuids K))) →
  on_wire (connection_new_statement c_char_signed c) (session_id c) p K
    (wired ((λ _, mkGrainliftStatement c (uuid (co_uuids K))) <$> r)) (with_new_statement uuid r w' K).
Proof.
  intros Hq Hnew (resp & Hresp & Hdec).
  set (rb := match r with Ok _ => Ok resp | Err e => Err (adbc_rpc_error e) end : result RpcError RecordBatch).
  assert (wired ((λ _, mkGrainliftStatement c (uuid (co_uuids K))) <$> r)
    = (b ← seen c_char_signed rb; mkGrainliftStatement c ∘ str_statement_id <$> client_decode b)) as ->.
  { unfold rb. destruct r; [|done]. simpl. by rewrite Hdec. }
  eapply handled_ext; [intros s; symmetry; apply bind_assoc|].
  apply (handled_answer mg _ _ (λ b, mkGrainliftStatement c ∘ str_statement_id <$> client_decode b)).
  - eapply (session_request_handled method.NEW_STATEMENT session_schema _ session_schema
      [string_column (session_id c)] (new_statement uuid) K); [done| |by apply takes_new_statement|done| | |].
    + unfold acknowledged. set_solver.
    + repeat constructor.
    + by apply request_string_read.
    + intros a s1 s2 Hon. cbv beta. rewrite (via_answer a _ _ _ s1 s2 Hon). unfold rb.
      destruct r as [x|e]; [|done]. cbn [fmap result_fmap]. unfold handle_response, mbind, M_bind. by rewrite Hresp.
  - intros b s. unfold mlift, mbind, M_bind. by destruct (client_decode b).
Qed.

(** What [execute] leaves: one result of the statement, the new one. *)
Definition with_execution (rd : NativeReader) (w' : World) (K : Contents) : Contents :=
  next_uuid (with_results (<[uuid (co_uuids K) := Mutex_new (ResultEntry_new (Some stid) rd)]>
    (retain_others stid (retain_others stid (co_results K)))) (at_world w' K)).

Lemma takes_execute K rd w' :
  registered stid stmt cancel K →
  Z.of_nat (size (retain_others stid (co_results K))) < max_results_per_session (mg_limits mg) →
  stmt_execute stmt (co_world K) = (Ok rd, w') →
  takes mg (execute_op uuid stid) K (Ok (uuid (co_uuids K), reader_schema rd)) (with_execution rd w' K).
Proof.
  intros Hst Hq Hex. eapply takes_bind; [apply takes_invalidate|].
  eapply takes_bind; [by eapply takes_statement|]. eapply takes_bind; [apply takes_invalidate|].
  refine (takes_insert_result uuid mg (Some stid) rd _ _). simpl.
  pose proof (size_retain stid (retain_others stid (co_results K))). lia.
Qed.

Lemma execute_call_handled K rd w' resp :
  registered stid stmt cancel K →
  Z.of_nat (size (retain_others stid (co_results K))) < max_results_per_session (mg_limits mg) →
  stmt_execute stmt (co_world K) = (Ok rd, w') →
  bounded_response (mkExecuteResponse (uuid (co_uuids K)) None (schema_message (reader_schema rd)))
    (response_limit ctx) = Ok resp →
  on_wire (statement_call c_char_signed statement method.EXECUTE) (session_id c) p K (Ok resp)
    (with_execution rd w' K).
Proof.
  intros Hst Hq Hex Hresp.
  eapply (session_request_handled method.EXECUTE statement_schema _ statement_schema _ (execute_op uuid stid) K
    _ _ (Ok resp)); [done| |by apply takes_execute|done|repeat constructor| |].
  - unfold acknowledged. set_solver.
  - by apply request_string_read.
  - intros a s1 s2 Hon. cbv beta. rewrite (request_string_read _ "statement_id" stid) by done.
    unfold mlift. unfold mbind at 1, M_bind at 1.
    rewrite (execute_via uuid a stid (λ '(result_id, schema), b ← result_response a result_id schema (response_limit ctx); mret (Some b)) s1).
    rewrite (via_answer a _ _ _ s1 s2 Hon). unfold result_response, execute_record, mbind, M_bind.
    cbn [encode_schema result_bind]. by rewrite Hresp.
Qed.
End Answered.
End Statement.

(** ** Main theorems *)

Section Main.
Context `{AdbcCore} `{RustFmt} `{ArrowCrate} `{!IpcCrate} `{FileSystem} `{AdbcOptions} `{!Backend}.
Context `{Base64} `{Hmac} `{VgiRpc} `{!StructCrate} `{!WireRecords}.
Context `{!Json WireAdbcError} `{!Json BindCursor} `{!Json ResultCursor}.
Context (uuid : nat → string) (system_now : Global → nat → Z) (mg : Manager) (max_bind : Z).
Context (ctx : CallContext) (new_out : OutputCollector) (c_char_signed : bool).
#[local] Instance application_wire : RpcTransport := loopback uuid system_now mg max_bind ctx new_out.

(** C9: the calls on a statement are the native calls; binding, executing,
    partitions and dropping have theorems of their own.  On any session that
    serves the statement,
    setting a query, a plan or an option, reading an option by any of the four
    typed getters, preparing, cancelling, updating and asking for schemas run the
    native operation once on the native statement, with the application's
    arguments; the application sees its answer, a native error as the wire carries
    it; and the session is left as the native call left it, less the statement's
    results when it was executed. *)
Theorem statement_calls_through_proxy c p stid stmt cancel K :
  principal mg (auth ctx) = Ok p → 0 ≤ mg_ttl mg → transport c = Http →
  validate_handle (session_id c) = Ok tt → validate_handle stid = Ok tt →
  crosses (mkOkResponse true) → registered stid stmt cancel K →
  let st := mkGrainliftStatement c stid in
  let native {A} (run : MState → result AdbcError A * MState) r K' :=
    handled mg run (session_id c) p K (wired c_char_signed r) K' in
  let executed w' := at_world w' (with_results (retain_others stid (co_results K)) K) in
  let reads {A} (run : string → MState → result AdbcError A * MState)
      (get : Stmt → string → M World AdbcError A) (value : A → OptionValue) :=
    ∀ key r w', validate_handle key = Ok tt → get stmt key (co_world K) = (r, w') →
      (∀ x, r = Ok x → crosses (mkValueResponse (wire_option_from (value x)))) →
      native (run key) r (at_world w' K) in
  (∀ sql r w', validate_text sql = Ok tt → stmt_set_sql_query stmt sql (co_world K) = (r, w') →
     native (statement_set_sql_query c_char_signed st sql) r (at_world w' K))
  ∧ (∀ plan r w', stmt_set_substrait_plan stmt plan (co_world K) = (r, w') →
     native (statement_set_substrait_plan c_char_signed st plan) r (at_world w' K))
  ∧ (∀ r w', stmt_prepare stmt (co_world K) = (r, w') →
     native (statement_prepare c_char_signed st) r (at_world w' K))
  ∧ (∀ r w', try_cancel cancel (co_world K) = (r, w') →
     native (statement_try_cancel c_char_signed (Some c) stid) r (at_world w' K))
  ∧ (∀ key value rq r w', value ≠ OptOther →
     statement_option_request (session_id c) stid key value = Ok rq → request_fits rq →
     stmt_set_option stmt key value (co_world K) = (r, w') →
     native (statement_set_option c_char_signed st key value) r (at_world w' K))
  ∧ reads (statement_get_option_string c_char_signed st) stmt_get_option_string OptString
  ∧ reads (statement_get_option_bytes c_char_signed st) stmt_get_option_bytes OptBytes
  ∧ reads (statement_get_option_int c_char_signed st) stmt_get_option_int OptInt
  ∧ reads (statement_get_option_double c_char_signed st) stmt_get_option_double OptDouble
  ∧ (∀ r w', stmt_execute_update stmt (co_world K) = (r, w') →
     (∀ n, r = Ok n → crosses (mkUpdateResponse n)) →
     native (statement_execute_update c_char_signed st) r (executed w'))
  ∧ (∀ r w', stmt_execute_schema stmt (co_world K) = (r, w') →
     (∀ schema, r = Ok schema → crosses (mkSchemaResponse (schema_message schema))) →
     native (statement_execute_schema c_char_signed st) r (executed w'))
  ∧ (∀ r w', stmt_get_parameter_schema stmt (co_world K) = (r, w') →
     (∀ schema, r = Ok schema → crosses (mkSchemaResponse (schema_message schema))) →
     native (statement_get_parameter_schema c_char_signed st) r (at_world w' K)).
Proof.
  intros Hp Httl Ht Hid Hstid Hack Hst st native executed reads.
  assert (∀ A (t : typed_option A), typed t →
    reads A (λ key, statement_get_option c_char_signed st key (to_name t) (to_expect t)) (to_get t) (to_value t)) as Hreads.
  { intros A t Htyped key r w' Hkey Hop Hcross. by eapply statement_get_option_handled. }
  destruct typed_options as (Hstring & Hbytes & Hint & Hdouble). split_and!.
  - intros. by eapply set_sql_query_handled.
  - intros. by eapply set_substrait_plan_handled.
  - intros. by eapply statement_prepare_handled.
  - intros. by eapply statement_try_cancel_handled.
  - intros. by eapply statement_set_option_handled.
  - exact (Hreads _ string_option Hstring).
  - exact (Hreads _ bytes_option Hbytes).
  - exact (Hreads _ int_option Hint).
  - exact (Hreads _ double_option Hdouble).
  - intros. by eapply execute_update_handled.
  - intros. by eapply execute_schema_handled.
  - intros. by eapply parameter_schema_handled.
Qed.

(** What an application does for one query: open a connection and a statement,
    set the query, execute it, and read the result. *)
Definition run_query (r : RemoteConnectionOptions) (sql : string) (turns : nat) (s : MState)
  : result AdbcError (Schema * list (result ArrowError RecordBatch)) :=
  match (c ← open_remote c_char_signed Http r;
         st ← connection_new_statement c_char_signed c;
         statement_set_sql_query c_char_signed st sql;;
         rd ← statement_execute c_char_signed st;
         mret (c, rd)) s with
  | (Ok (c, rd), s') => Ok (rr_schema rd, drain c_char_signed c turns rd s')
  | (Err e, _) => Err e
  end.

(** The three calls between the open and the reader. *)
Lemma query_calls c p K stmt rd w2 w3 w4 sql r4 s1 :
  principal mg (auth ctx) = Ok p → 0 ≤ mg_ttl mg → transport c = Http →
  validate_handle (session_id c) = Ok tt → validate_handle (uuid (co_uuids K)) = Ok tt →
  validate_text sql = Ok tt → crosses (mkOkResponse true) →
  Z.of_nat (size (co_statements K)) < max_statements_per_session (mg_limits mg) →
  Z.of_nat (size (retain_others (uuid (co_uuids K)) (co_results K))) < max_results_per_session (mg_limits mg) →
  crosses_bounded ctx (mkStatementResponse (session_id c) (uuid (co_uuids K))) →
  conn_new_statement (co_connection K) (co_world K) = (Ok stmt, w2) →
  stmt_set_sql_query stmt sql w2 = (Ok tt, w3) → stmt_execute stmt w3 = (Ok rd, w4) →
  bounded_response (mkExecuteResponse (uuid (S (co_uuids K))) None (schema_message (reader_schema rd)))
    (response_limit ctx) = Ok r4 →
  serving mg (session_id c) p (holding mg K) s1 →
  let st := mkGrainliftStatement c (uuid (co_uuids K)) in
  ∃ s2 s3 s4, connection_new_statement c_char_signed c s1 = (Ok st, s2)
    ∧ statement_set_sql_query c_char_signed st sql s2 = (Ok tt, s3)
    ∧ statement_call c_char_signed st method.EXECUTE s3 = (Ok r4, s4)
    ∧ serving mg (session_id c) p
        (has_result (uuid (S (co_uuids K))) (ResultEntry_new (Some (uuid (co_uuids K))) rd) w4) s4.
Proof.
  intros Hp Httl Ht Hid Hstid Hsql Hack Hqs Hqr Hresp Hstmt Hset Hex Hr4 Hs1 st.
  destruct (connection_new_statement_handled uuid system_now mg max_bind ctx new_out c_char_signed c p Hp Httl Ht
    Hid Hack _ Hstid K (Ok stmt) w2 Hqs Hstmt Hresp s1 Hs1) as (s2 & Hrun2 & Hs2).
  set (K2 := with_new_statement uuid (Ok stmt) w2 K) in *.
  assert (registered (uuid (co_uuids K)) stmt (stmt_cancel_handle stmt) K2) as Hreg by apply lookup_insert_eq.
  destruct (set_sql_query_handled uuid system_now mg max_bind ctx new_out c_char_signed c p Hp Httl Ht
    Hid Hack _ stmt _ Hstid sql K2 (Ok tt) w3 Hreg Hsql Hset s2 Hs2) as (s3 & Hrun3 & Hs3).
  destruct (execute_call_handled uuid system_now mg max_bind ctx new_out c_char_signed c p Hp Httl Ht
    Hid Hack _ stmt _ Hstid (at_world w3 K2) rd w4 r4 Hreg Hqr Hex Hr4 s3 Hs3) as (s4 & Hrun4 & Hs4).
  exists s2, s3, s4. split; [exact Hrun2|]. split; [exact Hrun3|]. split; [exact Hrun4|].
  eapply serving_weaken; [|exact Hs4]. intros g l rs m (Hw & _ & _ & -> & _). split; [exact Hw|].
  split; [done|]. simpl. apply lookup_insert_eq.
Qed.

Lemma run_query_calls r sql turns s c st r4 rid rows schema s1 s2 s3 s4 :
  open_remote c_char_signed Http r s = (Ok c, s1) → st_remote st = c →
  connection_new_statement c_char_signed c s1 = (Ok st, s2) →
  statement_set_sql_query c_char_signed st sql s2 = (Ok tt, s3) →
  statement_call c_char_signed st method.EXECUTE s3 = (Ok r4, s4) →
  client_decode r4 = Ok (mkExecuteResponse rid rows (schema_message schema)) →
  run_query r sql turns s
  = match reader_open c_char_signed c rid schema s4 with
    | (Ok x, s') => Ok (rr_schema x, drain c_char_signed c turns x s')
    | (Err e, _) => Err e
    end.
Proof.
  intros H1' Hc H2' H3' H4' Hd. unfold run_query. unfold mbind at 1, M_bind at 1. rewrite H1'.
  unfold mbind at 1, M_bind at 1. rewrite H2'. unfold mbind at 1, M_bind at 1. rewrite H3'.
  unfold mbind at 1, M_bind at 1. unfold statement_execute. unfold mbind at 1, M_bind at 1. rewrite H4', Hc.
  rewrite (reader_from_named _ _ _ _ _ _ _ Hd). by destruct (reader_open _ _ _ _ _) as [[x|e] s5].
Qed.

(** C1: from the open to the last batch, a query through the proxy is the
    native query.  An application that opens a connection it may open, makes a
    statement, sets a query, executes it and reads the result over the driver and
    the server gets the schema and exactly the batches, in order, and the end or
    the error, that the native driver gives for the same calls in the same order
    from the same world, with the options the application set and nothing else in
    between. *)
Theorem application_through_proxy r db co rq p target s s0 conn stmt rd w1 w2 w3 w4 sql batches ending turns :
  principal mg (auth ctx) = Ok p → delivered r db co rq → 0 ≤ mg_ttl mg →
  healthy s → prompt s → permitted mg p (rco_target r) = Ok target →
  reserve_open mg p s = (Ok tt, s0) →
  let u := g_uuids (m_global s0) in
  sessions (registry s0) !! uuid u = None →
  (∀ n, validate_handle (uuid n) = Ok tt) → validate_text sql = Ok tt →
  0 < max_statements_per_session (mg_limits mg) → 0 < max_results_per_session (mg_limits mg) →
  emitted new_out = [] → (∀ b, is_ok (emit new_out b) = true) →
  (∀ cursor, is_ok (to_json (T := ResultCursor) cursor) = true) →
  crosses_bounded ctx (mkSessionResponse (uuid u)) →
  crosses_bounded ctx (mkStatementResponse (uuid u) (uuid (S u))) →
  crosses (mkOkResponse true) →
  crosses_bounded ctx (mkExecuteResponse (uuid (S (S u))) None (schema_message (reader_schema rd))) →
  backend_open target db co (g_world (m_global s0)) = (Ok conn, w1) →
  conn_new_statement conn w1 = (Ok stmt, w2) → stmt_set_sql_query stmt sql w2 = (Ok tt, w3) →
  stmt_execute stmt w3 = (Ok rd, w4) → yields rd w4 batches ending →
  len batches ≤ i64_max → (S (length batches) < turns)%nat →
  run_query r sql turns s = Ok (reader_schema rd, items_of batches (end_of c_char_signed ending))
  ∨ batches = [] ∧ ∃ e, end_of c_char_signed ending = FailedWith e ∧ run_query r sql turns s = Err e.
Proof.
  intros Hp Hd Httl Hh Hprompt Hperm Hres u Hfresh Huuid Hsql Hqs Hqr Hnew Hemit Hjson
    (r1 & Hr1 & Hd1) Hx2 Hx3 (r4 & Hr4 & Hd4) Hopen Hstmt Hset Hex Hy Hmax Hturns.
  destruct (open_native uuid mg p (rco_target r) target db co s s0 _ w1 Hh Hprompt Httl Hperm Hres Hfresh Hopen)
    as (s1 & Hrun1 & Hs1). fold u in Hrun1, Hs1.
  pose proof (open_remote_open uuid system_now mg max_bind ctx new_out c_char_signed r db co rq p s Hp Hd) as Hremote.
  rewrite Hrun1, Hr1, Hd1 in Hremote. cbn [mbind result_bind sr_session_id] in Hremote.
  set (c := mkRemoteConnection Http (uuid u) (rco_max_bind_bytes r)) in *.
  destruct (query_calls c p (mkContents w1 (S u) conn ∅ ∅ ∅) stmt rd w2 w3 w4 sql r4 s1)
    as (s2 & s3 & s4 & Hrun2 & Hrun3 & Hrun4 & Hs4); [first [done|apply (Huuid u)]..|].
  pose proof (reader_over_loopback uuid system_now mg max_bind ctx new_out c_char_signed c (uuid u) p
    (uuid (S (S u))) (ResultEntry_new (Some (uuid (S u))) rd) w4 s4 (reader_schema rd) batches ending turns) as Hread.
  change (loopback uuid system_now mg max_bind ctx new_out) with application_wire in Hread.
  rewrite (run_query_calls r sql turns s c (mkGrainliftStatement c (uuid (S u))) r4 _ _ _ s1 s2 s3 s4 Hremote eq_refl Hrun2 Hrun3 Hrun4 Hd4).
  destruct (reader_open _ _ _ _ _) as [[x|e] s5].
  - left. destruct Hread as [-> ->]; done.
  - right. destruct Hread as [Hb He]; [done..|]. split; [exact Hb|]. by exists e.
Qed.
End Main.

(** ** Examples *)

Section Example.
#[local] Existing Instance simple_core.
#[local] Existing Instance simple_fmt.
#[local] Existing Instance ref_arrow.
#[local] Existing Instance ref_ipc.
#[local] Existing Instance ref_files.
#[local] Existing Instance ref_options.
#[local] Existing Instance ref_backend.
#[local] Existing Instance ref_base64.
#[local] Existing Instance ref_hmac.
#[local] Existing Instance ref_rpc.
#[local] Existing Instance ref_struct.
#[local] Existing Instance ref_records.
#[local] Existing Instance ref_json_error.
#[local] Existing Instance ref_json_bind.
#[local] Existing Instance ref_json_result.

#[local] Instance example_application_wire : RpcTransport :=
  loopback example_uuid example_clock example_manager 1000 alice fresh_out.

Lemma ok_crosses : crosses (mkOkResponse true).
Proof. exists ok_answer. split; vm_compute; reflexivity. Qed.

Lemma example_uuid_handle n : validate_handle (example_uuid n) = Ok tt.
Proof. apply validate_handle_Ok. split; [|by destruct n]. by induction n. Qed.

Definition example_contents : Contents :=
  mkContents result_items 0 ref_conn {["s1" := mkStatementEntry (Mutex_new tt) ref_cancel]} ∅ ∅.

Lemma example_holding :
  serving example_manager "id-0" alice_principal (holding example_manager example_contents) statement_state.
Proof.
  split; [reflexivity..|]. exists 0%nat, 0%nat, statement_session, 0. repeat split; reflexivity.
Qed.

Lemma value_crosses : crosses (mkValueResponse (wire_option_from (OptInt 0))).
Proof.
  exists (default ok_answer (result_ok (typed_response (mkValueResponse (wire_option_from (OptInt 0)))))).
  split; vm_compute; reflexivity.
Qed.

Lemma statement_calls_through_proxy_witness :
  (statement_set_sql_query true (mkGrainliftStatement remote "s1") "SELECT 1" statement_state).1 = Ok tt
  ∧ (statement_get_option_int true (mkGrainliftStatement remote "s1") "rows" statement_state).1 = Ok 0.
Proof.
  pose proof (statement_calls_through_proxy example_uuid example_clock example_manager 1000 alice fresh_out true
    remote alice_principal "s1" tt ref_cancel example_contents eq_refl) as Hcalls.
  destruct Hcalls as (Hsql & _ & _ & _ & _ & _ & _ & Hint & _);
    [vm_compute; discriminate|reflexivity|reflexivity|reflexivity|exact ok_crosses|reflexivity|]. split.
  - destruct (Hsql "SELECT 1" (Ok tt) result_items eq_refl eq_refl statement_state example_holding) as (s' & Hs' & _).
    exact (f_equal fst Hs').
  - destruct (Hint "rows" (Ok 0) result_items eq_refl eq_refl) with statement_state as (s' & Hs' & _).
    + intros x Hx. injection Hx as <-. exact value_crosses.
    + exact example_holding.
    + exact (f_equal fst Hs').
Defined.

Definition bounded_batch (r : result ProtocolError RecordBatch) : RecordBatch :=
  default (batch ReferenceService.session_request) (result_ok r).

Lemma application_through_proxy_witness :
  run_query example_uuid example_clock example_manager 1000 alice fresh_out true
    example_options "SELECT 1" 5 empty_state
  = Ok (reader_schema ref_reader, [Ok (example_rows 7); Ok (example_rows 8)]).
Proof.
  pose proof (application_through_proxy example_uuid example_clock example_manager 1000 alice fresh_out true
    example_options _ _ example_open_batch alice_principal (mkTargetConfig "sqlite" None [] [] false false [] [])
    empty_state (reserve_open example_manager alice_principal empty_state).2 ref_conn tt ref_reader
    result_items result_items result_items result_items "SELECT 1" [example_rows 7; example_rows 8] EndOfStream 5
    eq_refl example_delivered) as Happ.
  destruct Happ as [Hrun|[Hnil _]]; [..|exact Hrun|discriminate Hnil].
  - vm_compute. discriminate.
  - reflexivity.
  - split; reflexivity.
  - reflexivity.
  - reflexivity.
  - reflexivity.
  - exact example_uuid_handle.
  - reflexivity.
  - vm_compute. reflexivity.
  - vm_compute. reflexivity.
  - reflexivity.
  - intros b. reflexivity.
  - intros cursor. reflexivity.
  - exists (bounded_batch (bounded_response (mkSessionResponse "id-0") (response_limit alice))).
    split; vm_compute; reflexivity.
  - exists (bounded_batch (bounded_response (mkStatementResponse "id-0" "iid-0") (response_limit alice))).
    split; vm_compute; reflexivity.
  - exact ok_crosses.
  - exists (bounded_batch (bounded_response
      (mkExecuteResponse "iiid-0" None (schema_message (reader_schema ref_reader))) (response_limit alice))).
    split; vm_compute; reflexivity.
  - reflexivity.
  - reflexivity.
  - reflexivity.
  - reflexivity.
  - eapply yields_batch; [reflexivity|]. eapply yields_batch; [reflexivity|]. eapply yields_end. reflexivity.
  - vm_compute. discriminate.
  - apply Nat.ltb_lt. reflexivity.
Defined.
End Example.
