(* ===== verification/PartitionEndToEnd.v ===== *)
(** * Metadata and partitions through driver and server

    Calls of a connection that answer with a stream of batches ([get_objects],
    [get_table_types], [read_partition], ...) register the native reader as a
    result of the session and read it like the result of a query; a partition
    token that [execute_partitions] issued leads any session of the same
    principal and target to the native partition it was issued for. *)

From S2P Require Import Prelude Adbc WireError Options Arrow Framing Envelope Partitions.
From S2P Require Import Config Backend ResultCursor BindUpload Session SessionSteps Manager.
From S2P Require Import ManagerSteps Rpc Service ServiceSteps Streaming.
From S2P Require Import Reference ReferenceIpc ReferenceBackend ReferenceRpc ReferenceService.
From S2P Require Import ClientOptions Client ClientTheorems EndToEnd OpenEndToEnd SessionEndToEnd.
From S2P Require Import StatementEndToEnd.

Section Readers.
Context `{AdbcCore} `{RustFmt} `{ArrowCrate} `{!IpcCrate} `{FileSystem} `{AdbcOptions} `{!Backend}.
Context `{Base64} `{Hmac} `{VgiRpc} `{!StructCrate} `{!WireRecords}.
Context `{!Json WireAdbcError} `{!Json BindCursor} `{!Json ResultCursor}.
Context (uuid : nat → string) (system_now : Global → nat → Z) (mg : Manager) (max_bind : Z).
Context (ctx : CallContext) (new_out : OutputCollector) (c_char_signed : bool).
#[local] Instance reader_wire : RpcTransport := loopback uuid system_now mg max_bind ctx new_out.

Abbreviation methods := (server_methods uuid system_now mg max_bind).

(** What the server needs to stream results. *)
Record streaming : Prop := mkStreaming {
  sm_collector : emitted new_out = [];
  sm_emits : ∀ b, is_ok (emit new_out b) = true;
  sm_cursors : ∀ cursor, is_ok (to_json (T := ResultCursor) cursor) = true
}.

(** [run] opens a reader that yields what the native reader yields. *)
Definition reads_native (c : RemoteConnection) (turns : nat)
    (run : MState → result AdbcError RemoteReader * MState) (schema : Schema)
    (batches : list RecordBatch) (ending : Ending) (s : MState) : Prop :=
  match run s with
  | (Ok r, s') => rr_schema r = schema
                  ∧ drain c_char_signed c turns r s' = items_of batches (end_of c_char_signed ending)
  | (Err e, _) => batches = [] ∧ end_of c_char_signed ending = FailedWith e
  end.

Context (c : RemoteConnection) (p : string).
Context (Hcaller : principal mg (auth ctx) = Ok p) (Httl : 0 ≤ mg_ttl mg).
Context (Hhttp : transport c = Http) (Hsession : validate_handle (session_id c) = Ok tt).

(** A call whose answer names the result [rid], and the reader on it. *)
Lemma named_result_reads (calls : MState → result AdbcError RecordBatch * MState) rid owner rd w K' resp
    turns batches ending s s1 :
  streaming → validate_handle rid = Ok tt →
  calls s = (Ok resp, s1) → serving mg (session_id c) p (holding mg K') s1 →
  co_world K' = w → co_results K' !! rid = Some (Mutex_new (ResultEntry_new owner rd)) →
  client_decode resp = Ok (mkExecuteResponse rid None (schema_message (reader_schema rd))) →
  yields rd w batches ending → len batches ≤ i64_max → (S (length batches) < turns)%nat →
  reads_native c turns (response ← calls; reader_from_response c_char_signed c response)
    (reader_schema rd) batches ending s.
Proof.
  intros [Hnew Hemit Hjson] Hrid Hcall Hs Hw Hr Hd Hy Hmax Hturns. unfold reads_native.
  unfold mbind at 1, M_bind at 1. rewrite Hcall, (reader_from_named _ _ _ _ _ _ _ Hd).
  apply (reader_over_loopback uuid system_now mg max_bind ctx new_out c_char_signed c (session_id c) p
    rid (ResultEntry_new owner rd) w s1); try done.
  eapply serving_weaken; [|exact Hs]. intros g l rs m (Hgw & _ & _ & -> & _). split; [congruence|].
  split; [done|]. exact Hr.
Qed.

(** ** Calls of the connection *)

(** The native reader becomes a result of the session. *)
Definition native_reader (op : Conn → M World AdbcError NativeReader) : M SState AdbcError (string * Schema) :=
  rd ← with_connection op; insert_result uuid rd.

Definition with_reader (rd : NativeReader) (w' : World) (K : Contents) : Contents :=
  next_uuid (with_results (<[uuid (co_uuids K) := Mutex_new (ResultEntry_new None rd)]> (co_results K))
    (at_world w' K)).

Lemma takes_native_reader op K rd w' :
  Z.of_nat (size (co_results K)) < max_results_per_session (mg_limits mg) →
  op (co_connection K) (co_world K) = (Ok rd, w') →
  takes mg (native_reader op) K (Ok (uuid (co_uuids K), reader_schema rd)) (with_reader rd w' K).
Proof.
  intros Hq Hop. eapply takes_bind; [by apply takes_connection|].
  exact (takes_insert_result uuid mg None rd (at_world w' K) Hq).
Qed.

Lemma takes_reader_error op K e w' :
  op (co_connection K) (co_world K) = (Err e, w') →
  takes mg (native_reader op) K (Err e) (at_world w' K).
Proof. intros Hop. eapply takes_error. by apply takes_connection. Qed.

Lemma reader_answer_Ok a op rid schema resp s1 s2 :
  on_session a (native_reader op) s1 = (Ok (rid, schema), s2) →
  bounded_response (mkExecuteResponse rid None (schema_message schema)) (response_limit ctx) = Ok resp →
  (rd ← via a (with_connection op); insert_reader_response uuid a rd ctx) s1 = (Ok (Some resp), s2).
Proof.
  intros Hon Hresp. unfold insert_reader_response.
  rewrite <-(bind_assoc _ (λ rd, via a (insert_result uuid rd))).
  rewrite (bind_cong _ _ _ s1 (via_bind a (with_connection op) (insert_result uuid) s1)).
  rewrite (via_answer a _ _ _ s1 s2 Hon). unfold result_response, execute_record, mbind, M_bind.
  cbn [encode_schema result_bind]. by rewrite Hresp.
Qed.

Lemma reader_answer_Err a op e s1 s2 :
  on_session a (native_reader op) s1 = (Err e, s2) →
  (rd ← via a (with_connection op); insert_reader_response uuid a rd ctx) s1 = (Err (adbc_rpc_error e), s2).
Proof.
  intros Hon. unfold insert_reader_response.
  rewrite <-(bind_assoc _ (λ rd, via a (insert_result uuid rd))).
  rewrite (bind_cong _ _ _ s1 (via_bind a (with_connection op) (insert_result uuid) s1)).
  by rewrite (via_answer a _ _ _ s1 s2 Hon).
Qed.

(** From [s], [run] is the native call [op] on the connection: its error
    reaches the application, and its reader is read to the end. *)
Definition streams_native (run : MState → result AdbcError RemoteReader * MState)
    (op : Conn → M World AdbcError NativeReader) (K : Contents) (s : MState) : Prop :=
  (∀ e w', op (co_connection K) (co_world K) = (Err e, w') →
     (run s).1 = Err (rpc_error c_char_signed (adbc_rpc_error e)))
  ∧ ∀ rd w' batches ending turns,
      op (co_connection K) (co_world K) = (Ok rd, w') → yields rd w' batches ending →
      crosses_bounded ctx (mkExecuteResponse (uuid (co_uuids K)) None (schema_message (reader_schema rd))) →
      len batches ≤ i64_max → (S (length batches) < turns)%nat →
      reads_native c turns run (reader_schema rd) batches ending s.

Context (Hstream : streaming).

(** The session has room for a result, whose name is well formed. *)
Definition roomy (K : Contents) : Prop :=
  validate_handle (uuid (co_uuids K)) = Ok tt
  ∧ Z.of_nat (size (co_results K)) < max_results_per_session (mg_limits mg).

(** A request to a handler that makes a native reader a result. *)
Lemma request_streams name params handler rq op K s :
  find_method name methods = Some (Unary params handler) → name ∉ acknowledged → roomy K →
  (∀ r K' rb, takes mg (native_reader op) K r K' →
     (∀ a s1 s2, on_session a (native_reader op) s1 = (r, s2) →
        (rd ← via a (with_connection op); insert_reader_response uuid a rd ctx) s1 = (rb, s2)) →
     ∃ s', handler (as_request rq) ctx s = (rb, s') ∧ serving mg (session_id c) p (holding mg K') s') →
  streams_native (response ← call c_char_signed c name rq; reader_from_response c_char_signed c response) op K s.
Proof.
  intros Hm Hn [Hrid Hq] Hh. split.
  - intros e w' Hop.
    destruct (Hh _ _ (Err (adbc_rpc_error e)) (takes_reader_error op K e w' Hop)
      (λ a, reader_answer_Err a op e)) as (s' & Hrun & _).
    unfold mbind at 1, M_bind at 1.
    rewrite (call_reaches uuid system_now mg max_bind ctx new_out c_char_signed c name params handler rq s Hhttp Hm).
    by rewrite Hrun.
  - intros rd w' batches ending turns Hop Hy (resp & Hresp & Hdec) Hmax Hturns.
    destruct (Hh _ _ (Ok (Some resp)) (takes_native_reader op K rd w' Hq Hop)
      (λ a s1 s2 Hon, reader_answer_Ok a op _ _ resp s1 s2 Hon Hresp)) as (s' & Hrun & Hs').
    eapply named_result_reads; [done|exact Hrid| |exact Hs'|done|apply lookup_insert_eq|done..].
    rewrite (call_reaches uuid system_now mg max_bind ctx new_out c_char_signed c name params handler rq s Hhttp Hm).
    rewrite Hrun. cbn [seen map_err mbind result_bind ok_or].
    unfold check_acknowledged. by rewrite bool_decide_eq_false_2.
Qed.

Lemma session_streams name (f : Request → CallContext → nat → string → M MState RpcError (option RecordBatch)) op K s :
  find_method name methods = Some (Unary session_schema (λ rq ctx, with_session mg rq ctx (f rq ctx))) →
  name ∉ acknowledged → roomy K →
  (∀ rq a id s1, f rq ctx a id s1 = (rd ← via a (with_connection op); insert_reader_response uuid a rd ctx) s1) →
  serving mg (session_id c) p (holding mg K) s →
  streams_native (session_stream_call c_char_signed c name) op K s.
Proof.
  intros Hm Hn HK Hf Hs. unfold session_stream_call.
  assert (session_request (session_id c) = Ok (mkRecordBatch session_schema [string_column (session_id c)] 1)) as Hrq.
  { by apply arrow_result_row; [|repeat constructor]. }
  rewrite Hrq.
  apply (request_streams name session_schema _ (mkRecordBatch session_schema [string_column (session_id c)] 1)
    op K s Hm Hn HK).
  intros r K' rb Htakes Hrb.
  apply (session_handled uuid mg ctx (session_id c) p K K' (native_reader op) r);
    [done..|by apply request_string_read|done| |done].
  intros a s1 s2 Hon. rewrite Hf. by apply Hrb.
Qed.

Lemma typed_streams {T} `{!VgiArrow T} `{!RequestRecord T} name (name_of : T → string)
    (f : CallContext → nat → T → M MState RpcError (option RecordBatch)) (args : T) rq op K s :
  find_method name methods
    = Some (Unary (envelope_schema "request") (λ rq ctx, with_typed mg name_of rq ctx (f ctx))) →
  name ∉ acknowledged → roomy K →
  client_typed_request args = Ok rq → request_fits rq → name_of args = session_id c →
  (∀ a s1, f ctx a args s1 = (rd ← via a (with_connection op); insert_reader_response uuid a rd ctx) s1) →
  serving mg (session_id c) p (holding mg K) s →
  streams_native (connection_stream_call c_char_signed c name args) op K s.
Proof.
  intros Hm Hn HK Hrq Hfits Hid Hf Hs. unfold connection_stream_call. rewrite Hrq.
  apply (request_streams name _ _ rq op K s Hm Hn HK). intros r K' rb Htakes Hrb.
  apply (typed_handled uuid mg ctx name_of (session_id c) p K K' (native_reader op) r rq args); [done..| |done].
  intros a s1 s2 Hon. rewrite Hf. by apply Hrb.
Qed.

(** ** Reading a partition *)

Lemma on_session_ret a s : is_Some (session_at s a) → on_session a (mret tt) s = (Ok tt, s).
Proof.
  unfold session_at. intros [y Hy]. unfold on_session. destruct (m_heap s !! a) as [[n x]|] eqn:Hx; [|done].
  simpl. rewrite (insert_id _ _ _ Hx). by destruct s.
Qed.

Lemma takes_ret K : takes mg (mret tt) K (Ok tt) K.
Proof. intros st Hst. exists st. by split. Qed.

(** What [open] makes of the token at the session of the caller. *)
Definition opened_as (t : string) (token : bytes) (s : MState) : result AdbcError bytes :=
  Partitions.open (mg_partition_signer mg) (system_now (m_global s) 0) t p token MAX_CONTROL_BYTES.

Definition partition_request (token : bytes) : RecordBatch :=
  mkRecordBatch connection_binary_schema [string_column (session_id c); binary_column token] 1.

(** The handler, up to the native call. *)
Lemma read_partition_run t token s a s1 x :
  get mg (session_id c) p s = (Ok a, s1) → m_global s1 = m_global s →
  session_at s1 a = Some x → s_target x = t → s_principal x = p →
  read_partition uuid system_now mg (as_request (partition_request token)) ctx s
  = let '(r, s2) :=
      (partition ← mlift (map_err adbc_rpc_error (opened_as t token s));
       rd ← via a (with_connection (λ c, conn_read_partition c partition));
       insert_reader_response uuid a rd ctx) s1 in (r, drop_arc a s2).
Proof.
  intros Hget Hg Hx <- Hxp. unfold read_partition, with_session, get_session.
  rewrite driver_version_accepted, Hcaller.
  rewrite (request_string_read (partition_request token) "session_id" (session_id c)) by done.
  assert (∀ A (f : nat → string → M MState RpcError A),
    ('(a, session_id) ← (mlift (Ok tt);; p ← mlift (Ok p); session_id ← mlift (Ok (session_id c));
       a ← adbc (get mg session_id p); mret (a, session_id)); f a session_id) s = f a (session_id c) s1) as Hacq.
  { intros A f. unfold mbind, M_bind, mlift, adbc, mmap_err. by rewrite Hget. }
  rewrite (Hacq _ (λ a _, releasing a _)). unfold releasing.
  assert (request_binary (as_request (partition_request token)) "payload" = Ok token) as -> by done.
  unfold held_session, read_clock, mgets. unfold mbind at 1, M_bind at 1, mlift at 1.
  unfold mbind at 1, M_bind at 1. rewrite Hx. unfold mbind at 1, M_bind at 1.
  unfold open_partition, opened_as. by rewrite Hg, Hxp.
Qed.

Lemma read_partition_streams t token d K s :
  serving mg (session_id c) p (holding mg K) s → located (session_id c) t s → roomy K →
  opened_as t token s = Ok d →
  streams_native (connection_read_partition c_char_signed c token) (λ conn, conn_read_partition conn d) K s.
Proof.
  intros Hs Hloc HK Hopen. unfold connection_read_partition.
  assert (connection_binary_request (session_id c) token = Ok (partition_request token)) as Hrq.
  { by apply arrow_result_row; [|repeat constructor]. }
  rewrite Hrq.
  apply (request_streams method.READ_PARTITION connection_binary_schema (read_partition uuid system_now mg)
    (partition_request token) (λ conn, conn_read_partition conn d) K s); [done| |done|].
  { unfold acknowledged. set_solver. }
  intros r K' rb Htakes Hrb.
  destruct (serving_on uuid mg (session_id c) p _ _ s (native_reader (λ conn, conn_read_partition conn d)) r Httl Hs Htakes)
    as (a & s1 & s2 & Hget & Hon & Hs' & Hg & Hfor).
  destruct (Hfor t Hloc) as [(x & Hx & Hxt & Hxp) _].
  exists (drop_arc a s2). split; [|exact Hs'].
  rewrite (read_partition_run t token s a s1 x Hget Hg Hx Hxt Hxp), Hopen.
  unfold mlift. unfold mbind at 1, M_bind at 1. cbn [map_err].
  by rewrite (Hrb a s1 s2 Hon).
Qed.

(** A token of somebody else, forged or expired, is refused before the driver is called. *)
Lemma read_partition_refuses t token e K s :
  serving mg (session_id c) p (holding mg K) s → located (session_id c) t s →
  opened_as t token s = Err e →
  ∃ s', connection_read_partition c_char_signed c token s
        = (Err (rpc_error c_char_signed (adbc_rpc_error e)), s')
    ∧ serving mg (session_id c) p (holding mg K) s'.
Proof.
  intros Hs Hloc Hopen. unfold connection_read_partition.
  assert (connection_binary_request (session_id c) token = Ok (partition_request token)) as Hrq.
  { by apply arrow_result_row; [|repeat constructor]. }
  rewrite Hrq. unfold mlift. unfold mbind at 1, M_bind at 1. unfold mbind at 1, M_bind at 1.
  destruct (serving_on uuid mg (session_id c) p _ _ s (mret tt) (Ok tt) Httl Hs (takes_ret K))
    as (a & s1 & s2 & Hget & Hon & Hs' & Hg & Hfor).
  destruct (Hfor t Hloc) as [(x & Hx & Hxt & Hxp) _].
  rewrite (on_session_ret a s1) in Hon by (by exists x). injection Hon as <-.
  exists (drop_arc a s1). split; [|exact Hs'].
  assert (call c_char_signed c method.READ_PARTITION (partition_request token) s
    = (Err (rpc_error c_char_signed (adbc_rpc_error e)), drop_arc a s1)) as ->; [|done].
  etrans; [exact (call_reaches uuid system_now mg max_bind ctx new_out c_char_signed c method.READ_PARTITION
    connection_binary_schema (read_partition uuid system_now mg) (partition_request token) s Hhttp eq_refl)|].
  by rewrite (read_partition_run t token s a s1 x Hget Hg Hx Hxt Hxp), Hopen.
Qed.

(** ** Issuing tokens *)

(** The token was sealed at [issued] for the caller's session. *)
Definition issued_at (t : string) (d token : bytes) (issued : Z) : Prop :=
  ∃ limit, seal (mg_partition_signer mg) issued t p d limit = Ok token.

Lemma seal_partitions_issue x clock n remaining ds tokens :
  s_principal x = p → seal_partitions mg x clock n remaining ds = Ok tokens →
  Forall2 (λ d token, ∃ issued, issued_at (s_target x) d token issued) ds tokens.
Proof.
  intros Hp. revert n remaining tokens. induction ds as [|d ds IH]; intros n remaining tokens; simpl;
    [by intros [= <-]|]. intros Hs. inv_ok. constructor; [|by eapply IH].
  exists (clock n), remaining. rewrite <-Hp. done.
Qed.

(** What [execute_partitions] replies once the statement has run. *)
Definition partitions_reply (x : Session) (clock : nat → Z) (executed : PartitionedResult Schema)
  : result RpcError RecordBatch :=
  schema ← map_err protocol_rpc_error (encode_schema (pr_schema executed));
  remaining ← ok_or (usize_checked_sub (response_limit ctx) (len schema)) exceeds_limit;
  partitions ← seal_partitions mg x clock 0 remaining (Backend.pr_partitions executed);
  map_err protocol_rpc_error (bounded_response
    (mkPartitionsResponse (Backend.pr_rows_affected executed) schema partitions) (response_limit ctx)).

Lemma partitions_replied a x executed s :
  session_at s a = Some x →
  (schema ← mlift (map_err protocol_rpc_error (encode_schema (pr_schema executed)));
   remaining ← mlift (ok_or (usize_checked_sub (response_limit ctx) (len schema)) exceeds_limit);
   x ← held_session a;
   clock ← mgets (λ s, system_now (m_global s));
   partitions ← mlift (seal_partitions mg x clock 0 remaining (Backend.pr_partitions executed));
   reply (map_err protocol_rpc_error (bounded_response
     (mkPartitionsResponse (Backend.pr_rows_affected executed) schema partitions) (response_limit ctx)))) s
  = (Some <$> partitions_reply x (system_now (m_global s)) executed, s).
Proof.
  intros Hx. unfold partitions_reply. cbn [encode_schema map_err].
  unfold mlift, held_session, mgets, reply, mbind, M_bind, result_bind, mret, M_ret. rewrite Hx.
  destruct (ok_or _ _) as [remaining|e]; [|done].
  destruct (seal_partitions _ _ _ _ _ _) as [tokens|e]; [|done].
  by destruct (bounded_response _ _).
Qed.

Lemma execute_partitions_run stid stmt cancel t K r w' s :
  validate_handle stid = Ok tt → registered stid stmt cancel K →
  serving mg (session_id c) p (holding mg K) s → located (session_id c) t s →
  stmt_execute_partitions stmt (co_world K) = (r, w') →
  ∃ s' x clock, s_target x = t ∧ s_principal x = p
    ∧ execute_partitions system_now mg
        (as_request (mkRecordBatch statement_schema [string_column (session_id c); string_column stid] 1)) ctx s
      = (Some <$> replied (partitions_reply x clock) r, s')
    ∧ serving mg (session_id c) p
        (holding mg (at_world w' (with_results (retain_others stid (co_results K)) K))) s'.
Proof.
  intros Hstid Hst Hs Hloc Hop.
  destruct (serving_on uuid mg (session_id c) p _ _ s
    (invalidate_statement_results stid;; with_statement stid stmt_execute_partitions) r Httl Hs
    (takes_execution mg stid stmt cancel _ K r w' Hst Hop))
    as (a & s1 & s2 & Hget & Hon & Hs' & Hg & Hfor).
  destruct (Hfor t Hloc) as [_ (x & Hx & Hxt & Hxp)].
  exists (drop_arc a s2), x, (system_now (m_global s2)). split; [done|]. split; [done|]. split; [|exact Hs'].
  unfold execute_partitions, with_session, get_session.
  rewrite driver_version_accepted, Hcaller.
  rewrite (request_string_read _ "session_id" (session_id c)) by done.
  rewrite (request_string_read _ "statement_id" stid) by done.
  assert (∀ A (f : nat → string → M MState RpcError A),
    ('(a, session_id) ← (mlift (Ok tt);; p ← mlift (Ok p); session_id ← mlift (Ok (session_id c));
       a ← adbc (get mg session_id p); mret (a, session_id)); f a session_id) s = f a (session_id c) s1) as Hacq.
  { intros A f. unfold mbind, M_bind, mlift, adbc, mmap_err. by rewrite Hget. }
  rewrite (Hacq _ (λ a _, releasing a _)). unfold releasing.
  rewrite mlift_bind, via_seq.
  rewrite (via_answer a _ r _ s1 s2 Hon). destruct r as [executed|e]; [|done].
  unfold replied. by rewrite (partitions_replied a x executed s2 Hx).
Qed.

(** The driver decodes the partitions the server sends. *)
Definition partitions_cross (executed : PartitionedResult Schema) : Prop :=
  ∀ tokens resp,
    let value := mkPartitionsResponse (Backend.pr_rows_affected executed)
                   (schema_message (pr_schema executed)) tokens in
    bounded_response value (response_limit ctx) = Ok resp → client_decode resp = Ok value.

(** What the application may be told when the native statement answered [r]. *)
Definition partitions_answer (t : string) (r : result AdbcError (PartitionedResult Schema))
    (ans : result AdbcError (PartitionedResult Schema)) : Prop :=
  match r, ans with
  | Err e, _ => ans = Err (rpc_error c_char_signed (adbc_rpc_error e))
  | Ok executed, Ok seen =>
      pr_schema seen = pr_schema executed
      ∧ Backend.pr_rows_affected seen = Backend.pr_rows_affected executed
      ∧ Forall2 (λ d token, ∃ issued, issued_at t d token issued)
          (Backend.pr_partitions executed) (Backend.pr_partitions seen)
  | Ok _, Err _ => True
  end.

Lemma partitions_decoded x clock t executed b :
  s_target x = t → s_principal x = p → partitions_cross executed →
  partitions_reply x clock executed = Ok b →
  partitions_answer t (Ok executed)
    (response ← client_decode (T := PartitionsResponse) b;
     schema ← client_decode_schema (pr_schema_ipc response);
     Ok (mkPartitionedResult (Options.pr_partitions response) schema (Options.pr_rows_affected response))).
Proof.
  intros <- Hxp Hcross. unfold partitions_reply. cbn [encode_schema map_err]. intros Hb. inv_ok. simplify_eq.
  rewrite (Hcross _ _ Hb). cbn [mbind result_bind pr_schema_ipc]. unfold client_decode_schema.
  rewrite (decode_encode_schema (pr_schema executed)) by done. cbn [map_err].
  split; [done|]. split; [done|]. by eapply seal_partitions_issue.
Qed.

Lemma execute_partitions_answer stid stmt cancel t K r w' s :
  validate_handle stid = Ok tt → registered stid stmt cancel K →
  serving mg (session_id c) p (holding mg K) s → located (session_id c) t s →
  (∀ executed, r = Ok executed → partitions_cross executed) →
  stmt_execute_partitions stmt (co_world K) = (r, w') →
  ∃ ans s', statement_execute_partitions c_char_signed (mkGrainliftStatement c stid) s = (ans, s')
    ∧ partitions_answer t r ans
    ∧ serving mg (session_id c) p
        (holding mg (at_world w' (with_results (retain_others stid (co_results K)) K))) s'.
Proof.
  intros Hstid Hst Hs Hloc Hcross Hop.
  destruct (execute_partitions_run stid stmt cancel t K r w' s Hstid Hst Hs Hloc Hop)
    as (s' & x & clock & Hxt & Hxp & Hrun & Hs').
  set (rq := mkRecordBatch statement_schema [string_column (session_id c); string_column stid] 1) in Hrun.
  set (rb := replied (partitions_reply x clock) r) in Hrun.
  assert (statement_call c_char_signed (mkGrainliftStatement c stid) method.EXECUTE_PARTITIONS s
    = (seen c_char_signed rb, s')) as Hcall.
  { unfold statement_call, request_of. cbn [st_remote st_statement_id].
    assert (statement_request (session_id c) stid = Ok rq) as -> by (by apply arrow_result_row; [|repeat constructor]).
    rewrite mlift_bind.
    etrans; [exact (call_reaches uuid system_now mg max_bind ctx new_out c_char_signed c method.EXECUTE_PARTITIONS
      statement_schema (execute_partitions system_now mg) rq s Hhttp eq_refl)|].
    rewrite Hrun. by destruct rb as [b|e]. }
  set (read := λ b, response ← client_decode (T := PartitionsResponse) b;
     schema ← client_decode_schema (pr_schema_ipc response);
     Ok (mkPartitionedResult (Options.pr_partitions response) schema (Options.pr_rows_affected response))).
  exists (b ← seen c_char_signed rb; read b), s'. split; [|split; [|exact Hs']].
  - unfold statement_execute_partitions. unfold mbind at 1, M_bind at 1. rewrite Hcall.
    destruct (seen c_char_signed rb) as [b|e]; [|done]. unfold read, mlift, mbind, M_bind, result_bind.
    destruct (client_decode b) as [response|]; [|done]. by destruct (client_decode_schema _).
  - unfold rb. destruct r as [executed|e]; [|done]. simpl.
    destruct (partitions_reply x clock executed) as [b|e] eqn:Hb; [|done]. cbn [seen map_err mbind result_bind].
    by apply (partitions_decoded x clock t executed b); [..|apply Hcross|].
Qed.
End Readers.

(** ** Main theorems *)

Section Main.
Context `{AdbcCore} `{RustFmt} `{ArrowCrate} `{!IpcCrate} `{FileSystem} `{AdbcOptions} `{!Backend}.
Context `{Base64} `{Hmac} `{VgiRpc} `{!StructCrate} `{!WireRecords}.
Context `{!Json WireAdbcError} `{!Json BindCursor} `{!Json ResultCursor}.
Context (uuid : nat → string) (system_now : Global → nat → Z) (mg : Manager) (max_bind : Z).
Context (ctx : CallContext) (new_out : OutputCollector) (c_char_signed : bool).
#[local] Instance metadata_wire : RpcTransport := loopback uuid system_now mg max_bind ctx new_out.
Abbreviation streams_native := (streams_native uuid system_now mg max_bind ctx new_out c_char_signed).

(** C15: the catalog of the native connection is what the application sees:
    table types, statistic names, objects and statistics asked for through the
    proxy are asked once of the native connection with the same arguments, a
    native error reaches the application as the wire carries it, and the reader
    it gets yields the native reader's batches in order and then its end or
    error. *)
Theorem metadata_through_proxy c p K s :
  principal mg (auth ctx) = Ok p → 0 ≤ mg_ttl mg → transport c = Http →
  validate_handle (session_id c) = Ok tt → streaming new_out → roomy uuid mg K →
  serving mg (session_id c) p (holding mg K) s →
  streams_native c (connection_get_table_types c_char_signed c) conn_get_table_types K s
  ∧ streams_native c (connection_get_statistic_names c_char_signed c) conn_get_statistic_names K s
  ∧ (∀ depth d catalog db_schema table types column rq,
       object_depth_try_from (wrap_signed 32 depth) = Ok d →
       client_typed_request
         (mkGetObjectsRequest (session_id c) depth catalog db_schema table types column) = Ok rq →
       request_fits rq →
       streams_native c (connection_get_objects c_char_signed c depth catalog db_schema table types column)
         (λ conn, conn_get_objects conn d catalog db_schema table types column) K s)
  ∧ (∀ catalog db_schema table approximate rq,
       client_typed_request
         (mkGetStatisticsRequest (session_id c) catalog db_schema table approximate) = Ok rq →
       request_fits rq →
       streams_native c (connection_get_statistics c_char_signed c catalog db_schema table approximate)
         (λ conn, conn_get_statistics conn catalog db_schema table approximate) K s).
Proof.
  intros Hp Httl Ht Hid Hstream HK Hs. split_and!.
  - eapply (session_streams uuid system_now mg max_bind ctx new_out c_char_signed c p Hp Httl Ht Hid Hstream);
      [reflexivity| |exact HK|done|exact Hs]. unfold acknowledged. set_solver.
  - eapply (session_streams uuid system_now mg max_bind ctx new_out c_char_signed c p Hp Httl Ht Hid Hstream);
      [reflexivity| |exact HK|done|exact Hs]. unfold acknowledged. set_solver.
  - intros depth d catalog db_schema table types column rq Hd Hrq Hfits.
    eapply (typed_streams uuid system_now mg max_bind ctx new_out c_char_signed c p Hp Httl Ht Hid Hstream
      method.GET_OBJECTS go_session_id); [reflexivity| |exact HK|exact Hrq|done|done| |exact Hs].
    + unfold acknowledged. set_solver.
    + intros a s1. cbn [go_depth]. by rewrite Hd.
  - intros catalog db_schema table approximate rq Hrq Hfits.
    eapply (typed_streams uuid system_now mg max_bind ctx new_out c_char_signed c p Hp Httl Ht Hid Hstream
      method.GET_STATISTICS gs_session_id); [reflexivity| |exact HK|exact Hrq|done|done| |exact Hs].
    + unfold acknowledged. set_solver.
    + by intros a s1.
Qed.

(** C14: a partition the proxy issues is the native partition, for its owner
    only.  Executing partitions runs the native statement once and answers with
    its schema, its row count and one sealed token per native descriptor, in
    order; on any session of the same principal and target such a token, until it
    expires, reads the native partition of its descriptor; and a token the signer
    refuses there (forged, expired, of another principal or target) is refused
    before the native driver is called, leaving the session as it was. *)
Theorem partitions_through_proxy c p t K s :
  principal mg (auth ctx) = Ok p → 0 ≤ mg_ttl mg → transport c = Http →
  validate_handle (session_id c) = Ok tt →
  serving mg (session_id c) p (holding mg K) s → located (session_id c) t s →
  (∀ stid stmt cancel r w', validate_handle stid = Ok tt → registered stid stmt cancel K →
     (∀ executed, r = Ok executed → partitions_cross ctx executed) →
     stmt_execute_partitions stmt (co_world K) = (r, w') →
     ∃ ans s', statement_execute_partitions c_char_signed (mkGrainliftStatement c stid) s = (ans, s')
       ∧ partitions_answer mg c_char_signed p t r ans
       ∧ serving mg (session_id c) p
           (holding mg (at_world w' (with_results (retain_others stid (co_results K)) K))) s')
  ∧ (∀ d token issued ms ms', streaming new_out → roomy uuid mg K →
       issued_at mg p t d token issued → slice_ok token → len token ≤ MAX_CONTROL_BYTES →
       token_memory token ≤ MAX_CONTROL_BYTES - 36 →
       now_ms issued = Ok ms → now_ms (system_now (m_global s) 0) = Ok ms' →
       ms' < ms + as_millis (ttl (mg_partition_signer mg)) →
       streams_native c (connection_read_partition c_char_signed c token)
         (λ conn, conn_read_partition conn d) K s)
  ∧ (∀ token e, opened_as system_now mg p t token s = Err e →
       ∃ s', connection_read_partition c_char_signed c token s
             = (Err (rpc_error c_char_signed (adbc_rpc_error e)), s')
         ∧ serving mg (session_id c) p (holding mg K) s').
Proof.
  intros Hp Httl Ht Hid Hs Hloc. split_and!.
  - intros stid stmt cancel r w' Hstid Hst Hcross Hop.
    by apply (execute_partitions_answer uuid system_now mg max_bind ctx new_out c_char_signed c p Hp Httl Ht Hid
      stid stmt cancel t K r w').
  - intros d token issued ms ms' Hstream HK [limit Hseal] Hslice Hlen Hmem Hms Hms' Hlive.
    apply (read_partition_streams uuid system_now mg max_bind ctx new_out c_char_signed c p Hp Httl Ht Hid Hstream t
      token d K s Hs Hloc HK).
    unfold opened_as. by rewrite (open_sealed _ _ _ _ _ _ _ _ _ _ _ Hslice Hseal Hlen Hmem _ _ _ Hms Hms').
  - intros token e Hopen.
    by apply (read_partition_refuses uuid system_now mg max_bind ctx new_out c_char_signed c p Hp Httl Ht Hid t).
Qed.
End Main.

(** ** Examples *)

Section Example.
#[local] Existing Instance simple_core.
#[local] Existing Instance simple_fmt.
#[local] Existing Instance ref_arrow.
#[local] Existing Instance ref_ipc.
#[local] Existing Instance ref_files.
#[local] Existing Instance ref_options.
#[local] Existing Instance ref_backend.
#[local] Existing Instance ref_base64.
#[local] Existing Instance ref_hmac.
#[local] Existing Instance ref_rpc.
#[local] Existing Instance ref_struct.
#[local] Existing Instance ref_records.
#[local] Existing Instance ref_json_error.
#[local] Existing Instance ref_json_bind.
#[local] Existing Instance ref_json_result.

#[local] Instance example_metadata_wire : RpcTransport :=
  loopback example_uuid example_clock example_manager 1000 alice fresh_out.

Lemma example_streaming : streaming fresh_out.
Proof. split; [reflexivity|intros b; reflexivity|intros cursor; reflexivity]. Qed.

Lemma example_roomy : roomy example_uuid example_manager example_contents.
Proof. split; [reflexivity|]. reflexivity. Qed.

Lemma example_located : located "id-0" "orders" statement_state.
Proof. exists 0%nat, statement_session. repeat split; reflexivity. Qed.

Lemma example_result_crosses :
  crosses_bounded alice (mkExecuteResponse "id-0" None (schema_message (reader_schema ref_reader))).
Proof.
  exists (bounded_batch (bounded_response
    (mkExecuteResponse "id-0" None (schema_message (reader_schema ref_reader))) (response_limit alice))).
  split; vm_compute; reflexivity.
Qed.

Lemma example_yields :
  yields ref_reader result_items [example_rows 7; example_rows 8] EndOfStream.
Proof. eapply yields_batch; [reflexivity|]. eapply yields_batch; [reflexivity|]. eapply yields_end. reflexivity. Qed.

Definition rows_read (run : MState → result AdbcError RemoteReader * MState) : Prop :=
  reads_native example_uuid example_clock example_manager 1000 alice fresh_out true remote 5 run
    (reader_schema ref_reader) [example_rows 7; example_rows 8] EndOfStream statement_state.

Lemma metadata_through_proxy_witness : rows_read (connection_get_table_types true remote).
Proof.
  pose proof (metadata_through_proxy example_uuid example_clock example_manager 1000 alice fresh_out true
    remote alice_principal example_contents statement_state eq_refl) as Hmeta.
  destruct Hmeta as [[_ Htypes] _]; [vm_compute; discriminate|reflexivity|reflexivity|exact example_streaming
    |exact example_roomy|exact example_holding|].
  apply (Htypes ref_reader result_items); [reflexivity|exact example_yields|exact example_result_crosses|..].
  - vm_compute. discriminate.
  - apply Nat.ltb_lt. reflexivity.
Defined.

(** A token for a partition of [alice], issued at the time it is read. *)
Definition alice_token : bytes :=
  Eval vm_compute in
    default [] (result_ok (seal (mg_partition_signer example_manager) 5000000 "orders" alice_principal
      [Byte.x00; Byte.xff] 65536)).

Lemma partitions_through_proxy_witness : rows_read (connection_read_partition true remote alice_token).
Proof.
  destruct (partitions_through_proxy example_uuid example_clock example_manager 1000 alice fresh_out true
    remote alice_principal "orders" example_contents statement_state eq_refl) as (_ & Hread & _);
    [vm_compute; discriminate|reflexivity|reflexivity|exact example_holding|exact example_located|].
  destruct (Hread [Byte.x00; Byte.xff] alice_token 5000000 5 5 example_streaming example_roomy) as [_ Hrows].
  - exists 65536. vm_compute. reflexivity.
  - vm_compute. discriminate.
  - vm_compute. discriminate.
  - vm_compute. discriminate.
  - vm_compute. reflexivity.
  - vm_compute. reflexivity.
  - vm_compute. reflexivity.
  - apply (Hrows ref_reader result_items); [reflexivity|exact example_yields|exact example_result_crosses|..].
    + vm_compute. discriminate.
    + apply Nat.ltb_lt. reflexivity.
Defined.
End Example.
