(* ===== verification/HandlesEndToEnd.v ===== *)
(** * Dropping the handles of a connection, through driver and server

    What the server still holds for an application that drops its statements,
    readers and connections, in whatever order: over [loopback] each [Drop] closes
    its statement or result, and the last one closes the session. *)

From S2P Require Import Prelude RefCounts Adbc WireError Options Arrow Framing Envelope Partitions.
From S2P Require Import Config Backend ResultCursor BindUpload Session SessionSteps Manager.
From S2P Require Import ManagerSteps LeaseTable ManagerRefinement Rpc Service ServiceSteps Streaming ServiceTheorems.
From S2P Require Import Reference ReferenceIpc ReferenceBackend ReferenceRpc ReferenceService.
From S2P Require Import ClientOptions Client ClientTheorems ClientHandles EndToEnd OpenEndToEnd.
From S2P Require Import SessionEndToEnd StatementEndToEnd.

Section Drops.
Context `{AdbcCore} `{RustFmt} `{ArrowCrate} `{!IpcCrate} `{FileSystem} `{AdbcOptions} `{!Backend}.
Context `{Base64} `{Hmac} `{VgiRpc} `{!StructCrate} `{!WireRecords}.
Context `{!Json WireAdbcError} `{!Json BindCursor} `{!Json ResultCursor}.
Context (uuid : nat → string) (system_now : Global → nat → Z) (mg : Manager) (max_bind : Z).
Context (ctx : CallContext) (new_out : OutputCollector) (c_char_signed : bool).
#[local] Instance drop_wire : RpcTransport := loopback uuid system_now mg max_bind ctx new_out.

(** ** What the session loses *)

Definition without_statement (stid : string) (K : Contents) : Contents :=
  mkContents (co_world K) (co_uuids K) (co_connection K) (delete stid (co_statements K))
    (retain_others stid (co_results K)) (uploads_of_others stid (co_uploads K)).

(** The session after a handle was dropped; a statement it does not know is left alone. *)
Definition after_drop (h : Handle) (K : Contents) : Contents :=
  match h with
  | ConnectionHandle | Upgraded => K
  | StatementHandle stid =>
      match co_statements K !! stid with Some _ => without_statement stid K | None => K end
  | ReaderHandle r => with_results (delete (rr_result_id r) (co_results K)) K
  end.

(** Handles that name what the server named. *)
Definition handle_ok (h : Handle) : Prop :=
  match h with
  | ConnectionHandle | Upgraded => True
  | StatementHandle stid => validate_handle stid = Ok tt
  | ReaderHandle r => validate_handle (rr_result_id r) = Ok tt
  end.

Lemma takes_drop_uploads stid K :
  takes mg (uploads ← lock_uploads; mmodify (set_uploads (uploads_of_others stid uploads))) K (Ok tt)
    (mkContents (co_world K) (co_uuids K) (co_connection K) (co_statements K) (co_results K)
       (uploads_of_others stid (co_uploads K))).
Proof.
  intros st (Ho & Hb & Hw & Hu & Hl & Hr & Hm). unfold lock_uploads, mbind, M_bind, lock, mmodify.
  rewrite Hm. simpl. eexists. split; [done|]. unfold ready, holding, same_session. simpl. by rewrite Hm.
Qed.

Lemma takes_close_statement stid K :
  takes mg (close_statement stid) K
    (match co_statements K !! stid with Some _ => Ok tt | None => Err (not_found "statement") end)
    (after_drop (StatementHandle stid) K).
Proof.
  unfold close_statement, after_drop. destruct (co_statements K !! stid) as [entry|] eqn:Hst.
  - eapply (takes_bind mg _ _ _ tt (with_statements (delete stid (co_statements K)) K)).
    { apply takes_call; [|done]. unfold close_statement_job, lock_statements, lock, mbind, M_bind. simpl. by rewrite Hst. }
    eapply takes_bind; [apply takes_invalidate|]. apply takes_drop_uploads.
  - apply takes_error. apply takes_call; [|done].
    unfold close_statement_job, lock_statements, lock, mbind, M_bind. simpl. by rewrite Hst.
Qed.

Lemma takes_close_result rid K :
  takes mg (close_result rid) K
    (match co_results K !! rid with Some _ => Ok tt | None => Err (not_found "result") end)
    (with_results (delete rid (co_results K)) K).
Proof.
  apply takes_call; [|done]. unfold close_result_job, lock_results, lock, mbind, M_bind. simpl.
  destruct (co_results K !! rid) eqn:Hr; [done|]. rewrite delete_id by done. by destruct K.
Qed.

(** ** The requests of [Drop] *)

(** What a call leaves is what its handler leaves, whatever the answer. *)
Lemma call_leaves c name params handler rq s :
  transport c = Http →
  find_method name (server_methods uuid system_now mg max_bind) = Some (Unary params handler) →
  (call c_char_signed c name rq s).2 = (handler (as_request rq) ctx s).2.
Proof.
  intros Ht Hm. etrans.
  - exact (f_equal snd (call_reaches uuid system_now mg max_bind ctx new_out c_char_signed c name params handler rq s Ht Hm)).
  - by destruct (handler (as_request rq) ctx s).
Qed.

Section Connection.
Context (c : RemoteConnection) (p : string).
Context (Hcaller : principal mg (auth ctx) = Ok p) (Httl : 0 ≤ mg_ttl mg).
Context (Hhttp : transport c = Http) (Hsession : validate_handle (session_id c) = Ok tt).

(** Whatever the handler answers, the session is left as its operation left it. *)
Lemma best_effort_serving name params (f : Request → nat → string → M MState RpcError (option RecordBatch))
    fields columns (op : M SState AdbcError unit) r K K' s :
  find_method name (server_methods uuid system_now mg max_bind)
    = Some (Unary params (λ rq ctx, with_session mg rq ctx (f rq))) →
  takes mg op K r K' → fields ≠ [] → Forall2 (λ f c, column_fits 1 f c = true) fields columns →
  request_string (as_request (mkRecordBatch fields columns 1)) "session_id" = Ok (session_id c) →
  (∀ a s, f (as_request (mkRecordBatch fields columns 1)) a (session_id c) s = (via a op;; reply ok_batch) s) →
  serving mg (session_id c) p (holding mg K) s →
  serving mg (session_id c) p (holding mg K')
    (best_effort c_char_signed c name (arrow_result (try_new fields columns)) s).
Proof.
  intros Hm Hop Hne Hfits Hid Hf Hs. unfold best_effort. rewrite arrow_result_row by done.
  rewrite (call_leaves c name params _ _ s Hhttp Hm).
  set (rb := match r with Ok _ => Some <$> ok_batch | Err e => Err (adbc_rpc_error e) end : result RpcError (option RecordBatch)).
  assert (handled mg (with_session mg (as_request (mkRecordBatch fields columns 1)) ctx
    (f (as_request (mkRecordBatch fields columns 1)))) (session_id c) p K rb K') as Hrun.
  { eapply (session_handled uuid); [done..|exact Hop|]. intros a s1 s2 Hon.
    rewrite Hf, (via_answer a op r (λ _, reply ok_batch) s1 s2 Hon). unfold reply, rb. destruct r; [|done]. by destruct ok_batch. }
  destruct (Hrun s Hs) as (s' & Heq & Hs'). cbv beta. by rewrite Heq.
Qed.

Lemma drop_statement_serving stid K s :
  validate_handle stid = Ok tt → serving mg (session_id c) p (holding mg K) s →
  serving mg (session_id c) p (holding mg (after_drop (StatementHandle stid) K))
    (drop_statement c_char_signed (mkGrainliftStatement c stid) s).
Proof.
  intros Hst. eapply (best_effort_serving method.CLOSE_STATEMENT statement_schema _ _ _ (close_statement stid));
    [done|apply takes_close_statement|done|repeat constructor| |].
  - by apply request_string_read.
  - intros a s'. cbv beta. by rewrite (request_string_read _ "statement_id" stid) by done.
Qed.

Lemma close_reader_serving r K s :
  validate_handle (rr_result_id r) = Ok tt → serving mg (session_id c) p (holding mg K) s →
  serving mg (session_id c) p (holding mg (after_drop (ReaderHandle r) K)) (close_reader c_char_signed c r s).
Proof.
  intros Hr. eapply (best_effort_serving method.CLOSE_RESULT Arrow.result_schema _ _ _ (close_result (rr_result_id r)));
    [done|apply takes_close_result|done|repeat constructor| |].
  - by apply request_string_read.
  - intros a s'. cbv beta. by rewrite (request_string_read _ "result_id" (rr_result_id r)) by done.
Qed.

(** The close of the connection removes its session. *)
Lemma drop_connection_removes P s :
  serving mg (session_id c) p P s →
  sessions (registry (drop_connection c_char_signed c s)) !! session_id c = None.
Proof.
  intros Hs. destruct Hs as [Hh _ (a & n & x & t & Hid & Hx & Hxp & _)].
  unfold drop_connection, best_effort, Client.session_request. rewrite arrow_result_row by first [done | repeat constructor].
  rewrite (call_leaves c method.CLOSE_CONNECTION session_schema (close_connection mg) _ s Hhttp) by done.
  assert ((close (session_id c) p s).1 = Ok tt) as Hok.
  { eapply (close_own uuid); [done|exact Hid|]. unfold principal_at, session_at. by rewrite Hx, <-Hxp. }
  pose proof (close_removes (session_id c) p s Hh Hok) as Hgone.
  unfold close_connection. rewrite driver_version_accepted, Hcaller. unfold mbind, M_bind, mlift, adbc, mmap_err.
  rewrite (request_string_read _ "session_id" (session_id c)) by done. cbn [map_err].
  destruct (close (session_id c) p s) as [[[]|e] s']; [|done]. simpl. unfold reply. by destruct ok_batch.
Qed.

(** ** Drops of the application *)

(** One of several handles is dropped. *)
Lemma drop_shared l h k K (s : AppState) :
  ap_remotes s !! l = Some (S (S k), c) → handle_ok h → serving mg (session_id c) p (holding mg K) (ap_net s) →
  ap_remotes (drop_handle c_char_signed l h s) !! l = Some (S k, c)
  ∧ serving mg (session_id c) p (holding mg (after_drop h K)) (ap_net (drop_handle c_char_signed l h s)).
Proof.
  intros Hl Hok Hs.
  destruct h as [|stid|r|]; simpl; unfold on_remote_ignored, release_remote; rewrite ?Hl; simpl; rewrite ?Hl; simpl;
    rewrite lookup_insert_eq; (split; [done|]).
  - done.
  - by apply drop_statement_serving.
  - unfold drop_mode. destruct (rr_mode r) as [|[]]; by apply close_reader_serving.
  - done.
Qed.

(** The last one is dropped. *)
Lemma drop_last l h K (s : AppState) :
  ap_remotes s !! l = Some (1%nat, c) → handle_ok h → serving mg (session_id c) p (holding mg K) (ap_net s) →
  ap_remotes (drop_handle c_char_signed l h s) !! l = None
  ∧ sessions (registry (ap_net (drop_handle c_char_signed l h s))) !! session_id c = None.
Proof.
  intros Hl Hok Hs.
  destruct h as [|stid|r|]; simpl; unfold on_remote_ignored, release_remote; rewrite ?Hl; simpl; rewrite ?Hl; simpl;
    rewrite lookup_delete_eq; (split; [done|]).
  - by eapply drop_connection_removes.
  - by eapply drop_connection_removes, drop_statement_serving.
  - unfold drop_mode. destruct (rr_mode r) as [|[]]; by eapply drop_connection_removes, close_reader_serving.
  - by eapply drop_connection_removes.
Qed.

(** C10: an application that drops its handles gives everything back.  Drop the
    connections, statements and readers of one connection in any order: as long as
    one is left the server serves the session, holding exactly what it held less
    the dropped statements, their results and uploads, and the dropped results;
    and when none is left the session is gone from the server. *)
Theorem dropped_handles_release_session l hs rest K (s : AppState) :
  ap_remotes s !! l = Some (length (hs ++ rest), c) → hs ++ rest ≠ [] → Forall handle_ok hs →
  serving mg (session_id c) p (holding mg K) (ap_net s) →
  let s' := drop_all c_char_signed l hs s in
  match rest with
  | [] => ap_remotes s' !! l = None ∧ sessions (registry (ap_net s')) !! session_id c = None
  | _ => ap_remotes s' !! l = Some (length rest, c)
         ∧ serving mg (session_id c) p (holding mg (foldl (λ K h, after_drop h K) K hs)) (ap_net s')
  end.
Proof.
  intros Hl Hne Hok Hs. revert K s Hl Hs. induction Hok as [|h hs Hh Hhs IH]; intros K s Hl Hs; [by destruct rest|].
  destruct (decide (hs ++ rest = [])) as [[-> ->]%app_eq_nil|Hmore].
  - by eapply drop_last.
  - destruct (hs ++ rest) as [|h' more] eqn:Heq; [done|]. simpl in Hl. rewrite Heq in Hl. simpl in Hl.
    destruct (drop_shared l h (length more) K s Hl Hh Hs) as [Hl' Hs']. simpl. by apply IH.
Qed.
End Connection.
End Drops.

(** ** Examples *)

Section Example.
#[local] Existing Instance simple_core.
#[local] Existing Instance simple_fmt.
#[local] Existing Instance ref_arrow.
#[local] Existing Instance ref_ipc.
#[local] Existing Instance ref_files.
#[local] Existing Instance ref_options.
#[local] Existing Instance ref_backend.
#[local] Existing Instance ref_base64.
#[local] Existing Instance ref_hmac.
#[local] Existing Instance ref_rpc.
#[local] Existing Instance ref_struct.
#[local] Existing Instance ref_records.
#[local] Existing Instance ref_json_error.
#[local] Existing Instance ref_json_bind.
#[local] Existing Instance ref_json_result.

#[local] Instance example_drop_wire : RpcTransport :=
  loopback example_uuid example_clock example_manager 1000 alice fresh_out.

(** A connection and a statement of it. *)
Definition example_handles : AppState := mkAppState statement_state {[0%nat := (2%nat, remote)]} 1 [].

Lemma dropped_handles_release_session_witness :
  sessions (registry statement_state) !! "id-0" = Some 0%nat
  ∧ sessions (registry (ap_net
      (drop_all true 0 [ConnectionHandle; StatementHandle "s1"] example_handles))) !! "id-0" = None.
Proof.
  split; [reflexivity|].
  apply (dropped_handles_release_session example_uuid example_clock example_manager 1000 alice fresh_out true
    remote alice_principal eq_refl ltac:(vm_compute; discriminate) eq_refl eq_refl 0
    [ConnectionHandle; StatementHandle "s1"] [] example_contents example_handles).
  - reflexivity.
  - discriminate.
  - repeat constructor.
  - exact example_holding.
Defined.
End Example.
