(* ===== verification/ByteEndToEnd.v ===== *)
(** * The two transports compared

    The driver speaks HTTP or a byte stream.  [SameServer] and
    [SameExchanges] say when a byte transport reaches the server an HTTP one does: the client code is
    proved against it, and [byte_loopback], a byte transport whose server keeps
    the cursors of its streams, implements it for [loopback].  Reading a result
    is different on the two transports, so it has a theorem of its own. *)

From S2P Require Import Prelude Adbc WireError Options Arrow Framing Envelope Partitions.
From S2P Require Import Config Backend ResultCursor BindUpload Session SessionSteps Manager.
From S2P Require Import ManagerSteps Rpc Service ServiceSteps Streaming.
From S2P Require Import Reference ReferenceIpc ReferenceBackend ReferenceRpc ReferenceService.
From S2P Require Import ClientOptions Client ClientTheorems EndToEnd OpenEndToEnd SessionEndToEnd.
From S2P Require Import StatementEndToEnd PartitionEndToEnd HandlesEndToEnd BindEndToEnd.

(** ** Two runs of one program *)

Section Agreement.
Context {N N' : Type} (project : N → N').

(** Both answer, with related values or with the same error. *)
Definition alike {E A A'} (R : A → A' → Prop) (r : result E A) (r' : result E A') : Prop :=
  match r, r' with
  | Ok x, Ok y => R x y
  | Err e, Err e' => e = e'
  | _, _ => False
  end.

(** From states that correspond, answers and states that correspond. *)
Definition agrees {E A A'} (R : A → A' → Prop) (m : M N E A) (m' : M N' E A') : Prop := ∀ n,
  alike R (m n).1 (m' (project n)).1 ∧ project (m n).2 = (m' (project n)).2.

Lemma agrees_ret {E A A'} (R : A → A' → Prop) x y : R x y → agrees (E := E) R (mret x) (mret y).
Proof. by intros HR n. Qed.

Lemma agrees_lift {E A} (r : result E A) : agrees eq (mlift r) (mlift r).
Proof. intros n. by destruct r. Qed.

Lemma agrees_bind {E A A' B B'} (R : A → A' → Prop) (Q : B → B' → Prop) (m : M N E A) (m' : M N' E A') k k' :
  agrees R m m' → (∀ x y, R x y → agrees Q (k x) (k' y)) → agrees Q (m ≫= k) (m' ≫= k').
Proof.
  intros Hm Hk n. destruct (Hm n) as [HR Hn]. unfold mbind, M_bind.
  destruct (m n) as [[x|e] n1], (m' (project n)) as [[y|e'] s1]; simpl in *; try done; subst s1.
  by apply Hk.
Qed.

Lemma agrees_map_err {E F A A'} (R : A → A' → Prop) (f : E → F) (m : M N E A) (m' : M N' E A') :
  agrees R m m' → agrees R (mmap_err f m) (mmap_err f m').
Proof.
  intros Hm n. destruct (Hm n) as [HR Hn]. unfold mmap_err.
  destruct (m n) as [[x|e] n1], (m' (project n)) as [[y|e'] s1]; simpl in *; naive_solver.
Qed.

(** The answers are equal, and so is what the other side is left in. *)
Lemma agrees_eq {E A} (m : M N E A) (m' : M N' E A) n :
  agrees eq m m' → ∃ n', m n = ((m' (project n)).1, n') ∧ project n' = (m' (project n)).2.
Proof.
  intros Hm. destruct (Hm n) as [HR Hn]. exists (m n).2. split; [|done].
  destruct (m n) as [[x|e] n1], (m' (project n)) as [[y|e'] s1]; simpl in *; naive_solver.
Qed.
End Agreement.

(** ** The interface *)

(** The transport [B] reaches the server the transport [T] reaches: [project]
    is that server. *)
Class SameServer `{AdbcCore} `{VgiRpc} (B T : RpcTransport) : Type := {
  project : Net (RpcTransport := B) → Net (RpcTransport := T);
  project_client : agrees project eq (mret tt) (build_client (RpcTransport := T));
  project_unary : ∀ name rq,
    agrees project eq (call_unary (RpcTransport := B) name rq) (call_unary (RpcTransport := T) name rq)
}.

(** [stands_for h t n] relates an exchange open over [B] to its counterpart. *)
Class SameExchanges `{AdbcCore} `{VgiRpc} (B T : RpcTransport) `{!SameServer B T} : Type := {
  stands_for : ExchangeHandle (RpcTransport := B) → ExchangeHandle (RpcTransport := T) →
    Net (RpcTransport := B) → Prop;
  project_open : ∀ name rq n,
    let '(r, n1) := open_exchange (RpcTransport := B) name rq n in
    let '(r', s1) := open_exchange (RpcTransport := T) name rq (project n) in
    project n1 = s1 ∧ alike (λ h t, stands_for h t n1) r r';
  project_turn : ∀ h t turn n, stands_for h t n →
    let '(r, n1) := exchange_turn (RpcTransport := B) h turn n in
    let '(r', s1) := exchange_turn (RpcTransport := T) t turn (project n) in
    r = r' ∧ project n1 = s1 ∧ stands_for h t n1;
  project_cancel : ∀ h t n, stands_for h t n →
    project (exchange_cancel (RpcTransport := B) h n) = exchange_cancel (RpcTransport := T) t (project n)
}.

(** ** The client over such a transport *)

Section Clients.
Context `{AdbcCore} `{RustFmt} `{ArrowCrate} `{!IpcCrate} `{AdbcOptions} `{Base64} `{VgiRpc}.
Context `{!StructCrate} `{!WireRecords} `{!Json WireAdbcError}.
Context (B T : RpcTransport) `{!SameServer B T} (c_char_signed : bool).

Abbreviation Alike := (agrees (project (B := B) (T := T))).

(** The same session over HTTP and over a byte stream. *)
Definition over (t : RemoteTransport) (c : RemoteConnection) : RemoteConnection :=
  mkRemoteConnection t (session_id c) (max_bind_bytes c).
Definition byte : RemoteTransport := Byte (Mutex_new tt).

Lemma transport_call_alike name rq :
  Alike eq (transport_call (H8 := B) c_char_signed byte name rq)
    (transport_call (H8 := T) c_char_signed Http name rq).
Proof.
  eapply agrees_bind; [|intros ? ? _; apply agrees_map_err, project_unary].
  exact (agrees_map_err _ eq (rpc_error c_char_signed) (mret tt) _ project_client).
Qed.

Lemma call_alike c name rq :
  Alike eq (call (H8 := B) c_char_signed (over byte c) name rq)
    (call (H8 := T) c_char_signed (over Http c) name rq).
Proof.
  eapply agrees_bind; [apply transport_call_alike|]. intros b ? <-.
  eapply agrees_bind; [apply agrees_lift|]. intros ? ? _. by apply agrees_ret.
Qed.

(** ** Every other call *)

Lemma best_effort_alike c name rq n :
  project (best_effort (H8 := B) c_char_signed (over byte c) name rq n)
  = best_effort (H8 := T) c_char_signed (over Http c) name rq (project n).
Proof. destruct rq as [rq|e]; [|done]. apply call_alike. Qed.

Definition same_remote (x y : RemoteConnection) : Prop := x = over byte y ∧ y = over Http y.
Definition same_statement (x y : GrainliftStatement) : Prop :=
  same_remote (st_remote x) (st_remote y) ∧ st_statement_id x = st_statement_id y.

Lemma open_remote_alike r :
  Alike same_remote (open_remote (H8 := B) c_char_signed byte r) (open_remote (H8 := T) c_char_signed Http r).
Proof.
  eapply agrees_bind; [apply agrees_lift|]. intros rq ? <-.
  eapply agrees_bind; [apply transport_call_alike|]. intros b ? <-.
  eapply agrees_bind; [apply agrees_lift|]. intros session ? <-. by apply agrees_ret.
Qed.

Lemma new_statement_alike c :
  Alike same_statement (connection_new_statement (H8 := B) c_char_signed (over byte c))
    (connection_new_statement (H8 := T) c_char_signed (over Http c)).
Proof.
  eapply agrees_bind; [apply agrees_lift|]. intros rq ? <-.
  eapply agrees_bind; [apply call_alike|]. intros b ? <-.
  eapply agrees_bind; [apply agrees_lift|]. intros response ? <-. by apply agrees_ret.
Qed.

(** ** Binding *)

Context `{!SameExchanges B T}.

(** Two runs on an exchange and its counterpart, which stay open. *)
Definition tracks {E A} (h : ExchangeHandle (RpcTransport := B)) (t : ExchangeHandle (RpcTransport := T))
    (m : M (Net (RpcTransport := B)) E A) (m' : M (Net (RpcTransport := T)) E A) : Prop :=
  ∀ n, stands_for h t n →
    let '(r, n1) := m n in let '(r', s1) := m' (project n) in
    r = r' ∧ project n1 = s1 ∧ stands_for h t n1.

Lemma tracks_lift {E A} h t (r : result E A) : tracks h t (mlift r) (mlift r).
Proof. by intros n Hn. Qed.

Lemma tracks_bind {E A A'} h t (m : M _ E A) m' (k : A → M _ E A') k' :
  tracks h t m m' → (∀ x, tracks h t (k x) (k' x)) → tracks h t (m ≫= k) (m' ≫= k').
Proof.
  intros Hm Hk n Hn. specialize (Hm n Hn). unfold mbind, M_bind.
  destruct (m n) as [r n1], (m' (project n)) as [r' s1]. destruct Hm as (<- & <- & Hn1).
  destruct r as [x|e]; [by apply Hk|done].
Qed.

Lemma send_turn_tracks h t turn :
  tracks h t (send_turn (H8 := B) c_char_signed h turn) (send_turn (H8 := T) c_char_signed t turn).
Proof.
  apply tracks_bind; [|intros ack; apply tracks_bind; [|intros b]; apply tracks_lift].
  intros n Hn. pose proof (project_turn h t turn n Hn) as Ht. unfold net, mmap_err.
  destruct (exchange_turn h turn n) as [r n1], (exchange_turn t turn (project n)) as [r' s1].
  by destruct Ht as (<- & <- & Hn1).
Qed.

Lemma send_batches_tracks h t max limit logical encoded items :
  tracks h t (send_batches (H8 := B) c_char_signed h max limit logical encoded items)
    (send_batches (H8 := T) c_char_signed t max limit logical encoded items).
Proof.
  revert logical encoded. induction items as [|item items IH]; intros logical encoded;
    (apply tracks_bind; [apply tracks_lift|]); [intros finish; apply send_turn_tracks|].
  intros [[turn logical'] encoded']. apply tracks_bind; [apply send_turn_tracks|]. intros _. apply IH.
Qed.

Lemma bind_batches_alike c name stid schema items :
  Alike eq (bind_batches (H8 := B) c_char_signed (over byte c) name stid schema items)
    (bind_batches (H8 := T) c_char_signed (over Http c) name stid schema items).
Proof.
  eapply agrees_bind; [apply agrees_lift|]. intros schema_ipc ? <-.
  eapply agrees_bind; [apply agrees_lift|]. intros init ? <-.
  eapply agrees_bind; [exact (agrees_map_err _ eq (rpc_error c_char_signed) (mret tt) _ project_client)|].
  intros _ _ _ n. unfold mbind, M_bind, net, mmap_err.
  pose proof (project_open name init n) as Ho.
  destruct (open_exchange name init n) as [r n1], (open_exchange name init (project n)) as [r' s1].
  destruct Ho as [<- Ho]. destruct r as [h|e], r' as [t|e']; simpl in Ho |- *; [|done|done|by subst].
  unfold mprim. cbn [max_bind_bytes over].
  pose proof (send_batches_tracks h t (max_bind_bytes c) (Z.min (max_bind_bytes c) MAX_CONTROL_BYTES) 0 0 items
    n1 Ho) as Hs.
  destruct (send_batches (H8 := B) _ _ _ _ _ _ _ n1) as [r n2], (send_batches (H8 := T) _ _ _ _ _ _ _ _) as [r' s2].
  destruct Hs as (<- & <- & Hn2). destruct r as [v|e]; [done|]. split; [done|]. by apply project_cancel.
Qed.

End Clients.

(** Calls that are unary calls and pure steps agree step by step. *)
Ltac alike_steps :=
  repeat first [ apply call_alike | apply agrees_lift | eapply (agrees_bind _ eq); [|intros ? ? <-] | by apply agrees_ret ].

(** ** A byte transport that delivers *)

Section ByteLoopback.
Context `{AdbcCore} `{RustFmt} `{ArrowCrate} `{!IpcCrate} `{FileSystem} `{AdbcOptions} `{!Backend}.
Context `{Base64} `{Hmac} `{VgiRpc} `{!StructCrate} `{!WireRecords}.
Context `{!Json WireAdbcError} `{!Json BindCursor} `{!Json ResultCursor}.
Context (uuid : nat → string) (system_now : Global → nat → Z) (mg : Manager) (max_bind : Z).
Context (ctx : CallContext) (new_out : OutputCollector).

(** The server keeps the state of an open stream itself. *)
Inductive ByteStream : Type := Producing (cursor : ResultCursor) | Exchanging (cursor : BindCursor).

Record ByteNet : Type := mkByteNet {
  bn_server : MState; bn_streams : gmap nat ByteStream; bn_next : nat
}.

Definition at_server (s : MState) (n : ByteNet) : ByteNet := mkByteNet s (bn_streams n) (bn_next n).
Definition keep_stream (h : nat) (stream : ByteStream) (n : ByteNet) : ByteNet :=
  mkByteNet (bn_server n) (<[h := stream]> (bn_streams n)) (bn_next n).
Definition end_stream (h : nat) (n : ByteNet) : ByteNet :=
  mkByteNet (bn_server n) (delete h (bn_streams n)) (bn_next n).

Definition on_server {E A} (m : M MState E A) : M ByteNet E A := λ n,
  let '(r, s) := m (bn_server n) in (r, at_server s n).

Definition new_stream (stream : ByteStream) : M ByteNet RpcError nat := λ n,
  (Ok (bn_next n), mkByteNet (bn_server n) (<[bn_next n := stream]> (bn_streams n)) (S (bn_next n))).

Definition byte_open_producer (name : string) (b : RecordBatch) : M ByteNet RpcError nat :=
  stream ← on_server (serve_stream uuid system_now mg max_bind ctx name b);
  match stream with
  | ProducerStream _ cursor => new_stream (Producing cursor)
  | ExchangeStream _ _ _ => mthrow no_method
  end.

Definition byte_open_exchange (name : string) (b : RecordBatch) : M ByteNet RpcError nat :=
  stream ← on_server (serve_stream uuid system_now mg max_bind ctx name b);
  match stream with
  | ExchangeStream _ _ cursor => new_stream (Exchanging cursor)
  | ProducerStream _ _ => mthrow no_method
  end.

(** A turn of a producer; the stream is over when it says so or fails. *)
Definition byte_tick (h : nat) : M ByteNet RpcError (option RecordBatch) := λ n,
  match bn_streams n !! h with
  | Some (Producing cursor) =>
      let '(r, n) := on_server (produce mg cursor new_out ctx) n in
      match r with
      | Ok (cursor, out) =>
          (Ok (head (emitted out)), if out_finished out then end_stream h n else keep_stream h (Producing cursor) n)
      | Err e => (Err e, end_stream h n)
      end
  | _ => (Err no_method, n)
  end.

Definition byte_producer_cancel (h : nat) (n : ByteNet) : ByteNet :=
  match bn_streams n !! h with
  | Some (Producing cursor) => end_stream h (on_server (producer_on_cancel mg cursor ctx) n).2
  | _ => n
  end.

Definition byte_exchange_turn (h : nat) (turn : RecordBatch) : M ByteNet RpcError (option RecordBatch) := λ n,
  match bn_streams n !! h with
  | Some (Exchanging cursor) =>
      on_server (out ← exchange mg cursor turn new_out ctx; mret (head (emitted out))) n
  | _ => (Err no_method, n)
  end.

Definition byte_exchange_cancel (h : nat) (n : ByteNet) : ByteNet :=
  match bn_streams n !! h with
  | Some (Exchanging cursor) => end_stream h (on_server (exchange_on_cancel mg cursor ctx) n).2
  | _ => n
  end.

Definition byte_loopback : RpcTransport := {|
  Net := ByteNet;
  build_client := mthrow no_method;
  call_unary name b := on_server (serve_unary uuid system_now mg max_bind ctx name b);
  ExchangeHandle := nat;
  open_exchange := byte_open_exchange;
  exchange_turn := byte_exchange_turn;
  exchange_cancel := byte_exchange_cancel;
  ProducerHandle := nat;
  open_producer := byte_open_producer;
  resume_stream _ _ n := (bn_next n, n);
  next_with_token _ := mthrow no_method;
  is_finished _ _ := false;
  tick := byte_tick;
  producer_cancel := byte_producer_cancel;
  connector_connect := mret tt;
  spawn_thread := mret tt
|}.

Abbreviation http := (loopback uuid system_now mg max_bind ctx new_out).

Lemma on_server_alike {E A} (m : M MState E A) : agrees bn_server eq (on_server m) m.
Proof. intros n. unfold on_server. destruct (m (bn_server n)) as [[x|e] s]; done. Qed.

#[export] Instance byte_server : SameServer byte_loopback http := {|
  project := bn_server : Net (RpcTransport := byte_loopback) → Net (RpcTransport := http);
  project_client := agrees_ret bn_server eq tt tt eq_refl;
  project_unary name rq := on_server_alike (serve_unary uuid system_now mg max_bind ctx name rq)
|}.

Hypothesis Hjson : ∀ cursor, is_ok (to_json (T := BindCursor) cursor) = true.

(** An exchange is its cursor, kept by the server or written in a token. *)
Definition same_cursor (h : nat) (token : string) (n : ByteNet) : Prop :=
  ∃ cursor, bn_streams n !! h = Some (Exchanging cursor) ∧ exchange_decode_state (as_bytes token) = Ok cursor.

Lemma byte_open_alike name rq n :
  let '(r, n1) := byte_open_exchange name rq n in
  let '(r', s1) := serve_open_exchange uuid system_now mg max_bind ctx name rq (bn_server n) in
  bn_server n1 = s1 ∧ alike (λ h t, same_cursor h t n1) r r'.
Proof.
  unfold byte_open_exchange, serve_open_exchange, on_server, mbind, M_bind.
  destruct (serve_stream uuid system_now mg max_bind ctx name rq (bn_server n)) as [[[|? ? cursor]|e] s]; [done| |done].
  specialize (Hjson cursor). destruct (to_json cursor) as [t|] eqn:Ht; [|done].
  destruct (bind_cursor_token _ _ Ht) as (Henc & Hback & Hdec).
  unfold mlift. rewrite Henc. simpl. rewrite Hback. split; [done|]. exists cursor. simpl. by rewrite lookup_insert_eq.
Qed.

Lemma byte_turn_alike h t turn n :
  same_cursor h t n →
  let '(r, n1) := byte_exchange_turn h turn n in
  let '(r', s1) := serve_exchange mg ctx new_out t turn (bn_server n) in
  r = r' ∧ bn_server n1 = s1 ∧ same_cursor h t n1.
Proof.
  intros (cursor & Hh & Ht). unfold byte_exchange_turn, serve_exchange. rewrite Hh, Ht.
  unfold on_server, mlift. unfold mbind at 2, M_bind at 2.
  destruct ((out ← exchange mg cursor turn new_out ctx; mret (head (emitted out))) (bn_server n)) as [r s].
  split_and!; [done..|]. by exists cursor.
Qed.

Lemma byte_cancel_alike h t n :
  same_cursor h t n →
  bn_server (byte_exchange_cancel h n) = serve_cancel_exchange mg ctx t (bn_server n).
Proof.
  intros (cursor & Hh & Ht). unfold byte_exchange_cancel, serve_cancel_exchange. rewrite Hh, Ht.
  unfold on_server. by destruct (exchange_on_cancel mg cursor ctx (bn_server n)).
Qed.

#[export] Instance byte_exchanges : SameExchanges byte_loopback http := {|
  stands_for := same_cursor : ExchangeHandle (RpcTransport := byte_loopback) →
    ExchangeHandle (RpcTransport := http) → Net (RpcTransport := byte_loopback) → Prop;
  project_open := byte_open_alike;
  project_turn := byte_turn_alike;
  project_cancel := byte_cancel_alike
|}.
End ByteLoopback.

(** ** Reading a result *)

Section ByteReading.
Context `{AdbcCore} `{RustFmt} `{ArrowCrate} `{!IpcCrate} `{FileSystem} `{AdbcOptions} `{!Backend}.
Context `{Base64} `{Hmac} `{VgiRpc} `{!StructCrate} `{!WireRecords}.
Context `{!Json WireAdbcError} `{!Json BindCursor} `{!Json ResultCursor}.
Context (uuid : nat → string) (system_now : Global → nat → Z) (mg : Manager) (max_bind : Z).
Context (ctx : CallContext) (new_out : OutputCollector) (c_char_signed : bool).
#[local] Instance byte_wire : RpcTransport := byte_loopback uuid system_now mg max_bind ctx new_out.
Abbreviation http_wire := (loopback uuid system_now mg max_bind ctx new_out).

Context (c : RemoteConnection) (p : string).
Context (Hcaller : principal mg (auth ctx) = Ok p) (Httl : 0 ≤ mg_ttl mg).
Context (Hbyte : transport c = byte) (Hsession : validate_handle (session_id c) = Ok tt).

(** The server of [n] serves the session with contents [K]. *)
Definition served (K : Contents) (n : ByteNet) : Prop :=
  serving mg (session_id c) p (holding mg K) (bn_server n).

(** A server's collector starts empty and open and takes every batch. *)
Record collecting : Prop := mkCollecting {
  cl_empty : emitted new_out = [];
  cl_open : out_finished new_out = false;
  cl_takes : ∀ b, is_ok (emit new_out b) = true
}.

Lemma takes_next_result rid entry k K r entry' w' :
  co_results K !! rid = Some (Mutex_new entry) → result_next k (entry, co_world K) = (r, (entry', w')) →
  takes mg (next_result rid k) K r
    (at_world w' (with_results (<[rid := Mutex_new entry']> (co_results K)) K)).
Proof.
  intros Hr Hn. apply takes_call; [|done].
  unfold next_result_job, mbind, M_bind, lock_results, lock, mlift. simpl. rewrite Hr. cbn -[result_next advance_result].
  unfold advance_result. cbn -[result_next]. by rewrite Hn.
Qed.

Lemma takes_result_schema rid entry K :
  co_results K !! rid = Some (Mutex_new entry) → takes mg (result_schema rid) K (Ok (re_schema entry)) K.
Proof.
  intros Hr. apply takes_call; [|done].
  unfold result_schema_job, mbind, M_bind, lock_results, lock, mlift. simpl. by rewrite Hr.
Qed.

(** One turn of the producer. *)
Lemma produce_holding rid k entry K r entry' w' s :
  co_results K !! rid = Some (Mutex_new entry) → result_next k (entry, co_world K) = (r, (entry', w')) →
  serving mg (session_id c) p (holding mg K) s →
  let turn :=
    match r with
    | Ok (Some b) => (λ out, (mkResultCursor (session_id c) rid (wrap_signed 64 (k + 1)), out)) <$> emit new_out b
    | Ok None => Ok (mkResultCursor (session_id c) rid k, out_finish new_out)
    | Err e => Err (adbc_rpc_error e)
    end in
  ∃ s', produce mg (mkResultCursor (session_id c) rid k) new_out ctx s = (turn, s')
    ∧ serving mg (session_id c) p
        (holding mg (at_world w' (with_results (<[rid := Mutex_new entry']> (co_results K)) K))) s'.
Proof.
  intros Hr Hn Hs turn. unfold produce. cbn [rc_session_id rc_result_id rc_sequence].
  eapply (by_id_serving uuid mg ctx (session_id c) p _ _ s (next_result rid k) r); 
    [done|done|done|exact (takes_next_result rid entry k K r entry' w' Hr Hn)|].
  intros a s1 s2 Hon. rewrite (via_answer a _ r _ s1 s2 Hon). unfold turn.
  destruct r as [[b|]|e]; [|done..]. unfold mlift, mbind, M_bind. by destruct (emit new_out b).
Qed.

Definition reading_request (rid : string) : RecordBatch :=
  mkRecordBatch read_result_schema [string_column (session_id c); string_column rid; Int64Array [Some 0]] 1.

Lemma read_result_holding rid entry K s :
  validate_handle rid = Ok tt → co_results K !! rid = Some (Mutex_new entry) →
  serving mg (session_id c) p (holding mg K) s →
  ∃ s', read_result mg (as_request (reading_request rid)) ctx s
      = (Ok (ProducerStream (re_schema entry) (mkResultCursor (session_id c) rid 0)), s')
    ∧ serving mg (session_id c) p (holding mg K) s'.
Proof.
  intros Hrid Hr. revert s.
  apply (session_handled uuid mg ctx (session_id c) p K K (result_schema rid) (Ok (re_schema entry)));
    [done|done|by apply request_string_read|by apply takes_result_schema|].
  intros a s1 s2 Hon. rewrite (request_string_read _ "result_id" rid) by done. rewrite mlift_bind.
  assert (batch_int64_value (batch (as_request (reading_request rid))) "sequence" = Ok 0) as -> by done.
  cbn [map_err]. rewrite mlift_bind. by rewrite (via_answer a _ _ _ s1 s2 Hon).
Qed.

(** [K] with the result [rid] as [entry], in the native world [w]. *)
Definition with_result (rid : string) (entry : ResultEntry) (w : World) (K : Contents) : Contents :=
  at_world w (with_results (<[rid := Mutex_new entry]> (co_results K)) K).

Definition producing (h : nat) (rid : string) (k : Z) (n : ByteNet) : Prop :=
  bn_streams n !! h = Some (Producing (mkResultCursor (session_id c) rid k)).

Context (Hcollects : collecting).

Lemma byte_tick_holding h rid k entry w K n r entry' w' :
  served (with_result rid entry w K) n → producing h rid k n → result_next k (entry, w) = (r, (entry', w')) →
  ∃ n', byte_tick mg ctx new_out h n = (map_err adbc_rpc_error r, n')
    ∧ served (with_result rid entry' w' K) n'
    ∧ ∀ b, r = Ok (Some b) → producing h rid (wrap_signed 64 (k + 1)) n'.
Proof.
  destruct Hcollects as [Hempty Hopen Htakes]. intros Hs Hh Hn. unfold byte_tick. rewrite Hh.
  destruct (produce_holding rid k entry (with_result rid entry w K) r entry' w' (bn_server n))
    as (s' & Hturn & Hs'); [apply lookup_insert_eq|done|done|].
  unfold on_server. rewrite Hturn.
  assert (serving mg (session_id c) p (holding mg (with_result rid entry' w' K)) s') as Hs2.
  { unfold with_result in *. simpl in Hs'. by rewrite insert_insert_eq in Hs'. }
  destruct r as [[b|]|e].
  - specialize (Htakes b). destruct (emit new_out b) as [out|] eqn:Hout; [|done].
    destruct (emit_emitted _ _ _ Hout) as [Hb Hfin]. simpl. rewrite Hfin, Hopen, Hb, Hempty.
    eexists. split; [done|]. split; [exact Hs2|]. intros b' _. unfold producing. simpl. by rewrite lookup_insert_eq.
  - destruct (out_finish_emitted new_out) as [He Hf]. simpl. rewrite Hf, He, Hempty.
    eexists. split; [done|]. by split.
  - eexists. split; [done|]. by split.
Qed.

(** The stream of a result, tick by tick. *)
Lemma byte_ticks h rid batches ending k entry w K n :
  served (with_result rid entry w K) n → producing h rid k n →
  fresh_at entry k → yields (reader entry) w batches ending → 0 ≤ k → k + len batches ≤ i64_max →
  ticks c_char_signed h n batches (end_of c_char_signed ending).
Proof.
  revert k entry w n. induction batches as [|b batches IH]; intros k entry w n Hs Hh Hfresh Hy Hpos Hmax.
  - inversion Hy as [w1 w' Hr|w1 w' error Hr|]; subst;
      (edestruct (byte_tick_holding h rid k entry w K n) as (n' & Htick & _);
        [done|done|rewrite (fresh_fetch _ _ _ Hfresh); unfold fetch; by rewrite Hr|]).
    + by eapply ticks_end.
    + by eapply ticks_error.
  - inversion Hy as [| |w1 w' b0 bs e Hr Hy']; subst. rewrite len_cons in Hmax. pose proof (len_nonneg batches).
    destruct (fresh_batch entry w w' k b) as (entry' & Hfirst & _ & Hfresh' & Hreader); [done|lia|done|].
    destruct (byte_tick_holding h rid k entry w K n _ _ _ Hs Hh Hfirst) as (n' & Htick & Hs' & Hh').
    eapply ticks_batch; [exact Htick|]. eapply IH; [exact Hs'| |exact Hfresh'|by rewrite Hreader|lia|lia].
    rewrite <-(wrap_signed_succ k) by lia. by apply (Hh' b).
Qed.

(** ** Opening, reading and dropping a reader *)

(** The reader after [k] calls of [next], whatever they answered. *)
Fixpoint after_reads (k : nat) (r : RemoteReader) (n : ByteNet) : RemoteReader * ByteNet :=
  match k with
  | O => (r, n)
  | S k => let '(_, r, n) := reader_next_item c_char_signed c r n in after_reads k r n
  end.

(** A reader of [rid]: its stream is over, or at some place of the result. *)
Definition reads_result (rid : string) (K : Contents) (r : RemoteReader) (n : ByteNet) : Prop :=
  rr_result_id r = rid
  ∧ (∃ entry w, served (with_result rid entry w K) n)
  ∧ (rr_mode r = ByteMode ReaderStopped
     ∨ ∃ h k, rr_mode r = ByteMode (ReaderRunning h) ∧ producing h rid k n).

Lemma reads_result_next rid K r n :
  reads_result rid K r n →
  let '(_, r', n') := reader_next_item c_char_signed c r n in reads_result rid K r' n'.
Proof.
  intros (Hid & (entry & w & Hs) & Hmode). unfold reader_next_item, next_remote.
  destruct (rr_finished r) eqn:Hf; [split_and!; eauto|].
  destruct Hmode as [Hm|(h & k & Hm & Hh)]; rewrite Hm; simpl.
  - split_and!; eauto.
  - destruct (result_next k (entry, w)) as [res [entry' w']] eqn:Hn.
    destruct (byte_tick_holding h rid k entry w K n _ _ _ Hs Hh Hn) as (n' & Htick & Hs' & Hh').
    unfold net, mmap_err. simpl. rewrite Htick.
    destruct res as [[b|]|e]; simpl; split_and!; eauto 10.
Qed.

Lemma after_reads_result rid K k r n :
  reads_result rid K r n → reads_result rid K (after_reads k r n).1 (after_reads k r n).2.
Proof.
  revert r n. induction k as [|k IH]; intros r n Hr; [done|]. simpl.
  pose proof (reads_result_next rid K r n Hr) as Hr'.
  destruct (reader_next_item c_char_signed c r n) as [[item r'] n']. by apply IH.
Qed.

(** A unary call is the call over HTTP, and no stream takes part in it. *)
Lemma byte_call name rq n :
  let http := call (H8 := http_wire) c_char_signed (over Http c) name rq (bn_server n) in
  call c_char_signed c name rq n = (http.1, at_server http.2 n).
Proof.
  cbv zeta. unfold call, transport_call, client_for. rewrite Hbyte. cbn [over transport byte].
  unfold lock_client, lock, net, mmap_err, mlift, mbind, M_bind. simpl. unfold on_server.
  destruct (serve_unary uuid system_now mg max_bind ctx name rq (bn_server n)) as [[b|e] s]; [|done].
  simpl. by destruct (check_acknowledged name b) as [[]|].
Qed.

Lemma byte_call_served name rq r K K' n :
  handled mg (call (H8 := http_wire) c_char_signed (over Http c) name rq) (session_id c) p K r K' →
  served K n →
  ∃ s', call c_char_signed c name rq n = (r, at_server s' n) ∧ served K' (at_server s' n).
Proof.
  intros Hh Hs. destruct (Hh _ Hs) as (s' & Hrun & Hs'). exists s'. split; [|exact Hs'].
  etrans; [exact (byte_call name rq n)|]. by rewrite Hrun.
Qed.

(** Closing the result and giving up its stream. *)
Lemma close_byte_reader r K n :
  validate_handle (rr_result_id r) = Ok tt → served K n →
  ∃ s', close_reader c_char_signed c r n = at_server s' n
    ∧ served (with_results (delete (rr_result_id r) (co_results K)) K) (at_server s' n).
Proof.
  intros Hrid Hs.
  pose proof (close_reader_serving uuid system_now mg max_bind ctx new_out c_char_signed (over Http c) p Hcaller Httl
    eq_refl Hsession (mkRemoteReader (H8 := http_wire) (rr_result_id r) (rr_schema r) (HttpMode [] None) true)
    K (bn_server n) Hrid Hs) as Hclosed.
  unfold close_reader, best_effort in *. cbn [session_id over rr_result_id] in Hclosed.
  destruct (result_request (session_id c) (rr_result_id r)) as [rq|e].
  - eexists. split; [exact (f_equal snd (byte_call method.CLOSE_RESULT rq n))|]. exact Hclosed.
  - exists (bn_server n). split; [by destruct n|exact Hclosed].
Qed.

Lemma byte_cancel_served h rid k K n :
  producing h rid k n → served K n →
  served (with_results (delete rid (co_results K)) K) (byte_producer_cancel mg ctx h n).
Proof.
  intros Hh Hs. unfold byte_producer_cancel. rewrite Hh. unfold on_server, producer_on_cancel, quietly.
  cbn [rc_session_id rc_result_id].
  destruct (by_id_serving uuid mg ctx (session_id c) p _ _ (bn_server n) (close_result rid) _
    (λ a, via a (close_result rid))
    (match co_results K !! rid with Some _ => Ok tt | None => Err (adbc_rpc_error (not_found "result")) end)
    Hcaller Httl Hs (takes_close_result mg rid K)) as (s' & Hrun & Hs').
  - intros a s1 s2 Hon. unfold via, adbc, mmap_err. rewrite Hon. by destruct (co_results K !! rid).
  - revert Hrun. match goal with |- ?m = _ → _ => intros -> end. exact Hs'.
Qed.

Lemma drop_reads_result rid K r n :
  validate_handle rid = Ok tt → co_results K !! rid = None → reads_result rid K r n →
  ∃ w, served (at_world w K) (drop_reader c_char_signed c r n).
Proof.
  intros Hrid Hfree (<- & (entry & w & Hs) & Hmode). exists w. unfold drop_reader.
  destruct (close_byte_reader r _ n Hrid Hs) as (s' & -> & Hclosed).
  assert (with_results (delete (rr_result_id r) (co_results (with_result (rr_result_id r) entry w K)))
    (with_result (rr_result_id r) entry w K) = at_world w K) as Heq.
  { unfold with_result. simpl. rewrite delete_insert_id by done. by destruct K. }
  rewrite Heq in Hclosed. unfold drop_mode.
  destruct Hmode as [Hm|(h & k & Hm & Hh)]; rewrite Hm; [exact Hclosed|]. simpl.
  pose proof (byte_cancel_served h (rr_result_id r) k (at_world w K) (at_server s' n) Hh Hclosed) as Hc.
  cbn [co_results at_world] in Hc. rewrite (delete_id _ _ Hfree) in Hc. by destruct K.
Qed.

(** A reader of the byte transport opens without reading anything. *)
Lemma byte_reader_opens rid entry w K schema n :
  validate_handle rid = Ok tt → served (with_result rid entry w K) n →
  ∃ h n', reader_open c_char_signed c rid schema n
      = (Ok (mkRemoteReader rid schema (ByteMode (ReaderRunning h)) false), n')
    ∧ served (with_result rid entry w K) n' ∧ producing h rid 0 n'.
Proof.
  intros Hrid Hs.
  destruct (read_result_holding rid entry (with_result rid entry w K) (bn_server n) Hrid
    ltac:(apply lookup_insert_eq) Hs) as (s' & Hrun & Hs').
  exists (bn_next n), (mkByteNet s' (<[bn_next n := Producing (mkResultCursor (session_id c) rid 0)]> (bn_streams n))
    (S (bn_next n))).
  split; [|split; [exact Hs'|apply lookup_insert_eq]].
  unfold reader_open, read_result_request. rewrite arrow_result_row by first [done | repeat constructor].
  fold (reading_request rid). rewrite mlift_bind, Hbyte. cbn [is_http byte negb].
  unfold byte_reader_open, net, mmap_err, mbind, M_bind. simpl.
  unfold byte_open_producer, on_server, serve_stream, mbind, M_bind.
  change (find_method method.READ_RESULT (server_methods uuid system_now mg max_bind))
    with (Some (Streaming read_result_schema (read_result mg))). cbv iota. by rewrite Hrun.
Qed.

(** Executing a statement registers its result, and the reader reads that. *)
Lemma execute_over_bytes stid stmt cancel K rd w' n :
  crosses (mkOkResponse true) → validate_handle stid = Ok tt → registered stid stmt cancel K → roomy uuid mg K →
  stmt_execute stmt (co_world K) = (Ok rd, w') →
  crosses_bounded ctx (mkExecuteResponse (uuid (co_uuids K)) None (schema_message (reader_schema rd))) →
  served K n →
  let rid := uuid (co_uuids K) in
  let K1 := next_uuid (with_results (retain_others stid (co_results K)) K) in
  ∃ h n', statement_execute c_char_signed (mkGrainliftStatement c stid) n
      = (Ok (mkRemoteReader rid (reader_schema rd) (ByteMode (ReaderRunning h)) false), n')
    ∧ served (with_result rid (ResultEntry_new (Some stid) rd) w' K1) n' ∧ producing h rid 0 n'.
Proof.
  intros Hack Hst Hreg [Hrid Hq] Hex (resp & Hresp & Hdec) Hs rid K1.
  pose proof (size_retain stid (co_results K)) as Hsize.
  pose proof (execute_call_handled uuid system_now mg max_bind ctx new_out c_char_signed (over Http c) p Hcaller Httl
    eq_refl Hsession Hack stid stmt cancel Hst K rd w' resp Hreg ltac:(lia) Hex Hresp) as Hcall.
  assert (with_execution uuid stid rd w' K = with_result rid (ResultEntry_new (Some stid) rd) w' K1) as HK.
  { unfold with_execution, with_result, K1, rid, retain_others. by rewrite map_filter_filter_l by done. }
  rewrite HK in Hcall.
  assert (∃ s1, statement_call c_char_signed (mkGrainliftStatement c stid) method.EXECUTE n = (Ok resp, at_server s1 n)
    ∧ served (with_result rid (ResultEntry_new (Some stid) rd) w' K1) (at_server s1 n)) as (s1 & Hc1 & Hs1).
  { unfold statement_call, request_of, statement_request in *. cbn [st_remote st_statement_id session_id over] in *.
    rewrite arrow_result_row in * by first [done | repeat constructor].
    by apply (byte_call_served _ _ _ K). }
  destruct (byte_reader_opens rid (ResultEntry_new (Some stid) rd) w' K1 (reader_schema rd) _ Hrid Hs1)
    as (h & n' & Hopen & Hs' & Hh).
  exists h, n'. split; [|by split]. unfold statement_execute. unfold mbind at 1, M_bind at 1. rewrite Hc1.
  cbn [st_remote]. by rewrite (reader_from_named _ _ _ _ _ _ _ Hdec).
Qed.
End ByteReading.

(** ** Main theorems *)

Section Main.
Context `{AdbcCore} `{RustFmt} `{ArrowCrate} `{!IpcCrate} `{FileSystem} `{AdbcOptions} `{!Backend}.
Context `{Base64} `{Hmac} `{VgiRpc} `{!StructCrate} `{!WireRecords}.
Context `{!Json WireAdbcError} `{!Json BindCursor} `{!Json ResultCursor}.
Context (uuid : nat → string) (system_now : Global → nat → Z) (mg : Manager) (max_bind : Z).
Context (ctx : CallContext) (new_out : OutputCollector) (c_char_signed : bool).
Abbreviation B := (byte_loopback uuid system_now mg max_bind ctx new_out).
Abbreviation T := (loopback uuid system_now mg max_bind ctx new_out).
Abbreviation ccs := c_char_signed.
Abbreviation Alike := (agrees (project (B := B) (T := T))). (* the server of the byte transport *)

(** C12: the transport makes no difference.  Whatever state the server is in,
    opening a connection and every call that does not read a result (options,
    transactions, cancels, schemas, updates, partitions, binds batch by batch, and
    the requests of dropped handles) give the application the same answer over a
    byte stream as over HTTP and leave the server in the same state. *)
Theorem transports_agree c stid :
  (∀ cursor, is_ok (to_json (T := BindCursor) cursor) = true) →
  let b := over byte c in let h := over Http c in
  let sb := mkGrainliftStatement b stid in let sh := mkGrainliftStatement h stid in
  (∀ r, Alike same_remote (open_remote (H8 := B) ccs byte r) (open_remote (H8 := T) ccs Http r))
  ∧ Alike same_statement (connection_new_statement (H8 := B) ccs b) (connection_new_statement (H8 := T) ccs h)
  ∧ Alike eq (connection_commit (H8 := B) ccs b) (connection_commit (H8 := T) ccs h)
  ∧ Alike eq (connection_rollback (H8 := B) ccs b) (connection_rollback (H8 := T) ccs h)
  ∧ Alike eq (connection_try_cancel (H8 := B) ccs (Some b)) (connection_try_cancel (H8 := T) ccs (Some h))
  ∧ (∀ key v, Alike eq (connection_set_option (H8 := B) ccs b key v) (connection_set_option (H8 := T) ccs h key v))
  ∧ (∀ A key ty (expect : OptionValue → result AdbcError A),
       Alike eq (connection_get_option (H8 := B) ccs b key ty expect) (connection_get_option (H8 := T) ccs h key ty expect))
  ∧ (∀ cat db t, Alike eq (connection_get_table_schema (H8 := B) ccs b cat db t)
                   (connection_get_table_schema (H8 := T) ccs h cat db t))
  ∧ (∀ key v, Alike eq (statement_set_option (H8 := B) ccs sb key v) (statement_set_option (H8 := T) ccs sh key v))
  ∧ (∀ A key ty (expect : OptionValue → result AdbcError A),
       Alike eq (statement_get_option (H8 := B) ccs sb key ty expect) (statement_get_option (H8 := T) ccs sh key ty expect))
  ∧ (∀ sql, Alike eq (statement_set_sql_query (H8 := B) ccs sb sql) (statement_set_sql_query (H8 := T) ccs sh sql))
  ∧ (∀ plan, Alike eq (statement_set_substrait_plan (H8 := B) ccs sb plan) (statement_set_substrait_plan (H8 := T) ccs sh plan))
  ∧ Alike eq (statement_prepare (H8 := B) ccs sb) (statement_prepare (H8 := T) ccs sh)
  ∧ (∀ batch, Alike eq (statement_bind (H8 := B) ccs sb batch) (statement_bind (H8 := T) ccs sh batch))
  ∧ (∀ schema items, Alike eq (statement_bind_stream (H8 := B) ccs sb schema items)
                       (statement_bind_stream (H8 := T) ccs sh schema items))
  ∧ Alike eq (statement_execute_update (H8 := B) ccs sb) (statement_execute_update (H8 := T) ccs sh)
  ∧ Alike eq (statement_execute_schema (H8 := B) ccs sb) (statement_execute_schema (H8 := T) ccs sh)
  ∧ Alike eq (statement_execute_partitions (H8 := B) ccs sb) (statement_execute_partitions (H8 := T) ccs sh)
  ∧ Alike eq (statement_get_parameter_schema (H8 := B) ccs sb) (statement_get_parameter_schema (H8 := T) ccs sh)
  ∧ Alike eq (statement_try_cancel (H8 := B) ccs (Some b) stid) (statement_try_cancel (H8 := T) ccs (Some h) stid)
  ∧ (∀ n, bn_server (drop_statement (H8 := B) ccs sb n) = drop_statement (H8 := T) ccs sh (bn_server n))
  ∧ (∀ n, bn_server (drop_connection (H8 := B) ccs b n) = drop_connection (H8 := T) ccs h (bn_server n)).
Proof.
  intros Hjson b h sb sh. subst b h sb sh.
  split_and!; intros; try exact (best_effort_alike B T ccs c _ _ _);
    try (exact (bind_batches_alike B T (SameExchanges0 := byte_exchanges uuid system_now mg max_bind ctx new_out Hjson)
           ccs c _ _ _ _)).
  1: exact (open_remote_alike B T ccs r).
  1: exact (new_statement_alike B T ccs c).
  all: unfold connection_commit, connection_rollback, connection_try_cancel, session_call, connection_set_option,
    connection_get_option, client_get_connection_option, connection_get_table_schema, connection_schema_call,
    statement_set_option, statement_get_option, statement_set_sql_query, statement_set_substrait_plan,
    statement_prepare, statement_execute_update, statement_execute_schema, statement_execute_partitions,
    statement_get_parameter_schema, statement_try_cancel, statement_call; alike_steps.
Qed.
#[local] Instance query_wire : RpcTransport := byte_loopback uuid system_now mg max_bind ctx new_out.

(** C3: a query over a byte stream is the query, and a dropped reader gives its
    result back.  Executing a statement runs the native statement once and always
    gives a reader (nothing is fetched ahead, so the first error is not lost with
    the reader, as it is over HTTP); reading it yields exactly the native batches in
    order and then the end or the native error; and however far the application
    has read when it drops the reader, the session is left holding what it held
    before, less the statement's earlier results, with no stream or result behind. *)
Theorem query_over_bytes c p stid stmt cancel K rd w' batches ending n :
  principal mg (auth ctx) = Ok p → 0 ≤ mg_ttl mg → transport c = byte →
  validate_handle (session_id c) = Ok tt → validate_handle stid = Ok tt → collecting new_out →
  crosses (mkOkResponse true) → registered stid stmt cancel K → roomy uuid mg K →
  co_results K !! uuid (co_uuids K) = None →
  stmt_execute stmt (co_world K) = (Ok rd, w') →
  crosses_bounded ctx (mkExecuteResponse (uuid (co_uuids K)) None (schema_message (reader_schema rd))) →
  yields rd w' batches ending → len batches ≤ i64_max →
  serving mg (session_id c) p (holding mg K) (bn_server n) →
  ∃ r n', statement_execute ccs (mkGrainliftStatement c stid) n = (Ok r, n')
    ∧ rr_schema r = reader_schema rd
    ∧ (∀ turns, (S (length batches) < turns)%nat → drain ccs c turns r n' = items_of batches (end_of ccs ending))
    ∧ ∀ k, let '(r2, n2) := after_reads uuid system_now mg max_bind ctx new_out ccs c k r n' in
        ∃ w2, serving mg (session_id c) p
          (holding mg (at_world w2 (next_uuid (with_results (retain_others stid (co_results K)) K))))
          (bn_server (drop_reader ccs c r2 n2)).
Proof.
  intros Hp Httl Hbyte Hid Hst Hcol Hack Hreg Hroom Hfree Hex Hcross Hy Hmax Hs.
  destruct (execute_over_bytes uuid system_now mg max_bind ctx new_out ccs c p Hp Httl Hbyte Hid stid stmt cancel
    K rd w' n Hack Hst Hreg Hroom Hex Hcross Hs) as (h & n' & Hrun & Hs' & Hh).
  eexists _, n'. split; [exact Hrun|]. split; [done|]. split.
  - intros turns Hturns. eapply drain_byte; [|exact Hturns].
    by eapply (byte_ticks uuid system_now mg max_bind ctx new_out ccs c p Hp Httl Hcol h _ batches ending 0
      (ResultEntry_new (Some stid) rd) w').
  - intros k. destruct Hroom as [Hrid _].
    pose proof (after_reads_result uuid system_now mg max_bind ctx new_out ccs c p Hp Httl Hcol
      (uuid (co_uuids K)) (next_uuid (with_results (retain_others stid (co_results K)) K)) k
      (mkRemoteReader (uuid (co_uuids K)) (reader_schema rd) (ByteMode (ReaderRunning h)) false) n') as Hafter.
    destruct (after_reads _ _ _ _ _ _ _ _ k _ n') as [r2 n2].
    apply (drop_reads_result uuid system_now mg max_bind ctx new_out ccs c p Hp Httl Hbyte Hid (uuid (co_uuids K)));
      [done| |apply Hafter; split_and!; eauto].
    simpl. unfold retain_others. by rewrite map_lookup_filter_None_2; [|left].
Qed.
End Main.

(** ** Examples *)

Section Example.
#[local] Existing Instance simple_core.
#[local] Existing Instance simple_fmt.
#[local] Existing Instance ref_arrow.
#[local] Existing Instance ref_ipc.
#[local] Existing Instance ref_files.
#[local] Existing Instance ref_options.
#[local] Existing Instance ref_backend.
#[local] Existing Instance ref_base64.
#[local] Existing Instance ref_hmac.
#[local] Existing Instance ref_rpc.
#[local] Existing Instance ref_struct.
#[local] Existing Instance ref_records.
#[local] Existing Instance ref_json_error.
#[local] Existing Instance ref_json_bind.
#[local] Existing Instance ref_json_result.

#[local] Instance example_bytes : RpcTransport :=
  byte_loopback example_uuid example_clock example_manager 1000 alice fresh_out.
Abbreviation example_http := (loopback example_uuid example_clock example_manager 1000 alice fresh_out).

Definition byte_state : ByteNet := mkByteNet statement_state ∅ 0.
Definition bytes_remote : RemoteConnection := over byte remote.

(** A bind of one row over both transports. *)
Lemma transports_agree_witness :
  ∃ n', statement_bind true (mkGrainliftStatement bytes_remote "s1") (example_rows 7) byte_state
        = ((statement_bind (H8 := example_http) true (mkGrainliftStatement (over Http remote) "s1")
              (example_rows 7) statement_state).1, n')
    ∧ bn_server n' = (statement_bind (H8 := example_http) true (mkGrainliftStatement (over Http remote) "s1")
              (example_rows 7) statement_state).2.
Proof.
  pose proof (transports_agree example_uuid example_clock example_manager 1000 alice fresh_out true remote "s1")
    as Hagree.
  destruct Hagree as (_ & _ & _ & _ & _ & _ & _ & _ & _ & _ & _ & _ & _ & Hbind & _); [intros cursor; reflexivity|].
  exact (agrees_eq _ _ _ byte_state (Hbind (example_rows 7))).
Defined.

Lemma query_over_bytes_witness :
  ∃ r n', statement_execute true (mkGrainliftStatement bytes_remote "s1") byte_state = (Ok r, n')
    ∧ drain true bytes_remote 5 r n' = [Ok (example_rows 7); Ok (example_rows 8)].
Proof.
  destruct (query_over_bytes example_uuid example_clock example_manager 1000 alice fresh_out true bytes_remote
    alice_principal "s1" tt ref_cancel example_contents ref_reader result_items [example_rows 7; example_rows 8]
    EndOfStream byte_state) as (r & n' & Hrun & _ & Hdrain & _).
  - reflexivity.
  - vm_compute. discriminate.
  - reflexivity.
  - reflexivity.
  - reflexivity.
  - split; [reflexivity|reflexivity|intros b; reflexivity].
  - exact ok_crosses.
  - reflexivity.
  - exact example_roomy.
  - reflexivity.
  - reflexivity.
  - exact example_result_crosses.
  - exact example_yields.
  - vm_compute. discriminate.
  - exact example_holding.
  - exists r, n'. split; [exact Hrun|]. exact (Hdrain 5%nat ltac:(apply Nat.ltb_lt; reflexivity)).
Defined.
End Example.
