(* ===== verification/InfoReader.v ===== *)
(** * The driver's own GetInfo rows (adbc-driver-grainlift/src/lib.rs)

    [get_info] of the driver answers four codes itself and takes the others from
    the server: [grainlift_info_batch] builds the batch of the driver's rows in
    the layout of the server's union column, and [GrainliftInfoReader] delivers
    it first and then the server's batches without the rows it replaces.  The
    Arrow arrays are other crates' code: the interface [InfoArrow]. *)

From S2P Require Import Prelude Adbc WireError Options Arrow Framing Envelope.
From S2P Require Import Config Backend Reference ReferenceBackend Rpc ClientOptions Client.

Definition DRIVER_INFO_NAME : string := "Grainlift ADBC Driver".
Definition DRIVER_ARROW_VERSION : string := "v59".
(** [env!("CARGO_PKG_VERSION")]. *)
Definition CARGO_PKG_VERSION : string := "0.4.0".

(** A call that returned, or that panicked. *)
Inductive outcome (A : Type) : Type := Returned (a : A) | Panicked.
Arguments Returned {A} a.
Arguments Panicked {A}.

(** The codes of adbc_core the driver answers. *)
Class InfoCodes `{AdbcOptions} : Type := {
  u32_from : InfoCode → Z;
  DriverName : InfoCode;
  DriverVersion : InfoCode;
  DriverArrowVersion : InfoCode;
  DriverAdbcVersion : InfoCode;
  ADBC_VERSION_1_1_0 : Z
}.

Inductive UnionMode : Type := Dense | Sparse.
#[global] Instance UnionMode_eq_decision : EqDecision UnionMode.
Proof. solve_decision. Defined.

(** The children [grainlift_info_batch] makes: strings, integers, and arrays of
    a field's own type that are empty or all null. *)
Inductive InfoChild (F : Type) : Type :=
| ChildStrings (values : list (option string))
| ChildIntegers (values : list (option Z))
| ChildEmpty (field : F)
| ChildNull (field : F) (rows : nat).
Arguments ChildStrings {F} values.
Arguments ChildIntegers {F} values.
Arguments ChildEmpty {F} field.
Arguments ChildNull {F} field rows.

(** [schema.field(1).data_type()]: indexing panics when there is no such field. *)
Inductive ValueType (F : Type) : Type :=
| NoField
| NotUnion
| Union (fields : list (Z * F)) (mode : UnionMode).
Arguments NoField {F}.
Arguments NotUnion {F}.
Arguments Union {F} fields mode.

(** What the driver uses of the Arrow crates here.  The rows of a batch with a
    UInt32 column [info_name] are abstract but for their code; slicing takes a
    range of them. *)
Class InfoArrow `{ArrowCrate} : Type := {
  UnionField : Type;
  UnionArray : Type;
  value_type : Schema → ValueType UnionField;
  union_try_new : list (Z * UnionField) → list Z → option (list Z) → list (InfoChild UnionField) →
    result ArrowError UnionArray;
  info_try_new : Schema → list Z → UnionArray → result ArrowError RecordBatch;
  InfoRow : Type;
  row_code : InfoRow → Z;
  info_rows : RecordBatch → option (list InfoRow);
  slice : RecordBatch → nat → nat → RecordBatch;
  info_rows_num : ∀ b rows, info_rows b = Some rows → num_rows b = len rows;
  slice_rows : ∀ b rows start n,
    info_rows b = Some rows → (start + n ≤ length rows)%nat →
    info_rows (slice b start n) = Some (take n (drop start rows))
}.

Section InfoReader.
Context `{AdbcCore} `{ArrowCrate} `{!InfoArrow} `{AdbcOptions} `{!InfoCodes}.

(** ** The driver's rows *)

Definition is_grainlift_driver_info (code : Z) : bool :=
  (code =? u32_from DriverName) || (code =? u32_from DriverVersion)
  || (code =? u32_from DriverArrowVersion) || (code =? u32_from DriverAdbcVersion).

Definition requested (codes : option (gset InfoCode)) (code : InfoCode) : bool :=
  match codes with None => true | Some values => bool_decide (code ∈ values) end.

(** The five vectors the function fills. *)
Record InfoVectors : Type := mkInfoVectors {
  info_names : list Z; type_ids : list Z; offsets : list Z; strings : list string; integers : list Z
}.

Definition add_string (codes : option (gset InfoCode)) (code : InfoCode) (value : string)
    (v : InfoVectors) : InfoVectors :=
  if requested codes code then
    mkInfoVectors (info_names v ++ [u32_from code]) (type_ids v ++ [0])
      (offsets v ++ [wrap_signed 32 (len (strings v))]) (strings v ++ [value]) (integers v)
  else v.

Definition add_integer (codes : option (gset InfoCode)) (code : InfoCode) (value : Z)
    (v : InfoVectors) : InfoVectors :=
  if requested codes code then
    mkInfoVectors (info_names v ++ [u32_from code]) (type_ids v ++ [2])
      (offsets v ++ [wrap_signed 32 (len (integers v))]) (strings v) (integers v ++ [value])
  else v.

Definition driver_info (codes : option (gset InfoCode)) : InfoVectors :=
  let v := mkInfoVectors [] [] [] [] [] in
  let v := add_string codes DriverName DRIVER_INFO_NAME v in
  let v := add_string codes DriverVersion CARGO_PKG_VERSION v in
  let v := add_string codes DriverArrowVersion DRIVER_ARROW_VERSION v in
  add_integer codes DriverAdbcVersion ADBC_VERSION_1_1_0 v.

(** A sparse child: the value of the rows of its type, null elsewhere. *)
Definition spread {A} (id : Z) (values : list A) (v : InfoVectors) : list (option A) :=
  (λ '(t, offset), if t =? id then values !! Z.to_nat offset else None) <$> zip (type_ids v) (offsets v).

Definition info_child (mode : UnionMode) (v : InfoVectors) (field : Z * UnionField)
  : InfoChild UnionField :=
  match mode with
  | Dense =>
      if field.1 =? 0 then ChildStrings (Some <$> strings v)
      else if field.1 =? 2 then ChildIntegers (Some <$> integers v)
      else ChildEmpty field.2
  | Sparse =>
      if field.1 =? 0 then ChildStrings (spread 0 (strings v) v)
      else if field.1 =? 2 then ChildIntegers (spread 2 (integers v) v)
      else ChildNull field.2 (length (type_ids v))
  end.

Definition info_children (fields : list (Z * UnionField)) (mode : UnionMode) (v : InfoVectors)
  : list (InfoChild UnionField) := info_child mode v <$> fields.

Definition union_offsets (mode : UnionMode) (v : InfoVectors) : option (list Z) :=
  if bool_decide (mode = Dense) then Some (offsets v) else None.

Definition grainlift_info_batch (codes : option (gset InfoCode)) (schema : Schema)
  : outcome (result AdbcError (option RecordBatch)) :=
  let v := driver_info codes in
  if bool_decide (info_names v = []) then Returned (Ok None)
  else
    match value_type schema with
    | NoField => Panicked
    | NotUnion => Returned (Err (client_internal "ADBC GetInfo schema does not contain a union"))
    | Union fields mode =>
        Returned
          (values ← map_err error_from_arrow
             (union_try_new fields (type_ids v) (union_offsets mode v) (info_children fields mode v));
           batch ← map_err error_from_arrow (info_try_new schema (info_names v) values);
           Ok (Some batch))
    end.

(** ** The reader *)

(** Any iterator of batches can be downstream. *)
Context {D : Type} (downstream_next : D → option (result ArrowError RecordBatch) * D).

Record GrainliftInfoReader : Type := mkGrainliftInfoReader {
  grainlift_batch : option RecordBatch; downstream : D; pending : list RecordBatch; ir_schema : Schema
}.

(** The [for] loop: a run of rows to keep is pushed when a replaced row ends it. *)
Fixpoint push_runs (batch : RecordBatch) (index : nat) (codes : list Z) (run_start : option nat)
    (pending : list RecordBatch) : option nat * list RecordBatch :=
  match codes with
  | [] => (run_start, pending)
  | code :: codes =>
      if is_grainlift_driver_info code then
        match run_start with
        | Some start => push_runs batch (S index) codes None (pending ++ [slice batch start (index - start)])
        | None => push_runs batch (S index) codes None pending
        end
      else
        match run_start with
        | None => push_runs batch (S index) codes (Some index) pending
        | Some start => push_runs batch (S index) codes (Some start) pending
        end
  end.

Definition kept_runs (batch : RecordBatch) (codes : list Z) (pending : list RecordBatch)
  : list RecordBatch :=
  match push_runs batch 0 codes None pending with
  | (Some start, pending) => pending ++ [slice batch start (Z.to_nat (num_rows batch) - start)]
  | (None, pending) => pending
  end.

Definition missing_info_name : ArrowError :=
  SchemaError "GetInfo response is missing its UInt32 info_name column".

(** The [loop], with [fuel] rounds: each round takes one item from downstream. *)
Fixpoint info_loop (fuel : nat) (r : GrainliftInfoReader)
  : option (result ArrowError RecordBatch) * GrainliftInfoReader :=
  match fuel with
  | O => (None, r)
  | S fuel =>
      let '(item, d) := downstream_next (downstream r) in
      let r := mkGrainliftInfoReader (grainlift_batch r) d (pending r) (ir_schema r) in
      match item with
      | None => (None, r)
      | Some (Err error) => (Some (Err error), r)
      | Some (Ok batch) =>
          match info_rows batch with
          | None => (Some (Err missing_info_name), r)
          | Some rows =>
              match kept_runs batch (row_code <$> rows) (pending r) with
              | batch :: pending =>
                  (Some (Ok batch), mkGrainliftInfoReader (grainlift_batch r) d pending (ir_schema r))
              | [] => info_loop fuel (mkGrainliftInfoReader (grainlift_batch r) d [] (ir_schema r))
              end
          end
      end
  end.

Definition info_next (fuel : nat) (r : GrainliftInfoReader)
  : option (result ArrowError RecordBatch) * GrainliftInfoReader :=
  match grainlift_batch r with
  | Some batch =>
      (Some (Ok batch), mkGrainliftInfoReader None (downstream r) (pending r) (ir_schema r))
  | None =>
      match pending r with
      | batch :: pending =>
          (Some (Ok batch), mkGrainliftInfoReader None (downstream r) pending (ir_schema r))
      | [] => info_loop fuel r
      end
  end.
End InfoReader.

Arguments GrainliftInfoReader {_} D.

(** ** [GrainliftConnection::get_info] *)

Section GetInfo.
Context `{AdbcCore} `{RustFmt} `{ArrowCrate} `{!InfoArrow} `{!IpcCrate} `{AdbcOptions} `{!InfoCodes}.
Context `{Base64} `{VgiRpc} `{!StructCrate} `{!WireRecords} `{!Json WireAdbcError} `{!RpcTransport}.
Context (c_char_signed : bool).

(** The set is sent in an order that is not specified. *)
Definition wire_codes (codes : option (gset InfoCode)) : option (list Z) :=
  (λ values, u32_from <$> elements values) <$> codes.

(** An error after the stream was opened, and an unwinding panic too, drop the
    reader, which closes its result. *)
Definition connection_get_info (c : RemoteConnection) (codes : option (gset InfoCode)) (n : Net)
  : outcome (result AdbcError (GrainliftInfoReader RemoteReader)) * Net :=
  match connection_stream_call c_char_signed c method.GET_INFO
          (mkGetInfoRequest (session_id c) (wire_codes codes)) n with
  | (Err e, n) => (Returned (Err e), n)
  | (Ok reader, n) =>
      match grainlift_info_batch codes (rr_schema reader) with
      | Panicked => (Panicked, drop_reader c_char_signed c reader n)
      | Returned (Err e) => (Returned (Err e), drop_reader c_char_signed c reader n)
      | Returned (Ok batch) => (Returned (Ok (mkGrainliftInfoReader batch reader [] (rr_schema reader))), n)
      end
  end.

(** The downstream iterator of that reader, with the network it runs on. *)
Definition remote_next (c : RemoteConnection) (d : RemoteReader * Net)
  : option (result ArrowError RecordBatch) * (RemoteReader * Net) :=
  let '(item, r, n) := reader_next_item c_char_signed c d.1 d.2 in (item, (r, n)).
End GetInfo.

(** ** What the reader delivers *)

(** An iterator that yields exactly these items before its end. *)
Inductive delivers {D} (next : D → option (result ArrowError RecordBatch) * D)
  : D → list (result ArrowError RecordBatch) → Prop :=
| delivers_end d d' : next d = (None, d') → delivers next d []
| delivers_item d d' item items :
    next d = (Some item, d') → delivers next d' items → delivers next d (item :: items).

Section Delivery.
Context `{AdbcCore} `{ArrowCrate} `{!InfoArrow} `{AdbcOptions} `{!InfoCodes}.
Context {D : Type} (downstream_next : D → option (result ArrowError RecordBatch) * D).

Definition replaced (row : InfoRow) : bool := is_grainlift_driver_info (row_code row).
Definition kept (rows : list InfoRow) : list InfoRow := filter (λ row, replaced row = false) rows.

(** The rows and errors of a stream, batch boundaries forgotten. *)
Definition item_rows (item : result ArrowError RecordBatch) : list (ArrowError + InfoRow) :=
  match item with
  | Ok b => match info_rows b with Some rows => inr <$> rows | None => [] end
  | Err e => [inl e]
  end.

(** What the server's item becomes. *)
Definition expected_rows (item : result ArrowError RecordBatch) : list (ArrowError + InfoRow) :=
  match item with
  | Ok b => match info_rows b with Some rows => inr <$> kept rows | None => [inl missing_info_name] end
  | Err e => [inl e]
  end.

Definition all_rows (pieces : list RecordBatch) : list InfoRow :=
  concat ((λ b, default [] (info_rows b)) <$> pieces).

(** Slices of an info batch that hold at least one row. *)
Definition piece (b : RecordBatch) : Prop := ∃ row rows, info_rows b = Some (row :: rows).

Lemma piece_slice b rows start n :
  info_rows b = Some rows → (0 < n)%nat → (start + n ≤ length rows)%nat → piece (slice b start n).
Proof.
  intros Hb Hn Hl. pose proof (slice_rows b rows start n Hb Hl) as Hs.
  destruct (take n (drop start rows)) as [|row rest] eqn:Ht; [|by exists row, rest].
  apply (f_equal length) in Ht. rewrite length_take, length_drop in Ht. simpl in Ht. lia.
Qed.

Lemma all_rows_slice b rows pieces start n :
  info_rows b = Some rows → (start + n ≤ length rows)%nat →
  all_rows (pieces ++ [slice b start n]) = all_rows pieces ++ take n (drop start rows).
Proof.
  intros Hb Hl. unfold all_rows. rewrite fmap_app, concat_app. simpl.
  by rewrite (slice_rows b rows start n Hb Hl), app_nil_r.
Qed.

Lemma kept_cons row rows : kept (row :: rows) = if replaced row then kept rows else row :: kept rows.
Proof. unfold kept. rewrite filter_cons. by destruct (replaced row). Qed.

(** The loop invariant: the pushed runs and the open run are the rows kept so far. *)
Lemma push_runs_rows b pre rest start pieces start' pieces' :
  info_rows b = Some (pre ++ rest) → Forall piece pieces →
  match start with Some s => (s < length pre)%nat | None => True end →
  push_runs b (length pre) (row_code <$> rest) start pieces = (start', pieces') →
  let open := match start with Some s => drop s pre | None => [] end in
  Forall piece pieces'
  ∧ match start' with Some s => (s < length (pre ++ rest))%nat | None => True end
  ∧ all_rows pieces' ++ match start' with Some s => drop s (pre ++ rest) | None => [] end
    = all_rows pieces ++ open ++ kept rest.
Proof.
  revert pre start pieces. induction rest as [|row rest IH]; intros pre start pieces Hb Hp Hs Hpush.
  - injection Hpush as <- <-. rewrite app_nil_r. unfold kept. rewrite filter_nil, app_nil_r. by destruct start.
  - assert (pre ++ row :: rest = (pre ++ [row]) ++ rest) as Heq by by rewrite <-app_assoc.
    assert (S (length pre) = length (pre ++ [row])) as Hlen by (rewrite length_app; simpl; lia).
    assert (length pre ≤ length ((pre ++ [row]) ++ rest))%nat as Hle by (rewrite !length_app; lia).
    simpl in Hpush. rewrite Hlen in Hpush. rewrite Heq in Hb |- *.
    rewrite kept_cons. unfold replaced at 1.
    destruct (is_grainlift_driver_info (row_code row)); simpl in Hpush |- *.
    + destruct start as [s|]; apply IH in Hpush as (? & ? & ->); try done.
      * split_and!; try done.
        rewrite (all_rows_slice b ((pre ++ [row]) ++ rest)), <-!app_assoc by (done || lia).
        do 2 f_equal. rewrite drop_app_le, take_app_length' by (rewrite ?length_drop; lia). done.
      * apply Forall_app. split; [done|]. apply Forall_singleton. eapply piece_slice; [done|lia|lia].
    + destruct start as [s|]; apply IH in Hpush as (? & ? & ->); try done.
      * split_and!; try done. rewrite drop_app_le by lia. by rewrite <-!app_assoc.
      * rewrite <-Hlen. lia.
      * split_and!; try done. by rewrite drop_app_length.
      * rewrite <-Hlen. lia.
Qed.

Lemma kept_runs_rows b rows :
  info_rows b = Some rows →
  all_rows (kept_runs b (row_code <$> rows) []) = kept rows
  ∧ Forall piece (kept_runs b (row_code <$> rows) []).
Proof.
  intros Hb. unfold kept_runs.
  destruct (push_runs b 0 (row_code <$> rows) None []) as [start pieces] eqn:Hpush.
  apply (push_runs_rows b [] rows) in Hpush as (Hp & Hs & Hr); [|done..].
  rewrite (info_rows_num b rows Hb). unfold len. rewrite Nat2Z.id. simpl in Hr.
  destruct start as [s|]; [|by rewrite app_nil_r in Hr]. simpl in Hs.
  rewrite (all_rows_slice b rows) by (done || lia).
  rewrite take_ge by (rewrite length_drop; lia). split; [done|].
  apply Forall_app. split; [done|]. apply Forall_singleton. eapply piece_slice; [done|lia|lia].
Qed.

Lemma item_rows_pieces pieces :
  Forall piece pieces → concat (item_rows <$> (Ok <$> pieces)) = inr <$> all_rows pieces.
Proof.
  induction 1 as [|b pieces (row & rows & Hb) _ IH]; [done|].
  rewrite !fmap_cons. cbn [concat item_rows]. rewrite IH, Hb, <-fmap_app. unfold all_rows.
  rewrite fmap_cons. cbn [concat]. by rewrite Hb.
Qed.

(** What is pending is delivered before anything is read. *)
Lemma delivers_pending fuel pieces d schema out :
  delivers (info_next downstream_next fuel) (mkGrainliftInfoReader None d [] schema) out →
  delivers (info_next downstream_next fuel) (mkGrainliftInfoReader None d pieces schema) ((Ok <$> pieces) ++ out).
Proof. intros Ho. induction pieces as [|b pieces IH]; [done|]. by econstructor. Qed.

(** Fuel beyond the number of items makes no difference. *)
Lemma info_loop_fuel items d g schema f1 f2 :
  delivers downstream_next d items → (length items < f1)%nat → (length items < f2)%nat →
  info_loop downstream_next f1 (mkGrainliftInfoReader g d [] schema)
  = info_loop downstream_next f2 (mkGrainliftInfoReader g d [] schema).
Proof.
  intros Hd. revert f1 f2. induction Hd as [d d' Hn|d d' item items Hn _ IH]; intros [|f1] [|f2] H1' H2';
    simpl in *; try lia; rewrite Hn; [done|].
  destruct item as [b|e]; [|done]. destruct (info_rows b) as [rows|]; [|done].
  destruct (kept_runs b (row_code <$> rows) []); [|done]. apply IH; lia.
Qed.

Lemma info_loop_delivers items d schema fuel :
  delivers downstream_next d items → (length items < fuel)%nat →
  ∃ out, delivers (info_next downstream_next fuel) (mkGrainliftInfoReader None d [] schema) out
    ∧ concat (item_rows <$> out) = concat (expected_rows <$> items)
    ∧ Forall (λ item, match item with Ok b => piece b | Err _ => True end) out.
Proof.
  intros Hd. revert fuel. induction Hd as [d d' Hn|d d' item items Hn Hd IH]; intros fuel Hf.
  - exists []. split_and!; [|done..]. econstructor. destruct fuel; [simpl in Hf; lia|]. unfold info_next. simpl. by rewrite Hn.
  - simpl in Hf. destruct (IH fuel) as (out & Hout & Hrows & Hp); [lia|].
    destruct fuel as [|fuel]; [lia|].
    assert (∀ i, info_loop downstream_next (S fuel) (mkGrainliftInfoReader None d [] schema)
                 = (Some (Err i), mkGrainliftInfoReader None d' [] schema) →
            delivers (info_next downstream_next (S fuel)) (mkGrainliftInfoReader None d [] schema)
              (Err i :: out)) as Herr.
    { intros i Hi. econstructor; [exact Hi|done]. }
    destruct item as [b|e]; simpl expected_rows;
      [destruct (info_rows b) as [rows|] eqn:Hb|].
    + destruct (kept_runs_rows b rows Hb) as [Hk Hpieces].
      exists ((Ok <$> kept_runs b (row_code <$> rows) []) ++ out). split_and!.
      * destruct (kept_runs b (row_code <$> rows) []) as [|p pieces] eqn:Hr; simpl.
        -- inversion Hout as [d1 r1 Hend|d1 r1 item items' Hitem Hrest]; subst.
           ++ econstructor. unfold info_next in *. simpl in *. rewrite Hn, Hb, Hr.
              rewrite (info_loop_fuel items d' None schema fuel (S fuel)) by (done || lia). exact Hend.
           ++ econstructor; [|exact Hrest]. unfold info_next in *. simpl in *. rewrite Hn, Hb, Hr.
              rewrite (info_loop_fuel items d' None schema fuel (S fuel)) by (done || lia). exact Hitem.
        -- econstructor; [unfold info_next; simpl; rewrite Hn, Hb, Hr; done|]. by apply delivers_pending.
      * rewrite fmap_app, concat_app, Hrows, item_rows_pieces, Hk by done. simpl. by rewrite Hb.
      * apply Forall_app. split; [|done]. by apply Forall_fmap.
    + exists (Err missing_info_name :: out). split_and!; [apply Herr; simpl; by rewrite Hn, Hb| |by constructor].
      rewrite !fmap_cons. cbn [concat]. rewrite Hrows. simpl. by rewrite Hb.
    + exists (Err e :: out). split_and!; [apply Herr; simpl; by rewrite Hn| |by constructor].
      rewrite !fmap_cons. cbn [concat]. by rewrite Hrows.
Qed.
End Delivery.

(** ** What the driver's batch says *)

Inductive InfoValue : Type := InfoString (s : string) | InfoInteger (z : Z).

Section Union.
Context `{AdbcCore} `{ArrowCrate} `{!InfoArrow} `{AdbcOptions} `{!InfoCodes}.

(** The rows the driver answers, of those that were requested. *)
Definition answered (codes : option (gset InfoCode)) : list (InfoCode * InfoValue) :=
  filter (λ row, requested codes row.1 = true)
    [(DriverName, InfoString DRIVER_INFO_NAME); (DriverVersion, InfoString CARGO_PKG_VERSION);
     (DriverArrowVersion, InfoString DRIVER_ARROW_VERSION);
     (DriverAdbcVersion, InfoInteger ADBC_VERSION_1_1_0)].

(** How a union is read: a row names its child by type, and its slot in the
    child by its offset when there are offsets and by its own index otherwise. *)
Fixpoint union_child {F} (fields : list (Z * F)) (children : list (InfoChild F)) (t : Z)
  : option (InfoChild F) :=
  match fields, children with
  | f :: fields, c :: children => if f.1 =? t then Some c else union_child fields children t
  | _, _ => None
  end.

Definition child_slot {F} (c : InfoChild F) (i : nat) : option InfoValue :=
  match c with
  | ChildStrings values => InfoString <$> (values !! i ≫= id)
  | ChildIntegers values => InfoInteger <$> (values !! i ≫= id)
  | ChildEmpty _ | ChildNull _ _ => None
  end.

Definition child_rows {F} (c : InfoChild F) : nat :=
  match c with
  | ChildStrings values => length values
  | ChildIntegers values => length values
  | ChildEmpty _ => 0
  | ChildNull _ rows => rows
  end.

Definition union_slot {F} (fields : list (Z * F)) (ids : list Z) (offs : option (list Z))
    (children : list (InfoChild F)) (i : nat) : option InfoValue :=
  t ← ids !! i;
  c ← union_child fields children t;
  slot ← match offs with Some offs => Z.to_nat <$> offs !! i | None => Some i end;
  child_slot c slot.

Lemma union_child_map mode v fields t :
  t ∈ fields.*1 → ∃ f, union_child fields (info_children fields mode v) t = Some (info_child mode v (t, f)).
Proof.
  induction fields as [|[t' f] fields IH]; simpl; [by intros ?%not_elem_of_nil|].
  rewrite elem_of_cons. destruct (Z.eqb_spec t' t) as [->|Hne]; [by exists f|].
  intros [?|Ht]; [done|]. by apply IH.
Qed.

(** The slot of a row, for the two types the driver uses. *)
Lemma union_slot_map mode v fields i :
  0 ∈ fields.*1 → 2 ∈ fields.*1 → Forall (λ t, t = 0 ∨ t = 2) (type_ids v) →
  union_slot fields (type_ids v) (union_offsets mode v) (info_children fields mode v) i
  = (t ← type_ids v !! i;
     slot ← match union_offsets mode v with Some offs => Z.to_nat <$> offs !! i | None => Some i end;
     if t =? 0 then InfoString <$> (match mode with Dense => Some <$> strings v | Sparse => spread 0 (strings v) v end !! slot ≫= id)
     else InfoInteger <$> (match mode with Dense => Some <$> integers v | Sparse => spread 2 (integers v) v end !! slot ≫= id)).
Proof.
  intros H0' H2' Hall. unfold union_slot. destruct (type_ids v !! i) as [t|] eqn:Ht; simpl; [|done].
  destruct (Forall_lookup_1 _ _ _ _ Hall Ht) as [-> | ->].
  - destruct (union_child_map mode v fields 0 H0') as [f ->]. by destruct mode.
  - destruct (union_child_map mode v fields 2 H2') as [f ->]. by destruct mode.
Qed.

(** All sixteen choices of the four codes. *)
Ltac by_requested codes :=
  unfold driver_info, add_integer, add_string, answered; rewrite ?filter_cons, ?filter_nil; simpl;
  destruct (requested codes DriverName), (requested codes DriverVersion),
    (requested codes DriverArrowVersion), (requested codes DriverAdbcVersion).

Lemma driver_info_types codes : Forall (λ t, t = 0 ∨ t = 2) (type_ids (driver_info codes)).
Proof. by_requested codes; repeat first [apply Forall_nil_2 | apply Forall_cons_2; [by auto|]]. Qed.

Lemma driver_info_names codes : info_names (driver_info codes) = u32_from ∘ fst <$> answered codes.
Proof. by by_requested codes. Qed.

Lemma driver_info_answered codes mode fields i :
  0 ∈ fields.*1 → 2 ∈ fields.*1 → let v := driver_info codes in
  union_slot fields (type_ids v) (union_offsets mode v) (info_children fields mode v) i
  = snd <$> answered codes !! i.
Proof.
  intros H0' H2' v. subst v. rewrite union_slot_map by (done || apply driver_info_types).
  by_requested codes; destruct mode; do 4 (destruct i as [|i]; [done|]); done.
Qed.

(** Every child of a sparse union has a slot for every row. *)
Lemma sparse_children codes fields :
  Forall (λ c, child_rows c = length (answered codes)) (info_children fields Sparse (driver_info codes)).
Proof.
  apply Forall_fmap, Forall_true. intros [t f]. simpl.
  unfold spread. by_requested codes; by destruct (t =? 0), (t =? 2).
Qed.
End Union.

(** ** Main theorems *)

Section Main.
Context `{AdbcCore} `{ArrowCrate} `{!InfoArrow} `{AdbcOptions} `{!InfoCodes}.

(** A GetInfo reader delivers the driver's own batch first and then the
    rows of the server's stream in order, each once, without the rows the driver
    answers itself, passes on every error where it occurred, reports a batch
    without info names as an error, hands out no empty slice, and comes to an
    end when the server's stream does. *)
Theorem info_reader_replaces_rows {D} (next : D → option (result ArrowError RecordBatch) * D)
    (own : option RecordBatch) d schema items fuel :
  delivers next d items → (length items < fuel)%nat →
  ∃ out,
    delivers (info_next next fuel) (mkGrainliftInfoReader own d [] schema) ((Ok <$> option_list own) ++ out)
    ∧ concat (item_rows <$> out) = concat (expected_rows <$> items)
    ∧ Forall (λ item, match item with Ok b => piece b | Err _ => True end) out.
Proof.
  intros Hd Hf. destruct (info_loop_delivers next items d schema fuel Hd Hf) as (out & Hout & Hrest).
  exists out. split; [|done]. destruct own as [b|]; [|done]. by econstructor.
Qed.

(** The driver's own GetInfo batch says what the driver is: for either
    layout of the server's union it holds exactly the requested codes of the
    four, each read from the union with the driver's name, version, Arrow version
    and ADBC version, a sparse union having all its children as long as the batch;
    when none of the codes was requested there is no batch, a server schema
    without a union is an error, and one without a second column is a panic. *)
Theorem info_batch_describes_driver codes schema :
  match grainlift_info_batch codes schema with
  | Returned (Ok None) => answered codes = []
  | Returned (Ok (Some batch)) =>
      answered codes ≠ []
      ∧ ∃ fields mode names ids offs children values,
          value_type schema = Union fields mode
          ∧ union_try_new fields ids offs children = Ok values ∧ info_try_new schema names values = Ok batch
          ∧ names = u32_from ∘ fst <$> answered codes
          ∧ (is_Some offs ↔ mode = Dense)
          ∧ (0 ∈ fields.*1 → 2 ∈ fields.*1 →
             ∀ i, union_slot fields ids offs children i = snd <$> answered codes !! i)
          ∧ (mode = Sparse → Forall (λ c, child_rows c = length (answered codes)) children)
  | Returned (Err e) =>
      answered codes ≠ []
      ∧ (value_type schema = NotUnion
         ∧ e = client_internal "ADBC GetInfo schema does not contain a union"
         ∨ ∃ fields mode error, value_type schema = Union fields mode ∧ e = error_from_arrow error)
  | Panicked => answered codes ≠ [] ∧ value_type schema = NoField
  end.
Proof.
  pose proof (driver_info_names codes) as Hnames. unfold grainlift_info_batch. case_bool_decide as Hempty; rewrite Hnames in Hempty.
  - by apply fmap_nil_inv in Hempty.
  - assert (answered codes ≠ []) as Ha by (by intros Heq; rewrite Heq in Hempty).
    destruct (value_type schema) as [| |fields mode] eqn:Hv; [done|by eauto|].
    destruct (union_try_new _ _ _ _) as [values|error] eqn:Hu; simpl; [|by eauto 10].
    destruct (info_try_new _ _ _) as [batch|error] eqn:Hb; simpl; [|by eauto 10].
    split; [done|]. exists fields, mode. do 5 eexists. split_and!; [done|exact Hu|exact Hb|done|..].
    + unfold union_offsets. case_bool_decide; naive_solver.
    + intros H0' H2' i. by apply (driver_info_answered codes mode fields i).
    + intros ->. apply sparse_children.
Qed.
End Main.

(** ** Examples *)

Section Example.
#[local] Existing Instance simple_core.
#[local] Existing Instance ref_arrow.
#[local] Existing Instance ref_options.

#[local] Instance ref_info_codes : InfoCodes := {|
  u32_from z := z;
  DriverName := 100;
  DriverVersion := 101;
  DriverArrowVersion := 102;
  DriverAdbcVersion := 103;
  ADBC_VERSION_1_1_0 := 1001000
|}.

(** Batches with the single integer column [info_name]. *)
Definition ref_info_rows (b : RecordBatch) : option (list (option Z)) :=
  match b with
  | mkRecordBatch [f] [Int64Array v] rows =>
      if bool_decide (f_name f = "info_name") && (rows =? len v) then Some v else None
  | _ => None
  end.

Definition ref_slice (b : RecordBatch) (start n : nat) : RecordBatch :=
  match b with
  | mkRecordBatch [f] [Int64Array v] rows =>
      mkRecordBatch [f] [Int64Array (take n (drop start v))] (len (take n (drop start v)))
  | _ => b
  end.

Lemma ref_info_rows_Some b v :
  ref_info_rows b = Some v → ∃ f, f_name f = "info_name" ∧ b = mkRecordBatch [f] [Int64Array v] (len v).
Proof.
  destruct b as [[|f []] [|[] []] rows]; simpl; try done. case_bool_decide; [|done].
  destruct (Z.eqb_spec rows (len values)) as [->|]; [|done]. intros [= <-]. by exists f.
Qed.

Lemma ref_info_rows_num b v : ref_info_rows b = Some v → num_rows b = len v.
Proof. by intros (f & _ & ->)%ref_info_rows_Some. Qed.

Lemma ref_slice_rows b v start n :
  ref_info_rows b = Some v → (start + n ≤ length v)%nat →
  ref_info_rows (ref_slice b start n) = Some (take n (drop start v)).
Proof.
  intros (f & Hf & ->)%ref_info_rows_Some _. simpl. rewrite bool_decide_eq_true_2 by done. by rewrite Z.eqb_refl.
Qed.

#[local] Instance ref_info_arrow : InfoArrow := {|
  UnionField := string;
  UnionArray := list Z;
  value_type _ := Union [(0, "string_value"); (2, "int64_value")] Dense;
  union_try_new _ ids _ _ := Ok ids;
  info_try_new _ names _ :=
    Ok (mkRecordBatch [Field_new "info_name" Int64 false] [Int64Array (Some <$> names)] (len names));
  InfoRow := option Z;
  row_code := default 0;
  info_rows := ref_info_rows;
  slice := ref_slice;
  info_rows_num := ref_info_rows_num;
  slice_rows := ref_slice_rows
|}.

Definition info_batch (codes : list Z) : RecordBatch :=
  mkRecordBatch [Field_new "info_name" Int64 false] [Int64Array (Some <$> codes)] (len codes).

Definition list_next (items : list (result ArrowError RecordBatch))
  : option (result ArrowError RecordBatch) * list (result ArrowError RecordBatch) :=
  match items with [] => (None, []) | item :: items => (Some item, items) end.

Definition server_items : list (result ArrowError RecordBatch) :=
  [Ok (info_batch [100; 0; 1; 101; 2]); Ok (info_batch [100; 103])].

Definition server_schema : @Schema ref_arrow := session_schema.

Lemma info_reader_replaces_rows_witness :
  ∃ out,
    delivers (info_next list_next 5) (mkGrainliftInfoReader None server_items [] server_schema) out
    ∧ concat (item_rows <$> out) = [inr (Some 0); inr (Some 1); inr (Some 2)].
Proof.
  destruct (info_reader_replaces_rows list_next None server_items server_schema server_items 5)
    as (out & Hout & Hrows & _).
  - repeat (eapply delivers_item; [reflexivity|]). eapply delivers_end. reflexivity.
  - apply Nat.ltb_lt. reflexivity.
  - exists out. split; [exact Hout|]. exact (eq_trans Hrows eq_refl).
Defined.
End Example.
