(* ===== verification/InfoEndToEnd.v ===== *)
(** * GetInfo through driver and server

    [get_info] of the driver over [loopback]: the codes the application asks for
    reach the native connection as they were, the native rows come back over the
    reader of the result, and the reader of [InfoReader.v] puts the driver's own
    batch in front and takes the rows it replaces out. *)

From S2P Require Import Prelude Adbc WireError Options Arrow Framing Envelope Partitions.
From S2P Require Import Config Backend ResultCursor BindUpload Session SessionSteps Manager.
From S2P Require Import ManagerSteps Rpc Service ServiceSteps Streaming.
From S2P Require Import Reference ReferenceIpc ReferenceBackend ReferenceRpc ReferenceService.
From S2P Require Import ClientOptions Client ClientTheorems EndToEnd OpenEndToEnd SessionEndToEnd.
From S2P Require Import StatementEndToEnd PartitionEndToEnd InfoReader.

(** A reader that was drained is an iterator of the items it gave. *)
Lemma drain_delivers `{AdbcCore} `{ArrowCrate} `{Base64} `{VgiRpc} `{!Json WireAdbcError} `{!RpcTransport}
    c_char_signed c turns r n :
  (length (drain c_char_signed c turns r n) < turns)%nat →
  delivers (remote_next c_char_signed c) (r, n) (drain c_char_signed c turns r n).
Proof.
  revert r n. induction turns as [|turns IH]; intros r n; simpl; [lia|].
  destruct (reader_next_item c_char_signed c r n) as [[[item|] r'] n'] eqn:Hn; simpl; intros Hlen.
  - eapply (delivers_item _ _ (r', n')); [unfold remote_next; simpl; by rewrite Hn|]. apply IH. lia.
  - eapply (delivers_end _ _ (r', n')). unfold remote_next. simpl. by rewrite Hn.
Qed.

Section Info.
Context `{AdbcCore} `{RustFmt} `{ArrowCrate} `{!InfoArrow} `{!IpcCrate} `{FileSystem} `{AdbcOptions} `{!InfoCodes}.
Context `{!Backend} `{Base64} `{Hmac} `{VgiRpc} `{!StructCrate} `{!WireRecords}.
Context `{!Json WireAdbcError} `{!Json BindCursor} `{!Json ResultCursor}.
Context (uuid : nat → string) (system_now : Global → nat → Z) (mg : Manager) (max_bind : Z).
Context (ctx : CallContext) (new_out : OutputCollector) (c_char_signed : bool).
#[local] Instance info_wire : RpcTransport := loopback uuid system_now mg max_bind ctx new_out.

(** [InfoCode::from(u32::from(code))] is [code]. *)
Definition codes_roundtrip (codes : option (gset InfoCode)) : Prop :=
  ∀ values code, codes = Some values → code ∈ values → info_code_from (wrap_unsigned 32 (u32_from code)) = code.

(** What the server makes of the codes of the request. *)
Definition codes_of (codes : option (list Z)) : option (gset InfoCode) :=
  (λ values, list_to_set ((λ code, info_code_from (wrap_unsigned 32 code)) <$> values)) <$> codes.

Lemma codes_arrive codes : codes_roundtrip codes → codes_of (wire_codes codes) = codes.
Proof.
  intros Hcodes. unfold codes_of, wire_codes. destruct codes as [values|]; [|done]. simpl. f_equal.
  rewrite <-list_fmap_compose. apply set_eq. intros code.
  rewrite elem_of_list_to_set, list_elem_of_fmap. split.
  - intros (code' & -> & Hin%elem_of_elements). simpl. by rewrite (Hcodes values code').
  - intros Hin. exists code. simpl. split; [by rewrite (Hcodes values code)|by apply elem_of_elements].
Qed.

Context (c : RemoteConnection) (p : string).
Context (Hcaller : principal mg (auth ctx) = Ok p) (Httl : 0 ≤ mg_ttl mg).
Context (Hhttp : transport c = Http) (Hsession : validate_handle (session_id c) = Ok tt).

Abbreviation streams_native := (streams_native uuid system_now mg max_bind ctx new_out c_char_signed c).

(** The request for the native rows. *)
Lemma info_streams codes rq K s :
  streaming new_out → roomy uuid mg K → codes_roundtrip codes →
  client_typed_request (mkGetInfoRequest (session_id c) (wire_codes codes)) = Ok rq → request_fits rq →
  serving mg (session_id c) p (holding mg K) s →
  streams_native
    (connection_stream_call c_char_signed c method.GET_INFO (mkGetInfoRequest (session_id c) (wire_codes codes)))
    (λ conn, conn_get_info conn codes) K s.
Proof.
  intros Hstream HK Hcodes Hrq Hfits Hs.
  eapply (typed_streams uuid system_now mg max_bind ctx new_out c_char_signed c p Hcaller Httl Hhttp Hsession Hstream
    method.GET_INFO gi_session_id); [reflexivity| |exact HK|exact Hrq|done|done| |exact Hs].
  - unfold acknowledged. set_solver.
  - intros a s1. cbv beta zeta. cbn [gi_codes].
    change ((λ values, list_to_set ((λ code, info_code_from (wrap_unsigned 32 code)) <$> values)) <$> wire_codes codes)
      with (codes_of (wire_codes codes)). by rewrite (codes_arrive codes Hcodes).
Qed.

(** What the application is given when the native reader yields [batches] and
    [ending]: the driver's own batch for the schema, and an iterator whose rows are
    the native rows without those the driver answers. *)
Definition info_answer (codes : option (gset InfoCode)) (schema : Schema) (batches : list RecordBatch)
    (ending : Ending) (fuel : nat)
    (ans : outcome (result AdbcError (GrainliftInfoReader RemoteReader)) * MState) : Prop :=
  match ans with
  | (Returned (Ok r), s) =>
      grainlift_info_batch codes schema = Returned (Ok (grainlift_batch r)) ∧ ir_schema r = schema
      ∧ ∃ out,
          delivers (info_next (remote_next c_char_signed c) fuel)
            (mkGrainliftInfoReader (grainlift_batch r) (downstream r, s) (pending r) (ir_schema r))
            ((Ok <$> option_list (grainlift_batch r)) ++ out)
          ∧ concat (item_rows <$> out) = concat (expected_rows <$> items_of batches (end_of c_char_signed ending))
          ∧ Forall (λ item, match item with Ok b => piece b | Err _ => True end) out
  | (Returned (Err e), _) =>
      batches = [] ∧ end_of c_char_signed ending = FailedWith e ∨ grainlift_info_batch codes schema = Returned (Err e)
  | (Panicked, _) => grainlift_info_batch codes schema = Panicked
  end.

Lemma items_of_length batches ending : (length (items_of batches ending) ≤ S (length batches))%nat.
Proof. unfold items_of. rewrite length_app, length_fmap. destruct ending; simpl; lia. Qed.

Lemma info_read codes rd batches ending fuel s :
  reads_native uuid system_now mg max_bind ctx new_out c_char_signed c (S (S (length batches)))
    (connection_stream_call c_char_signed c method.GET_INFO (mkGetInfoRequest (session_id c) (wire_codes codes)))
    (reader_schema rd) batches ending s →
  (S (length batches) < fuel)%nat →
  info_answer codes (reader_schema rd) batches ending fuel (connection_get_info c_char_signed c codes s).
Proof.
  unfold reads_native, connection_get_info. intros Hread Hfuel.
  destruct (connection_stream_call (H8 := info_wire) c_char_signed c method.GET_INFO
    (mkGetInfoRequest (session_id c) (wire_codes codes)) s) as [[r|e] s1]; [|by left].
  destruct Hread as [Hschema Hdrain].
  assert (rr_schema (H8 := info_wire) r = reader_schema rd) as -> by exact Hschema.
  destruct (grainlift_info_batch codes (reader_schema rd)) as [[own|e]|] eqn:Hown; simpl; [|by right|done].
  split; [exact Hown|]. split; [done|].
  pose proof (items_of_length batches (end_of c_char_signed ending)) as Hlen.
  pose proof (drain_delivers c_char_signed c (S (S (length batches))) r s1) as Hd.
  assert (drain (H8 := info_wire) c_char_signed c (S (S (length batches))) r s1
    = items_of batches (end_of c_char_signed ending)) as Heq by exact Hdrain.
  rewrite Heq in Hd.
  destruct (info_loop_delivers (remote_next c_char_signed c) _ (r, s1) (reader_schema rd) fuel (Hd ltac:(lia)) ltac:(lia))
    as (out & Hout & Hrest).
  exists out. split; [|exact Hrest]. destruct own as [b|]; [|done]. by econstructor.
Qed.
End Info.

(** ** Main theorem *)

Section Main.
Context `{AdbcCore} `{RustFmt} `{ArrowCrate} `{!InfoArrow} `{!IpcCrate} `{FileSystem} `{AdbcOptions} `{!InfoCodes}.
Context `{!Backend} `{Base64} `{Hmac} `{VgiRpc} `{!StructCrate} `{!WireRecords}.
Context `{!Json WireAdbcError} `{!Json BindCursor} `{!Json ResultCursor}.
Context (uuid : nat → string) (system_now : Global → nat → Z) (mg : Manager) (max_bind : Z).
Context (ctx : CallContext) (new_out : OutputCollector) (c_char_signed : bool).
#[local] Instance main_info_wire : RpcTransport := loopback uuid system_now mg max_bind ctx new_out.

(** C13: getInfo through the proxy is the native GetInfo with the driver's own
    rows.  The native connection is asked once, for exactly the codes the
    application asked for; a native error reaches the application as the wire
    carries it; otherwise the application's iterator gives the driver's batch for
    the native schema first, and then the rows of the native reader in order, each
    once, without those the driver answers itself, every error where it
    occurred, and comes to an end; an error or a panic of the driver's own batch
    is the answer instead. *)
Theorem info_through_proxy c p K s codes rq :
  principal mg (auth ctx) = Ok p → 0 ≤ mg_ttl mg → transport c = Http →
  validate_handle (session_id c) = Ok tt → streaming new_out → roomy uuid mg K →
  codes_roundtrip codes →
  client_typed_request (mkGetInfoRequest (session_id c) (wire_codes codes)) = Ok rq → request_fits rq →
  serving mg (session_id c) p (holding mg K) s →
  (∀ e w', conn_get_info (co_connection K) codes (co_world K) = (Err e, w') →
     (connection_get_info c_char_signed c codes s).1 = Returned (Err (rpc_error c_char_signed (adbc_rpc_error e))))
  ∧ ∀ rd w' batches ending fuel,
      conn_get_info (co_connection K) codes (co_world K) = (Ok rd, w') → yields rd w' batches ending →
      crosses_bounded ctx (mkExecuteResponse (uuid (co_uuids K)) None (schema_message (reader_schema rd))) →
      len batches ≤ i64_max → (S (length batches) < fuel)%nat →
      info_answer uuid system_now mg max_bind ctx new_out c_char_signed c codes (reader_schema rd) batches ending fuel
        (connection_get_info c_char_signed c codes s).
Proof.
  intros Hp Httl Ht Hid Hstream HK Hcodes Hrq Hfits Hs.
  destruct (info_streams uuid system_now mg max_bind ctx new_out c_char_signed c p Hp Httl Ht Hid codes rq K s
    Hstream HK Hcodes Hrq Hfits Hs) as [Herr Hrows]. split.
  - intros e w' Hop.
    assert ((connection_stream_call (H8 := main_info_wire) c_char_signed c method.GET_INFO
      (mkGetInfoRequest (session_id c) (wire_codes codes)) s).1 = Err (rpc_error c_char_signed (adbc_rpc_error e)))
      as Hcall by exact (Herr e w' Hop).
    unfold connection_get_info. destruct (connection_stream_call _ _ _ _ _) as [[r|e'] s1]; [done|].
    simpl in *. by injection Hcall as ->.
  - intros rd w' batches ending fuel Hop Hy Hcross Hmax Hfuel.
    by apply info_read; [eapply Hrows; eauto|].
Qed.
End Main.

(** ** Example *)

Section Example.
#[local] Existing Instance simple_core.
#[local] Existing Instance simple_fmt.
#[local] Existing Instance ref_arrow.
#[local] Existing Instance ref_ipc.
#[local] Existing Instance ref_files.
#[local] Existing Instance ref_options.
#[local] Existing Instance ref_backend.
#[local] Existing Instance ref_base64.
#[local] Existing Instance ref_hmac.
#[local] Existing Instance ref_rpc.
#[local] Existing Instance ref_struct.
#[local] Existing Instance ref_records.
#[local] Existing Instance ref_json_error.
#[local] Existing Instance ref_json_bind.
#[local] Existing Instance ref_json_result.
#[local] Existing Instance ref_info_codes.
#[local] Existing Instance ref_info_arrow.

#[local] Instance example_info_wire : RpcTransport :=
  loopback example_uuid example_clock example_manager 1000 alice fresh_out.

(** The native rows: a driver name, which is replaced, and two others. *)
Definition info_world : @World ref_arrow ref_options ref_backend :=
  ref_items [Ok (info_batch [100; 0]); Ok (info_batch [1])].

Definition info_contents : Contents := at_world info_world example_contents.

Definition info_state : MState :=
  mkMState (mkGlobal info_world 30 0 [] [])
    (Mutex_new (mkSessionRegistry {["id-0" := 0%nat]} 0 ∅)) {[0%nat := (1%nat, statement_session)]} 1 false.

Lemma info_holding :
  serving example_manager "id-0" alice_principal (holding example_manager info_contents) info_state.
Proof.
  split; [reflexivity..|]. exists 0%nat, 0%nat, statement_session, 0. repeat split; reflexivity.
Qed.

Definition some_codes : option (gset (@InfoCode ref_options)) := Some {[100; 1]}.

Definition info_request : RecordBatch :=
  default (batch ReferenceService.session_request)
    (result_ok (client_typed_request (mkGetInfoRequest "id-0" (wire_codes some_codes)))).

Lemma some_codes_roundtrip : codes_roundtrip some_codes.
Proof.
  intros values code [= <-]. rewrite elem_of_union, !elem_of_singleton. by intros [-> | ->].
Qed.

Lemma info_through_proxy_witness :
  info_answer example_uuid example_clock example_manager 1000 alice fresh_out true remote some_codes
    (reader_schema ref_reader) [info_batch [100; 0]; info_batch [1]] EndOfStream 5
    (connection_get_info true remote some_codes info_state).
Proof.
  destruct (info_through_proxy example_uuid example_clock example_manager 1000 alice fresh_out true remote
    alice_principal info_contents info_state some_codes info_request) as [_ Hrows].
  - reflexivity.
  - vm_compute. discriminate.
  - reflexivity.
  - reflexivity.
  - exact example_streaming.
  - exact example_roomy.
  - exact some_codes_roundtrip.
  - vm_compute. reflexivity.
  - intros b Hb. vm_compute in Hb. injection Hb as <-. split; vm_compute; discriminate.
  - exact info_holding.
  - apply (Hrows ref_reader info_world); [reflexivity| |exact example_result_crosses| |].
    + eapply yields_batch; [reflexivity|]. eapply yields_batch; [reflexivity|]. eapply yields_end. reflexivity.
    + vm_compute. discriminate.
    + apply Nat.ltb_lt. reflexivity.
Defined.
End Example.
