(* ===== verification/Pool.v ===== *)
(** * The pool of Iroh connections (adbc-driver-grainlift/src/iroh_pool.rs)

    Connections to the same peer are shared by the whole process: a map of weak
    references to slots, each initialised once by whoever comes first, kept alive
    by the leases of its callers and closed with the last of them.  Slots and
    connections are locations of a heap with strong counts; each atomic section is
    a definition, the functions of the source are composed from them.  The Iroh
    crates are the interface [IrohCrate]. *)

From S2P Require Import Prelude.

Record PoolError : Type := mkPoolError { pe_context : string; pe_message : string }.

(** [PoolError::new], on the display of the error. *)
Definition PoolError_new (context error : string) : PoolError := mkPoolError context error.

Definition pool_error_to_string (e : PoolError) : string := pe_context e +:+ ": " +:+ pe_message e.

#[global] Instance PoolError_eq_decision : EqDecision PoolError.
Proof. solve_decision. Defined.

(** A [OnceLock]: empty, being filled by one thread, or filled for good. *)
Inductive SlotValue : Type :=
| Uninit
| Initializing
| Initialized (value : result PoolError nat).

#[local] Instance init_result_eq_decision : EqDecision (result PoolError nat).
Proof. solve_decision. Defined.

#[global] Instance SlotValue_eq_decision : EqDecision SlotValue.
Proof. solve_decision. Defined.

Section WeakPool.
Context {K : Type} `{Countable K} {V : Type}.

(** ** State *)

(** [p_entries] holds weak references: a location that is not in [p_slots] any
    more cannot be upgraded.  Locations are never reused. *)
Record PoolState : Type := mkPoolState {
  p_entries : Mutex (gmap K nat);
  p_slots : gmap nat (nat * SlotValue);
  p_resources : gmap nat (nat * V);
  p_next : nat;
  p_closed : list V
}.

Definition PoolState_default : PoolState := mkPoolState (Mutex_new ∅) ∅ ∅ 0 [].

Definition set_entries (m : gmap K nat) (s : PoolState) : PoolState :=
  mkPoolState (mx_set (p_entries s) m) (p_slots s) (p_resources s) (p_next s) (p_closed s).
Definition set_slots (m : gmap nat (nat * SlotValue)) (s : PoolState) : PoolState :=
  mkPoolState (p_entries s) m (p_resources s) (p_next s) (p_closed s).
Definition set_resources (m : gmap nat (nat * V)) (s : PoolState) : PoolState :=
  mkPoolState (p_entries s) (p_slots s) m (p_next s) (p_closed s).
Definition allocate (s : PoolState) : PoolState :=
  mkPoolState (p_entries s) (p_slots s) (p_resources s) (S (p_next s)) (p_closed s).
Definition close_connection (v : V) (s : PoolState) : PoolState :=
  mkPoolState (p_entries s) (p_slots s) (p_resources s) (p_next s) (p_closed s ++ [v]).

(** ** Reference counts *)

(** [Drop for ConnectionResource] closes the connection. *)
Definition drop_resource (x : nat) (s : PoolState) : PoolState :=
  match p_resources s !! x with
  | Some (S (S n), v) => set_resources (<[x := (S n, v)]> (p_resources s)) s
  | Some (_, v) => close_connection v (set_resources (delete x (p_resources s)) s)
  | None => s
  end.

Definition clone_resource (x : nat) (s : PoolState) : PoolState :=
  match p_resources s !! x with
  | Some (n, v) => set_resources (<[x := (S n, v)]> (p_resources s)) s
  | None => s
  end.

Definition stored_in (v : SlotValue) : option nat :=
  match v with Initialized (Ok x) => Some x | _ => None end.

(** The last reference to a slot drops what it stores. *)
Definition drop_slot (l : nat) (s : PoolState) : PoolState :=
  match p_slots s !! l with
  | Some (S (S n), v) => set_slots (<[l := (S n, v)]> (p_slots s)) s
  | Some (_, v) =>
      let s := set_slots (delete l (p_slots s)) s in
      match stored_in v with Some x => drop_resource x s | None => s end
  | None => s
  end.

(** ** [WeakPool::acquire] and [WeakPool::invalidate] *)

Definition pool_poisoned : PoolError := PoolError_new "lock Iroh pool" "pool is poisoned".

(** [entries.retain(|_, slot| slot.strong_count() > 0)]. *)
Definition retain_live (s : PoolState) (m : gmap K nat) : gmap K nat :=
  filter (λ '(_, l), is_Some (p_slots s !! l)) m.

(** [entries.get(&key).and_then(Weak::upgrade)]. *)
Definition upgrade (s : PoolState) (m : gmap K nat) (key : K) : option (nat * nat * SlotValue) :=
  l ← m !! key;
  '(n, v) ← p_slots s !! l;
  Some (l, n, v).

(** The locked section of [acquire]. *)
Definition acquire_slot (key : K) : M PoolState PoolError nat := λ s,
  match lock (p_entries s) pool_poisoned with
  | Err e => (Err e, s)
  | Ok m =>
      let m := retain_live s m in
      match upgrade s m key with
      | Some (l, n, v) => (Ok l, set_slots (<[l := (S n, v)]> (p_slots s)) (set_entries m s))
      | None =>
          let l := p_next s in
          (Ok l, allocate (set_slots (<[l := (1%nat, Uninit)]> (p_slots s))
                             (set_entries (<[key := l]> m) s)))
      end
  end.

Definition set_value (l : nat) (v : SlotValue) (s : PoolState) : PoolState :=
  match p_slots s !! l with
  | Some (n, _) => set_slots (<[l := (n, v)]> (p_slots s)) s
  | None => s
  end.

(** The two ends of [get_or_init]'s call of the initialiser. *)
Definition begin_init (l : nat) (s : PoolState) : PoolState := set_value l Initializing s.

Definition finish_init (l : nat) (r : result PoolError V) (s : PoolState) : PoolState :=
  match r with
  | Err e => set_value l (Initialized (Err e)) s
  | Ok v =>
      let x := p_next s in
      set_value l (Initialized (Ok x))
        (allocate (set_resources (<[x := (1%nat, v)]> (p_resources s)) s))
  end.

Definition value_of (l : nat) (s : PoolState) : option SlotValue := snd <$> p_slots s !! l.

Definition invalidate (key : K) (expected : nat) (s : PoolState) : PoolState :=
  if mx_poisoned (p_entries s) then s
  else
    match upgrade s (mx_data (p_entries s)) key with
    | Some (l, _, _) =>
        if bool_decide (l = expected)
        then set_entries (delete key (mx_data (p_entries s))) s
        else s
    | None => s
    end.

(** ** A caller of [open_client]

    What happens outside the pool is an argument of each step: the results of
    the initialiser, of [runtime()] and of opening the stream. *)

Context {C : Type}.

Record Choice : Type := mkChoice {
  ch_initialize : result PoolError V;
  ch_runtime : result PoolError unit;
  ch_open_client : result string C
}.

(** What a caller does once it has given up its references. *)
Inductive After : Type := RetryOnce | FailWith (e : PoolError).

(** Where a caller is, with the references it holds: [l] to a slot, [x] to a
    connection.  [attempt] is 0 or 1. *)
Inductive Caller : Type :=
| Acquiring (attempt : nat)
| Waiting (attempt l : nat)
| Filling (attempt l : nat)
| Opening (attempt l x : nat)
| Evicting (l x : nat)
| DroppingBoth (l x : nat) (after : After)
| DroppingSlot (l : nat) (after : After)
| Returning (l x : nat) (client : C)
| Leased (l : nat) (client : C)
| Failed (e : PoolError)
| Released.

(** One atomic section of a caller; [None] when it waits for the thread that
    fills its slot, and when it is done. *)
Definition caller_step (key : K) (ch : Choice) (t : Caller) (s : PoolState)
  : option (Caller * PoolState) :=
  match t with
  | Acquiring attempt =>
      match acquire_slot key s with
      | (Ok l, s) => Some (Waiting attempt l, s)
      | (Err e, s) => Some (Failed e, s)
      end
  | Waiting attempt l =>
      match value_of l s with
      | Some Uninit => Some (Filling attempt l, begin_init l s)
      | Some (Initialized (Ok x)) => Some (Opening attempt l x, clone_resource x s)
      | Some (Initialized (Err e)) => Some (DroppingSlot l (FailWith e), s)
      | Some Initializing | None => None
      end
  | Filling attempt l => Some (Waiting attempt l, finish_init l (ch_initialize ch) s)
  | Opening attempt l x =>
      Some (match ch_runtime ch with
            | Err e => DroppingBoth l x (FailWith e)
            | Ok _ =>
                match ch_open_client ch with
                | Ok client => Returning l x client
                | Err error =>
                    if (attempt =? 0)%nat then Evicting l x
                    else DroppingBoth l x (FailWith (PoolError_new "open Iroh VGI stream" error))
                end
            end, s)
  | Evicting l x => Some (DroppingBoth l x RetryOnce, invalidate key l s)
  | DroppingBoth l x after => Some (DroppingSlot l after, drop_resource x s)
  | DroppingSlot l after =>
      Some (match after with RetryOnce => Acquiring 1 | FailWith e => Failed e end, drop_slot l s)
  | Returning l x client => Some (Leased l client, drop_resource x s)
  | Leased _ _ | Failed _ | Released => None
  end.

(** ** All callers *)

(** [c_evicted] and [c_started] record which slots were evicted and filled. *)
Record PoolConfig : Type := mkPoolConfig {
  c_pool : PoolState;
  c_callers : list (K * Caller);
  c_evicted : gset nat;
  c_started : list nat
}.

Definition evicted_by (t : Caller) : gset nat := match t with Evicting l _ => {[l]} | _ => ∅ end.
Definition started_by (t t' : Caller) : list nat :=
  match t, t' with Waiting _ l, Filling _ _ => [l] | _, _ => [] end.

Inductive pool_step : PoolConfig → PoolConfig → Prop :=
| ps_spawn s ts ev st key :
    pool_step (mkPoolConfig s ts ev st) (mkPoolConfig s (ts ++ [(key, Acquiring 0)]) ev st)
| ps_caller s ts ev st i key t ch t' s' :
    ts !! i = Some (key, t) → caller_step key ch t s = Some (t', s') →
    pool_step (mkPoolConfig s ts ev st)
      (mkPoolConfig s' (<[i := (key, t')]> ts) (evicted_by t ∪ ev) (started_by t t' ++ st))
| ps_release s ts ev st i key l client :
    ts !! i = Some (key, Leased l client) →
    pool_step (mkPoolConfig s ts ev st)
      (mkPoolConfig (drop_slot l s) (<[i := (key, Released)]> ts) ev st).

Definition initial_config : PoolConfig := mkPoolConfig PoolState_default [] ∅ [].

(** The references a caller holds. *)
Definition slot_refs (t : Caller) : list nat :=
  match t with
  | Waiting _ l | Filling _ l | Opening _ l _ | Evicting l _ | DroppingBoth l _ _
  | DroppingSlot l _ | Returning l _ _ | Leased l _ => [l]
  | Acquiring _ | Failed _ | Released => []
  end.
Definition resource_refs (t : Caller) : list nat :=
  match t with
  | Opening _ _ x | Evicting _ x | DroppingBoth _ x _ | Returning _ x _ => [x]
  | _ => []
  end.
Definition filling_refs (t : Caller) : list nat :=
  match t with Filling _ l => [l] | _ => [] end.

Definition refs (f : Caller → list nat) (ts : list (K * Caller)) : list nat :=
  concat ((λ kt, f kt.2) <$> ts).
End WeakPool.

Arguments PoolState K {_ _} V.
Arguments Caller C : clear implicits.
Arguments PoolConfig K {_ _} V C.

(** ** The pool of Iroh connections *)

(** The Iroh crates: keys, endpoints and connections, with the operations that
    talk to the network as steps of a world. *)
Class IrohCrate : Type := {
  IrohWorld : Type;
  SecretKey : Type;
  EndpointId : Type;
  EndpointId_eq :: EqDecision EndpointId;
  EndpointId_countable :: Countable EndpointId;
  SocketAddr : Type;
  SocketAddr_eq :: EqDecision SocketAddr;
  SocketAddr_countable :: Countable SocketAddr;
  Endpoint : Type;
  IrohConnection : Type;
  RpcClient : Type;
  public : SecretKey → EndpointId;
  generate : IrohWorld → SecretKey * IrohWorld;
  build_runtime : M IrohWorld string unit;
  bind_endpoint : SecretKey → M IrohWorld string Endpoint;
  connect_addr : Endpoint → EndpointId → option SocketAddr → Z → M IrohWorld string IrohConnection;
  connection_open_client : IrohConnection → M IrohWorld string RpcClient
}.

Section IrohPool.
Context `{IrohCrate}.

Record PoolKey : Type := mkPoolKey {
  pk_local_id : EndpointId; pk_remote_id : EndpointId; pk_direct_address : option SocketAddr;
  pk_rpc_timeout : Z
}.

#[global] Instance PoolKey_eq_decision : EqDecision PoolKey.
Proof. solve_decision. Defined.
#[global] Program Instance PoolKey_countable : Countable PoolKey :=
  inj_countable' (λ k, (pk_local_id k, pk_remote_id k, pk_direct_address k, pk_rpc_timeout k))
    (λ '(l, r, d, t), mkPoolKey l r d t) _.
Next Obligation. by intros []. Qed.

Record PoolClientConfig : Type := mkPoolClientConfig {
  pc_remote_id : EndpointId; pc_direct_address : option SocketAddr;
  pc_secret_key : option SecretKey; pc_rpc_timeout : Z
}.

Record ConnectionResource : Type := mkConnectionResource {
  cr_endpoint : Endpoint; cr_connection : IrohConnection
}.

(** The process-wide [OnceLock]s. *)
Record ProcessState : Type := mkProcessState {
  ps_runtime : option (result PoolError unit); ps_secret : option SecretKey; ps_world : IrohWorld
}.

Definition runtime : M ProcessState PoolError unit := λ s,
  match ps_runtime s with
  | Some r => (r, s)
  | None =>
      let '(r, w) := build_runtime (ps_world s) in
      let r := map_err (PoolError_new "create Iroh runtime") r in
      (r, mkProcessState (Some r) (ps_secret s) w)
  end.

Definition process_secret_key (s : ProcessState) : SecretKey * ProcessState :=
  match ps_secret s with
  | Some key => (key, s)
  | None =>
      let '(key, w) := generate (ps_world s) in (key, mkProcessState (ps_runtime s) (Some key) w)
  end.

Definition outside {A} (context : string) (m : M IrohWorld string A) : M ProcessState PoolError A := λ s,
  let '(r, w) := m (ps_world s) in
  (map_err (PoolError_new context) r, mkProcessState (ps_runtime s) (ps_secret s) w).

Definition initialize_resource (secret_key : SecretKey) (remote_id : EndpointId)
    (direct_address : option SocketAddr) (rpc_timeout : Z) : M ProcessState PoolError ConnectionResource :=
  runtime;;
  endpoint ← outside "bind Iroh client endpoint" (bind_endpoint secret_key);
  connection ← outside "connect Iroh endpoint" (connect_addr endpoint remote_id direct_address rpc_timeout);
  mret (mkConnectionResource endpoint connection).

(** What [open_client] does before its loop: the identity and the key. *)
Definition client_key (config : PoolClientConfig) (s : ProcessState)
  : (SecretKey * PoolKey) * ProcessState :=
  let '(secret_key, s) :=
    match pc_secret_key config with Some key => (key, s) | None => process_secret_key s end in
  ((secret_key, mkPoolKey (public secret_key) (pc_remote_id config) (pc_direct_address config)
      (pc_rpc_timeout config)), s).

(** What the sections of the loop get from the process: the initialiser in
    [Filling], the runtime and then the connection of the slot in [Opening]. *)
Definition unasked : Choice (V := ConnectionResource) (C := RpcClient) :=
  mkChoice (Err (mkPoolError "" "")) (Ok tt) (Err "").

Definition ask (secret_key : SecretKey) (key : PoolKey) (t : Caller RpcClient)
    (s : PoolState PoolKey ConnectionResource) (ps : ProcessState)
  : Choice (V := ConnectionResource) (C := RpcClient) * ProcessState :=
  match t with
  | Filling _ _ =>
      let '(r, ps) := initialize_resource secret_key (pk_remote_id key) (pk_direct_address key)
                        (pk_rpc_timeout key) ps in
      (mkChoice r (Ok tt) (Err ""), ps)
  | Opening _ _ x =>
      let '(rt, ps) := runtime ps in
      match rt, snd <$> p_resources s !! x with
      | Ok _, Some resource =>
          let '(client, w) := connection_open_client (cr_connection resource) (ps_world ps) in
          (mkChoice (Err (mkPoolError "" "")) rt client, mkProcessState (ps_runtime ps) (ps_secret ps) w)
      | _, _ => (mkChoice (Err (mkPoolError "" "")) rt (Err ""), ps)
      end
  | _ => (unasked, ps)
  end.

(** The loop of [open_client], when no other thread runs meanwhile. *)
Fixpoint run_caller (fuel : nat) (secret_key : SecretKey) (key : PoolKey) (t : Caller RpcClient)
    (s : PoolState PoolKey ConnectionResource) (ps : ProcessState)
  : Caller RpcClient * PoolState PoolKey ConnectionResource * ProcessState :=
  match fuel with
  | O => (t, s, ps)
  | S fuel =>
      let '(ch, ps') := ask secret_key key t s ps in
      match caller_step key ch t s with
      | Some (t', s') => run_caller fuel secret_key key t' s' ps'
      | None => (t, s, ps)
      end
  end.

Definition open_client (config : PoolClientConfig) (s : PoolState PoolKey ConnectionResource)
    (ps : ProcessState) : Caller RpcClient * PoolState PoolKey ConnectionResource * ProcessState :=
  let '((secret_key, key), ps) := client_key config ps in
  run_caller 15 secret_key key (Acquiring 0) s ps.
End IrohPool.
