(* ===== verification/PoolSteps.v ===== *)
(** * What the connection pool guarantees (adbc-driver-grainlift/src/iroh_pool.rs)

    [pool_step] interleaves any number of callers of [open_client], each an
    atomic section at a time, and the release of leases.  [pool_inv] is
    invariant: every strong count is the number of references the callers and
    slots hold, a slot is filled once, and callers of a key share one slot until
    it is evicted. *)

From S2P Require Import Prelude RefCounts Pool.

(** ** Accounting *)

Section Accounting.
Context {K : Type} `{Countable K} {V C : Type}.
Implicit Types (s : PoolState K V) (a b : list nat).

(** The connections slots store. *)
Definition stored (m : gmap nat (nat * SlotValue)) : list nat :=
  omap (λ lv, stored_in lv.2.2) (map_to_list m).

Lemma stored_insert m l n v :
  stored (<[l := (n, v)]> m) ≡ₚ option_list (stored_in v) ++ stored (delete l m).
Proof.
  unfold stored. rewrite <-insert_delete_eq, map_to_list_insert by apply lookup_delete_eq.
  simpl. by destruct (stored_in v).
Qed.

Lemma stored_lookup m l n v :
  m !! l = Some (n, v) → stored m ≡ₚ option_list (stored_in v) ++ stored (delete l m).
Proof. intros Hl. rewrite <-(insert_id m l (n, v) Hl) at 1. apply stored_insert. Qed.

(** Changing the count of a slot does not change what is stored. *)
Lemma stored_count m l n n' v : m !! l = Some (n, v) → stored (<[l := (n', v)]> m) ≡ₚ stored m.
Proof. intros Hl. by rewrite stored_insert, (stored_lookup m l n v Hl). Qed.

(** The callers hold [a] to slots and [b] to connections. *)
Record holds s a b : Prop := mkHolds {
  holds_slots : counted (p_slots s) a;
  holds_resources : counted (p_resources s) (b ++ stored (p_slots s));
  holds_fresh : ∀ l, (p_next s ≤ l)%nat → p_slots s !! l = None ∧ p_resources s !! l = None
}.

#[global] Instance holds_Permutation s : Proper ((≡ₚ) ==> (≡ₚ) ==> iff) (holds s).
Proof.
  intros a a' Ha b b' Hb. split; intros [H1' H2' H3']; split; try done; by rewrite ?Ha, ?Hb in *.
Qed.

Lemma value_of_Some s l v : value_of l s = Some v → ∃ n, p_slots s !! l = Some (n, v).
Proof. unfold value_of. destruct (p_slots s !! l) as [[n v']|]; [|done]. intros [= <-]. by exists n. Qed.

Lemma holds_live_lt s a b l v : holds s a b → value_of l s = Some v → (l < p_next s)%nat.
Proof.
  intros Hh [n Hl]%value_of_Some. destruct (le_lt_dec (p_next s) l) as [Hge|]; [|done].
  destruct (holds_fresh _ _ _ Hh l Hge). congruence.
Qed.

Lemma holds_acquire s a b key l s' :
  holds s a b → acquire_slot key s = (Ok l, s') → holds s' (l :: a) b.
Proof.
  intros [Hs Hr Hf]. unfold acquire_slot, lock. destruct (mx_poisoned _); [done|].
  destruct (upgrade _ _ _) as [[[l' n] v]|] eqn:Hu; intros [= <- <-].
  - apply bind_Some in Hu as (l1 & _ & Hu). apply bind_Some in Hu as ([n1 v1] & Hl & [= <- <- <-]).
    split; simpl; [by eapply counted_incr| |].
    + by rewrite (stored_count _ _ n1).
    + intros l0 Hl0. destruct (Hf l0 Hl0) as [H1' ?]. split; [|done].
      rewrite lookup_insert_ne; [done|]. intros ->. congruence.
  - destruct (Hf (p_next s)) as [Hnew _]; [done|]. split; simpl.
    + by apply counted_new.
    + rewrite stored_insert. simpl. by rewrite delete_id.
    + intros l0 Hl0. rewrite lookup_insert_ne by lia. apply Hf. lia.
Qed.

(** Setting the value of a slot that stores nothing to one that stores nothing. *)
Lemma holds_set_value s a b l v v' :
  holds s a b → value_of l s = Some v → stored_in v = None → stored_in v' = None →
  holds (set_value l v' s) a b.
Proof.
  intros [Hs Hr Hf] [n Hl]%value_of_Some Hv Hv'. unfold set_value. rewrite Hl. split; simpl.
  - by eapply counted_set.
  - rewrite stored_insert, Hv'. rewrite (stored_lookup _ _ _ _ Hl), Hv in Hr. done.
  - intros l0 Hl0. destruct (Hf l0 Hl0). rewrite lookup_insert_ne; [done|]. intros ->. congruence.
Qed.

Lemma holds_finish s a b l r :
  holds s a b → value_of l s = Some Initializing → holds (finish_init l r s) a b.
Proof.
  intros Hh Hv. destruct r as [v|e]; [|by eapply holds_set_value]. destruct Hh as [Hs Hr Hf].
  apply value_of_Some in Hv as [n Hl]. unfold finish_init, set_value. simpl. rewrite Hl.
  destruct (Hf (p_next s)) as [Hns Hnr]; [done|]. split; simpl.
  - by eapply counted_set.
  - rewrite stored_insert. simpl. rewrite <-Permutation_middle.
    apply counted_new; [|done]. by rewrite (stored_lookup _ _ _ _ Hl) in Hr.
  - intros l0 Hl0. rewrite !lookup_insert_ne; [apply Hf; lia|lia|].
    intros ->. destruct (Hf l0); [lia|congruence].
Qed.

Lemma holds_clone s a b l x :
  holds s a b → value_of l s = Some (Initialized (Ok x)) → holds (clone_resource x s) a (x :: b).
Proof.
  intros [Hs Hr Hf] [n Hl]%value_of_Some. unfold clone_resource.
  assert (is_Some (p_resources s !! x)) as [[k v] Hx].
  { eapply counted_live; [exact Hr|]. rewrite (stored_lookup _ _ _ _ Hl). simpl. set_solver. }
  rewrite Hx. split; simpl; [done|by eapply counted_incr|].
  intros l0 Hl0. destruct (Hf l0 Hl0). split; [done|]. rewrite lookup_insert_ne; [done|]. congruence.
Qed.

Lemma holds_drop_resource s a b x : holds s a (x :: b) → holds (drop_resource x s) a b.
Proof.
  intros [Hs Hr Hf]. unfold drop_resource. pose proof (Hr x) as Hx.
  destruct (p_resources s !! x) as [[[|[|n]] v]|] eqn:Hl.
  - by destruct Hx.
  - split; simpl; [done|by eapply counted_free|].
    intros l0 Hl0. destruct (Hf l0 Hl0). split; [done|]. by apply lookup_delete_None; right.
  - split; simpl; [done|by eapply counted_decr|].
    intros l0 Hl0. destruct (Hf l0 Hl0). split; [done|]. rewrite lookup_insert_ne; [done|]. congruence.
  - rewrite cnt_zero in Hx. set_solver.
Qed.

Lemma holds_drop_slot s a b l : holds s (l :: a) b → holds (drop_slot l s) a b.
Proof.
  intros Hh. pose proof Hh as [Hs Hr Hf]. unfold drop_slot. pose proof (Hs l) as Hx.
  destruct (p_slots s !! l) as [[[|[|n]] v]|] eqn:Hl.
  - by destruct Hx.
  - assert (holds (set_slots (delete l (p_slots s)) s) a (option_list (stored_in v) ++ b)) as Hfree.
    { split; simpl; [by eapply counted_free| |].
      - rewrite (stored_lookup _ _ _ _ Hl) in Hr. revert Hr. by rewrite !app_assoc, (Permutation_app_comm b).
      - intros l0 Hl0. destruct (Hf l0 Hl0). split; [|done]. by apply lookup_delete_None; right. }
    destruct (stored_in v); [by apply holds_drop_resource|done].
  - split; simpl; [by eapply counted_decr|by rewrite (stored_count _ _ (S (S n)))|].
    intros l0 Hl0. destruct (Hf l0 Hl0). split; [|done]. rewrite lookup_insert_ne; [done|]. congruence.
  - rewrite cnt_zero in Hx. set_solver.
Qed.

Lemma holds_invalidate s a b key l : holds s a b → holds (invalidate key l s) a b.
Proof.
  intros [Hs Hr Hf]. unfold invalidate. destruct (mx_poisoned _); [done|].
  destruct (upgrade _ _ _) as [[[l' n] v]|]; [|done]. by case_bool_decide.
Qed.
End Accounting.

(** ** Values of slots *)

Section Values.
Context {K : Type} `{Countable K} {V C : Type}.
Implicit Types (s : PoolState K V) (a b : list nat).

Lemma value_of_set_value s l l' v :
  value_of l' (set_value l v s)
  = if decide (l = l') then (λ _, v) <$> value_of l s else value_of l' s.
Proof.
  unfold set_value, value_of. destruct (decide (l = l')) as [<-|Hne].
  - destruct (p_slots s !! l) as [[n w]|] eqn:Hl; simpl; [by rewrite lookup_insert_eq|by rewrite Hl].
  - destruct (p_slots s !! l) as [[n w]|]; simpl; [by rewrite lookup_insert_ne|done].
Qed.

Lemma value_of_finish s l l' r :
  value_of l' (finish_init l r s)
  = if decide (l = l')
    then (λ _, Initialized (match r with Ok _ => Ok (p_next s) | Err e => Err e end)) <$> value_of l s
    else value_of l' s.
Proof. destruct r as [v|e]; unfold finish_init; by rewrite value_of_set_value. Qed.

(** Acquiring changes no slot and may add an empty one. *)
Lemma value_of_acquire s a b key l s' l' :
  holds s a b → acquire_slot key s = (Ok l, s') →
  value_of l' s' = if decide (l' = l ∧ value_of l s = None) then Some Uninit else value_of l' s.
Proof.
  intros [_ _ Hf]. unfold acquire_slot, lock. destruct (mx_poisoned _); [done|].
  destruct (upgrade _ _ _) as [[[l1 n] v]|] eqn:Hu; intros [= <- <-].
  - apply bind_Some in Hu as (l2 & _ & Hu). apply bind_Some in Hu as ([n1 v1] & Hl & [= <- <- <-]).
    unfold value_of. rewrite Hl. rewrite decide_False by (intros [_ ?]; done). simpl.
    destruct (decide (l2 = l')) as [<-|]; [by rewrite lookup_insert_eq, Hl|by rewrite lookup_insert_ne].
  - destruct (Hf (p_next s)) as [Hnew _]; [done|]. unfold value_of. simpl. rewrite Hnew.
    destruct (decide (l' = p_next s)) as [->|].
    + by rewrite lookup_insert_eq, decide_True.
    + rewrite lookup_insert_ne by done. rewrite decide_False by (by intros [? _]). done.
Qed.

Lemma value_of_drop_resource s x l : value_of l (drop_resource x s) = value_of l s.
Proof. unfold drop_resource. by destruct (p_resources s !! x) as [[[|[|n]] v]|]. Qed.

Lemma value_of_clone s x l : value_of l (clone_resource x s) = value_of l s.
Proof. unfold clone_resource. by destruct (p_resources s !! x) as [[n v]|]. Qed.

Lemma value_of_invalidate s key l' l : value_of l (invalidate key l' s) = value_of l s.
Proof.
  unfold invalidate. destruct (mx_poisoned _); [done|].
  destruct (upgrade _ _ _) as [[[l1 n] v]|]; [|done]. by case_bool_decide.
Qed.

(** A slot somebody else holds survives; one nobody holds is gone. *)
Lemma value_of_drop_slot s a b l l' :
  holds s (l :: a) b → value_of l' (drop_slot l s) = if decide (l' ∈ a) then value_of l' s else None.
Proof.
  intros Hh. pose proof (holds_drop_slot _ _ _ _ Hh) as Hh'.
  destruct (decide (l' ∈ a)) as [Ha|Ha].
  - destruct Hh as [Hs _ _]. unfold drop_slot. pose proof (Hs l) as Hl.
    destruct (p_slots s !! l) as [[[|[|n]] v]|] eqn:Hsl; [by destruct Hl| | |done].
    + assert (l ≠ l') as Hne.
      { intros <-. rewrite cnt_cons, decide_True in Hl by done.
        assert (cnt l a ≠ 0%nat) by (by rewrite cnt_zero; intros ?). lia. }
      destruct (stored_in v); rewrite ?value_of_drop_resource; unfold value_of; simpl;
        by rewrite lookup_delete_ne.
    + unfold value_of. simpl. destruct (decide (l = l')) as [<-|].
      * by rewrite lookup_insert_eq, Hsl.
      * by rewrite lookup_insert_ne.
  - destruct Hh' as [Hs' _ _]. unfold value_of. destruct (p_slots (drop_slot l s) !! l') eqn:Hl; [|done].
    exfalso. apply Ha. eapply counted_dead; [exact Hs'|by rewrite Hl].
Qed.

(** ** Entries *)

Lemma entries_drop_resource s x : p_entries (drop_resource x s) = p_entries s.
Proof. unfold drop_resource. by destruct (p_resources s !! x) as [[[|[|n]] v]|]. Qed.
Lemma entries_clone s x : p_entries (clone_resource x s) = p_entries s.
Proof. unfold clone_resource. by destruct (p_resources s !! x) as [[n v]|]. Qed.
Lemma entries_drop_slot s l : p_entries (drop_slot l s) = p_entries s.
Proof.
  unfold drop_slot. destruct (p_slots s !! l) as [[[|[|n]] v]|]; try done;
    destruct (stored_in v); by rewrite ?entries_drop_resource.
Qed.
Lemma entries_set_value s l v : p_entries (set_value l v s) = p_entries s.
Proof. unfold set_value. by destruct (p_slots s !! l) as [[n w]|]. Qed.
Lemma entries_finish s l r : p_entries (finish_init l r s) = p_entries s.
Proof. destruct r; unfold finish_init; by rewrite entries_set_value. Qed.

Lemma next_drop_resource s x : p_next (drop_resource x s) = p_next s.
Proof. unfold drop_resource. by destruct (p_resources s !! x) as [[[|[|n]] v]|]. Qed.
Lemma next_clone s x : p_next (clone_resource x s) = p_next s.
Proof. unfold clone_resource. by destruct (p_resources s !! x) as [[n v]|]. Qed.
Lemma next_drop_slot s l : p_next (drop_slot l s) = p_next s.
Proof.
  unfold drop_slot. destruct (p_slots s !! l) as [[[|[|n]] v]|]; try done;
    destruct (stored_in v); by rewrite ?next_drop_resource.
Qed.
Lemma next_set_value s l v : p_next (set_value l v s) = p_next s.
Proof. unfold set_value. by destruct (p_slots s !! l) as [[n w]|]. Qed.
Lemma next_finish s l r : (p_next s ≤ p_next (finish_init l r s))%nat.
Proof. destruct r; unfold finish_init; rewrite next_set_value; simpl; lia. Qed.
Lemma next_invalidate s key l : p_next (invalidate key l s) = p_next s.
Proof.
  unfold invalidate. destruct (mx_poisoned _); [done|].
  destruct (upgrade _ _ _) as [[[l1 n] v]|]; [|done]. by case_bool_decide.
Qed.

(** ** References of callers *)

Lemma delete_insert_same {A} (l : list A) i (y : A) : delete i (<[i := y]> l) = delete i l.
Proof. revert i. induction l as [|z l IH]; intros [|i]; [done..|]. simpl. f_equal. apply IH. Qed.

Lemma refs_app f (ts us : list (K * Caller C)) : refs f (ts ++ us) = refs f ts ++ refs f us.
Proof. unfold refs. by rewrite fmap_app, concat_app. Qed.

Lemma refs_lookup f (ts : list (K * Caller C)) i key t :
  ts !! i = Some (key, t) → refs f ts ≡ₚ f t ++ refs f (delete i ts).
Proof. intros Hi. unfold refs. rewrite (delete_Permutation ts i _ Hi) at 1. done. Qed.

Lemma refs_insert f (ts : list (K * Caller C)) i key t u :
  ts !! i = Some (key, t) → refs f (<[i := (key, u)]> ts) ≡ₚ f u ++ refs f (delete i ts).
Proof.
  intros Hi. pose proof (lookup_lt_Some _ _ _ Hi) as Hlt.
  rewrite (refs_lookup f (<[i := (key, u)]> ts) i key u) by (by apply list_lookup_insert_eq).
  by rewrite delete_insert_same.
Qed.

Lemma refs_elem f (ts : list (K * Caller C)) l :
  l ∈ refs f ts ↔ ∃ i key t, ts !! i = Some (key, t) ∧ l ∈ f t.
Proof.
  unfold refs. rewrite list_elem_of_In, in_concat. split.
  - intros (x & Hx%list_elem_of_In & Hl%list_elem_of_In).
    apply list_elem_of_fmap in Hx as ([key t] & -> & Ht). apply list_elem_of_lookup in Ht as [i Hi].
    by exists i, key, t.
  - intros (i & key & t & Hi & Hl). exists (f t). rewrite <-!list_elem_of_In. split; [|done].
    apply list_elem_of_fmap. exists (key, t). split; [done|]. by eapply list_elem_of_lookup_2.
Qed.
End Values.

(** ** The invariant *)

Section Invariant.
Context {K : Type} `{Countable K} {V C : Type}.
Implicit Types (s : PoolState K V) (a b : list nat) (t : Caller C).
Implicit Types (ts : list (K * Caller C)) (c : PoolConfig K V C).

(** One rule per transition of a caller. *)
Inductive moves (key : K) : Caller C → PoolState K V → Caller C → PoolState K V → Prop :=
| mv_acquire n l s s' :
    acquire_slot key s = (Ok l, s') → moves key (Acquiring n) s (Waiting n l) s'
| mv_refused n e s : moves key (Acquiring n) s (Failed e) s
| mv_begin n l s :
    value_of l s = Some Uninit → moves key (Waiting n l) s (Filling n l) (begin_init l s)
| mv_ready n l x s :
    value_of l s = Some (Initialized (Ok x)) →
    moves key (Waiting n l) s (Opening n l x) (clone_resource x s)
| mv_broken n l e s :
    value_of l s = Some (Initialized (Err e)) →
    moves key (Waiting n l) s (DroppingSlot l (FailWith e)) s
| mv_fill n l r s : moves key (Filling n l) s (Waiting n l) (finish_init l r s)
| mv_failing n l x e s : moves key (Opening n l x) s (DroppingBoth l x (FailWith e)) s
| mv_returning n l x client s : moves key (Opening n l x) s (Returning l x client) s
| mv_evicting l x s : moves key (Opening 0 l x) s (Evicting l x) s
| mv_evict l x s : moves key (Evicting l x) s (DroppingBoth l x RetryOnce) (invalidate key l s)
| mv_drop_resource l x after s :
    moves key (DroppingBoth l x after) s (DroppingSlot l after) (drop_resource x s)
| mv_retry l s : moves key (DroppingSlot l RetryOnce) s (Acquiring 1) (drop_slot l s)
| mv_fail l e s : moves key (DroppingSlot l (FailWith e)) s (Failed e) (drop_slot l s)
| mv_lease l x client s : moves key (Returning l x client) s (Leased l client) (drop_resource x s)
| mv_release l client s : moves key (Leased l client) s Released (drop_slot l s).

Lemma caller_step_moves key ch t s t' s' : caller_step key ch t s = Some (t', s') → moves key t s t' s'.
Proof.
  destruct t; simpl; try done.
  - destruct (acquire_slot key s) as [[l|e] s1] eqn:Ha; intros [= <- <-]; [by constructor|].
    unfold acquire_slot, lock in Ha. destruct (mx_poisoned _); [injection Ha as _ <-; constructor|].
    by destruct (upgrade _ _ _) as [[[? ?] ?]|].
  - destruct (value_of l s) as [[| |[x|e]]|] eqn:Hv; try done; intros [= <- <-]; by constructor.
  - intros [= <- <-]. constructor.
  - destruct (ch_runtime ch); [|intros [= <- <-]; constructor].
    destruct (ch_open_client ch); [intros [= <- <-]; constructor|].
    destruct (Nat.eqb_spec attempt 0); intros [= <- <-]; subst; constructor.
  - intros [= <- <-]. constructor.
  - intros [= <- <-]. constructor.
  - destruct after; intros [= <- <-]; constructor.
  - intros [= <- <-]. constructor.
Qed.

Definition stores s (l x : nat) : Prop := value_of l s = Some (Initialized (Ok x)).

(** A caller that holds a connection took it from the slot it holds. *)
Definition caller_ok s t : Prop :=
  match t with
  | Opening _ l x | Evicting l x | DroppingBoth l x _ | Returning l x _ => stores s l x
  | Leased l _ => ∃ x, stores s l x
  | Filling _ l => value_of l s = Some Initializing
  | _ => True
  end.

Record pool_inv c : Prop := mkPoolInv {
  pi_holds : holds (c_pool c) (refs slot_refs (c_callers c)) (refs resource_refs (c_callers c));
  pi_filling : ∀ l, cnt l (refs filling_refs (c_callers c))
                    = (if decide (value_of l (c_pool c) = Some Initializing) then 1 else 0)%nat;
  pi_callers : ∀ i key t, c_callers c !! i = Some (key, t) → caller_ok (c_pool c) t;
  pi_started : NoDup (c_started c)
    ∧ ∀ l, l ∈ c_started c → (l < p_next (c_pool c))%nat ∧ value_of l (c_pool c) ≠ Some Uninit;
  pi_bounds : (∀ key l, mx_data (p_entries (c_pool c)) !! key = Some l → (l < p_next (c_pool c))%nat)
    ∧ (∀ l, l ∈ c_evicted c → (l < p_next (c_pool c))%nat);
  pi_keys : ∀ i key t l, c_callers c !! i = Some (key, t) → l ∈ slot_refs t → l ∉ c_evicted c →
    mx_data (p_entries (c_pool c)) !! key = Some l;
  pi_entries : ∀ key l i key' t, mx_data (p_entries (c_pool c)) !! key = Some l →
    c_callers c !! i = Some (key', t) → l ∈ slot_refs t → key' = key
}.

(** *** What a transition does to the counts *)

Lemma moves_holds key t s t' s' a b :
  moves key t s t' s' → caller_ok s t →
  holds s (slot_refs t ++ a) (resource_refs t ++ b) → holds s' (slot_refs t' ++ a) (resource_refs t' ++ b).
Proof.
  destruct 1; simpl; intros Hok Hh; try done.
  - by eapply holds_acquire.
  - by eapply holds_set_value.
  - by eapply holds_clone.
  - by apply holds_finish.
  - by apply holds_invalidate.
  - by apply holds_drop_resource.
  - by apply holds_drop_slot.
  - by apply holds_drop_slot.
  - by apply holds_drop_resource.
  - by apply holds_drop_slot.
Qed.

Lemma moves_next key t s t' s' : moves key t s t' s' → (p_next s ≤ p_next s')%nat.
Proof.
  destruct 1; rewrite ?next_clone, ?next_drop_resource, ?next_drop_slot, ?next_invalidate; try done.
  - revert H0. unfold acquire_slot, lock. destruct (mx_poisoned _); [done|].
    destruct (upgrade _ _ _) as [[[? ?] ?]|]; intros [= _ <-]; simpl; lia.
  - unfold begin_init. by rewrite next_set_value.
  - apply next_finish.
Qed.

(** *** What it does to the values of slots *)

(** A slot another caller holds keeps what it was filled with and stays being
    filled, and only fresh slots become empty. *)
Lemma moves_value key t s t' s' a b l :
  moves key t s t' s' → caller_ok s t → holds s (slot_refs t ++ a) (resource_refs t ++ b) →
  (l ∈ a → ∀ r, value_of l s = Some (Initialized r) → value_of l s' = Some (Initialized r))
  ∧ (value_of l s' = Some Uninit → value_of l s = Some Uninit ∨ (p_next s ≤ l)%nat).
Proof.
  destruct 1 as [n l0 s s' Ha|n e s|n l0 s Hv|n l0 x s Hv|n l0 e s Hv|n l0 r0 s|n l0 x e s|n l0 x client s
    |l0 x s|l0 x s|l0 x after s|l0 s|l0 e s|l0 x client s|l0 client s]; simpl; intros Hok Hh;
    rewrite ?value_of_clone, ?value_of_drop_resource, ?value_of_invalidate; try (by (split; auto)).
  - rewrite (value_of_acquire _ _ _ _ _ _ l Hh Ha). destruct (decide (l = l0 ∧ value_of l0 s = None)) as [[-> Hn]|].
    + split; [intros _ r; by rewrite Hn|]. intros _. right.
      destruct (le_lt_dec (p_next s) l0) as [|Hlt]; [done|]. exfalso. revert Ha.
      unfold acquire_slot, lock. destruct (mx_poisoned _); [done|].
      destruct (upgrade _ _ _) as [[[l1 n1] v]|] eqn:Hu; [|intros [= <- _]; lia].
      apply bind_Some in Hu as (l2 & _ & Hu). apply bind_Some in Hu as ([n2 v2] & Hl & [= <- <- <-]).
      intros [= <- _]. unfold value_of in Hn. by rewrite Hl in Hn.
    + split; auto.
  - unfold begin_init. rewrite value_of_set_value. destruct (decide (l0 = l)) as [<-|]; [|split; auto].
    split; [intros _ r; congruence|]. by rewrite Hv.
  - rewrite value_of_finish. destruct (decide (l0 = l)) as [<-|]; [|split; auto].
    split; [intros _ r; congruence|]. by rewrite Hok.
  - rewrite (value_of_drop_slot _ _ _ _ _ Hh). destruct (decide (l ∈ a)); split; auto; done.
  - rewrite (value_of_drop_slot _ _ _ _ _ Hh). destruct (decide (l ∈ a)); split; auto; done.
  - rewrite (value_of_drop_slot _ _ _ _ _ Hh). destruct (decide (l ∈ a)); split; auto; done.
Qed.

(** The slots being filled are those of the callers filling them. *)
Lemma moves_filling key t s t' s' a b f :
  moves key t s t' s' → caller_ok s t → holds s (slot_refs t ++ a) (resource_refs t ++ b) → f ⊆ a →
  let being_filled s l := if decide (value_of l s = Some Initializing) then 1%nat else 0%nat in
  (∀ l, cnt l (filling_refs t ++ f) = being_filled s l) → ∀ l, cnt l (filling_refs t' ++ f) = being_filled s' l.
Proof.
  intros Hm Hok Hh Hf being_filled Hfill l. specialize (Hfill l). unfold being_filled in *. revert Hok Hh Hfill.
  destruct Hm as [n l0 s s' Ha|n e s|n l0 s Hv|n l0 x s Hv|n l0 e s Hv|n l0 r0 s|n l0 x e s|n l0 x client s
    |l0 x s|l0 x s|l0 x after s|l0 s|l0 e s|l0 x client s|l0 client s]; simpl; intros Hok Hh Hfill;
    rewrite ?value_of_clone, ?value_of_drop_resource, ?value_of_invalidate; try done.
  - rewrite Hfill, (value_of_acquire _ _ _ _ _ _ l Hh Ha).
    destruct (decide (l = l0 ∧ value_of l0 s = None)) as [[-> Hn]|]; [by rewrite Hn|done].
  - rewrite cnt_cons, Hfill. unfold begin_init. rewrite value_of_set_value.
    destruct (decide (l0 = l)) as [<-|]; [by rewrite Hv|done].
  - rewrite cnt_cons in Hfill. rewrite value_of_finish.
    destruct (decide (l0 = l)) as [<-|]; [|done]. rewrite Hok in Hfill |- *. simpl in *. lia.
  - rewrite (value_of_drop_slot _ _ _ _ _ Hh). destruct (decide (l ∈ a)) as [|Hl]; [done|].
    apply cnt_zero. set_solver.
  - rewrite (value_of_drop_slot _ _ _ _ _ Hh). destruct (decide (l ∈ a)) as [|Hl]; [done|].
    apply cnt_zero. set_solver.
  - rewrite (value_of_drop_slot _ _ _ _ _ Hh). destruct (decide (l ∈ a)) as [|Hl]; [done|].
    apply cnt_zero. set_solver.
Qed.

(** The caller that moves is where its references say. *)
Lemma moves_caller key t s t' s' : moves key t s t' s' → caller_ok s t → caller_ok s' t'.
Proof.
  destruct 1; simpl; intros Hok; unfold stores in *;
    rewrite ?value_of_clone, ?value_of_drop_resource, ?value_of_invalidate; eauto.
  unfold begin_init. rewrite value_of_set_value, decide_True by done. by rewrite H0.
Qed.

Lemma filling_slot_refs t : filling_refs t ⊆ slot_refs t.
Proof. destruct t; set_solver. Qed.

Lemma refs_filling ts : refs filling_refs ts ⊆ refs slot_refs ts.
Proof.
  intros l (i & key & t & Hi & Hl)%refs_elem. apply refs_elem. exists i, key, t. split; [done|].
  by apply filling_slot_refs.
Qed.

(** *** What it does to the entries *)

Lemma retain_live_Some s m k l :
  retain_live s m !! k = Some l ↔ m !! k = Some l ∧ is_Some (p_slots s !! l).
Proof. apply map_lookup_filter_Some. Qed.

Lemma acquire_slot_entries s a b key l s' :
  holds s a b → acquire_slot key s = (Ok l, s') →
  let m := mx_data (p_entries s) in let m' := mx_data (p_entries s') in
  (l ∈ a ∧ m !! key = Some l ∧ m' = retain_live s m ∧ p_next s' = p_next s)
  ∨ (l = p_next s ∧ (∀ l', m !! key = Some l' → l' ∉ a) ∧ m' = <[key := l]> (retain_live s m)
     ∧ p_next s' = S l).
Proof.
  intros [Hs _ _]. unfold acquire_slot, lock. destruct (mx_poisoned _); [done|].
  destruct (upgrade _ _ _) as [[[l1 n] v]|] eqn:Hu; intros [= <- <-]; simpl.
  - left. apply bind_Some in Hu as (l2 & [Hm Hlive]%retain_live_Some & Hu).
    apply bind_Some in Hu as ([n1 v1] & Hl & [= <- <- <-]).
    split; [by eapply counted_dead|done].
  - right. split_and!; try done. intros l' Hl' Ha. apply (counted_live _ _ _ Hs) in Ha as [[n v] Hl].
    unfold upgrade in Hu. rewrite (proj2 (retain_live_Some s _ key l')) in Hu by done. simpl in Hu.
    by rewrite Hl in Hu.
Qed.

Lemma moves_entries key t s t' s' :
  moves key t s t' s' →
  (∃ n l, t = Acquiring n ∧ t' = Waiting n l ∧ acquire_slot key s = (Ok l, s'))
  ∨ ((∃ l x, t = Evicting l x ∧ t' = DroppingBoth l x RetryOnce ∧ s' = invalidate key l s)
     ∨ mx_data (p_entries s') = mx_data (p_entries s) ∧ slot_refs t' ⊆ slot_refs t ∧ evicted_by t = ∅).
Proof.
  destruct 1; rewrite ?entries_clone, ?entries_drop_resource, ?entries_drop_slot, ?entries_finish;
    unfold begin_init; rewrite ?entries_set_value; simpl; eauto 10; right; right; set_solver.
Qed.

Lemma invalidate_entries key l s k l' :
  mx_data (p_entries (invalidate key l s)) !! k = Some l' →
  mx_data (p_entries s) !! k = Some l'.
Proof.
  unfold invalidate. destruct (mx_poisoned _); [done|].
  destruct (upgrade _ _ _) as [[[l1 n] v]|]; [|done]. case_bool_decide; [|done]. simpl.
  by intros [_ ?]%lookup_delete_Some.
Qed.

Lemma invalidate_keeps key l s k l' :
  mx_data (p_entries s) !! k = Some l' → l' ≠ l →
  mx_data (p_entries (invalidate key l s)) !! k = Some l'.
Proof.
  intros Hk Hne. unfold invalidate. destruct (mx_poisoned _); [done|].
  destruct (upgrade _ _ _) as [[[l1 n] v]|] eqn:Hu; [|done]. case_bool_decide; [subst|done]. simpl.
  apply bind_Some in Hu as (l2 & Hm & Hu). apply bind_Some in Hu as ([n1 v1] & _ & [= -> _ _]).
  apply lookup_delete_Some. split; [|done]. intros <-. congruence.
Qed.

(** Looking up a caller after one has moved. *)
Lemma callers_insert ts i key t t' j k u :
  ts !! i = Some (key, t) → <[i := (key, t')]> ts !! j = Some (k, u) →
  (j = i ∧ k = key ∧ u = t') ∨ (ts !! j = Some (k, u) ∧ ∀ f l, l ∈ f u → l ∈ refs f (delete i ts)).
Proof.
  intros Hi Hj. destruct (decide (j = i)) as [->|Hne].
  - rewrite list_lookup_insert_eq in Hj by (by eapply lookup_lt_Some). left. by injection Hj as <- <-.
  - rewrite list_lookup_insert_ne in Hj by done. right. split; [done|]. intros f l Hl.
    apply refs_elem. destruct (decide (j < i)%nat) as [Hlt|Hge].
    + exists j, k, u. by rewrite list_lookup_delete_lt.
    + exists (j - 1)%nat, k, u. rewrite list_lookup_delete_ge by lia.
      by replace (S (j - 1)) with j by lia.
Qed.

(** The entries are in bounds, a caller whose slot was not evicted finds it under
    its own key, and a slot that is listed is used under that key only. *)
Definition keyed (next : nat) (m : gmap K nat) ts (ev : gset nat) : Prop :=
  ((∀ k l, m !! k = Some l → (l < next)%nat) ∧ (∀ l, l ∈ ev → (l < next)%nat))
  ∧ (∀ j k u l, ts !! j = Some (k, u) → l ∈ slot_refs u → l ∉ ev → m !! k = Some l)
  ∧ (∀ k l j k' u, m !! k = Some l → ts !! j = Some (k', u) → l ∈ slot_refs u → k' = k).

Section Moved.
Context (s : PoolState K V) (ts : list (K * Caller C)) (ev : gset nat) (st : list nat).
Context (i : nat) (key : K) (t : Caller C).
Context (Hinv : pool_inv (mkPoolConfig s ts ev st)) (Hi : ts !! i = Some (key, t)).
Abbreviation m := (mx_data (p_entries s)).
Abbreviation moved t' := (<[i := (key, t')]> ts).

Lemma held_refs j k u l : ts !! j = Some (k, u) → l ∈ slot_refs u → l ∈ refs slot_refs ts.
Proof using. intros Hj Hl. apply refs_elem. by exists j, k, u. Qed.

Lemma held_live l : l ∈ refs slot_refs ts → is_Some (p_slots s !! l).
Proof using Hinv. destruct Hinv as [Hh _ _ _ _ _ _]. eapply counted_live, (holds_slots _ _ _ Hh). Qed.

Lemma held_below l : l ∈ refs slot_refs ts → (l < p_next s)%nat.
Proof using Hinv.
  intros [p Hp]%held_live. destruct Hinv as [Hh _ _ _ _ _ _]. destruct (le_lt_dec (p_next s) l) as [Hge|]; [|done].
  destruct (holds_fresh _ _ _ Hh l Hge). simpl in *. congruence.
Qed.

(** A caller joins the slot of its key. *)
Lemma keyed_joined n l :
  l ∈ refs slot_refs ts → m !! key = Some l → keyed (p_next s) (retain_live s m) (moved (Waiting n l)) ev.
Proof using Hinv Hi.
  pose proof held_live as Hlive. pose proof held_refs as Hin.
  destruct Hinv as [_ _ _ _ [Hb Hev] Hk He]; simpl in *. intros Hl0 Hkey. split_and!.
  - intros k l1 [? _]%retain_live_Some. by eapply Hb.
  - done.
  - intros j k u l1 Hj Hl Hne. apply retain_live_Some.
    destruct (callers_insert _ _ _ _ _ _ _ _ Hi Hj) as [(-> & -> & ->)|[Hj' _]].
    + apply list_elem_of_singleton in Hl as ->. eauto.
    + split; [|eauto]. by eapply Hk.
  - intros k l1 j k' u [Hkl _]%retain_live_Some Hj Hl.
    destruct (callers_insert _ _ _ _ _ _ _ _ Hi Hj) as [(-> & -> & ->)|[Hj' _]]; [|by eapply He].
    apply list_elem_of_singleton in Hl as ->. apply refs_elem in Hl0 as (j0 & k0 & u0 & Hj0 & Hu0).
    by rewrite <-(He _ _ _ _ _ Hkey Hj0 Hu0), <-(He _ _ _ _ _ Hkl Hj0 Hu0).
Qed.

(** A caller makes a new slot for its key. *)
Lemma keyed_created n :
  (∀ l, m !! key = Some l → l ∉ refs slot_refs ts) →
  keyed (S (p_next s)) (<[key := p_next s]> (retain_live s m)) (moved (Waiting n (p_next s))) ev.
Proof using Hinv Hi.
  pose proof held_live as Hlive. pose proof held_refs as Hin. pose proof held_below as Hlt.
  destruct Hinv as [_ _ _ _ [Hb Hev] Hk He]; simpl in *. intros Hnew. split_and!.
  - intros k l. destruct (decide (k = key)) as [->|]; [rewrite lookup_insert_eq; intros [= <-]; lia|].
    rewrite lookup_insert_ne by done. intros [Hkl _]%retain_live_Some. apply Hb in Hkl. lia.
  - intros l Hl%Hev. lia.
  - intros j k u l Hj Hl Hne. destruct (callers_insert _ _ _ _ _ _ _ _ Hi Hj) as [(-> & -> & ->)|[Hj' _]].
    + apply list_elem_of_singleton in Hl as ->. by rewrite lookup_insert_eq.
    + assert (m !! k = Some l) as Hkl by (by eapply Hk).
      rewrite lookup_insert_ne; [apply retain_live_Some; eauto|]. intros <-. eapply Hnew; eauto.
  - intros k l j k' u. destruct (decide (k = key)) as [->|].
    + rewrite lookup_insert_eq. intros [= <-] Hj Hl.
      destruct (callers_insert _ _ _ _ _ _ _ _ Hi Hj) as [(-> & -> & ->)|[Hj' _]]; [done|].
      specialize (Hlt _ (Hin _ _ _ _ Hj' Hl)). lia.
    + rewrite lookup_insert_ne by done. intros [Hkl _]%retain_live_Some Hj Hl.
      destruct (callers_insert _ _ _ _ _ _ _ _ Hi Hj) as [(-> & -> & ->)|[Hj' _]]; [|by eapply He].
      apply list_elem_of_singleton in Hl as ->. apply Hb in Hkl. lia.
Qed.

(** A caller evicts its slot. *)
Lemma keyed_evicted l x :
  t = Evicting l x →
  keyed (p_next s) (mx_data (p_entries (invalidate key l s))) (moved (DroppingBoth l x RetryOnce)) ({[l]} ∪ ev).
Proof using Hinv Hi.
  pose proof held_refs as Hin. pose proof held_below as Hlt.
  destruct Hinv as [_ _ _ _ [Hb Hev] Hk He]; simpl in *. intros ->. split_and!.
  - intros k l1 Hkl%invalidate_entries. by eapply Hb.
  - intros l1. rewrite elem_of_union, elem_of_singleton. intros [->|?]; [|by apply Hev].
    apply Hlt. eapply Hin; [done|]. simpl. set_solver.
  - intros j k u l1 Hj Hl Hne. apply invalidate_keeps; [|set_solver].
    destruct (callers_insert _ _ _ _ _ _ _ _ Hi Hj) as [(-> & -> & ->)|[Hj' _]].
    + simpl in Hl. set_solver.
    + eapply Hk; [done|done|set_solver].
  - intros k l1 j k' u Hkl%invalidate_entries Hj Hl.
    destruct (callers_insert _ _ _ _ _ _ _ _ Hi Hj) as [(-> & -> & ->)|[Hj' _]]; [|by eapply He].
    eapply He; [done|done|]. exact Hl.
Qed.

(** A caller that only gives slots up. *)
Lemma keyed_released t' next :
  (p_next s ≤ next)%nat → slot_refs t' ⊆ slot_refs t → keyed next m (moved t') ev.
Proof using Hinv Hi.
  destruct Hinv as [_ _ _ _ [Hb Hev] Hk He]; simpl in *. intros Hnext Hsub. split_and!.
  - intros k l Hkl%Hb. lia.
  - intros l Hl%Hev. lia.
  - intros j k u l Hj Hl Hne. destruct (callers_insert _ _ _ _ _ _ _ _ Hi Hj) as [(-> & -> & ->)|[Hj' _]];
      (eapply Hk; [done| |done]); [by apply Hsub|done].
  - intros k l j k' u Hkl Hj Hl.
    destruct (callers_insert _ _ _ _ _ _ _ _ Hi Hj) as [(-> & -> & ->)|[Hj' _]]; [|by eapply He].
    eapply He; [done|done|by apply Hsub].
Qed.
End Moved.

Lemma moves_keyed s ts ev st i key t t' s' :
  pool_inv (mkPoolConfig s ts ev st) → ts !! i = Some (key, t) → moves key t s t' s' →
  keyed (p_next s') (mx_data (p_entries s')) (<[i := (key, t')]> ts) (evicted_by t ∪ ev).
Proof.
  intros Hinv Hi Hm. pose proof (moves_next _ _ _ _ _ Hm) as Hnext.
  destruct (moves_entries _ _ _ _ _ Hm) as [(n & l0 & -> & -> & Ha)|[(l0 & x & -> & -> & ->)|(Hm' & Hsub & Hev0)]].
  - simpl. rewrite (left_id_L ∅ (∪)).
    destruct (acquire_slot_entries _ _ _ _ _ _ (pi_holds _ Hinv) Ha) as [(Hl0 & Hkey & -> & ->)|(-> & Hnew & -> & ->)].
    + by eapply keyed_joined.
    + by eapply keyed_created.
  - rewrite next_invalidate. by eapply keyed_evicted.
  - rewrite Hm', Hev0, (left_id_L ∅ (∪)). by eapply keyed_released.
Qed.

(** *** Preservation *)

Lemma moves_started s ts ev st i key t t' s' :
  pool_inv (mkPoolConfig s ts ev st) → ts !! i = Some (key, t) → moves key t s t' s' →
  NoDup (started_by t t' ++ st)
  ∧ ∀ l, l ∈ started_by t t' ++ st → (l < p_next s')%nat ∧ value_of l s' ≠ Some Uninit.
Proof.
  intros [Hh _ Hc [Hd Hs] _ _ _] Hi Hm; simpl in *. pose proof (moves_next _ _ _ _ _ Hm) as Hnext.
  rewrite (refs_lookup slot_refs _ _ _ _ Hi), (refs_lookup resource_refs _ _ _ _ Hi) in Hh.
  assert (∀ l, l ∈ st → (l < p_next s')%nat ∧ value_of l s' ≠ Some Uninit) as Hold.
  { intros l [Hlt Hv]%Hs. split; [lia|]. intros Hv'.
    destruct (proj2 (moves_value _ _ _ _ _ _ _ l Hm (Hc _ _ _ Hi) Hh) Hv'); [done|lia]. }
  destruct t; try (by split); destruct t'; try (by split). simpl. inversion Hm; subst.
  split.
  - constructor; [|done]. intros [_ ?]%Hs. done.
  - intros l2 [->|Hl]%elem_of_cons; [|by apply Hold]. split.
    + match goal with Hx : value_of _ s = _ |- _ => pose proof (holds_live_lt _ _ _ _ _ Hh Hx); lia end.
    + unfold begin_init. rewrite value_of_set_value, decide_True by done.
      match goal with Hx : value_of _ _ = _ |- _ => by rewrite Hx end.
Qed.

Lemma moves_inv s ts ev st i key t t' s' :
  pool_inv (mkPoolConfig s ts ev st) → ts !! i = Some (key, t) → moves key t s t' s' →
  pool_inv (mkPoolConfig s' (<[i := (key, t')]> ts) (evicted_by t ∪ ev) (started_by t t' ++ st)).
Proof.
  intros Hinv Hi Hm. pose proof Hinv as [Hh Hf Hc _ _ _ _]. simpl in *.
  destruct (moves_keyed _ _ _ _ _ _ _ _ _ Hinv Hi Hm) as (Hbounds & Hkeys & Hentries).
  pose proof (refs_filling (delete i ts)) as Hsub.
  rewrite (refs_lookup slot_refs _ _ _ _ Hi), (refs_lookup resource_refs _ _ _ _ Hi) in Hh.
  pose proof (moves_holds _ _ _ _ _ _ _ Hm (Hc _ _ _ Hi) Hh) as Hh'.
  setoid_rewrite (refs_lookup filling_refs _ _ _ _ Hi) in Hf.
  pose proof (moves_filling _ _ _ _ _ _ _ _ Hm (Hc _ _ _ Hi) Hh Hsub Hf) as Hf'.
  split; simpl; try done.
  - by rewrite !(refs_insert _ _ _ _ _ _ Hi).
  - intros l. by rewrite (refs_insert _ _ _ _ _ _ Hi).
  - intros j k u Hj. destruct (callers_insert _ _ _ _ _ _ _ _ Hi Hj) as [(-> & -> & ->)|[Hj' Hu]].
    + by eapply moves_caller, Hc.
    + assert (∀ l x, l ∈ slot_refs u → stores s l x → stores s' l x) as Hst.
      { intros l x Hl Hx. eapply (moves_value _ _ _ _ _ _ _ l Hm (Hc _ _ _ Hi) Hh); [by apply Hu|done]. }
      specialize (Hc _ _ _ Hj'). destruct u; simpl in *; try done; try (apply Hst; [set_solver|done]).
      * specialize (Hf' l). rewrite cnt_app in Hf'. destruct (decide (value_of l s' = _)); [done|].
        assert (cnt l (refs filling_refs (delete i ts)) ≠ 0%nat); [|lia].
        rewrite cnt_zero. intros Hn. apply Hn, Hu. simpl. set_solver.
      * destruct Hc as [x Hx]. exists x. apply Hst; [set_solver|done].
  - by eapply moves_started.
Qed.

Lemma pool_initial_inv : pool_inv initial_config.
Proof.
  split; simpl; try done. split; [constructor|]. set_solver.
Qed.

Lemma pool_step_inv c c' : pool_step c c' → pool_inv c → pool_inv c'.
Proof.
  destruct 1 as [s ts ev st key|s ts ev st i key t ch t' s' Hi Hstep|s ts ev st i key l client Hi]; intros Hinv.
  - destruct Hinv as [Hh Hf Hc Hs Hb Hk He]. simpl in *.
    assert (∀ f : Caller C → list nat, f (Acquiring 0) = [] → refs f (ts ++ [(key, Acquiring 0)]) = refs f ts) as Hr.
    { intros f Hnil. rewrite refs_app. unfold refs at 2. simpl. by rewrite Hnil, !app_nil_r. }
    assert (∀ j k u, (ts ++ [(key, Acquiring 0)]) !! j = Some (k, u) →
              ts !! j = Some (k, u) ∨ u = Acquiring 0) as Hl.
    { intros j k u [?|[_ ?]]%lookup_app_Some; [by left|right].
      destruct (j - length ts)%nat; simplify_eq/=. done. }
    apply mkPoolInv; cbn [c_pool c_callers c_evicted c_started]; try done.
    + by rewrite !Hr.
    + intros l. by rewrite Hr.
    + intros j k u [?| ->]%Hl; [by eapply Hc|done].
    + intros j k u l [?| ->]%Hl Hlu; [by eapply Hk|]. simpl in Hlu. set_solver.
    + intros k l j k' u Hkl [?| ->]%Hl Hlu; [by eapply He|]. simpl in Hlu. set_solver.
  - by eapply moves_inv, caller_step_moves.
  - pose proof (moves_inv _ _ _ _ _ _ _ _ _ Hinv Hi (mv_release key l client s)) as Hr.
    cbn [evicted_by started_by app] in Hr. rewrite (left_id_L ∅ (∪)) in Hr. exact Hr.
Qed.

Lemma reachable_pool_inv c : rtc pool_step initial_config c → pool_inv c.
Proof.
  intros Hr. pose proof pool_initial_inv as Hi. revert Hi.
  induction Hr as [c|c c' c'' Hs _ IH]; intros Hi; [done|]. by eapply IH, pool_step_inv.
Qed.
End Invariant.

(** ** Evicted slots *)

Section Evicted.
Context {K : Type} `{Countable K} {V C : Type}.
Implicit Types (s : PoolState K V) (c : PoolConfig K V C).

(** The mutex stays healthy, and no entry names an evicted slot. *)
Definition unlisted c : Prop :=
  mx_poisoned (p_entries (c_pool c)) = false
  ∧ ∀ key l, mx_data (p_entries (c_pool c)) !! key = Some l → l ∉ c_evicted c.

Lemma invalidate_removes key l s k :
  mx_poisoned (p_entries s) = false → is_Some (p_slots s !! l) →
  (mx_data (p_entries s) !! k = Some l → k = key) →
  mx_data (p_entries (invalidate key l s)) !! k ≠ Some l.
Proof.
  intros Hp [[n v] Hl] Hk Hin. pose proof (invalidate_entries _ _ _ _ _ Hin) as Hold.
  specialize (Hk Hold) as ->. revert Hin. unfold invalidate, upgrade. rewrite Hp, Hold. simpl. rewrite Hl. simpl.
  rewrite bool_decide_eq_true_2 by done. simpl. by rewrite lookup_delete_eq.
Qed.

Lemma moves_poisoned key (t t' : Caller C) s s' :
  moves key t s t' s' → mx_poisoned (p_entries s') = mx_poisoned (p_entries s).
Proof.
  destruct 1; rewrite ?entries_clone, ?entries_drop_resource, ?entries_drop_slot, ?entries_finish;
    unfold begin_init; rewrite ?entries_set_value; try done.
  - revert H0. unfold acquire_slot, lock. destruct (mx_poisoned (p_entries s)) eqn:Hp; [done|].
    destruct (upgrade _ _ _) as [[[? ?] ?]|]; intros [= _ <-]; exact Hp.
  - unfold invalidate. destruct (mx_poisoned (p_entries s)) eqn:Hp; [done|].
    destruct (upgrade _ _ _) as [[[? ?] ?]|]; [|done]. by case_bool_decide.
Qed.

Lemma moves_unlisted s ts ev st i key t t' s' :
  pool_inv (mkPoolConfig s ts ev st) → unlisted (mkPoolConfig s ts ev st) →
  ts !! i = Some (key, t) → moves key t s t' s' →
  unlisted (mkPoolConfig s' (<[i := (key, t')]> ts) (evicted_by t ∪ ev) (started_by t t' ++ st)).
Proof.
  intros [Hh _ _ _ [_ Hev] _ He] [Hp Hu] Hi Hm; simpl in *.
  split; simpl; [by rewrite (moves_poisoned _ _ _ _ _ Hm)|].
  destruct (moves_entries _ _ _ _ _ Hm) as [(n & l0 & -> & -> & Ha)|[(l0 & x & -> & -> & ->)|(Hm' & _ & Hev0)]].
  - intros k l. simpl. rewrite (left_id_L ∅ (∪)).
    destruct (acquire_slot_entries _ _ _ _ _ _ Hh Ha) as [(_ & _ & -> & _)|(-> & _ & -> & _)].
    + intros [Hkl _]%retain_live_Some. by eapply Hu.
    + destruct (decide (k = key)) as [->|].
      * rewrite lookup_insert_eq. intros [= <-] Hl%Hev. lia.
      * rewrite lookup_insert_ne by done. intros [Hkl _]%retain_live_Some. by eapply Hu.
  - intros k l Hkl. simpl. pose proof (invalidate_entries _ _ _ _ _ Hkl) as Hold.
    assert (l0 ∈ slot_refs (Evicting l0 x : Caller C)) as Hl0 by (simpl; set_solver).
    assert (l ≠ l0); [|specialize (Hu _ _ Hold); set_solver]. intros ->. revert Hkl.
    apply invalidate_removes; [done| |].
    + eapply counted_live; [apply (holds_slots _ _ _ Hh)|]. apply refs_elem. by exists i, key, (Evicting l0 x).
    + intros Hk. symmetry. by eapply He.
  - intros k l. rewrite Hm', Hev0, (left_id_L ∅ (∪)). apply Hu.
Qed.

Lemma pool_step_unlisted c c' : pool_step c c' → pool_inv c → unlisted c → unlisted c'.
Proof.
  destruct 1 as [s ts ev st key|s ts ev st i key t ch t' s' Hi Hstep|s ts ev st i key l client Hi]; intros Hinv Hu.
  - done.
  - by eapply moves_unlisted, caller_step_moves.
  - pose proof (moves_unlisted _ _ _ _ _ _ _ _ _ Hinv Hu Hi (mv_release key l client s)) as Hr.
    cbn [evicted_by started_by app] in Hr. by rewrite (left_id_L ∅ (∪)) in Hr.
Qed.

Lemma reachable_unlisted c : rtc pool_step initial_config c → unlisted c.
Proof.
  intros Hr. assert (unlisted (initial_config : PoolConfig K V C)) as Hi by done.
  pose proof (pool_initial_inv (K := K) (V := V) (C := C)) as Hinv. revert Hi Hinv.
  induction Hr as [c|c c' c'' Hs _ IH]; intros Hi Hinv; [done|].
  apply IH; [by eapply pool_step_unlisted|by eapply pool_step_inv].
Qed.
End Evicted.

(** ** Progress *)

Section Progress.
Context {K : Type} `{Countable K} {V C : Type}.
Implicit Types (s : PoolState K V) (c : PoolConfig K V C) (t : Caller C).

(** A call of [open_client] that has not returned. *)
Definition working t : bool :=
  match t with Leased _ _ | Failed _ | Released => false | _ => true end.

(** A step of a caller that is still working. *)
Inductive caller_turn : PoolConfig K V C → PoolConfig K V C → Prop :=
| turn s ts ev st i key t ch t' s' :
    ts !! i = Some (key, t) → caller_step key ch t s = Some (t', s') →
    caller_turn (mkPoolConfig s ts ev st)
      (mkPoolConfig s' (<[i := (key, t')]> ts) (evicted_by t ∪ ev) (started_by t t' ++ st)).

Lemma turn_is_step c c' : caller_turn c c' → pool_step c c'.
Proof. destruct 1. by eapply ps_caller. Defined.

Definition filled s l : bool := match value_of l s with Some (Initialized _) => true | _ => false end.

(** How many sections of its own a caller has left at most. *)
Definition weight s t : nat :=
  let base n := if (n =? 0)%nat then 11%nat else 3%nat in
  match t with
  | Acquiring n => base n + 4
  | Waiting n l => base n + (if filled s l then 1 else 3)
  | Filling n l => base n + 2
  | Opening n l x => base n
  | Evicting l x => 10
  | DroppingBoth l x RetryOnce => 9
  | DroppingSlot l RetryOnce => 8
  | DroppingBoth l x (FailWith _) => 2
  | DroppingSlot _ (FailWith _) | Returning _ _ _ => 1
  | Leased _ _ | Failed _ | Released => 0
  end%nat.

Fixpoint total_weight s (ts : list (K * Caller C)) : nat :=
  match ts with [] => 0 | (_, t) :: ts => weight s t + total_weight s ts end.

Lemma weight_bound s t : (weight s t ≤ 15)%nat.
Proof. destruct t as [n|n l|n l|n l x| | | | | | |]; simpl; repeat case_match; lia. Qed.

Lemma total_weight_bound s ts : (total_weight s ts ≤ 15 * length ts)%nat.
Proof.
  induction ts as [|[k t] ts IH]; cbn [total_weight length]; [lia|]. pose proof (weight_bound s t). lia.
Qed.

Lemma moves_weight key t s t' s' :
  moves key t s t' s' → caller_ok s t → working t = true → (weight s' t' < weight s t)%nat.
Proof.
  destruct 1 as [n l0 s s' Ha|n e s|n l0 s Hv|n l0 x s Hv|n l0 e s Hv|n l0 r0 s|n l0 x e s|n l0 x client s
    |l0 x s|l0 x s|l0 x after s|l0 s|l0 e s|l0 x client s|l0 client s]; simpl; intros Hok Hw; unfold filled;
    try done; try (destruct after); try (destruct (n =? 0)%nat); rewrite ?value_of_finish, ?decide_True by done;
    rewrite ?Hv, ?Hok; simpl; repeat case_match; lia.
Qed.

(** The other callers have no more to do than before. *)
Lemma moves_weight_others key t s t' s' a b u :
  moves key t s t' s' → caller_ok s t → holds s (slot_refs t ++ a) (resource_refs t ++ b) →
  slot_refs u ⊆ a → (weight s' u ≤ weight s u)%nat.
Proof.
  intros Hm Hok Hh Hu. destruct u; try done. cbn [weight]. unfold filled.
  destruct (value_of l s) as [[| |r]|] eqn:Hv; try (destruct (value_of l s') as [[]|]; lia).
  rewrite (proj1 (moves_value _ _ _ _ _ _ _ l Hm Hok Hh) ltac:(set_solver) _ Hv). done.
Qed.

Lemma total_weight_lookup s ts i key t :
  ts !! i = Some (key, t) → total_weight s ts = (weight s t + total_weight s (delete i ts))%nat.
Proof.
  revert i. induction ts as [|[k u] ts IH]; intros [|i]; cbn [lookup list_lookup]; intros Hi; try done.
  - by injection Hi as -> ->.
  - change (delete (S i) ((k, u) :: ts)) with ((k, u) :: delete i ts). cbn [total_weight].
    rewrite (IH i Hi). lia.
Qed.

Lemma caller_turn_weight c c' :
  caller_turn c c' → pool_inv c →
  (total_weight (c_pool c') (c_callers c') < total_weight (c_pool c) (c_callers c))%nat.
Proof.
  destruct 1 as [s ts ev st i key t ch t' s' Hi Hs]. intros [Hh _ Hc _ _ _ _]. simpl in *.
  assert (working t = true) as Hw by (by destruct t).
  pose proof (caller_step_moves _ _ _ _ _ _ Hs) as Hm. pose proof (lookup_lt_Some _ _ _ Hi) as Hlt.
  rewrite (refs_lookup slot_refs _ _ _ _ Hi), (refs_lookup resource_refs _ _ _ _ Hi) in Hh.
  rewrite (total_weight_lookup s' _ i key t') by (by apply list_lookup_insert_eq).
  rewrite delete_insert_same, (total_weight_lookup s ts i key t) by done.
  pose proof (moves_weight _ _ _ _ _ Hm (Hc _ _ _ Hi) Hw).
  assert (∀ us, (∀ k u, (k, u) ∈ us → slot_refs u ⊆ refs slot_refs (delete i ts)) →
            (total_weight s' us ≤ total_weight s us)%nat) as Hothers.
  { induction us as [|[k u] us IH]; intros Hus; [done|]. cbn [total_weight].
    pose proof (moves_weight_others _ _ _ _ _ _ _ u Hm (Hc _ _ _ Hi) Hh (Hus k u ltac:(set_solver))).
    specialize (IH ltac:(set_solver)). lia. }
  assert (total_weight s' (delete i ts) ≤ total_weight s (delete i ts))%nat; [|lia].
  apply Hothers. intros k u (j & Hj)%list_elem_of_lookup l Hl. apply refs_elem. by exists j, k, u.
Qed.

(** ** The sections of one caller *)

(** Who moves: a caller, or nobody when a call starts or a lease is released. *)
Inductive pool_move : PoolConfig K V C → option nat → PoolConfig K V C → Prop :=
| move_spawn s ts ev st key :
    pool_move (mkPoolConfig s ts ev st) None (mkPoolConfig s (ts ++ [(key, Acquiring 0)]) ev st)
| move_caller s ts ev st i key t ch t' s' :
    ts !! i = Some (key, t) → caller_step key ch t s = Some (t', s') →
    pool_move (mkPoolConfig s ts ev st) (Some i)
      (mkPoolConfig s' (<[i := (key, t')]> ts) (evicted_by t ∪ ev) (started_by t t' ++ st))
| move_release s ts ev st i key l client :
    ts !! i = Some (key, Leased l client) →
    pool_move (mkPoolConfig s ts ev st) None
      (mkPoolConfig (drop_slot l s) (<[i := (key, Released)]> ts) ev st).

Lemma pool_step_moves c c' : pool_step c c' ↔ ∃ who, pool_move c who c'.
Proof.
  split; [intros []|intros [who []]]; eauto using move_spawn, move_caller, move_release, ps_spawn, ps_caller, ps_release.
Qed.

Definition option_nat_eq_dec : ∀ a b : option nat, {a = b} + {a ≠ b} := λ a b, decide (a = b).

(** What a caller has left, one that is still to come all of it. *)
Definition caller_weight c i : nat :=
  match c_callers c !! i with Some (_, t) => weight (c_pool c) t | None => 15 end.

Lemma caller_weight_bound c i : (caller_weight c i ≤ 15)%nat.
Proof. unfold caller_weight. destruct (c_callers c !! i) as [[k t]|]; [apply weight_bound|done]. Qed.

(** A caller that moves, by itself or with its release, seen by every caller. *)
Lemma caller_weight_move s ts ev st ev' st' j key t t' s' i :
  moves key t s t' s' → ts !! j = Some (key, t) → pool_inv (mkPoolConfig s ts ev st) →
  let w := caller_weight (mkPoolConfig s ts ev st) i in
  let w' := caller_weight (mkPoolConfig s' (<[j := (key, t')]> ts) ev' st') i in
  (w' ≤ w)%nat ∧ (i = j → working t = true → (w' < w)%nat).
Proof.
  intros Hm Hj [Hh _ Hc _ _ _ _]. cbn [c_pool c_callers] in *. unfold caller_weight. cbn [c_pool c_callers].
  pose proof (Hc _ _ _ Hj) as Hok. destruct (decide (i = j)) as [->|Hne].
  - rewrite list_lookup_insert_eq, Hj by (by eapply lookup_lt_Some). destruct (working t) eqn:Hw.
    + pose proof (moves_weight _ _ _ _ _ Hm Hok Hw). split; [lia|done].
    + split; [|done]. destruct t; try done; by inversion Hm.
  - rewrite list_lookup_insert_ne by done. destruct (ts !! i) as [[k u]|] eqn:Hi; [|by split].
    split; [|done]. rewrite (refs_lookup slot_refs _ _ _ _ Hj), (refs_lookup resource_refs _ _ _ _ Hj) in Hh.
    eapply moves_weight_others; [exact Hm|done|exact Hh|]. intros l Hl. apply refs_elem.
    destruct (decide (i < j)%nat).
    + exists i, k, u. by rewrite list_lookup_delete_lt.
    + exists (pred i), k, u. rewrite list_lookup_delete_ge by lia. by replace (S (pred i)) with i by lia.
Qed.

Lemma pool_move_weight c who c' i :
  pool_move c who c' → pool_inv c →
  (caller_weight c' i + (if option_nat_eq_dec who (Some i) then 1 else 0) ≤ caller_weight c i)%nat.
Proof.
  intros Hmove Hinv. destruct Hmove as [s ts ev st key|s ts ev st j key t ch t' s' Hj Hs|s ts ev st j key l client Hj].
  - destruct (option_nat_eq_dec None (Some i)); [done|]. unfold caller_weight. cbn [c_pool c_callers].
    destruct (ts !! i) as [[k u]|] eqn:Hi; [rewrite lookup_app_l by (by eapply lookup_lt_Some); rewrite Hi; lia|].
    destruct ((ts ++ [(key, Acquiring 0)]) !! i) as [[k u]|]; [pose proof (weight_bound s u)|]; lia.
  - assert (working t = true) as Hw by (by destruct t).
    destruct (caller_weight_move s ts ev st (evicted_by t ∪ ev) (started_by t t' ++ st) j key t t' s' i
      (caller_step_moves _ _ _ _ _ _ Hs) Hj Hinv) as [Hle Hlt].
    destruct (option_nat_eq_dec (Some j) (Some i)) as [Heq|]; [injection Heq as ->; specialize (Hlt eq_refl Hw)|]; lia.
  - destruct (option_nat_eq_dec None (Some i)); [done|].
    destruct (caller_weight_move s ts ev st ev st j key (Leased l client) Released (drop_slot l s) i) as [Hle _];
      [constructor|done|done|lia].
Qed.

Lemma moves_counted c who c' i :
  traces pool_move c who c' → pool_inv c → (count_occ option_nat_eq_dec who (Some i) ≤ caller_weight c i)%nat.
Proof.
  induction 1 as [c|c a c1 who c' Hmove _ IH]; intros Hinv; [simpl; lia|].
  pose proof (pool_move_weight c a c1 i Hmove Hinv) as Hw.
  assert (pool_inv c1) as Hinv1 by (eapply pool_step_inv; [apply pool_step_moves; by exists a|done]).
  specialize (IH Hinv1). simpl. destruct (option_nat_eq_dec a (Some i)); lia.
Qed.

(** Whoever waits for a slot waits for a caller that can go on. *)
Lemma someone_can_go_on c i key t :
  pool_inv c → c_callers c !! i = Some (key, t) → working t = true →
  ∃ j key' u, c_callers c !! j = Some (key', u) ∧ working u = true
    ∧ ∀ ch, is_Some (caller_step key' ch u (c_pool c)).
Proof.
  intros Hinv Hi Hw. assert ((∃ n l, t = Waiting n l ∧ value_of l (c_pool c) = Some Initializing)
    ∨ ∀ n l, t = Waiting n l → value_of l (c_pool c) ≠ Some Initializing) as [(n & l & -> & Hv)|Hno].
  { destruct t as [|n l| | | | | | | | |]; try (by right). 
    destruct (decide (value_of l (c_pool c) = Some Initializing)); [left; by exists n, l|right; by intros ? ? [= <- <-]]. }
  - pose proof (pi_filling _ Hinv l) as Hf. rewrite decide_True in Hf by done.
    destruct (decide (l ∈ refs filling_refs (c_callers c))) as [Hl|Hl]; [|apply cnt_zero in Hl; lia].
    apply refs_elem in Hl as (j & k & u & Hj & Hl). exists j, k, u.
    destruct u; simpl in Hl; set_solver.
  - exists i, key, t. split_and!; [done..|]. intros ch. destruct t; simpl; try done.
    + by destruct (acquire_slot key (c_pool c)) as [[]].
    + assert (is_Some (p_slots (c_pool c) !! l)) as [[n v] Hl].
      { eapply counted_live; [apply (holds_slots _ _ _ (pi_holds _ Hinv))|].
        apply refs_elem. exists i, key, (Waiting attempt l). simpl. set_solver. }
      unfold value_of in *. rewrite Hl in *. simpl in *. destruct v as [| |[x|e]]; try done.
      exfalso. apply (Hno attempt l); [done|by rewrite Hl].
Qed.

(** Callers that have returned have nothing left to do. *)
Definition at_rest (ts : list (K * Caller C)) : Prop := ∀ key t, (key, t) ∈ ts → working t = false.

Lemma at_rest_weight s ts : at_rest ts → total_weight s ts = 0%nat.
Proof.
  induction ts as [|[k t] ts IH]; intros Hr; [done|]. cbn [total_weight].
  rewrite IH by (intros k' t' Hin; eapply Hr; by right).
  pose proof (Hr k t ltac:(left)). by destruct t.
Qed.

Lemma total_weight_app s ts us : total_weight s (ts ++ us) = (total_weight s ts + total_weight s us)%nat.
Proof. induction ts as [|[k t] ts IH]; [done|]. cbn [app total_weight]. rewrite IH. lia. Qed.

(** Among callers at rest a working one goes on, and has less left to do. *)
Lemma alone_goes_on s ts ev st key t ch :
  rtc pool_step initial_config (mkPoolConfig s (ts ++ [(key, t)]) ev st) → at_rest ts →
  working t = true →
  ∃ t' s' ev' st', caller_step key ch t s = Some (t', s') ∧ (weight s' t' < weight s t)%nat
    ∧ pool_step (mkPoolConfig s (ts ++ [(key, t)]) ev st) (mkPoolConfig s' (ts ++ [(key, t')]) ev' st').
Proof.
  intros Hr Hrest Hw. pose proof (reachable_pool_inv _ Hr) as Hinv.
  assert ((ts ++ [(key, t)]) !! length ts = Some (key, t)) as Hi by (by apply list_lookup_middle).
  destruct (someone_can_go_on _ _ _ _ Hinv Hi Hw) as (j & key' & u & Hj & Hu & Hgo). simpl in Hj, Hgo.
  assert (key' = key ∧ u = t) as [-> ->].
  { apply list_elem_of_lookup_2, elem_of_app in Hj as [Hj|Hj]; [by rewrite (Hrest _ _ Hj) in Hu|].
    apply list_elem_of_singleton in Hj. by injection Hj. }
  destruct (Hgo ch) as [[t' s'] Hs]. exists t', s', (evicted_by t ∪ ev), (started_by t t' ++ st).
  assert (<[length ts := (key, t')]> (ts ++ [(key, t)]) = ts ++ [(key, t')]) as Hins.
  { rewrite insert_app_r_alt, Nat.sub_diag by done. done. }
  split; [done|]. split; [|rewrite <-Hins; by eapply ps_caller].
  pose proof (caller_turn_weight _ _ (turn s _ ev st _ key t ch t' s' Hi Hs) Hinv) as Hlt.
  cbn [c_pool c_callers] in Hlt. rewrite Hins, !total_weight_app, !(at_rest_weight _ ts) in Hlt by done.
  cbn [total_weight] in Hlt. lia.
Qed.
End Progress.

(** ** Calls on their own *)

Section Alone.
Context `{IrohCrate}.
Implicit Types (s : PoolState PoolKey ConnectionResource) (t : Caller RpcClient).

Lemma leased_is_open {K} `{Countable K} {V C} (c : PoolConfig K V C) i key l client :
  rtc pool_step initial_config c → c_callers c !! i = Some (key, Leased l client) →
  ∃ x, stores (c_pool c) l x ∧ is_Some (p_resources (c_pool c) !! x).
Proof.
  intros Hr Hi. pose proof (reachable_pool_inv c Hr) as [Hh _ Hc _ _ _ _].
  destruct (Hc _ _ _ Hi) as [x Hx]. exists x. split; [done|].
  apply value_of_Some in Hx as [n Hl]. eapply counted_live; [apply (holds_resources _ _ _ Hh)|].
  rewrite (stored_lookup _ _ _ _ Hl). simpl. set_solver.
Qed.

(** With fuel for its weight a caller that is not released runs to its end. *)
Lemma run_caller_rests fuel secret key t s ps ts ev st :
  rtc pool_step initial_config (mkPoolConfig s (ts ++ [(key, t)]) ev st) → at_rest ts →
  (weight s t ≤ fuel)%nat → t ≠ Released →
  let '(t', s', _) := run_caller fuel secret key t s ps in
  ∃ ev' st', rtc pool_step (mkPoolConfig s (ts ++ [(key, t)]) ev st)
               (mkPoolConfig s' (ts ++ [(key, t')]) ev' st')
    ∧ ((∃ e, t' = Failed e) ∨ ∃ l client, t' = Leased l client).
Proof.
  revert t s ps ev st. induction fuel as [|fuel IH]; intros t s ps ev st Hr Hrest Hf Hne; cbn [run_caller].
  - exists ev, st. split; [done|]. destruct (working t) eqn:Hw.
    + destruct (alone_goes_on s ts ev st key t unasked Hr Hrest Hw) as (? & ? & ? & ? & _ & ? & _). lia.
    + destruct t; try done; naive_solver.
  - destruct (ask secret key t s ps) as [ch ps']. destruct (working t) eqn:Hw.
    + destruct (alone_goes_on s ts ev st key t ch Hr Hrest Hw) as (t1 & s1 & ev1 & st1 & Hs & Hlt & Hstep).
      rewrite Hs. specialize (IH t1 s1 ps' ev1 st1 (rtc_r _ _ _ Hr Hstep) Hrest ltac:(lia)).
      destruct (run_caller fuel secret key t1 s1 ps') as [[t2 s2] ps2].
      destruct IH as (ev2 & st2 & Hrun & Hend).
      { intros ->. by destruct t; simpl in Hs; repeat case_match; simplify_eq. }
      exists ev2, st2. split; [by eapply rtc_l|done].
    + assert (caller_step key ch t s = None) as -> by (by destruct t).
      exists ev, st. split; [done|]. destruct t; try done; naive_solver.
Qed.
End Alone.

(** ** Main theorems *)

Section Main.
Context {K : Type} `{Countable K} {V C : Type}.
Implicit Types (c : PoolConfig K V C).

(** C19: however many callers race, a connection is made once per slot and the
    callers of a key share it: no slot is ever filled twice, two callers with the
    same key hold the same slot unless it was evicted, an evicted slot is never
    handed out again, and a leased slot holds a connection that is open. *)
Theorem pool_shares_connections c :
  rtc pool_step initial_config c →
  NoDup (c_started c)
  ∧ (∀ i j key t u l l', c_callers c !! i = Some (key, t) → c_callers c !! j = Some (key, u) →
       l ∈ slot_refs t → l' ∈ slot_refs u → l ∉ c_evicted c → l' ∉ c_evicted c → l = l')
  ∧ (∀ key l s', acquire_slot key (c_pool c) = (Ok l, s') → l ∉ c_evicted c)
  ∧ (∀ i key l client, c_callers c !! i = Some (key, Leased l client) →
       ∃ x, stores (c_pool c) l x ∧ is_Some (p_resources (c_pool c) !! x)).
Proof.
  intros Hr. pose proof (reachable_pool_inv c Hr) as [Hh _ _ [Hd _] [Hb Hev] Hk _].
  pose proof (reachable_unlisted c Hr) as [_ Hu]. split_and!; [done|..].
  - intros i j key t u l l' Hi Hj Hl Hl' Hne Hne'.
    pose proof (Hk _ _ _ _ Hi Hl Hne). pose proof (Hk _ _ _ _ Hj Hl' Hne'). congruence.
  - intros key l s' Ha. destruct (acquire_slot_entries _ _ _ _ _ _ Hh Ha) as [(_ & Hkey & _)|(-> & _)].
    + by eapply Hu.
    + intros Hl%Hev. lia.
  - intros i key l client Hi. by apply (leased_is_open c i key l client).
Qed.

(** C28: a connection is open exactly as long as somebody uses it: in every
    reachable state the open connections are those a caller holds or that are in a
    slot a caller or lease holds, so no connection in use is closed and, when every
    call has failed or been released, none is left open and no slot is kept. *)
Theorem pool_closes_unused_connections c :
  rtc pool_step initial_config c →
  (∀ x, is_Some (p_resources (c_pool c) !! x) ↔
     ∃ i key t, c_callers c !! i = Some (key, t)
       ∧ (x ∈ resource_refs t ∨ ∃ l, l ∈ slot_refs t ∧ stores (c_pool c) l x))
  ∧ ((∀ i key t, c_callers c !! i = Some (key, t) → t = Released ∨ ∃ e, t = Failed e) →
     p_slots (c_pool c) = ∅ ∧ p_resources (c_pool c) = ∅).
Proof.
  intros Hr. pose proof (reachable_pool_inv c Hr) as [[Hs Hres Hf] _ _ _ _ _ _].
  assert (∀ x, is_Some (p_resources (c_pool c) !! x) ↔
     ∃ i key t, c_callers c !! i = Some (key, t)
       ∧ (x ∈ resource_refs t ∨ ∃ l, l ∈ slot_refs t ∧ stores (c_pool c) l x)) as Hopen.
  { intros x. split.
    - intros [Hx|Hx]%(counted_dead _ _ _ Hres)%elem_of_app.
      + apply refs_elem in Hx as (i & key & t & Hi & Hx). exists i, key, t. auto.
      + unfold stored in Hx. apply list_elem_of_omap in Hx as ([l [n v]] & Hl%elem_of_map_to_list & Hv).
        assert (l ∈ refs slot_refs (c_callers c)) as (i & key & t & Hi & Ht)%refs_elem by (eapply counted_dead; [done|by rewrite Hl]).
        exists i, key, t. split; [done|]. right. exists l. split; [done|]. unfold stores, value_of.
        rewrite Hl. simpl. destruct v as [| |[]]; try done. by injection Hv as ->.
    - intros (i & key & t & Hi & [Hx|(l & Hl & [n Hv]%value_of_Some)]); eapply counted_live; try exact Hres.
      + apply elem_of_app. left. apply refs_elem. by exists i, key, t.
      + apply elem_of_app. right. rewrite (stored_lookup _ _ _ _ Hv). simpl. set_solver. }
  split; [done|]. intros Hdone.
  assert (∀ (f : Caller C → list nat) i key t l, (∀ u, u = Released ∨ (∃ e, u = Failed e) → f u = []) →
            c_callers c !! i = Some (key, t) → l ∉ f t) as Hnone.
  { intros f i key t l Hnil Hi. rewrite Hnil by (by eapply Hdone). apply not_elem_of_nil. }
  split; apply map_empty; intros l; apply eq_None_not_Some.
  - intros (i & key & t & Hi & Hl)%(counted_dead _ _ _ Hs)%refs_elem.
    revert Hl. eapply Hnone; [|done]. by intros u [->|[e ->]].
  - intros (i & key & t & Hi & [Hl|(l' & Hl & _)])%Hopen; revert Hl; (eapply Hnone; [|done]);
      by intros u [->|[e ->]].
Qed.

(** C29: every call of [open_client] returns.  From any reachable state, however
    long the pool runs on, with callers that come, go on and release their leases
    in any order, and whatever the initialiser, the runtime and the stream answer, no
    call takes more than fifteen sections; and as long as a call is in progress
    some call in progress can go on, so nobody waits for a slot that nobody
    fills. *)
Theorem pool_callers_return c :
  rtc pool_step initial_config c →
  (∀ who c', traces pool_move c who c' → ∀ i, (count_occ option_nat_eq_dec who (Some i) ≤ 15)%nat)
  ∧ ∀ i key t, c_callers c !! i = Some (key, t) → working t = true →
      ∃ j key' u, c_callers c !! j = Some (key', u) ∧ working u = true
        ∧ ∀ ch, is_Some (caller_step key' ch u (c_pool c)).
Proof.
  intros Hr%reachable_pool_inv. split; [|by intros; eapply someone_can_go_on].
  intros who c' Hrun i. etrans; [by eapply moves_counted|]. apply caller_weight_bound.
Qed.

(** [open_client], called while no other call is in progress, returns a
    client or an error within the fuel of its definition, whatever the pool holds
    and the network answers: it is a sequence of atomic sections of the pool, and
    a client it returns holds a lease on a connection that is open. *)
Theorem open_client_returns `{IrohCrate} (c : PoolConfig PoolKey ConnectionResource RpcClient) config ps :
  rtc pool_step initial_config c → at_rest (c_callers c) →
  let '(t, s', _) := open_client config (c_pool c) ps in
  ∃ key ev st,
    key = (client_key config ps).1.2
    ∧ rtc pool_step c (mkPoolConfig s' (c_callers c ++ [(key, t)]) ev st)
    ∧ ((∃ e, t = Failed e)
       ∨ ∃ l client x, t = Leased l client ∧ stores s' l x ∧ is_Some (p_resources s' !! x)).
Proof.
  intros Hr Hrest. unfold open_client. destruct (client_key config ps) as [[secret key] ps1]. cbn [fst snd].
  destruct c as [s0 ts ev0 st0]. cbn [c_pool c_callers] in *.
  pose proof (run_caller_rests 15 secret key (Acquiring 0) s0 ps1 ts ev0 st0
    (rtc_r _ _ _ Hr (ps_spawn _ _ _ _ key)) Hrest ltac:(simpl; lia) ltac:(done)) as Hrun.
  destruct (run_caller 15 secret key (Acquiring 0) s0 ps1) as [[t s'] ps'].
  destruct Hrun as (ev & st & Hs & Hdone). exists key, ev, st. split; [done|].
  split; [eapply rtc_l; [apply (ps_spawn _ _ _ _ key)|done]|].
  destruct Hdone as [He|(l & client & ->)]; [by left|right].
  assert (rtc pool_step initial_config (mkPoolConfig s' (ts ++ [(key, Leased l client)]) ev st)) as Hr'.
  { etrans; [exact Hr|]. eapply rtc_l; [apply (ps_spawn _ _ _ _ key)|done]. }
  destruct (leased_is_open _ (length ts) key l client Hr') as (x & Hx & Ho); [by apply list_lookup_middle|].
  by exists l, client, x.
Qed.
End Main.

(** ** Examples *)

Section Example.
Definition Conf : Type := PoolConfig nat nat nat.

(** A schedule names the caller of each step and what it is answered. *)
Fixpoint run_schedule (sched : list (nat * Choice (V := nat) (C := nat))) (c : Conf) : option Conf :=
  match sched with
  | [] => Some c
  | (i, ch) :: sched =>
      '(key, t) ← c_callers c !! i;
      '(t', s') ← caller_step key ch t (c_pool c);
      run_schedule sched (mkPoolConfig s' (<[i := (key, t')]> (c_callers c))
        (evicted_by t ∪ c_evicted c) (started_by t t' ++ c_started c))
  end.

Lemma run_schedule_turns sched c c' :
  run_schedule sched c = Some c' → nsteps caller_turn (length sched) c c'.
Proof.
  revert c. induction sched as [|[i ch] sched IH]; intros [s ts ev st]; simpl; [intros [= <-]; constructor|].
  destruct (ts !! i) as [[key t]|] eqn:Hi; [simpl|done].
  destruct (caller_step key ch t s) as [[t' s']|] eqn:Hs; [simpl|done].
  intros Hr. econstructor; [by econstructor|by apply IH].
Defined.

Lemma turns_steps n (c c' : Conf) : nsteps caller_turn n c c' → rtc pool_step c c'.
Proof.
  induction 1 as [|n c c1 c' Ht _ IH]; [apply rtc_refl|]. by eapply rtc_l; [apply turn_is_step|].
Defined.

(** Two callers of key 7. *)
Definition spawned : Conf := mkPoolConfig PoolState_default [(7%nat, Acquiring 0); (7%nat, Acquiring 0)] ∅ [].

Lemma spawned_reachable : rtc pool_step initial_config spawned.
Proof. eapply rtc_l; [apply ps_spawn|]. eapply rtc_l; [apply (ps_spawn _ [(7%nat, Acquiring 0)])|]. apply rtc_refl. Defined.

(** The first fills the slot with connection 50 while the second waits; both
    open a stream on it and keep their leases. *)
Definition good (client : nat) : Choice (V := nat) (C := nat) := mkChoice (Ok 50%nat) (Ok tt) (Ok client).
Definition sharing : list (nat * Choice (V := nat) (C := nat)) :=
  [(0, good 1); (1, good 2); (0, good 1); (0, good 1); (1, good 2); (0, good 1); (1, good 2); (0, good 1);
   (1, good 2); (0, good 1)]%nat.

Definition shared : Conf := default spawned (run_schedule sharing spawned).

Lemma shared_reachable : rtc pool_step initial_config shared.
Proof.
  etrans; [exact spawned_reachable|]. apply (turns_steps (length sharing)), run_schedule_turns.
  vm_compute. reflexivity.
Defined.

Lemma pool_shares_connections_witness :
  c_callers shared = [(7, Leased 0 1); (7, Leased 0 2)]%nat ∧ c_started shared = [0%nat]
  ∧ stores (c_pool shared) 0 1 ∧ NoDup (c_started shared).
Proof.
  pose proof (pool_shares_connections shared shared_reachable) as Hs.
  split_and!; [vm_compute; reflexivity|vm_compute; reflexivity|vm_compute; reflexivity|exact (proj1 Hs)].
Defined.

(** Both leases are released: the connection is closed. *)
Definition release (i : nat) (c : Conf) : Conf :=
  match c_callers c !! i with
  | Some (key, Leased l _) =>
      mkPoolConfig (drop_slot l (c_pool c)) (<[i := (key, Released)]> (c_callers c)) (c_evicted c) (c_started c)
  | _ => c
  end.

Lemma release_steps i c : rtc pool_step c (release i c).
Proof.
  unfold release. destruct (c_callers c !! i) as [[key []]|] eqn:Hi; try apply rtc_refl.
  apply rtc_once. destruct c. by eapply ps_release.
Defined.

Definition released : Conf := release 1 (release 0 shared).

Lemma released_reachable : rtc pool_step initial_config released.
Proof. etrans; [exact shared_reachable|]. etrans; apply release_steps. Defined.

Lemma pool_closes_unused_connections_witness :
  p_closed (c_pool shared) = [] ∧ p_closed (c_pool released) = [50%nat]
  ∧ p_resources (c_pool released) = ∅.
Proof.
  split_and!; [vm_compute; reflexivity|vm_compute; reflexivity|].
  refine (proj2 (proj2 (pool_closes_unused_connections released released_reachable) _)).
  assert (c_callers released = [(7, Released); (7, Released)]%nat) as -> by (vm_compute; reflexivity).
  intros i key t Hi. left. destruct i as [|[|i]]; [injection Hi as _ <-; reflexivity..|discriminate Hi].
Defined.

Lemma run_schedule_moves sched c c' :
  run_schedule sched c = Some c' → traces pool_move c ((λ x, Some x.1) <$> sched) c'.
Proof.
  revert c. induction sched as [|[i ch] sched IH]; intros [s ts ev st]; simpl; [intros [= <-]; constructor|].
  destruct (ts !! i) as [[key t]|] eqn:Hi; [simpl|done].
  destruct (caller_step key ch t s) as [[t' s']|] eqn:Hs; [simpl|done].
  intros Hr. eapply traces_cons; [by eapply move_caller|by apply IH].
Qed.

(** The first of the two callers takes six sections. *)
Lemma pool_callers_return_witness :
  count_occ option_nat_eq_dec ((λ x, Some x.1) <$> sharing) (Some 0%nat) = 6%nat ∧ (6 ≤ 15)%nat.
Proof.
  assert (count_occ option_nat_eq_dec ((λ x, Some x.1) <$> sharing) (Some 0%nat) = 6%nat) as Hsix by reflexivity.
  split; [exact Hsix|]. rewrite <-Hsix.
  refine (proj1 (pool_callers_return spawned spawned_reachable) _ shared _ 0%nat).
  apply run_schedule_moves. vm_compute. reflexivity.
Defined.

(** A network of numbers: the world counts the connections made, and a stream
    opens only on the newest of them. *)
#[local] Program Instance counting_iroh : IrohCrate := {|
  IrohWorld := nat; SecretKey := nat; EndpointId := nat; SocketAddr := nat; Endpoint := nat;
  IrohConnection := nat; RpcClient := nat;
  public k := k;
  generate w := (9%nat, w);
  build_runtime w := (Ok tt, w);
  bind_endpoint k w := (Ok k, w);
  connect_addr _ _ _ _ w := (Ok (S w), S w);
  connection_open_client c w := (if decide (c = w) then Ok c else Err "connection lost", w)
|}.

Definition example_client : PoolClientConfig := mkPoolClientConfig 3%nat None None 30.
Definition fresh_process (w : nat) : ProcessState := mkProcessState None None w.

(** One lease on the first connection, which the peer then drops. *)
Definition lost_pool : PoolState PoolKey ConnectionResource :=
  (open_client example_client PoolState_default (fresh_process 0%nat)).1.2.

(** A caller that finds the lost connection replaces it and gets a client on the
    new one; the old slot stays with its lease. *)
Lemma open_client_returns_witness :
  (let '(t, s', _) := open_client example_client lost_pool (mkProcessState (Some (Ok tt)) (Some 9%nat) 5%nat) in
   t = Leased 2 6%nat ∧ snd <$> p_resources s' !! 3%nat = Some (mkConnectionResource 9%nat 6%nat)
   ∧ snd <$> p_resources s' !! 1%nat = Some (mkConnectionResource 9%nat 1%nat))
  ∧ let '(t, s', _) := open_client example_client PoolState_default (fresh_process 0%nat) in
    t = Leased 0 1%nat
    ∧ ∃ key ev st, rtc pool_step initial_config (mkPoolConfig s' [(key, t)] ev st).
Proof.
  split; [vm_compute; auto|].
  assert (at_rest (c_callers (initial_config : PoolConfig PoolKey ConnectionResource RpcClient))) as Hrest.
  { intros key t Hin. by apply elem_of_nil in Hin. }
  pose proof (open_client_returns initial_config example_client (fresh_process 0%nat) (rtc_refl _ _) Hrest) as Hr.
  change (c_pool initial_config) with (PoolState_default : PoolState PoolKey ConnectionResource) in Hr.
  destruct (open_client example_client PoolState_default (fresh_process 0%nat)) as [[t s'] ps'] eqn:E.
  split; [exact (eq_sym (f_equal (λ r, r.1.1) E))|].
  destruct Hr as (key & ev & st & _ & Hr & _). by exists key, ev, st.
Defined.
End Example.
