(* ===== verification/Dialing.v ===== *)
(** * Dialling the server (adbc-driver-grainlift/src/lib.rs)

    How [RemoteTransport::connect] and [ByteConnector] make the connection an
    endpoint asks for: the HTTP client and its headers, plain TCP, TCP with mutual
    TLS from the files of the options, and Iroh through the pool of shared
    connections.  Sockets, certificate files and the TLS library are the interface
    [Dialer]; [DialState] is the pool, the process-wide keys and that world. *)

From S2P Require Import Prelude Tls Adbc WireError Options Arrow Framing Envelope Partitions.
From S2P Require Import Config Backend Rpc ClientOptions Client Pool PoolSteps.
From S2P Require Import Reference ReferenceIpc ReferenceBackend ReferenceRpc.

(** ** The outside *)

Class Dialer `{VgiRpc} `{IrohCrate} : Type := {
  DialWorld : Type;
  tcp_connect_with_timeout : string → Z → option Z → M DialWorld RpcError RpcClient;
  dial_files :: TlsFiles DialWorld;
  ClientTls : Type;
  safe_default_versions : result string unit;
  with_client_auth_cert : RootCertStore → list Certificate → PrivateKey → result string ClientTls;
  tls_tcp_connect : string → Z → string → ClientTls → Z → option Z → M DialWorld RpcError RpcClient;
  rpc_protocol : string → RpcClient → RpcClient;
  rpc_protocol_version : string → RpcClient → RpcClient;
  parse_target : string → result string EndpointId;
  secret_key_from_str : string → result string SecretKey;
  parse_socket_addr : string → result string SocketAddr;
  ReqwestClient : Type;
  reqwest_build : Z → M DialWorld string ReqwestClient;
  HttpBuilder : Type;
  HttpClient : Type;
  http_connect : string → HttpBuilder;
  http_protocol : string → HttpBuilder → HttpBuilder;
  http_protocol_version : string → HttpBuilder → HttpBuilder;
  http_timeout : option Z → HttpBuilder → HttpBuilder;
  http_accepted_max_response_bytes : Z → HttpBuilder → HttpBuilder;
  http_with_client : ReqwestClient → HttpBuilder → HttpBuilder;
  http_header : string → string → HttpBuilder → result RpcError HttpBuilder;
  http_build : HttpBuilder → M DialWorld RpcError HttpClient
}.

Section Dialing.
Context `{AdbcCore} `{RustFmt} `{Base64} `{VgiRpc} `{!Json WireAdbcError} `{UrlCrate} `{!IrohCrate} `{!Dialer}.
Context (c_char_signed : bool).

(** ** State *)

Record DialState : Type := mkDialState {
  ds_pool : PoolState PoolKey ConnectionResource;
  ds_process : ProcessState;
  ds_world : DialWorld
}.

Abbreviation Dial := (M DialState AdbcError).

Definition on_network {E A} (f : E → AdbcError) (m : M DialWorld E A) : Dial A := λ s,
  let '(r, w) := m (ds_world s) in (map_err f r, mkDialState (ds_pool s) (ds_process s) w).

Definition rpc_err : RpcError → AdbcError := rpc_error c_char_signed.

(** ** HTTP *)

Record HttpTransport : Type := mkHttpTransport {
  ht_endpoint : string; ht_bearer_token : option string; ht_http : ReqwestClient;
  ht_request_timeout : Z; ht_max_response_bytes : Z
}.

Definition build_http_client (endpoint : string) (bearer_token : option string) (http : ReqwestClient)
    (request_timeout max_response_bytes : Z) : Dial HttpClient :=
  let builder :=
    http_with_client http (http_accepted_max_response_bytes max_response_bytes
      (http_timeout (Some request_timeout)
        (http_protocol_version PROTOCOL_VERSION (http_protocol PROTOCOL_NAME (http_connect endpoint))))) in
  builder ← mlift (match bearer_token with
                   | Some token =>
                       map_err rpc_err (http_header "authorization" ("Bearer " +:+ token) builder)
                   | None => Ok builder
                   end);
  on_network rpc_err (http_build builder).

(** ** TCP and TLS *)

Definition configure_rpc_client (client : RpcClient) : RpcClient :=
  rpc_protocol_version PROTOCOL_VERSION (rpc_protocol PROTOCOL_NAME client).

Definition read_certificates (path : string) : Dial (list Certificate) :=
  on_network id (read_certificate_file
    (λ error, client_invalid ("could not open TLS certificate file " +:+ debug_str path +:+ ": " +:+ error))
    (λ error, client_invalid ("could not parse TLS certificate file: " +:+ error))
    (client_invalid ("TLS certificate file " +:+ debug_str path +:+ " contains no certificates")) path).

Definition read_private_key (path : string) : Dial PrivateKey :=
  on_network (λ error, client_invalid ("could not load TLS private key " +:+ debug_str path +:+ ": " +:+ error))
    (pem_private_key path).

Definition add_client_roots : RootCertStore → list Certificate → result AdbcError RootCertStore :=
  add_roots (λ error, client_invalid ("invalid TLS CA certificate: " +:+ error)).

Definition tls_tcp_client (host : string) (port timeout : Z) (opts : TransportOptions) : Dial RpcClient :=
  '(ca_path, cert_path, key_path, server_name) ← mlift (tls_parameters opts host);
  ca ← read_certificates ca_path;
  roots ← mlift (add_client_roots roots_empty ca);
  certificates ← read_certificates cert_path;
  private_key ← read_private_key key_path;
  mlift (map_err (λ error, client_internal ("configure TLS versions: " +:+ error)) safe_default_versions);;
  config ← mlift (map_err (λ error, client_invalid ("invalid TLS client certificate or key: " +:+ error))
                    (with_client_auth_cert roots certificates private_key));
  on_network rpc_err (tls_tcp_connect host port server_name config timeout (Some timeout)).

(** ** [ByteConnector] *)

Record ByteConnector : Type := mkByteConnector {
  bc_endpoint : string; bc_request_timeout : Z; bc_options : TransportOptions
}.

(** A lease is the slot it keeps. *)
Definition pooled (t : Caller RpcClient) : result PoolError (RpcClient * nat) :=
  match t with
  | Leased l client => Ok (client, l)
  | Failed e => Err e
  | _ => Err (mkPoolError "" "")
  end.

Definition open_pooled (config : PoolClientConfig) : Dial (RpcClient * nat) := λ s,
  let '(t, pool, process) := open_client config (ds_pool s) (ds_process s) in
  (map_err (λ error, with_message_and_status (pool_error_to_string error) IO) (pooled t),
   mkDialState pool process (ds_world s)).

Definition transpose {E A B} (f : A → result E B) (o : option A) : result E (option B) :=
  match o with None => Ok None | Some a => Some <$> f a end.

Definition iroh_config (c : ByteConnector) : result AdbcError PoolClientConfig :=
  remote_id ← map_err client_invalid (parse_target (bc_endpoint c));
  secret_key ← transpose (λ secret,
    map_err (λ error, client_invalid ("invalid Iroh client secret key: " +:+ error))
      (secret_key_from_str (trim secret))) (iroh_secret_key (bc_options c));
  direct_address ← transpose (λ address,
    map_err (λ error, client_invalid ("invalid Iroh direct address: " +:+ error))
      (parse_socket_addr address)) (iroh_direct_address (bc_options c));
  Ok (mkPoolClientConfig remote_id direct_address secret_key (bc_request_timeout c)).

Definition connect_iroh (c : ByteConnector) : Dial (RpcClient * option nat) :=
  config ← mlift (iroh_config c);
  '(client, lease) ← open_pooled config;
  mret (configure_rpc_client client, Some lease).

Definition byte_connect (c : ByteConnector) : Dial (RpcClient * option nat) :=
  if starts_with "tcp://" (bc_endpoint c) then
    '(host, port) ← mlift (host_and_port (bc_endpoint c) "tcp");
    client ← on_network rpc_err (tcp_connect_with_timeout host port (Some (bc_request_timeout c)));
    mret (configure_rpc_client client, None)
  else if starts_with "tls+tcp://" (bc_endpoint c) then
    '(host, port) ← mlift (host_and_port (bc_endpoint c) "tls+tcp");
    client ← tls_tcp_client host port (bc_request_timeout c) (bc_options c);
    mret (configure_rpc_client client, None)
  else if starts_with "iroh://" (bc_endpoint c) then connect_iroh c
  else mthrow (not_implemented "unsupported Grainlift byte-stream URI").

(** ** [RemoteTransport::connect] *)

Record ByteTransport : Type := mkByteTransport {
  bt_client : Mutex RpcClient; bt_iroh_lease : option nat; bt_connector : ByteConnector
}.

Inductive DialledTransport : Type := DialledHttp (t : HttpTransport) | DialledByte (t : ByteTransport).

Definition transport_connect (endpoint : string) (bearer_token : option string)
    (request_timeout max_response_bytes : Z) (opts : TransportOptions) : Dial DialledTransport :=
  choice ← mlift (choose_transport endpoint bearer_token);
  match choice with
  | ChooseHttp endpoint bearer_token =>
      http ← on_network (λ error, with_message_and_status error IO) (reqwest_build request_timeout);
      mret (DialledHttp (mkHttpTransport endpoint bearer_token http request_timeout max_response_bytes))
  | ChooseTcp endpoint | ChooseTlsTcp endpoint | ChooseIroh endpoint =>
      let connector := mkByteConnector endpoint request_timeout opts in
      '(client, lease) ← byte_connect connector;
      mret (DialledByte (mkByteTransport (Mutex_new client) lease connector))
  end.

(** The transport the calls of the driver are verified on. *)
Definition dialled (t : DialledTransport) : RemoteTransport :=
  match t with
  | DialledHttp _ => Http
  | DialledByte t => Byte (Mutex_new tt)
  end.
End Dialing.

(** ** What a successful step did *)

Section Steps.
Context `{AdbcCore} `{RustFmt} `{Base64} `{VgiRpc} `{!Json WireAdbcError} `{UrlCrate} `{!IrohCrate} `{!Dialer}.
Context (c_char_signed : bool).

Lemma on_network_Ok {E A} (f : E → AdbcError) (m : M DialWorld E A) s a s' :
  on_network f m s = (Ok a, s') →
  m (ds_world s) = (Ok a, ds_world s') ∧ ds_pool s' = ds_pool s ∧ ds_process s' = ds_process s.
Proof.
  unfold on_network. destruct (m (ds_world s)) as [[b|e] w]; [|done]. by intros [= <- <-].
Qed.

Lemma read_certificates_Ok path s l s' :
  read_certificates path s = (Ok l, s') →
  pem_file_iter path (ds_world s) = (Ok (Ok <$> l), ds_world s') ∧ l ≠ []
  ∧ ds_pool s' = ds_pool s ∧ ds_process s' = ds_process s.
Proof. intros ([??]%read_certificate_file_Ok & ? & ?)%on_network_Ok. done. Qed.

Lemma tls_parameters_Ok opts host ca cert key name :
  tls_parameters opts host = Ok (ca, cert, key, name) ↔
  tls_ca opts = Some ca ∧ tls_cert opts = Some cert ∧ tls_key opts = Some key
  ∧ name = default host (tls_server_name opts).
Proof.
  unfold tls_parameters. rewrite result_bind_Ok. setoid_rewrite result_bind_Ok. setoid_rewrite result_bind_Ok.
  setoid_rewrite ok_or_Ok. naive_solver.
Qed.
End Steps.

(** ** What a byte-stream connection of each scheme is *)

Section Connections.
Context `{AdbcCore} `{RustFmt} `{Base64} `{VgiRpc} `{!Json WireAdbcError} `{UrlCrate} `{!IrohCrate} `{!Dialer}.
Context (c_char_signed : bool).

Definition tcp_connection endpoint timeout s client (lease : option nat) s' : Prop :=
  starts_with "tcp://" endpoint = true ∧ lease = None
  ∧ ∃ host port raw,
      host_and_port endpoint "tcp" = Ok (host, port)
      ∧ tcp_connect_with_timeout host port (Some timeout) (ds_world s) = (Ok raw, ds_world s')
      ∧ client = configure_rpc_client raw ∧ ds_pool s' = ds_pool s.

Definition tls_connection endpoint timeout opts s client (lease : option nat) s' : Prop :=
  starts_with "tls+tcp://" endpoint = true ∧ lease = None
  ∧ ∃ host port raw,
      host_and_port endpoint "tls+tcp" = Ok (host, port)
      ∧ tls_tcp_client c_char_signed host port timeout opts s = (Ok raw, s')
      ∧ client = configure_rpc_client raw.

Definition iroh_connection endpoint timeout opts (c : PoolConfig PoolKey ConnectionResource RpcClient) s
    client (lease : option nat) s' : Prop :=
  starts_with "iroh://" endpoint = true
  ∧ ∃ config l raw x c',
      iroh_config (mkByteConnector endpoint timeout opts) = Ok config
      ∧ rtc pool_step c c' ∧ c_pool c' = ds_pool s'
      ∧ c_callers c' = c_callers c ++ [((client_key config (ds_process s)).1.2, Leased l raw)]
      ∧ lease = Some l ∧ stores (ds_pool s') l x ∧ is_Some (p_resources (ds_pool s') !! x)
      ∧ client = configure_rpc_client raw ∧ ds_world s' = ds_world s.

Lemma byte_connect_cases endpoint timeout opts s client lease s' :
  byte_connect c_char_signed (mkByteConnector endpoint timeout opts) s = (Ok (client, lease), s') →
  tcp_connection endpoint timeout s client lease s'
  ∨ tls_connection endpoint timeout opts s client lease s'
  ∨ (starts_with "iroh://" endpoint = true
     ∧ ∃ config raw l, iroh_config (mkByteConnector endpoint timeout opts) = Ok config
         ∧ open_pooled config s = (Ok (raw, l), s') ∧ client = configure_rpc_client raw ∧ lease = Some l).
Proof.
  unfold byte_connect. cbn [bc_endpoint bc_request_timeout bc_options].
  destruct (starts_with "tcp://" endpoint) eqn:Htcp; [|destruct (starts_with "tls+tcp://" endpoint) eqn:Htls;
    [|destruct (starts_with "iroh://" endpoint) eqn:Hiroh; [|done]]]; intros Hc.
  - left. apply bind_Ok in Hc as ([host port] & s1 & [Hh ->]%mlift_Ok & Hc).
    apply bind_Ok in Hc as (raw & s2 & (Hraw & Hp & _)%on_network_Ok & Hc). injection Hc as <- <- <-.
    split_and!; [done..|]. by exists host, port, raw.
  - right. left. apply bind_Ok in Hc as ([host port] & s1 & [Hh ->]%mlift_Ok & Hc).
    apply bind_Ok in Hc as (raw & s2 & Hraw & Hc). injection Hc as <- <- <-.
    split_and!; [done..|]. by exists host, port, raw.
  - right. right. split; [done|]. unfold connect_iroh in Hc.
    apply bind_Ok in Hc as (config & s1 & [Hcfg ->]%mlift_Ok & Hc).
    apply bind_Ok in Hc as ([raw l] & s2 & Ho & Hc). injection Hc as <- <- <-. by exists config, raw, l.
Qed.

Lemma open_pooled_Ok config (c : PoolConfig PoolKey ConnectionResource RpcClient) s client l s' :
  rtc pool_step initial_config c → at_rest (c_callers c) → c_pool c = ds_pool s →
  open_pooled config s = (Ok (client, l), s') →
  ∃ x c', rtc pool_step c c' ∧ c_pool c' = ds_pool s'
    ∧ c_callers c' = c_callers c ++ [((client_key config (ds_process s)).1.2, Leased l client)]
    ∧ stores (ds_pool s') l x ∧ is_Some (p_resources (ds_pool s') !! x) ∧ ds_world s' = ds_world s.
Proof.
  intros Hr Hrest Hp. pose proof (open_client_returns c config (ds_process s) Hr Hrest) as Hopen.
  unfold open_pooled. rewrite Hp in Hopen.
  destruct (open_client config (ds_pool s) (ds_process s)) as [[t pool] process].
  destruct Hopen as (key & ev & st & -> & Hs & [[e ->]|(l' & client' & x & -> & Hx & Ho)]); [done|].
  intros [= <- <- <-]. exists x. eexists. split_and!; [exact Hs|done..].
Qed.

End Connections.

(** ** Main theorems *)

Section Main.
Context `{AdbcCore} `{RustFmt} `{Base64} `{VgiRpc} `{!Json WireAdbcError} `{UrlCrate} `{!IrohCrate} `{!Dialer}.
Context (c_char_signed : bool).

(** A TLS connection authenticates both sides: it is made only when the
    options name a CA, a certificate and a key file, trusting exactly the
    certificates of the CA file, of which there is at least one, presenting those
    of the certificate file with the key, and checking the configured server name
    or else the host; without one of the three options nothing is read or dialled. *)
Theorem tls_authenticates_both_sides host port timeout opts s :
  match tls_tcp_client c_char_signed host port timeout opts s with
  | (Ok client, s') =>
      ∃ ca cert key trusted own private_key roots config w1 w2 w3,
        tls_ca opts = Some ca ∧ tls_cert opts = Some cert ∧ tls_key opts = Some key
        ∧ pem_file_iter ca (ds_world s) = (Ok (Ok <$> trusted), w1) ∧ trusted ≠ []
        ∧ trusted_roots roots = trusted
        ∧ pem_file_iter cert w1 = (Ok (Ok <$> own), w2) ∧ own ≠ []
        ∧ pem_private_key key w2 = (Ok private_key, w3)
        ∧ with_client_auth_cert roots own private_key = Ok config
        ∧ tls_tcp_connect host port (default host (tls_server_name opts)) config timeout (Some timeout) w3
          = (Ok client, ds_world s')
        ∧ ds_pool s' = ds_pool s ∧ ds_process s' = ds_process s
  | (Err e, s') =>
      tls_ca opts = None ∨ tls_cert opts = None ∨ tls_key opts = None →
      s' = s ∧ status e = InvalidArguments
  end.
Proof.
  destruct (tls_tcp_client c_char_signed host port timeout opts s) as [[client|e] s'] eqn:Hc.
  - unfold tls_tcp_client in Hc. apply bind_Ok in Hc as ([[[ca cert] key] name] & s1 & [Hp ->]%mlift_Ok & Hc).
    apply tls_parameters_Ok in Hp as (Hca & Hcert & Hkey & ->).
    apply bind_Ok in Hc as (trusted & s2 & (Hr & Hne & Hp2 & Hq2)%read_certificates_Ok & Hc).
    apply bind_Ok in Hc as (roots & s3 & [Hroots%add_roots_trusted ->]%mlift_Ok & Hc).
    rewrite roots_empty_trusted in Hroots.
    apply bind_Ok in Hc as (own & s4 & (Hown & Hne' & Hp4 & Hq4)%read_certificates_Ok & Hc).
    apply bind_Ok in Hc as (pk & s5 & (Hpk & Hp5 & Hq5)%on_network_Ok & Hc).
    apply bind_Ok in Hc as (u & s6 & [_ ->]%mlift_Ok & Hc).
    apply bind_Ok in Hc as (config & s7 & [Hconfig%map_err_Ok ->]%mlift_Ok & Hc).
    apply on_network_Ok in Hc as (Hc & Hp8 & Hq8).
    exists ca, cert, key, trusted, own, pk, roots, config, (ds_world s2), (ds_world s4), (ds_world s5).
    split_and!; try done; congruence.
  - unfold tls_tcp_client, mbind, M_bind, mlift, tls_parameters in Hc. intros Hnone.
    destruct (tls_ca opts); [simpl in Hc|injection Hc as <- <-; split; [done|apply with_message_and_status_status]].
    destruct (tls_cert opts); [simpl in Hc|injection Hc as <- <-; split; [done|apply with_message_and_status_status]].
    destruct (tls_key opts); [simpl in Hc|injection Hc as <- <-; split; [done|apply with_message_and_status_status]].
    naive_solver.
Qed.

(** C33: [connect] makes the connection the endpoint names: after resolving
    aliases an http or https endpoint gets an HTTP transport with the caller's
    token and limits; tcp and tls+tcp dial the host and port of the endpoint, the
    latter as [tls_tcp_client] does; iroh takes a stream of the shared pool and
    holds a lease on a connection that is open; a token is never taken along on a
    byte stream, and an endpoint or token that is refused touches nothing. *)
Theorem connect_follows_endpoint endpoint token timeout max opts s
    (c : PoolConfig PoolKey ConnectionResource RpcClient) :
  rtc pool_step initial_config c → at_rest (c_callers c) → c_pool c = ds_pool s →
  let e := normalize_endpoint endpoint in
  match transport_connect c_char_signed endpoint token timeout max opts s with
  | (Ok (DialledHttp t), s') =>
      (starts_with "http://" e = true ∨ starts_with "https://" e = true)
      ∧ (∃ http, t = mkHttpTransport e token http timeout max) ∧ ds_pool s' = ds_pool s
  | (Ok (DialledByte t), s') =>
      token = None ∧ bt_connector t = mkByteConnector e timeout opts
      ∧ ∃ client, bt_client t = Mutex_new client
        ∧ (tcp_connection e timeout s client (bt_iroh_lease t) s'
           ∨ tls_connection c_char_signed e timeout opts s client (bt_iroh_lease t) s'
           ∨ iroh_connection e timeout opts c s client (bt_iroh_lease t) s')
  | (Err error, s') =>
      ∀ refused, choose_transport endpoint token = Err refused → error = refused ∧ s' = s
  end.
Proof.
  intros Hr Hrest Hp. cbv zeta.
  destruct (transport_connect c_char_signed endpoint token timeout max opts s) as [[t|error] s'] eqn:Hc.
  - unfold transport_connect in Hc. apply bind_Ok in Hc as (choice & s1 & [Hch ->]%mlift_Ok & Hc).
    pose proof (proj1 (transport_choice_decides endpoint token)) as Hd. rewrite Hch in Hd.
    destruct choice as [e t'|e|e|e]; destruct Hd as (-> & Ht & Hs).
    1: apply bind_Ok in Hc as (http & s2 & (_ & Hpool & _)%on_network_Ok & Hc).
    1: injection Hc as <- <-; rewrite Ht; eauto.
    all: apply bind_Ok in Hc as ([client lease] & s2 & Hb%byte_connect_cases & Hc); injection Hc as <- <-.
    all: cbn [bt_connector bt_client bt_iroh_lease]; split_and!; [done..|]; exists client.
    all: split; [done|]; destruct Hb as [Hb|[Hb|(Hi & config & raw & l & Hcfg & Ho & -> & ->)]]; auto.
    all: destruct (open_pooled_Ok config c s raw l _ Hr Hrest Hp Ho) as (x & c' & Hok).
    all: right; right; split; [done|]; exists config, l, raw, x, c'; tauto.
  - intros refused Href. unfold transport_connect, mbind, M_bind, mlift in Hc. rewrite Href in Hc.
    by injection Hc as <- <-.
Qed.
End Main.

(** ** Examples *)

Section Example.
#[local] Existing Instance simple_core.
#[local] Existing Instance simple_fmt.
#[local] Existing Instance ref_base64.
#[local] Existing Instance ref_rpc.
#[local] Existing Instance ref_json_error.
#[local] Existing Instance counting_iroh.
#[local] Instance no_urls : UrlCrate := λ _, None.

(** A network that logs what is dialled. *)
#[local] Program Instance log_dialer : Dialer := {|
  DialWorld := list string;
  tcp_connect_with_timeout host _ _ w := (Ok 1%nat, w ++ ["tcp " +:+ host]);
  dial_files := string_files;
  ClientTls := list string * list string * string;
  safe_default_versions := Ok tt;
  with_client_auth_cert roots own key := Ok (roots, own, key);
  tls_tcp_connect host _ name _ _ _ w := (Ok 2%nat, w ++ ["tls " +:+ name]);
  rpc_protocol _ c := c;
  rpc_protocol_version _ c := c;
  parse_target _ := Ok 3%nat;
  secret_key_from_str s := Ok (String.length s);
  parse_socket_addr _ := Err "no address";
  ReqwestClient := unit;
  reqwest_build _ w := (Ok tt, w);
  HttpBuilder := unit;
  HttpClient := unit;
  http_connect _ := tt;
  http_protocol _ b := b;
  http_protocol_version _ b := b;
  http_timeout _ b := b;
  http_accepted_max_response_bytes _ b := b;
  http_with_client _ b := b;
  http_header _ _ b := Ok b;
  http_build _ w := (Ok tt, w)
|}.

Definition example_options : TransportOptions :=
  mkTransportOptions (Some "ca.pem") None (Some "key.pem") None (Some "  secret ") None.
Definition start : DialState := mkDialState PoolState_default (mkProcessState None None 0%nat) (@nil string).

Example trim_both_sides :
  trim (from_bytes [Byte.x20; Byte.xe2; Byte.x80; Byte.xa8; Byte.x61; Byte.x20; Byte.x62; Byte.xc2; Byte.xa0])
  = "a b".
Proof. reflexivity. Qed.

(** With a pool nobody uses yet, an Iroh endpoint gets the first connection. *)
Lemma connect_follows_endpoint_witness :
  match transport_connect true "grainlift+iroh://peer" None 30 65536 example_options start with
  | (Ok (DialledByte t), s') =>
      bt_iroh_lease t = Some 0%nat ∧ bc_endpoint (bt_connector t) = "iroh://peer"
      ∧ snd <$> p_resources (ds_pool s') !! 1%nat = Some (mkConnectionResource 6%nat 1%nat)
  | _ => False
  end.
Proof.
  assert (at_rest (c_callers (initial_config : PoolConfig PoolKey ConnectionResource RpcClient))) as Hrest.
  { intros key t Hin. by apply elem_of_nil in Hin. }
  pose proof (connect_follows_endpoint true "grainlift+iroh://peer" None 30 65536 example_options start
    initial_config (rtc_refl _ _) Hrest eq_refl) as Hc.
  destruct (transport_connect true "grainlift+iroh://peer" None 30 65536 example_options start)
    as [[[t|t]|e] s'] eqn:E; pose proof (f_equal fst E) as Et; vm_compute in Et; try discriminate Et.
  destruct Hc as (_ & Hconn & _). rewrite Hconn. injection Et as <-.
  split; [reflexivity|split; [reflexivity|]].
  exact (f_equal (λ r, snd <$> p_resources (ds_pool r.2) !! 1%nat) (eq_sym E)).
Defined.
End Example.
