(* ===== verification/Startup.v ===== *)
(** * The server process (grainlift-server/src/main.rs)

    How the binary puts the parts together: the session manager it builds from
    the configuration, the identities its listeners give to callers, the start of
    the listeners, the reaper and the shutdown.  Listeners, sockets and TLS are
    other crates' code and the operating system's: a listener is a task that runs,
    has ended or was aborted, and what it and the environment answer are arguments
    of the definitions. *)

From S2P Require Import Prelude Tls Adbc WireError Options Arrow Framing Envelope Partitions.
From S2P Require Import Config Backend ResultCursor BindUpload Session SessionSteps Manager ManagerSteps.
From S2P Require Import Rpc Service ServiceSteps Streaming ServiceTheorems.
From S2P Require Import Reference ReferenceIpc ReferenceBackend ReferenceRpc ReferenceService.

(** ** The session manager *)

Definition from_secs (seconds : Z) : Z := seconds * 1000000000.

(** [SessionManager::with_limits_authorizer_and_timeout] with a drawn signing key. *)
Definition with_limits_authorizer_and_timeout (key : bytes) (targets : gmap string TargetConfig)
    (ttl : Z) (require_authentication : bool) (limits : SessionLimits)
    (authorizer : TargetAuthorizer) (operation_timeout : Z) : Manager :=
  mkManager targets ttl require_authentication limits authorizer operation_timeout
    (PartitionSigner_new key ttl).

Definition with_limits_and_authorizer (key : bytes) (targets : gmap string TargetConfig) (ttl : Z)
    (require_authentication : bool) (limits : SessionLimits) (authorizer : TargetAuthorizer) : Manager :=
  with_limits_authorizer_and_timeout key targets ttl require_authentication limits authorizer
    (from_secs 300).

Definition SessionManager_new (key : bytes) (targets : gmap string TargetConfig) (ttl : Z)
    (require_authentication : bool) : Manager :=
  with_limits_and_authorizer key targets ttl require_authentication SessionLimits_default
    TargetAuthorizer_default.

(** The manager of [main]. *)
Definition build_manager (key : bytes) (config : Config) : Manager :=
  with_limits_authorizer_and_timeout key (targets config)
    (from_secs (session_ttl_seconds (server config))) (require_authentication (server config))
    (session_limits (server config)) (target_authorizer config)
    (from_secs (driver_operation_timeout_seconds (server config))).

(** ** Identities *)

(** What the listeners use of the framework's authentication.  Documented:
    [for_principal] is an authenticated context of that domain and name, and a
    static bearer authenticator answers a token of its table with its context. *)
Class PeerAuth `{VgiRpc} : Type := {
  Evidence : Type;
  PeerIdentity : Type;
  unique_verified_subject : Evidence → string → result RpcError PeerIdentity;
  subject_key : PeerIdentity → option string;
  permission_error : string → RpcError;
  for_principal : string → string → AuthContext;
  insert_claim : string → string → AuthContext → AuthContext;
  JwtConfig : Type;
  JwtConfig_new : string → string → string → string → Z → Z → JwtConfig;
  Authenticate : Type;
  jwt_authenticate : JwtConfig → Authenticate;
  bearer_authenticate_static : gmap string AuthContext → Authenticate;
  authenticate : Authenticate → option string → result RpcError AuthContext;
  for_principal_fields : ∀ d p, for_principal d p = mkAuthContext d true p;
  insert_claim_fields : ∀ k v a, insert_claim k v a = a;
  bearer_token_known : ∀ tokens token a, tokens !! token = Some a →
    authenticate (bearer_authenticate_static tokens) (Some token) = Ok a
}.

Section Identities.
Context `{VgiRpc} `{!PeerAuth}.

Definition iroh_policy (principals : gmap string string) (require_authentication : bool)
    (evidence : Evidence) (existing : AuthContext) : result RpcError AuthContext :=
  identity ← unique_verified_subject evidence "iroh";
  endpoint ← ok_or (subject_key identity) (permission_error "Iroh endpoint identity is missing");
  match principals !! endpoint with
  | Some principal => Ok (insert_claim "subject" endpoint (for_principal "iroh" principal))
  | None =>
      if require_authentication || negb (bool_decide (principals = ∅))
      then Err (permission_error "Iroh endpoint is not authorized")
      else Ok existing
  end.

Definition build_authenticator (config : AuthConfig) : Authenticate :=
  match jwt config with
  | Some jwt =>
      jwt_authenticate (JwtConfig_new (jwt_issuer jwt) (audience jwt) (jwks_url jwt)
        (principal_claim jwt) (from_secs (refresh_interval_seconds jwt))
        (from_secs (leeway_seconds jwt)))
  | None => bearer_authenticate_static (for_principal "bearer" <$> static_bearer_tokens config)
  end.
End Identities.

(** ** Tasks *)

Inductive Task : Type := TaskRunning | TaskEnded | TaskAborted.

(** What awaiting a join handle gives: the task's own result, or a join error. *)
Definition Joined : Type := result string (result string unit).

Definition flatten (j : Joined) : result string unit :=
  match j with Ok r => r | Err e => Err e end.

(** [start_tcp_listener], from whether it reported its address and how it ended
    when it did not. *)
Definition start_tcp_listener (bound : option string) (joined : Joined) : result string Task :=
  match bound with
  | Some _ => Ok TaskRunning
  | None =>
      match joined with
      | Ok (Err error) => Err error
      | Ok (Ok _) => Err "TCP listener exited before binding"
      | Err error => Err error
      end
  end.

(** ** Mutual TLS *)

(** The framework's mutual TLS configuration of a listener. *)
Class MutualTls (W : Type) `{!TlsFiles W} : Type := {
  TcpMutualTlsConfig : Type;
  mutual_tls_new : list Certificate → PrivateKey → RootCertStore → list string →
    result string TcpMutualTlsConfig;
  with_handshake_timeout : Z → TcpMutualTlsConfig → result string TcpMutualTlsConfig
}.

Section ServerTls.
Context `{RustFmt} {W : Type} `{!TlsFiles W} `{!MutualTls W}.

Definition read_certificates (path : string) : M W string (list Certificate) :=
  read_certificate_file id id ("certificate file " +:+ debug_str path +:+ " contains no certificates") path.

Definition read_private_key (path : string) : M W string PrivateKey := pem_private_key path.

Definition build_tcp_tls (config : TcpTlsConfig) : M W string TcpMutualTlsConfig :=
  certificates ← read_certificates (server_certificate_chain config);
  private_key ← read_private_key (server_private_key config);
  ca ← read_certificates (client_ca config);
  client_roots ← mlift (add_roots id roots_empty ca);
  tls ← mlift (mutual_tls_new certificates private_key client_roots (trust_domains config));
  mlift (with_handshake_timeout (from_secs (handshake_timeout_seconds config)) tls).

(** The service of a TCP listener: with TLS the SPIFFE identity of the client. *)
Inductive TcpService : Type := ServeMtls (policy : string) (tls : TcpMutualTlsConfig) | ServePlain.

Definition tcp_service (config : TcpConfig) : M W string TcpService :=
  match tls config with
  | Some tls => tls ← build_tcp_tls tls; mret (ServeMtls "spiffe" tls)
  | None => mret ServePlain
  end.

(** A listener with mutual TLS presents the configured certificates and accepts
    clients of exactly the configured authorities, of which there is at least one. *)
Theorem mutual_tls_as_configured config w t w' :
  build_tcp_tls config w = (Ok t, w') →
  ∃ own private_key clients roots t0 w1 w2,
    pem_file_iter (server_certificate_chain config) w = (Ok (Ok <$> own), w1) ∧ own ≠ []
    ∧ pem_private_key (server_private_key config) w1 = (Ok private_key, w2)
    ∧ pem_file_iter (client_ca config) w2 = (Ok (Ok <$> clients), w') ∧ clients ≠ []
    ∧ trusted_roots roots = clients
    ∧ mutual_tls_new own private_key roots (trust_domains config) = Ok t0
    ∧ with_handshake_timeout (from_secs (handshake_timeout_seconds config)) t0 = Ok t.
Proof.
  unfold build_tcp_tls. intros (own & w1 & [Hown Hne]%read_certificate_file_Ok & Hr)%bind_Ok.
  apply bind_Ok in Hr as (key & w2 & Hkey & Hr).
  apply bind_Ok in Hr as (clients & w3 & [Hcl Hne']%read_certificate_file_Ok & Hr).
  apply bind_Ok in Hr as (roots & w4 & [Hroots%add_roots_trusted ->]%mlift_Ok & Hr).
  rewrite roots_empty_trusted in Hroots.
  apply bind_Ok in Hr as (t0 & w5 & [Ht0 ->]%mlift_Ok & Hr). apply mlift_Ok in Hr as [Ht ->].
  by exists own, key, clients, roots, t0, w1, w2.
Qed.
End ServerTls.

(** ** The Iroh listener *)

Class IrohListen (W : Type) `{!TextFiles W} : Type := {
  write_file : string → bytes → M W string unit;
  IrohSecretKey : Type;
  iroh_secret_from_str : string → result string IrohSecretKey;
  EndpointBuilder : Type;
  endpoint_builder : EndpointBuilder;
  builder_secret_key : IrohSecretKey → EndpointBuilder → EndpointBuilder;
  builder_alpns : list bytes → EndpointBuilder → EndpointBuilder;
  builder_disable_relays : EndpointBuilder → EndpointBuilder;
  VGI_IROH_ALPN : bytes;
  IrohEndpoint : Type;
  builder_bind : EndpointBuilder → M W string IrohEndpoint;
  endpoint_id : IrohEndpoint → string;
  endpoint_ip_addrs : IrohEndpoint → list string;
  endpoint_info_json : string → list string → result string bytes
}.

Section IrohListener.
Context {W : Type} `{!TextFiles W} `{!IrohListen W} `{VgiRpc} `{!PeerAuth}.

(** The server that is spawned on the endpoint. *)
Record IrohServer : Type := mkIrohServer {
  is_endpoint : IrohEndpoint;
  is_issuer : string;
  is_policy : Evidence → AuthContext → result RpcError AuthContext;
  is_max_active_streams : Z;
  is_max_active_streams_per_connection : Z
}.

Definition start_iroh_listener (config : IrohConfig) (require_authentication : bool)
  : M W string IrohServer :=
  secret ← read_to_string (secret_key_file config);
  secret ← mlift (iroh_secret_from_str (trim secret));
  let builder := builder_alpns [VGI_IROH_ALPN] (builder_secret_key secret endpoint_builder) in
  let builder := if disable_relays config then builder_disable_relays builder else builder in
  endpoint ← builder_bind builder;
  match endpoint_info_file config with
  | Some path =>
      record ← mlift (endpoint_info_json (endpoint_id endpoint) (endpoint_ip_addrs endpoint));
      write_file path record
  | None => mret tt
  end;;
  mret (mkIrohServer endpoint (iroh_issuer config) (iroh_policy (principals config) require_authentication)
          (max_active_streams config) (max_active_streams_per_connection config)).
End IrohListener.

(** The environment as [otlp_enabled] reads it. *)
Definition otlp_enabled (var : string → option string) (equals_ignoring_case : string → string → bool)
  : bool :=
  let disabled := match var "OTEL_SDK_DISABLED" with
                  | Some value => equals_ignoring_case value "true"
                  | None => false
                  end in
  negb disabled
  && (bool_decide (is_Some (var "OTEL_EXPORTER_OTLP_ENDPOINT"))
      || bool_decide (is_Some (var "OTEL_EXPORTER_OTLP_TRACES_ENDPOINT"))).

Definition NO_CONTENT : Z := 204.
Definition liveness : Z := NO_CONTENT.
Definition readiness : Z := NO_CONTENT.

(** ** The process *)

Section Process.
Context `{AdbcCore} `{RustFmt} `{ArrowCrate} `{!IpcCrate} `{FileSystem} `{AdbcOptions} `{!Backend}.

Record Process : Type := mkProcess {
  pr_shutdown : bool;
  pr_tcp_shutdown : bool;
  pr_http : Task;
  pr_tcp : option Task;
  pr_iroh : option Task;
  pr_reaper : Task;
  pr_manager : MState
}.

(** What the environment answers while the listeners start. *)
Record StartEvents : Type := mkStartEvents {
  se_http_bind : result string unit;
  se_tcp_bound : option string;
  se_tcp_joined : Joined;
  se_iroh_started : result string unit
}.

(** [main] from the bound HTTP listener to the spawned reaper.  When Iroh cannot
    start, the TCP listener that already runs is told to stop and awaited. *)
Definition start_listeners (config : Config) (ev : StartEvents) (m : MState)
  : result string Process * Process :=
  let p tcp_shutdown http tcp iroh reaper := mkProcess false tcp_shutdown http tcp iroh reaper m in
  match se_http_bind ev with
  | Err e => (Err e, p false TaskEnded None None TaskEnded)
  | Ok _ =>
      match (match tcp config with
             | Some _ => Some <$> start_tcp_listener (se_tcp_bound ev) (se_tcp_joined ev)
             | None => Ok None
             end) with
      | Err e => (Err e, p false TaskEnded None None TaskEnded)
      | Ok tcp =>
          match iroh config with
          | None => let q := p false TaskRunning tcp None TaskRunning in (Ok q, q)
          | Some _ =>
              match se_iroh_started ev with
              | Ok _ => let q := p false TaskRunning tcp (Some TaskRunning) TaskRunning in (Ok q, q)
              | Err error =>
                  let stopped := p true TaskEnded ((λ _, TaskEnded) <$> tcp) None TaskEnded in
                  match tcp with
                  | Some _ =>
                      match flatten (se_tcp_joined ev) with
                      | Err e => (Err e, stopped)
                      | Ok _ => (Err error, stopped)
                      end
                  | None => (Err error, stopped)
                  end
              end
          end
      end
  end.

(** One tick of the reaper: it goes on as long as the manager is there. *)
Definition reaper_tick (mg : Manager) (manager_alive : bool) (s : MState) : bool * MState :=
  if manager_alive then (true, (reap_expired mg s).2) else (false, s).

(** Which branch of [tokio::select!] was taken. *)
Inductive Event : Type :=
| ShutdownSignal
| HttpExited (j : Joined)
| TcpExited (j : Joined)
| IrohExited (j : Joined).

Definition exit_error (listener : string) (j : Joined) : string :=
  match j with
  | Ok (Ok _) => listener +:+ " listener exited unexpectedly"
  | Ok (Err error) => error
  | Err error => error
  end.

Definition service_error (ev : Event) : option string :=
  match ev with
  | ShutdownSignal => None
  | HttpExited j => Some (exit_error "HTTP" j)
  | TcpExited j => Some (exit_error "TCP" j)
  | IrohExited j => Some (exit_error "Iroh" j)
  end.

(** The guards of the branches. *)
Definition event_enabled (p : Process) (ev : Event) : bool :=
  match ev with
  | ShutdownSignal | HttpExited _ => true
  | TcpExited _ => bool_decide (is_Some (pr_tcp p))
  | IrohExited _ => bool_decide (is_Some (pr_iroh p))
  end.

Definition set_http (t : Task) (p : Process) : Process :=
  mkProcess (pr_shutdown p) (pr_tcp_shutdown p) t (pr_tcp p) (pr_iroh p) (pr_reaper p) (pr_manager p).
Definition set_tcp (t : Task) (p : Process) : Process :=
  mkProcess (pr_shutdown p) (pr_tcp_shutdown p) (pr_http p) ((λ _, t) <$> pr_tcp p) (pr_iroh p)
    (pr_reaper p) (pr_manager p).
Definition set_iroh (t : Task) (p : Process) : Process :=
  mkProcess (pr_shutdown p) (pr_tcp_shutdown p) (pr_http p) (pr_tcp p) ((λ _, t) <$> pr_iroh p)
    (pr_reaper p) (pr_manager p).
Definition abort_reaper (p : Process) : Process :=
  mkProcess (pr_shutdown p) (pr_tcp_shutdown p) (pr_http p) (pr_tcp p) (pr_iroh p) TaskAborted
    (pr_manager p).
Definition request_shutdown (p : Process) : Process :=
  mkProcess true true (pr_http p) (pr_tcp p) (pr_iroh p) (pr_reaper p) (pr_manager p).
Definition set_manager (m : MState) (p : Process) : Process :=
  mkProcess (pr_shutdown p) (pr_tcp_shutdown p) (pr_http p) (pr_tcp p) (pr_iroh p) (pr_reaper p) m.

(** The task of the branch has ended. *)
Definition after_event (ev : Event) (p : Process) : Process :=
  match ev with
  | ShutdownSignal => p
  | HttpExited _ => set_http TaskEnded p
  | TcpExited _ => set_tcp TaskEnded p
  | IrohExited _ => set_iroh TaskEnded p
  end.

Definition still_running (t : option Task) : bool :=
  match t with Some TaskRunning => true | _ => false end.

(** How the listeners end when they are awaited. *)
Record Drained : Type := mkDrained { dr_http : Joined; dr_tcp : Joined; dr_iroh : Joined }.

(** The [drain] future: each listener that has not finished, one after the other. *)
Definition drain (d : Drained) : M Process string unit := λ p,
  let step (running : Process → bool) (set : Task → Process → Process) (j : Joined)
    : M Process string unit :=
    λ p, if running p then (flatten j, set TaskEnded p) else (Ok tt, p) in
  (step (λ p, still_running (Some (pr_http p))) set_http (dr_http d);;
   step (λ p, still_running (pr_tcp p)) set_tcp (dr_tcp d);;
   step (λ p, still_running (pr_iroh p)) set_iroh (dr_iroh d)) p.

(** [JoinHandle::abort]: a task that was spawned on the runtime stops at its next
    await; a blocking task that has started is not affected. *)
Definition abort_task (t : Task) : Task := match t with TaskRunning => TaskAborted | _ => t end.
Definition abort_blocking (t : Task) : Task := t.

(** HTTP and Iroh are tasks of the runtime, TCP is a blocking one. *)
Definition abort_listeners (p : Process) : Process :=
  mkProcess (pr_shutdown p) (pr_tcp_shutdown p) (abort_task (pr_http p)) (abort_blocking <$> pr_tcp p)
    (abort_task <$> pr_iroh p) (pr_reaper p) (pr_manager p).

(** The drain either completes or runs out of the grace period, by when some of
    the listeners have ended. *)
Inductive DrainOutcome : Type :=
| DrainDone (d : Drained)
| DrainExpired (http_ended tcp_ended iroh_ended : bool).

Definition drain_within (grace : DrainOutcome) : M Process string unit := λ p,
  match grace with
  | DrainDone d => drain d p
  | DrainExpired http_ended tcp_ended iroh_ended =>
      let p := if http_ended then set_http TaskEnded p else p in
      let p := if tcp_ended then set_tcp TaskEnded p else p in
      let p := if iroh_ended then set_iroh TaskEnded p else p in
      (Ok tt, abort_listeners p)
  end.

(** [main] from the taken branch to its return: [provider] is what the shutdown
    of the telemetry provider answers. *)
Definition shut_down (ev : Event) (grace : DrainOutcome) (provider : result string unit)
  : M Process string unit := λ p,
  let p := request_shutdown (after_event ev p) in
  match close_all (pr_manager p) with
  | (Err e, m) => (Err (message e), set_manager m p)
  | (Ok _, m) =>
      let p := set_manager m p in
      match drain_within grace p with
      | (Err e, p) => (Err e, p)
      | (Ok _, p) =>
          let p := abort_reaper p in
          match provider with
          | Err e => (Err e, p)
          | Ok _ => (match service_error ev with None => Ok tt | Some e => Err e end, p)
          end
      end
  end.

(** What [#[tokio::main]] does when [main] has returned: the runtime is dropped,
    which stops its tasks and waits for blocking ones; [tcp_returns] says whether
    the TCP listener ever does.  [None]: the process does not exit. *)
Definition drop_runtime (tcp_returns : bool) (p : Process) : option Process :=
  let p := mkProcess (pr_shutdown p) (pr_tcp_shutdown p) (abort_task (pr_http p)) (pr_tcp p)
             (abort_task <$> pr_iroh p) (abort_task (pr_reaper p)) (pr_manager p) in
  if still_running (pr_tcp p) then if tcp_returns then Some (set_tcp TaskEnded p) else None else Some p.
End Process.

(** ** What start and shutdown leave behind *)

Section Lifecycle.
Context `{AdbcCore} `{RustFmt} `{ArrowCrate} `{!IpcCrate} `{FileSystem} `{AdbcOptions} `{!Backend}.
Implicit Types (p : Process).

Definition listeners p : list Task := pr_http p :: option_list (pr_tcp p) ++ option_list (pr_iroh p).
Definition quiet p : Prop := TaskRunning ∉ listeners p.

Lemma quiet_iff p :
  quiet p ↔ pr_http p ≠ TaskRunning ∧ pr_tcp p ≠ Some TaskRunning ∧ pr_iroh p ≠ Some TaskRunning.
Proof.
  unfold quiet, listeners. rewrite not_elem_of_cons, not_elem_of_app.
  destruct (pr_tcp p), (pr_iroh p); simpl; rewrite ?not_elem_of_cons; naive_solver (set_solver).
Qed.

(** The first of the listeners still running whose end is an error. *)
Definition first_failure p (d : Drained) : option string :=
  let failure (running : bool) (j : Joined) :=
    if running then match flatten j with Err e => Some e | Ok _ => None end else None in
  match failure (still_running (Some (pr_http p))) (dr_http d), failure (still_running (pr_tcp p)) (dr_tcp d) with
  | Some e, _ | None, Some e => Some e
  | None, None => failure (still_running (pr_iroh p)) (dr_iroh d)
  end.

Definition drain_failure (grace : DrainOutcome) p : option string :=
  match grace with DrainDone d => first_failure p d | DrainExpired _ _ _ => None end.

(** What is left when the drain is over: at most the TCP listener, and that only
    when the grace period was not long enough for it. *)
Definition drained (grace : DrainOutcome) p p' : Prop :=
  pr_http p' ≠ TaskRunning ∧ pr_iroh p' ≠ Some TaskRunning
  ∧ (pr_tcp p' = Some TaskRunning ↔
       pr_tcp p = Some TaskRunning ∧ ∃ http_ended iroh_ended, grace = DrainExpired http_ended false iroh_ended).

Lemma drain_spec d p :
  let '(r, p') := drain d p in
  pr_shutdown p' = pr_shutdown p ∧ pr_tcp_shutdown p' = pr_tcp_shutdown p ∧ pr_manager p' = pr_manager p
  ∧ (pr_tcp p = None → pr_tcp p' = None)
  ∧ r = match first_failure p d with Some e => Err e | None => Ok tt end
  ∧ (first_failure p d = None → drained (DrainDone d) p p').
Proof.
  unfold drain, first_failure, drained, mbind, M_bind.
  destruct p as [sd tsd http tcp iroh reaper m], d as [h t i]. simpl.
  generalize (flatten h) (flatten t) (flatten i). intros [[]|] [[]|] [[]|];
    destruct http, tcp as [[]|], iroh as [[]|]; simpl; (split_and!; try done; intros _; split_and!; try done);
    (split; [done|]; intros [_ (? & ? & [=])]).
Qed.

Lemma drain_within_spec grace p :
  let '(r, p') := drain_within grace p in
  pr_shutdown p' = pr_shutdown p ∧ pr_tcp_shutdown p' = pr_tcp_shutdown p ∧ pr_manager p' = pr_manager p
  ∧ (pr_tcp p = None → pr_tcp p' = None)
  ∧ r = match drain_failure grace p with Some e => Err e | None => Ok tt end
  ∧ (drain_failure grace p = None → drained grace p p').
Proof.
  destruct grace as [d|h t i]; [apply drain_spec|]. unfold drained.
  destruct p as [sd tsd http tcp iroh reaper m]; destruct h, t, i, http, tcp as [[]|], iroh as [[]|]; simpl;
    (split_and!; try done; intros _; split_and!; try done); (split; [by eauto|]; intros [? (? & ? & [=])]; done).
Qed.

Lemma drop_runtime_spec tcp_returns p :
  match drop_runtime tcp_returns p with
  | Some q => quiet q ∧ pr_reaper q ≠ TaskRunning ∧ pr_manager q = pr_manager p
  | None => pr_tcp p = Some TaskRunning ∧ tcp_returns = false
  end.
Proof.
  unfold drop_runtime. destruct p as [sd tsd http tcp iroh reaper m], tcp_returns; simpl;
    destruct tcp as [[]|]; simpl; try done; rewrite quiet_iff; simpl; destruct http, iroh as [[]|], reaper; done.
Qed.

Lemma close_all_healthy s :
  healthy s →
  ∃ n s', close_all s = (Ok n, s') ∧ m_closing s' = true ∧ sessions (registry s') = ∅.
Proof.
  intros Hs. unfold close_all, detach_all, lock_registry, lock, mbind, M_bind, mmodify, mprim. simpl.
  unfold healthy in Hs. rewrite Hs. eexists _, _. split; [done|].
  unfold registry. rewrite !(proj1 (drop_arcs_registry _ _)), !(proj2 (drop_arcs_registry _ _)). done.
Qed.

Lemma after_event_fields ev p :
  pr_shutdown (after_event ev p) = pr_shutdown p ∧ pr_manager (after_event ev p) = pr_manager p.
Proof. by destruct ev. Qed.

Lemma shut_down_spec ev grace provider p :
  healthy (pr_manager p) →
  let '(r, p') := shut_down ev grace provider p in
  let failure := drain_failure grace (after_event ev p) in
  pr_shutdown p' = true ∧ pr_tcp_shutdown p' = true
  ∧ m_closing (pr_manager p') = true ∧ sessions (registry (pr_manager p')) = ∅
  ∧ r = match failure, provider, service_error ev with
        | Some e, _, _ | None, Err e, _ | None, Ok _, Some e => Err e
        | None, Ok _, None => Ok tt
        end
  ∧ (failure = None → drained grace (after_event ev p) p' ∧ pr_reaper p' = TaskAborted)
  ∧ (pr_tcp p = None → pr_tcp p' = None).
Proof.
  intros Hs. unfold shut_down.
  destruct (after_event_fields ev p) as [_ Hm]. destruct (close_all_healthy (pr_manager p) Hs) as (n & m & Hc & Hcl & He).
  assert (close_all (pr_manager (request_shutdown (after_event ev p))) = (Ok n, m)) as -> by (simpl; by rewrite Hm).
  set (q := set_manager m (request_shutdown (after_event ev p))).
  assert (drain_failure grace (after_event ev p) = drain_failure grace q) as -> by (by destruct grace).
  assert (pr_tcp p = None → pr_tcp q = None) as Hnt by (intros Hnt; destruct ev; simpl; by rewrite Hnt).
  assert (∀ p1, drained grace q p1 → drained grace (after_event ev p) (abort_reaper p1)) as Hq by done.
  pose proof (drain_within_spec grace q) as Hd.
  destruct (drain_within grace q) as [r p1]. destruct Hd as (Hf1 & Hf2 & Hf3 & Ht & -> & Hd).
  destruct (drain_failure grace q) as [e|]; [rewrite Hf1, Hf2, Hf3; split_and!; try done; by auto|].
  destruct provider as [[]|e]; [destruct (service_error ev) as [e|]|]; simpl; rewrite Hf1, Hf2, Hf3; by auto 10.
Qed.
End Lifecycle.

(** ** Main theorems *)

Section Main.
Context `{AdbcCore} `{RustFmt} `{ArrowCrate} `{!IpcCrate} `{FileSystem} `{AdbcOptions} `{!Backend}.
Context `{VgiRpc} `{!PeerAuth}.

(** C27: shutdown, whatever triggered it: both listener flags are raised and
    every session is detached before anything is awaited.  A listener that ends
    with an error while it is drained makes that error the answer; otherwise HTTP
    and Iroh are down and the reaper is stopped, also when the grace period ran
    out, and the TCP listener, a blocking task that cannot be aborted, is left
    running exactly when the grace period ran out before it had ended.  Success is
    reported exactly for a signal, a clean drain and a telemetry provider that
    shuts down.  The process exits with nothing running, unless it waits for a TCP
    listener that never ends. *)
Theorem shutdown_drains_listeners ev grace provider p :
  healthy (pr_manager p) →
  let '(r, p') := shut_down ev grace provider p in
  let failure := drain_failure grace (after_event ev p) in
  pr_shutdown p' = true ∧ pr_tcp_shutdown p' = true
  ∧ m_closing (pr_manager p') = true ∧ sessions (registry (pr_manager p')) = ∅
  ∧ r = match failure, provider, service_error ev with
        | Some e, _, _ | None, Err e, _ | None, Ok _, Some e => Err e
        | None, Ok _, None => Ok tt
        end
  ∧ (r = Ok tt ↔ ev = ShutdownSignal ∧ failure = None ∧ provider = Ok tt)
  ∧ (failure = None →
       pr_http p' ≠ TaskRunning ∧ pr_iroh p' ≠ Some TaskRunning ∧ pr_reaper p' = TaskAborted
       ∧ (pr_tcp p' = Some TaskRunning ↔ pr_tcp (after_event ev p) = Some TaskRunning
            ∧ ∃ http_ended iroh_ended, grace = DrainExpired http_ended false iroh_ended))
  ∧ ∀ tcp_returns, match drop_runtime tcp_returns p' with
      | Some q => quiet q ∧ pr_reaper q ≠ TaskRunning
      | None => pr_tcp p' = Some TaskRunning ∧ tcp_returns = false
      end.
Proof.
  intros Hs. pose proof (shut_down_spec ev grace provider p Hs) as Hd.
  destruct (shut_down ev grace provider p) as [r p']. destruct Hd as (Hsd & Htsd & Hcl & Hnone & Hr & Hd & _).
  split_and!; [done..| | |].
  - subst r. destruct (drain_failure grace (after_event ev p)), provider as [[]|], ev; simpl; naive_solver.
  - intros [(Hh & Hi & Ht) Ha]%Hd. by split_and!.
  - intros tcp_returns. pose proof (drop_runtime_spec tcp_returns p') as Hx.
    destruct (drop_runtime tcp_returns p'); naive_solver.
Qed.

(** A start that fails leaves nothing running: when a listener cannot bind,
    or Iroh cannot start after TCP has, the process returns an error and no
    listener nor the reaper runs, the TCP listener that had started having been
    told to stop and awaited; a start that succeeds runs HTTP and the reaper and
    exactly the configured listeners. *)
Theorem start_is_all_or_nothing config ev m :
  match start_listeners config ev m with
  | (Ok p, _) =>
      pr_http p = TaskRunning ∧ pr_reaper p = TaskRunning
      ∧ pr_shutdown p = false ∧ pr_tcp_shutdown p = false ∧ pr_manager p = m
      ∧ pr_tcp p = (λ _, TaskRunning) <$> tcp config ∧ pr_iroh p = (λ _, TaskRunning) <$> iroh config
  | (Err e, p) =>
      quiet p ∧ pr_reaper p ≠ TaskRunning
      ∧ (is_Some (pr_tcp p) → pr_tcp_shutdown p = true
           ∧ (flatten (se_tcp_joined ev) = Err e
              ∨ flatten (se_tcp_joined ev) = Ok tt ∧ se_iroh_started ev = Err e))
  end.
Proof.
  unfold start_listeners, start_tcp_listener.
  destruct (se_http_bind ev), (tcp config), (se_tcp_bound ev), (se_tcp_joined ev) as [[[]|]|], (iroh config),
    (se_iroh_started ev) as [[]|]; simpl; rewrite ?quiet_iff; simpl; split_and!; try done;
    intros [? ?]; naive_solver.
Qed.

(** The policy of the Iroh listener decides who a caller is: an endpoint
    whose identity was verified and that the configuration maps is the mapped
    principal of the domain iroh; an endpoint that is not mapped is let in only
    when the server requires no authentication and maps none, and then as the
    caller it already was; nobody else is let in. *)
Theorem iroh_policy_decides principals required evidence existing a :
  iroh_policy principals required evidence existing = Ok a ↔
  ∃ identity endpoint,
    unique_verified_subject evidence "iroh" = Ok identity ∧ subject_key identity = Some endpoint
    ∧ (match principals !! endpoint with
       | Some p => a = mkAuthContext "iroh" true p
       | None => required = false ∧ principals = ∅ ∧ a = existing
       end).
Proof.
  unfold iroh_policy. rewrite result_bind_Ok. setoid_rewrite result_bind_Ok. setoid_rewrite ok_or_Ok.
  split.
  - intros (i & Hi & endpoint & He & Ha). exists i, endpoint. split_and!; [done..|].
    destruct (principals !! endpoint) as [p|].
    + injection Ha as <-. by rewrite insert_claim_fields, for_principal_fields.
    + destruct required; [done|]. case_bool_decide; [by injection Ha as <-|done].
  - intros (i & endpoint & Hi & He & Ha). exists i. split; [done|]. exists endpoint. split; [done|]. revert Ha.
    destruct (principals !! endpoint) as [p|].
    + intros ->. by rewrite insert_claim_fields, for_principal_fields.
    + intros (-> & -> & ->). done.
Qed.

(** A caller with a static token is the principal the configuration gives the
    token, of the domain bearer, so its sessions are those of everybody with a
    token of the same principal and of nobody an Iroh endpoint identifies. *)
Theorem bearer_callers_are_named config token name :
  jwt config = None → static_bearer_tokens config !! token = Some name →
  ∃ a, authenticate (build_authenticator config) (Some token) = Ok a
    ∧ a = mkAuthContext "bearer" true name
    ∧ ∀ mg principals required evidence existing b p,
        iroh_policy principals required evidence existing = Ok b → b ≠ existing →
        principal mg a = Ok p → principal mg b ≠ Ok p.
Proof.
  intros Hj Ht. exists (mkAuthContext "bearer" true name). unfold build_authenticator. rewrite Hj.
  split_and!; [apply bearer_token_known; by rewrite lookup_fmap, Ht, <-for_principal_fields|done|].
  intros mg principals required evidence existing b p Hb Hne Ha Hp.
  assert (∃ n, b = mkAuthContext "iroh" true n) as [n ->].
  { unfold iroh_policy in Hb. apply result_bind_Ok in Hb as (i & _ & Hb).
    apply result_bind_Ok in Hb as (endpoint & _ & Hb). destruct (principals !! endpoint) as [n|].
    - exists n. injection Hb as <-. by rewrite insert_claim_fields, for_principal_fields.
    - destruct (required || _); [done|]. by injection Hb as <-. }
  apply principal_Ok in Ha as ->. apply principal_Ok in Hp. discriminate Hp.
Qed.

(** A validated configuration makes the server's bounds real: whatever its
    listeners do, in every state its session manager can reach there are at most
    as many sessions and opens in progress, in all and for each principal, as the
    configuration says, and leases and driver operations have a positive limit. *)
Theorem deployment_within_limits uuid display_socket signing_key config G :
  config_validate display_socket config = Ok tt →
  (0 ≤ sc_max_sessions (server config) ∧ 0 ≤ sc_max_sessions_per_principal (server config)
   ∧ 0 ≤ sc_max_statements_per_session (server config) ∧ 0 ≤ sc_max_results_per_session (server config)) →
  0 ≤ session_ttl_seconds (server config) → 0 ≤ driver_operation_timeout_seconds (server config) →
  reachable uuid (build_manager signing_key config) G →
  let r := registry (gs G) in
  Z.of_nat (size (sessions r)) + opening_total r ≤ sc_max_sessions (server config)
  ∧ (∀ p, active_for (gs G) r p + opening_for r p ≤ sc_max_sessions_per_principal (server config))
  ∧ sc_max_sessions_per_principal (server config) ≤ sc_max_sessions (server config)
  ∧ 0 < mg_ttl (build_manager signing_key config) ∧ 0 < mg_operation_timeout (build_manager signing_key config).
Proof.
  intros Hv Hl Httl Hop Hr.
  apply config_validate_parts in Hv as ((_ & Ht & _ & _ & Ho & _ & _ & _ & _ & (_ & _ & _ & _ & Hle) & _) & _).
  destruct (reachable_manager_inv uuid (build_manager signing_key config) G Hl Hr) as (_ & Hopens & [Hq1 Hq2] & _ & _).
  simpl in *. split_and!.
  - rewrite (proj1 Hopens). unfold registered, len in *. by rewrite length_fmap, length_map_to_list in Hq1.
  - intros p. rewrite (opens_total _ _ _ Hopens). apply Hq2.
  - done.
  - unfold from_secs. lia.
  - unfold from_secs. lia.
Qed.
End Main.

(** ** Examples *)

Section Example.
#[local] Existing Instance simple_core.
#[local] Existing Instance simple_fmt.
#[local] Existing Instance ref_arrow.
#[local] Existing Instance ref_ipc.
#[local] Existing Instance ref_files.
#[local] Existing Instance ref_options.
#[local] Existing Instance ref_backend.

(** Identities are strings, and so is the evidence of an Iroh peer. *)
#[local] Existing Instance ref_rpc.
#[local] Program Instance ref_peers : PeerAuth := {|
  Evidence := string;
  PeerIdentity := string;
  unique_verified_subject e _ := Ok e;
  subject_key i := Some i;
  permission_error m := rpc_new "PermissionError" m;
  for_principal d p := mkAuthContext d true p;
  insert_claim _ _ a := a;
  JwtConfig := unit;
  JwtConfig_new _ _ _ _ _ _ := tt;
  Authenticate := gmap string AuthContext;
  jwt_authenticate _ := ∅;
  bearer_authenticate_static tokens := tokens;
  authenticate tokens token :=
    ok_or (t ← token; tokens !! t) (rpc_new "PermissionError" "unknown bearer token")
|}.
Next Obligation. done. Qed.
Next Obligation. done. Qed.
Next Obligation. intros tokens token a Ha. simpl. by rewrite Ha. Qed.

(** The token of the example configuration names alice; a mapped endpoint is bob,
    any other is refused. *)
Example callers_identified :
  authenticate (build_authenticator (Config.auth example_config)) (Some "secret") = Ok (mkAuthContext "bearer" true "alice")
  ∧ iroh_policy {["peer" := "bob"]} false "peer" (mkAuthContext "" false "") = Ok (mkAuthContext "iroh" true "bob")
  ∧ is_ok (iroh_policy {["peer" := "bob"]} false "stranger" (mkAuthContext "" false "")) = false.
Proof. split_and!; reflexivity. Qed.

(** A server with a session that is told to stop, and whose listeners then
    exceed the grace period. *)
Definition example_process : Process :=
  mkProcess false false TaskRunning (Some TaskRunning) None TaskRunning opened_state.

Definition stopped_process : Process :=
  (shut_down ShutdownSignal (DrainExpired false false false) (Ok tt) example_process).2.

Lemma shutdown_drains_listeners_witness :
  pr_shutdown stopped_process = true ∧ pr_http stopped_process = TaskAborted
  ∧ pr_tcp stopped_process = Some TaskRunning
  ∧ sessions (registry (pr_manager example_process)) ≠ ∅
  ∧ sessions (registry (pr_manager stopped_process)) = ∅.
Proof.
  pose proof (shutdown_drains_listeners ShutdownSignal (DrainExpired false false false) (Ok tt)
    example_process eq_refl) as Hs.
  split_and!; [reflexivity|reflexivity|reflexivity|discriminate|]. unfold stopped_process.
  destruct (shut_down _ _ _ _) as [r p']. exact (proj1 (proj2 (proj2 (proj2 Hs)))).
Defined.

Definition example_server : Manager := build_manager (repeat Byte.x11 32) example_config.

Definition deployed_state : MState :=
  (open example_uuid example_server "alice" "orders" [] [] (gs (initial example_global))).2.

Lemma deployed_reachable : reachable example_uuid example_server (mkGState deployed_state [] [] false).
Proof. exists example_global. by apply (open_steps example_uuid example_server). Qed.

Lemma deployment_within_limits_witness :
  Z.of_nat (size (sessions (registry deployed_state))) = 1
  ∧ Z.of_nat (size (sessions (registry deployed_state))) + opening_total (registry deployed_state) ≤ 1024.
Proof.
  split; [vm_compute; reflexivity|].
  refine (proj1 (deployment_within_limits example_uuid (λ _, "127.0.0.1:8080") (repeat Byte.x11 32)
    example_config (mkGState deployed_state [] [] false) _ _ _ _ deployed_reachable)).
  - vm_compute. reflexivity.
  - split_and!; vm_compute; discriminate.
  - vm_compute; discriminate.
  - vm_compute; discriminate.
Defined.
End Example.
