(* ===== verification/ServerMain.v ===== *)
(** * The server's [main] (grainlift-server/src/main.rs)

    The process from the command line to its exit status: tracing, the loaded
    configuration, the manager, the RPC server and the HTTP state built from it,
    the listeners on the files and sockets they use, the requests it serves, and
    the shutdown.  What clap, tracing, axum and the operating system answer are
    the fields of [Host]. *)

From S2P Require Import Prelude Tls Adbc WireError Options Arrow Framing Envelope Partitions.
From S2P Require Import Config Backend ResultCursor BindUpload Session SessionSteps Manager ManagerSteps.
From S2P Require Import LeaseTable ManagerRefinement Rpc Service ServiceSteps Startup.
From S2P Require Import Reference ReferenceIpc ReferenceBackend ReferenceRpc ReferenceService.

(** ** Command line and tracing *)






(** ** Signals *)

(** Which future of [shutdown_signal] completed, with what its handler gave. *)
Inductive Signal : Type :=
| CtrlC (received : result string unit)
| Terminate (handler : result string (option unit)).

(** [shutdown_signal]: the lines it logs.  A handler that cannot be installed
    completes its future as a signal does. *)
Definition shutdown_signal (s : Signal) : list string :=
  match s with
  | CtrlC (Err _) => ["could not install Ctrl-C handler"]
  | Terminate (Err _) => ["could not install SIGTERM handler"]
  | CtrlC (Ok _) | Terminate (Ok _) => []
  end ++ ["shutdown signal received"].

Section Main.
Context `{AdbcCore} `{RustFmt} `{ArrowCrate} `{!IpcCrate} `{FileSystem} `{AdbcOptions} `{!Backend}.
Context `{Base64} `{Hmac} `{VgiRpc} `{!StructCrate} `{!WireRecords}.
Context `{!Json WireAdbcError} `{!Json BindCursor} `{!Json ResultCursor}.
Context `{!PeerAuth} `{!Toml} {W : Type} `{!TextFiles W} `{!TlsFiles W} `{!MutualTls W} `{!IrohListen W}.
Context (uuid : nat → string) (system_now : Global → nat → Z) (display_socket : SocketAddr → string).

(** ** What is served *)





(** The routes next to those of the RPC router. *)
Definition health_routes : list (string * Z) := [("/healthz", liveness); ("/readyz", readiness)].

(** ** The environment *)


(** ** Start *)








(** ** The whole process *)



(** ** What it does *)











End Main.

(** ** Example *)

Section Example.
#[local] Existing Instance simple_core.
#[local] Existing Instance simple_fmt.
#[local] Existing Instance ref_arrow.
#[local] Existing Instance ref_ipc.
#[local] Existing Instance ref_files.
#[local] Existing Instance ref_options.
#[local] Existing Instance ref_backend.
#[local] Existing Instance ref_base64.
#[local] Existing Instance ref_hmac.
#[local] Existing Instance ref_rpc.
#[local] Existing Instance ref_struct.
#[local] Existing Instance ref_records.
#[local] Existing Instance ref_json_error.
#[local] Existing Instance ref_json_bind.
#[local] Existing Instance ref_json_result.
#[local] Existing Instance ref_peers.
#[local] Existing Instance string_files.

(** A file is its name, and one of them is the example configuration. *)
#[local] Instance named_files : TextFiles (list string) := {|
  read_to_string path w := (Ok path, w ++ [path])
|}.
#[local] Instance named_config : Toml := {|
  toml_from_str contents :=
    if bool_decide (contents = "grainlift.toml") then Ok example_config else Err "missing field"
|}.
#[local] Instance no_mutual_tls : MutualTls (list string) := {|
  TcpMutualTlsConfig := unit;
  mutual_tls_new _ _ _ _ := Ok tt;
  with_handshake_timeout _ t := Ok t
|}.
#[local] Instance no_iroh : IrohListen (list string) := {|
  write_file _ _ := mret tt;
  IrohSecretKey := unit;
  iroh_secret_from_str _ := Ok tt;
  EndpointBuilder := unit;
  endpoint_builder := tt;
  builder_secret_key _ b := b;
  builder_alpns _ b := b;
  builder_disable_relays b := b;
  VGI_IROH_ALPN := [];
  IrohEndpoint := unit;
  builder_bind _ := mret tt;
  endpoint_id _ := "";
  endpoint_ip_addrs _ := [];
  endpoint_info_json _ _ := Ok []
|}.





End Example.
